(* ===== verification/_CoqProject ===== *)
-Q . S2P
Prelude.v
Containers.v
Checked.v
Result.v
Text.v
Json.v
JsonFacts.v
JsonText.v
JsonBounds.v
JsonCanonical.v
Identity.v
Lifecycle.v
Obligation.v
Evidence.v
Authority.v
Admission.v
Codec.v
CodecTables.v
Topology.v
TopologyFacts.v
RouteSearch.v
Policy.v
Decision.v
CodecFabric.v
CodecPolicy.v
Crc.v
Bytes.v
Wire.v
WireFacts.v
Protocol.v
Engine.v
Snapshot.v
Store.v
StoreFacts.v
Explain.v
EngineStep.v
EngineOps.v
EngineInv.v
Restart.v
EngineRefine.v
EngineReach.v
Scenario.v
Recovery.v
Safety.v
EngineGates.v
Removal.v
AuditFacts.v
Operations.v
Progress.v
Components.v
Transport.v
Durability.v
Queries.v
Runtime.v
RuntimeFacts.v
Boot.v
Server.v
ServerFacts.v
Client.v
Serving.v
Conversation.v
Workers.v
WorkersFacts.v
SoleWorker.v
WorkerPool.v
Drainctl.v
CommandLine.v
Daemon.v
Processes.v
Socket.v
SocketFacts.v
Demos.v
