(* ===== verification/Prelude.v ===== *)
(** * Drain Fabric: a verification library

    Drain Fabric takes parts of a fabric (ports, links, devices) out of service
    without breaking protected work.  A client asks for targets to be drained; the
    engine closes admission for a target under a new fence generation, asks the
    holders of obligations to move away, waits for evidence that they did, takes the
    resource out of service and declares the target drained; restoring reopens
    admission under a still newer generation.

    ** The program and the files that model it

    - [Prelude], [Containers]: record update, ordered keys, [std::map] as a sorted
      association list ([omap]), [std::sort] and [std::unique], shared lemmas and
      tactics.
    - [Checked] ([checked.hpp], [clock.cpp]): C++ integers as [Z] with their width,
      wrap-around written out; the checked and saturating operations.
    - [Result], [Text] ([result.*], [digest.*], [identity.cpp] slugs): errors as
      values of a sum type, decimal and hexadecimal text, the FNV-1a digest.
    - [Json], [JsonFacts], [JsonText], [JsonBounds], [JsonCanonical] ([json.*]): values,
      the strict bounded parser, the writer; that the parser inverts the writer up to
      the signedness of non-negative integers, and what it can return.
    - [Identity], [Lifecycle], [Obligation], [Evidence], [Authority], [Admission],
      [Policy], [Decision] (the sources of the same names, [drain_set.*] and
      [explain.hpp] records in [Decision]): one file per class, its state as a
      record, every method as a function from state to result and state, its
      representation invariant and what each method does.
    - [Topology], [TopologyFacts], [RouteSearch] ([topology.*]): the fabric, the
      depth-first route search with its explicit stack of cursors, the removal check.
    - [Codec], [CodecTables], [CodecFabric], [CodecPolicy]: the [to_json] and
      [from_json] of every class, the class [Codec] and its law, the round trips.
    - [Engine], [EngineStep], [EngineOps], [Queries] ([engine.*]): the state of the
      engine and the evaluators, one scheduling step per drain state, the public
      operations, what the engine can be asked.  The embedding program's sink is a
      parameter: a function of a state of its own from requests to answers.
    - [Snapshot] (snapshot and restore), [Explain] ([explain.cpp], explain and
      audit).
    - [Crc], [Bytes], [Wire], [WireFacts] ([crc32c.cpp], [wire.*]): the checksum, the
      little-endian words, the frame codec and the stream that reassembles frames
      from partial reads; the socket is a record of operations, [Delivers] and [Live]
      its contract.
    - [Socket], [SocketFacts] ([socket.*]): the wrapper of the POSIX calls, which are
      a record of functions over a kernel state; the object that owns a descriptor,
      its moves and destructor.  [SocketFacts] discharges [Delivers] and [Live] from
      what the kernel promises.
    - [Store], [StoreFacts] ([persistence.*]): the snapshot file and the calls that
      replace it, on a disk that is a map from paths to contents, under arbitrary
      failures; saving returns every state the disk goes through.
    - [Runtime], [RuntimeFacts] ([runtime.*]): the boot marker, recovery, start, tick,
      save and stop over the same disk, a fault for every call and a disk state after
      every step.
    - [Server], [ServerFacts] ([server.*]): sessions, the handler of every message, the
      polling loop, pushes to agents as the engine's sink, and the wire client.  The
      clock and the outcomes of [try_lock] are sequences.
    - [Workers] ([server.cpp], [engine.cpp], [drainfabricd.cpp]): the server in the hands
      of several threads.  A worker is a tree of atomic steps over what the threads
      share, its sessions on a heap with their mutexes; the main thread of the daemon is
      a state machine; a schedule picks who runs.  [WorkersFacts] is a small program
      logic for such trees: what a step may change, and the discipline of the mutexes.
    - [Client] ([agent.*]): the agent, over the wire client.
    - [Drainctl] ([drainctl.cpp]): arguments, every command from the start of the
      runtime to exit code and text, in a monad of exits, output and state.
    - [Daemon] ([drainfabricd.cpp], [drainagent.cpp]): the two processes.
    - [Demos] ([examples/]): the three example programs, run inside the logic.

    ** What is proved

    - [Protocol] states the drain protocol abstractly: a labelled transition system
      over drains with a phase (a drain cancelled while it was being restored is told
      from one that was not), fences with a generation and a holder, and bound
      obligations, with its invariants by rule induction.  [EngineInv],
      [EngineRefine] and [EngineReach] prove that every public operation, whatever
      it answers, takes the engine's view along a run of that system from the view
      before it to the view after it, and keeps the representation invariant and,
      from a valid first policy on, the caps of the tables the policy bounds;
      [Restart] proves it of restoring a snapshot.  A history is any list of
      operations and restarts at any times, with any sinks.
    - [Safety] (C1 to C3, C5, C6, C8) reads off what holds after any history; [EngineGates]
      (C10 to C13) what one scheduling step may do; [Operations] (C15, C16, C19, C21, C23,
      C25) what the public operations do on every branch; [Progress] (C27) that an
      undisturbed drain completes; [Removal] that the target of a completed drain stays
      out of service unless an operation puts exactly that resource back;
      [AuditFacts] (C38) that the engine's own audit is clean but for two findings
      that name their record.
    - [Recovery] (C35 to C37) restarts from a snapshot; [Durability] (C29) that saving
      is atomic; [Boot] (C14, C18) that starting again and again on one state path,
      killed anywhere, never reuses an authority line, and that what was saved comes
      back.  C18 and C29 take snapshots the loader accepts ([saveable]), which the code
      does not check when it saves, and C29 a live file that is good or absent.
    - [Serving] (C17, C26, C33, C34) the controller over the wire: a frame is one
      operation, any number of polls is a history, the handshake grants the authority
      the client reads, a call returns its own reply.  [Conversation] (C9) a drain
      carried through by an agent: its answer to an evacuation request is accepted and
      settles the obligation.
    - [WorkerPool] (C4, C20) any number of workers under any schedule: the engine still
      moves only by operations, so everything proved of reachable engines holds of one
      served by threads; the number of sessions is bounded; the workers and the main
      thread come to rest once told to stop.  [SoleWorker] (C7) that a single worker is
      the loop of [Server], step for step the same answers and state.
    - [CommandLine] (C22) that a [drainctl] command moves the engine only by public
      operations and what it leaves on the disk; [Processes] the same of the daemon,
      and what ends its loop.
    - [SocketFacts] (C24) that every descriptor is owned by one object; that
      [send_all] returns and sends exactly its argument; that a frame sent by one end
      is received by the other.  [Transport] (C39, C40) frames over any socket;
      [Components] (C28, C30 to C32) the other parts below the engine.
    - [Demos] that the example programs succeed, and that a sink which calls the engine
      back is one more history.
    - [Scenario] runs one complete drain on a small fabric, so that every theorem
      about reachable engines is applied to engines the definitions produce; the
      examples of [Serving], [Conversation], [CommandLine] and [SocketFacts] run a
      controller, an agent, an operator session and a kernel the same way.

    ** Bounds and fuel

    - The route search and the JSON parser recurse on fuel; [route_fuel] and
      [parse_fuel] are computed from the input and proved enough, so the results are
      those of the unbounded loops.  So are [receive_fuel] for a call with a finite
      wait ([receive_now_returns]: a turn per byte of the buffer and per millisecond)
      and [send_fuel] for a kernel that answers only finitely often that it would
      block ([send_now_exact]); a wait without end takes fuel as an argument, and for a
      live socket more turns than the frame has bytes are enough.
    - The loops of the agent and of the daemon take the number of turns; theorems
      about them hold for any number, and [daemon_loop_stops] gives one that is enough
      when a signal arrives ([daemon_loop_ends]: nothing else ends the daemon but its
      budget or a failing poll).  A pool of workers runs for as long as its schedule;
      [workers_come_to_rest] gives the end of every schedule after a stop, by well-founded
      induction on the programs of the workers, which are finite.
    - Counters are 64-bit.  Where the code increments one unchecked or refuses at its
      maximum, histories assume [headroom]: two more generations per target than
      there are drains, and one more revision per drain.  [op_wf] asks of an
      operation that its identifiers are 64-bit, and of a restart that the fields it
      writes are in the range the JSON format has ([engine_storable]: times not
      negative, ids well-formed slugs, tables within the sizes the loader accepts).

    ** Not modelled

    - Time: [now] is an argument of every operation, any integer; where the program
      reads the clock itself, the readings are any sequence.
    - Threads: an operation of the engine is one atomic step, as its mutex makes it, and
      sink calls happen between two of them, as in the source.  Workers are interleaved
      at these steps, at the critical sections of the registry, at the mutexes of the
      sessions, at the atomic counters and at every access to a session; where the source
      reads or writes a session without its mutex that access, and the sending or
      receiving of one frame, are taken to be indivisible, and memory is sequentially
      consistent.  In [Server], which is one thread, what another thread does to a
      session between two calls appears only as the outcome of [try_lock].
    - The kernel and the file system beyond their contracts, the texts the operating
      system adds to error messages, signals other than as a sequence of flags, the
      Windows branches of the sources.  The server's listener stays a parameter: its
      sockets share one kernel, which the record of socket operations does not.
    - The benchmark and the tests: programs that use the library. *)

From stdpp Require Export prelude strings sorting.
From Stdlib Require Export ZArith.

#[global] Open Scope Z_scope.

(** ** Scopes and record update

    The C++ classes are mutable objects.  A method that assigns a field is a
    function on records; [r <| f := v |>] is [r] with the field [f] replaced by
    [v].  Each record of the development declares one [Update] instance per
    field it ever assigns. *)

Declare Scope drain_scope.
Delimit Scope drain_scope with drain.
#[global] Open Scope drain_scope.

Class Update {R T : Type} (proj : R → T) := update : (T → T) → R → R.
Arguments update {R T} proj {_} f r /.

#[warnings="-postfix-notation-not-level-1"]
Notation "r <| f := v |>" := (update f (λ _, v) r)
  (at level 12, f at next level, v at level 200, left associativity,
   format "r  <|  f  :=  v  |>") : drain_scope.

(** [Eta] lists the projections of a record once; [solve_update] derives from it
    the update of any one field, written with projections so that reading
    another field of an updated record computes. *)
Class Eta (R : Type) := eta : R → R.
#[global] Hint Mode Eta ! : typeclass_instances.

Ltac solve_update proj :=
  let R := match type of proj with ?R → _ => R end in
  let inst := constr:(_ : Eta R) in
  let f := fresh "f" in
  let r := fresh "r" in
  intros f r;
  let e := eval hnf in (inst r) in
  let e := eval cbv beta in e in
  lazymatch eval pattern (proj r) in e with
  | ?g _ => let b := eval cbv beta in (g (f (proj r))) in exact b
  end.

(** String concatenation as the sources write it with [std::string::append]. *)
Notation "a ++s b" := (String.append a b)
  (at level 60, right associativity) : drain_scope.

(** ** Tactics *)

(** Case analysis on the scrutinee of a [match] or [if] of the goal or of a
    hypothesis, keeping the equation. *)
Ltac case_step :=
  match goal with
  | |- context [ match ?x with _ => _ end ] =>
      lazymatch x with context [ match _ with _ => _ end ] => fail | _ => idtac end;
      let E := fresh "E" in destruct x eqn:E
  | H : context [ match ?x with _ => _ end ] |- _ =>
      lazymatch x with context [ match _ with _ => _ end ] => fail | _ => idtac end;
      let E := fresh "E" in destruct x eqn:E
  end.

Ltac case_in H :=
  match type of H with
  | context [ match ?x with _ => _ end ] =>
      lazymatch x with context [ match _ with _ => _ end ] => fail | _ => idtac end;
      let E := fresh "E" in destruct x eqn:E
  end.

(** Turns boolean comparisons of the context into propositions for [lia]. *)
Ltac breflect :=
  repeat match goal with
  | H : (_ =? _) = true |- _ => apply Z.eqb_eq in H
  | H : (_ =? _) = false |- _ => apply Z.eqb_neq in H
  | H : (_ <? _) = true |- _ => apply Z.ltb_lt in H
  | H : (_ <? _) = false |- _ => apply Z.ltb_ge in H
  | H : (_ <=? _) = true |- _ => apply Z.leb_le in H
  | H : (_ <=? _) = false |- _ => apply Z.leb_gt in H
  | H : (_ && _) = true |- _ => apply andb_true_iff in H; destruct H
  | H : (_ || _) = false |- _ => apply orb_false_iff in H; destruct H
  | H : negb _ = true |- _ => apply negb_true_iff in H
  | H : negb _ = false |- _ => apply negb_false_iff in H
  | H : bool_decide _ = true |- _ => apply bool_decide_eq_true in H
  | H : bool_decide _ = false |- _ => apply bool_decide_eq_false in H
  end.

(** Splits on every integer comparison of the goal. *)
Ltac zcases :=
  repeat match goal with
  | |- context [ ?x <? ?y ] => destruct (Z.ltb_spec x y); simpl
  | |- context [ ?x <=? ?y ] => destruct (Z.leb_spec x y); simpl
  | |- context [ ?x =? ?y ] => destruct (Z.eqb_spec x y); simpl
  end.

(** The hint database of the development's own lemmas. *)
Create HintDb drain.

(** ** Strict orders as boolean comparisons

    [std::map] and [std::sort] are parameterised by a comparison; the keys of
    this program are compared by [operator<] or [target_order_less].  [Ord]
    carries the comparison and [StrictOrd] its laws. *)

Class Ord (K : Type) := ltb : K → K → bool.
#[global] Hint Mode Ord ! : typeclass_instances.
Arguments ltb {K} {_} x y : simpl never.

Class StrictOrd (K : Type) `{Ord K} : Prop := {
  ltb_irrefl (x : K) : ltb x x = false;
  ltb_trans (x y z : K) : ltb x y = true → ltb y z = true → ltb x z = true;
  ltb_total (x y : K) : ltb x y = false → ltb y x = false → x = y;
}.

(** Equivalence under the comparison, which is what [std::map] calls equality. *)
Definition eqvb `{Ord K} (x y : K) : bool := negb (ltb x y) && negb (ltb y x).

Section StrictOrdFacts.
Context `{StrictOrd K}.
Implicit Types x y z : K.

Lemma ltb_antisym x y : ltb x y = true → ltb y x = false.
Proof.
  intros Hxy. destruct (ltb y x) eqn:Hyx; [|done].
  pose proof (ltb_trans _ _ _ Hxy Hyx) as Hc. by rewrite ltb_irrefl in Hc.
Qed.

Lemma ltb_ne x y : ltb x y = true → x ≠ y.
Proof. intros Hxy ->. by rewrite ltb_irrefl in Hxy. Qed.

Lemma eqvb_true x y : eqvb x y = true ↔ x = y.
Proof.
  unfold eqvb. rewrite andb_true_iff, !negb_true_iff. split.
  - intros [??]. by apply ltb_total.
  - intros ->. by rewrite ltb_irrefl.
Qed.

Lemma eqvb_refl x : eqvb x x = true.
Proof. by apply eqvb_true. Qed.

Lemma eqvb_false x y : eqvb x y = false ↔ x ≠ y.
Proof. rewrite <-eqvb_true. by destruct (eqvb x y). Qed.

Lemma ltb_cases x y : {ltb x y = true} + {x = y} + {ltb y x = true}.
Proof.
  destruct (ltb x y) eqn:?; [by left; left|].
  destruct (ltb y x) eqn:?; [by right|]. left; right. by apply ltb_total.
Defined.
End StrictOrdFacts.

#[export] Hint Resolve ltb_irrefl ltb_antisym ltb_trans : drain.

(** *** Instances: integers, strings, lexicographic pairs *)

#[export] Instance Z_ord : Ord Z := Z.ltb.
#[export] Instance Z_strict : StrictOrd Z.
Proof.
  split; unfold ltb, Z_ord; intros.
  - apply Z.ltb_irrefl.
  - rewrite Z.ltb_lt in *. lia.
  - rewrite Z.ltb_ge in *. lia.
Qed.

(** [std::string::operator<] compares bytes as unsigned characters. *)
#[export] Instance string_ord : Ord string := String.ltb.

Lemma string_compare_refl s : String.compare s s = Eq.
Proof.
  induction s as [|a s IH]; [done|]. simpl.
  unfold Ascii.compare. by rewrite N.compare_refl.
Qed.

Lemma string_ltb_compare s1 s2 : String.ltb s1 s2 = true ↔ String.compare s1 s2 = Lt.
Proof. unfold String.ltb. by destruct (String.compare s1 s2). Qed.

#[export] Instance string_strict : StrictOrd string.
Proof.
  split; unfold ltb, string_ord.
  - intros s. unfold String.ltb. by rewrite string_compare_refl.
  - intros s1 s2 s3. rewrite !string_ltb_compare. revert s2 s3.
    induction s1 as [|a1 s1 IH]; intros [|a2 s2] [|a3 s3]; simpl; try done.
    unfold Ascii.compare.
    destruct (N.compare_spec (Ascii.N_of_ascii a1) (Ascii.N_of_ascii a2)) as [E12|L12|]; try done;
    destruct (N.compare_spec (Ascii.N_of_ascii a2) (Ascii.N_of_ascii a3)) as [E23|L23|]; try done;
      intros ??.
    + rewrite E12, E23, N.compare_refl. eauto.
    + rewrite E12. by apply N.compare_lt_iff in L23 as ->.
    + rewrite <-E23. by apply N.compare_lt_iff in L12 as ->.
    + assert (Ascii.N_of_ascii a1 < Ascii.N_of_ascii a3)%N as ->%N.compare_lt_iff by lia. done.
  - intros s1 s2. unfold String.ltb. rewrite (String.compare_antisym s2 s1).
    destruct (String.compare s1 s2) eqn:E; try done.
    intros _ _. by apply String.compare_eq_iff in E.
Qed.

(** Lexicographic comparison: the shape of a defaulted [operator<=>] and of
    the hand-written chains of [if (a.x != b.x) return a.x < b.x]. *)
Definition lex_ltb `{Ord A, Ord B} (x y : A * B) : bool :=
  ltb x.1 y.1 || (eqvb x.1 y.1 && ltb x.2 y.2).

#[export] Instance pair_ord `{Ord A, Ord B} : Ord (A * B) := lex_ltb.

Lemma pair_ltb_true `{StrictOrd A, StrictOrd B} (p q : A * B) :
  ltb p q = true ↔ ltb p.1 q.1 = true ∨ (p.1 = q.1 ∧ ltb p.2 q.2 = true).
Proof.
  change (ltb p q) with (lex_ltb p q). unfold lex_ltb.
  by rewrite orb_true_iff, andb_true_iff, eqvb_true.
Qed.

#[export] Instance pair_strict `{StrictOrd A, StrictOrd B} : StrictOrd (A * B).
Proof.
  split.
  - intros [a b]. apply not_true_iff_false. rewrite pair_ltb_true; simpl.
    rewrite !ltb_irrefl. by intros [?|[_ ?]].
  - intros [a1 b1] [a2 b2] [a3 b3]. rewrite !pair_ltb_true; simpl.
    intros [L12|[-> L12]] [L23|[-> L23]].
    + left. by eapply ltb_trans.
    + by left.
    + by left.
    + right. split; [done|]. by eapply ltb_trans.
  - intros [a1 b1] [a2 b2]. rewrite <-!not_true_iff_false, !pair_ltb_true; simpl.
    intros N1 N2. destruct (ltb_cases a1 a2) as [[L| ->]|L].
    + destruct N1; by left.
    + f_equal. apply ltb_total; apply not_true_iff_false; intros L.
      * apply N1. by right.
      * apply N2. by right.
    + destruct N2; by left.
Qed.

(** One link of a hand-written comparison chain. *)
Lemma chain_ltb `{StrictOrd A} `{EqDecision A} (a b : A) (rest : bool) :
  (if negb (bool_decide (a = b)) then ltb a b else rest) = ltb a b || (eqvb a b && rest).
Proof.
  case_bool_decide as D; simpl.
  - subst b. by rewrite ltb_irrefl, eqvb_refl.
  - assert (eqvb a b = false) as -> by by apply eqvb_false. by rewrite orb_false_r.
Qed.

(** An order pulled back along an injection. *)
Lemma strict_ord_inj {A} `{StrictOrd B} (f : A → B) `{!Inj (=) (=) f} :
  @StrictOrd A (λ x y, ltb (f x) (f y)).
Proof.
  split; unfold ltb at 1.
  - intros x. apply (ltb_irrefl (f x)).
  - intros x y z. apply (ltb_trans (f x) (f y) (f z)).
  - intros x y ??. apply (inj f). by apply ltb_total.
Qed.

(** ** Generic list facts *)

Lemma forallb_negb_existsb {A} (f : A → bool) l :
  forallb (λ x, negb (f x)) l = negb (existsb f l).
Proof. induction l as [|x l IH]; [done|]; simpl. rewrite IH. by destruct (f x). Qed.

Lemma existsb_elem {A} (f : A → bool) (l : list A) :
  existsb f l = true ↔ ∃ x, x ∈ l ∧ f x = true.
Proof. rewrite existsb_exists. by setoid_rewrite <-list_elem_of_In. Qed.

Lemma existsb_false_elem {A} (f : A → bool) (l : list A) :
  existsb f l = false ↔ ∀ x, x ∈ l → f x = false.
Proof.
  split.
  - intros Hf x Hx. destruct (f x) eqn:E; [|done].
    rewrite <-Hf. symmetry. apply existsb_elem. eauto.
  - intros Hall. destruct (existsb f l) eqn:E; [|done].
    apply existsb_elem in E as (x & Hx & E). by rewrite (Hall x Hx) in E.
Qed.

(** A property every step of a loop establishes or keeps holds after the loop. *)
Lemma foldl_inv {A B} (P : A → Prop) (f : A → B → A) (l : list B) (a : A) :
  P a → (∀ a b, b ∈ l → P a → P (f a b)) → P (foldl f a l).
Proof.
  revert a. induction l as [|b l IH]; intros a Ha Hf; [done|]. cbn [foldl].
  apply IH; [apply Hf; [by left|done]|]. intros. apply Hf; [by right|done].
Qed.

(** The length of a vector as a [std::size_t]. *)
Definition zlength {A} (l : list A) : Z := Z.of_nat (length l).
Arguments zlength {A} l : simpl never.

Lemma zlength_nonneg {A} (l : list A) : 0 ≤ zlength l.
Proof. unfold zlength. lia. Qed.
Lemma zlength_nil {A} : zlength (@nil A) = 0.
Proof. done. Qed.
Lemma zlength_cons {A} (x : A) l : zlength (x :: l) = zlength l + 1.
Proof. unfold zlength. simpl. lia. Qed.
Lemma zlength_app {A} (l k : list A) : zlength (l ++ k) = zlength l + zlength k.
Proof. unfold zlength. rewrite length_app. lia. Qed.
Lemma zlength_map {A B} (f : A → B) (l : list A) : zlength (List.map f l) = zlength l.
Proof. unfold zlength. by rewrite length_map. Qed.
Lemma zlength_zero {A} (l : list A) : zlength l = 0 ↔ l = [].
Proof. unfold zlength. destruct l; simpl; split; try done; lia. Qed.

Definition is_nil {A} (l : list A) : bool := match l with [] => true | _ => false end.
Lemma is_nil_true {A} (l : list A) : is_nil l = true ↔ l = [].
Proof. by destruct l. Qed.
Lemma is_nil_false {A} (l : list A) : is_nil l = false ↔ l ≠ [].
Proof. by destruct l. Qed.

#[export] Hint Resolve zlength_nonneg : drain.
