(* ===== verification/Containers.v ===== *)
(** * Containers

    The standard-library containers and algorithms the sources rely on:
    [std::map] as a key-sorted association list (so that iteration is in key
    order, which the program's determinism depends on), [std::sort],
    [std::unique] and [std::binary_search]. *)

From S2P Require Import Prelude.

(** ** [std::map]

    A map is the list of its key/value pairs.  [find], [operator[]],
    [insert_or_assign], [emplace] and [erase] are written against the
    comparison of the key type only, as [std::map] does. *)

Record omap (K V : Type) := OMap { om_list : list (K * V) }.
Arguments OMap {K V} _.
Arguments om_list {K V} _.

Section OMapOps.
Context {K V : Type} `{Ord K}.

Fixpoint list_find_key (k : K) (l : list (K * V)) : option V :=
  match l with
  | [] => None
  | (k', v) :: l => if eqvb k k' then Some v else list_find_key k l
  end.

Fixpoint list_put (k : K) (v : V) (l : list (K * V)) : list (K * V) :=
  match l with
  | [] => [(k, v)]
  | (k', v') :: l' =>
      if ltb k k' then (k, v) :: l
      else if ltb k' k then (k', v') :: list_put k v l'
      else (k, v) :: l'
  end.

Definition list_remove_key (k : K) (l : list (K * V)) : list (K * V) :=
  List.filter (λ p, negb (eqvb k p.1)) l.

#[global] Instance omap_empty : Empty (omap K V) := OMap [].
#[global] Instance omap_lookup : Lookup K V (omap K V) := λ k m, list_find_key k (om_list m).
#[global] Instance omap_insert : Insert K V (omap K V) := λ k v m, OMap (list_put k v (om_list m)).
#[global] Instance omap_delete : Delete K (omap K V) := λ k m, OMap (list_remove_key k (om_list m)).

(** [map::emplace]: inserts only when the key is absent and says whether it did. *)
Definition emplace (k : K) (v : V) (m : omap K V) : omap K V * bool :=
  match m !! k with
  | Some _ => (m, false)
  | None => (<[k := v]> m, true)
  end.

Definition om_size (m : omap K V) : Z := zlength (om_list m).
Definition om_keys (m : omap K V) : list K := (om_list m).*1.
Definition om_values (m : omap K V) : list V := (om_list m).*2.

(** A range-for that assigns every mapped value. *)
Definition om_map (f : V → V) (m : omap K V) : omap K V :=
  OMap ((λ p, (p.1, f p.2)) <$> om_list m).

(** The representation invariant of [std::map]: keys strictly increasing. *)
Definition om_wf (m : omap K V) : Prop :=
  StronglySorted (λ p q, ltb p.1 q.1 = true) (om_list m).
End OMapOps.

Arguments om_size {K V} m : simpl never.
Arguments omap_lookup : simpl never.
Arguments omap_insert : simpl never.
Arguments omap_delete : simpl never.
Arguments om_map : simpl never.
Arguments emplace : simpl never.

Section OMapFacts.
Context {K V : Type} `{StrictOrd K}.
Implicit Types (m : omap K V) (l : list (K * V)) (k : K) (v : V).

Lemma om_lookup_empty k : (∅ : omap K V) !! k = None.
Proof. done. Qed.

Lemma list_find_put_eq k v l : list_find_key k (list_put k v l) = Some v.
Proof.
  induction l as [|[k' v'] l IH]; simpl; [by rewrite eqvb_refl|].
  destruct (ltb k k') eqn:L1; simpl; [by rewrite eqvb_refl|].
  destruct (ltb k' k) eqn:L2; simpl; [|by rewrite eqvb_refl].
  unfold eqvb. by rewrite L1, L2.
Qed.

Lemma list_find_put_ne k k' v l :
  k ≠ k' → list_find_key k' (list_put k v l) = list_find_key k' l.
Proof.
  intros Hne. assert (eqvb k' k = false) as Hn by (apply eqvb_false; congruence).
  induction l as [|[k0 v0] l IH]; simpl; [by rewrite Hn|].
  destruct (ltb k k0) eqn:L1; simpl; [by rewrite Hn|].
  destruct (ltb k0 k) eqn:L2; simpl; [by rewrite IH|].
  assert (k = k0) as <- by by apply ltb_total. by rewrite Hn.
Qed.

Lemma om_lookup_insert_eq k v m : <[k := v]> m !! k = Some v.
Proof. apply list_find_put_eq. Qed.
Lemma om_lookup_insert_ne k k' v m : k ≠ k' → <[k := v]> m !! k' = m !! k'.
Proof. apply list_find_put_ne. Qed.

Lemma list_put_put k v v' l : list_put k v (list_put k v' l) = list_put k v l.
Proof.
  induction l as [|[k1 v1] l IH]; simpl; [by rewrite ltb_irrefl|].
  destruct (ltb k k1) eqn:E1; simpl; [by rewrite ltb_irrefl|].
  destruct (ltb k1 k) eqn:E2; simpl; [by rewrite E1, E2, IH|by rewrite ltb_irrefl].
Qed.
Lemma om_insert_insert k v v' m : <[k := v]> (<[k := v']> m) = <[k := v]> m.
Proof. unfold insert, omap_insert; simpl. by rewrite list_put_put. Qed.

Lemma om_lookup_delete_eq k m : delete k m !! k = None.
Proof.
  unfold lookup, omap_lookup, delete, omap_delete, list_remove_key; simpl.
  induction (om_list m) as [|[k' v'] l IH]; simpl; [done|].
  destruct (eqvb k k') eqn:E; simpl; [done|]. by rewrite E.
Qed.

Lemma om_lookup_delete_ne k k' m : k ≠ k' → delete k m !! k' = m !! k'.
Proof.
  intros Hne. unfold lookup, omap_lookup, delete, omap_delete, list_remove_key; simpl.
  induction (om_list m) as [|[k0 v0] l IH]; simpl; [done|].
  destruct (eqvb k k0) eqn:E; simpl.
  - apply eqvb_true in E as <-. rewrite IH.
    assert (eqvb k' k = false) as -> by (apply eqvb_false; congruence). done.
  - by rewrite IH.
Qed.

Lemma om_lookup_insert_Some k v m k' v' :
  <[k := v]> m !! k' = Some v' ↔ (k = k' ∧ v = v') ∨ (k ≠ k' ∧ m !! k' = Some v').
Proof.
  destruct (ltb_cases k k') as [[L| ->]|L].
  - pose proof (ltb_ne _ _ L). rewrite om_lookup_insert_ne by done. naive_solver.
  - rewrite om_lookup_insert_eq. naive_solver.
  - pose proof (ltb_ne _ _ L). rewrite om_lookup_insert_ne by done. naive_solver.
Qed.

Lemma om_lookup_map f m k : om_map f m !! k = f <$> m !! k.
Proof.
  unfold lookup, omap_lookup, om_map; simpl.
  induction (om_list m) as [|[k0 v0] l IH]; simpl; [done|]. by destruct (eqvb k k0).
Qed.

(** *** Membership and iteration *)

Lemma om_lookup_elem m k v : m !! k = Some v → (k, v) ∈ om_list m.
Proof.
  unfold lookup, omap_lookup. induction (om_list m) as [|[k0 v0] l IH]; simpl; [done|].
  destruct (eqvb k k0) eqn:E; [apply eqvb_true in E as ->|].
  - intros [= ->]. left.
  - right. auto.
Qed.

Lemma om_elem_lookup m k v : om_wf m → (k, v) ∈ om_list m → m !! k = Some v.
Proof.
  unfold lookup, omap_lookup, om_wf. induction 1 as [|[k0 v0] l Hs IH Hall]; simpl.
  { by intros ?%not_elem_of_nil. }
  rewrite elem_of_cons. intros [[= -> ->]|Hin]; [by rewrite eqvb_refl|].
  rewrite Forall_forall in Hall. pose proof (Hall _ Hin) as L; simpl in L.
  assert (eqvb k k0 = false) as ->; [|by auto].
  apply eqvb_false. intros ->. by rewrite ltb_irrefl in L.
Qed.

Lemma om_values_elem m v : v ∈ om_values m ↔ ∃ k, (k, v) ∈ om_list m.
Proof.
  unfold om_values. rewrite list_elem_of_fmap. split.
  - intros ([k v'] & -> & ?). by exists k.
  - intros (k & ?). by exists (k, v).
Qed.

Lemma om_lookup_values m k v : m !! k = Some v → v ∈ om_values m.
Proof. intros ?%om_lookup_elem. apply om_values_elem. eauto. Qed.

Lemma om_values_lookup m v : om_wf m → v ∈ om_values m → ∃ k, m !! k = Some v.
Proof. intros ? (k & ?)%om_values_elem. exists k. by apply om_elem_lookup. Qed.

Lemma om_keys_elem m k : k ∈ om_keys m ↔ is_Some (m !! k).
Proof.
  unfold om_keys, lookup, omap_lookup. split.
  - intros ([k' v] & -> & Hin)%list_elem_of_fmap.
    induction (om_list m) as [|[k0 v0] l IH]; [by apply not_elem_of_nil in Hin|].
    simpl. destruct (eqvb k' k0) eqn:E; [eauto|]. apply elem_of_cons in Hin as [[= -> ->]|]; [|auto].
    by rewrite eqvb_refl in E.
  - intros [v Hv]. apply list_elem_of_fmap. exists (k, v). split; [done|].
    by apply om_lookup_elem.
Qed.

(** *** The invariant is preserved *)

Lemma om_wf_empty : om_wf (∅ : omap K V).
Proof. constructor. Qed.

Lemma list_put_elem k v l p : p ∈ list_put k v l → p = (k, v) ∨ p ∈ l.
Proof.
  induction l as [|[k0 v0] l IH]; simpl; [rewrite elem_of_cons; naive_solver|].
  repeat case_step; rewrite !elem_of_cons; naive_solver.
Qed.

Lemma om_wf_insert k v m : om_wf m → om_wf (<[k := v]> m).
Proof.
  unfold om_wf, insert, omap_insert; simpl.
  induction 1 as [|[k0 v0] l Hs IH Hall]; simpl; [repeat constructor|].
  destruct (ltb k k0) eqn:L1.
  - constructor; [by constructor|]. constructor; [done|].
    eapply Forall_impl; [exact Hall|]. intros [??]; simpl. by apply ltb_trans.
  - destruct (ltb k0 k) eqn:L2.
    + constructor; [done|]. rewrite Forall_forall in *. intros p Hp.
      apply list_put_elem in Hp as [->|]; [done|auto].
    + assert (k = k0) as -> by by apply ltb_total. by constructor.
Qed.

Lemma om_wf_delete k m : om_wf m → om_wf (delete k m).
Proof.
  unfold om_wf, delete, omap_delete, list_remove_key; simpl.
  induction 1 as [|[k0 v0] l Hs IH Hall]; simpl; [constructor|].
  destruct (eqvb k k0); simpl; [done|]. constructor; [done|].
  rewrite Forall_forall in *. intros p [? _]%list_elem_of_In%filter_In.
  by apply Hall, list_elem_of_In.
Qed.

Lemma om_wf_map f m : om_wf m → om_wf (om_map f m).
Proof.
  unfold om_wf, om_map; simpl. induction 1 as [|[k0 v0] l Hs IH Hall]; simpl; constructor; [done|].
  rewrite Forall_fmap. eapply Forall_impl; [exact Hall|]. by intros [??].
Qed.

(** *** Sizes *)

Lemma om_size_empty : om_size (∅ : omap K V) = 0.
Proof. done. Qed.

Lemma om_size_nonneg m : 0 ≤ om_size m.
Proof. apply zlength_nonneg. Qed.

Lemma om_size_insert_None k v m : m !! k = None → om_size (<[k := v]> m) = om_size m + 1.
Proof.
  unfold om_size, lookup, omap_lookup, insert, omap_insert; simpl.
  induction (om_list m) as [|[k0 v0] l IH]; simpl; [done|].
  unfold eqvb. destruct (ltb k k0) eqn:L1; simpl; [by rewrite !zlength_cons|].
  destruct (ltb k0 k) eqn:L2; simpl; [|done]. intros. rewrite !zlength_cons, IH by done. done.
Qed.

Lemma om_size_insert_Some k v v' m :
  om_wf m → m !! k = Some v' → om_size (<[k := v]> m) = om_size m.
Proof.
  unfold om_wf, om_size, lookup, omap_lookup, insert, omap_insert; simpl.
  induction 1 as [|[k0 v0] l Hs IH Hall]; simpl; [done|]. unfold eqvb.
  destruct (ltb k k0) eqn:L1; simpl.
  - intros Hf. exfalso. assert ((k, v') ∈ l) as Hin by by apply (om_lookup_elem (OMap l)).
    rewrite Forall_forall in Hall. specialize (Hall _ Hin); simpl in Hall.
    by rewrite (ltb_antisym _ _ L1) in Hall.
  - destruct (ltb k0 k) eqn:L2; simpl; intros; rewrite !zlength_cons; [|done].
    by rewrite IH.
Qed.

Lemma om_size_delete_le k m : om_size (delete k m) ≤ om_size m.
Proof.
  unfold om_size, delete, omap_delete, list_remove_key; simpl.
  induction (om_list m) as [|[k0 v0] l IH]; simpl; [done|].
  destruct (eqvb k k0); simpl; rewrite ?zlength_cons; lia.
Qed.

Lemma om_size_delete_lt k m : is_Some (m !! k) → om_size (delete k m) < om_size m.
Proof.
  unfold om_size, lookup, omap_lookup, delete, omap_delete, list_remove_key; simpl. intros [v Hv].
  assert (∀ l, zlength (List.filter (λ p : K * V, negb (eqvb k p.1)) l) ≤ zlength l) as Hle.
  { induction l as [|p l IH]; simpl; [done|]. destruct (negb _); rewrite ?zlength_cons; lia. }
  induction (om_list m) as [|[k0 v0] l IH]; simpl in *; [done|].
  destruct (eqvb k k0); simpl; rewrite !zlength_cons; [specialize (Hle l); lia|]. specialize (IH Hv). lia.
Qed.

Lemma om_size_map f m : om_size (om_map f m) = om_size m.
Proof. unfold om_size, om_map, zlength; simpl. by rewrite length_fmap. Qed.

(** *** Extensionality *)

Lemma om_below_None k l :
  Forall (λ q, ltb k q.1 = true) l → list_find_key k l = None.
Proof.
  induction 1 as [|[k0 v0] l L Hall IH]; simpl in *; [done|].
  assert (eqvb k k0 = false) as -> by by apply eqvb_false, ltb_ne. done.
Qed.

Lemma om_ext m1 m2 : om_wf m1 → om_wf m2 → (∀ k, m1 !! k = m2 !! k) → m1 = m2.
Proof.
  destruct m1 as [l1], m2 as [l2]. unfold om_wf, lookup, omap_lookup; simpl.
  intros Hs1 Hs2 Heq. f_equal. revert l2 Hs2 Heq.
  induction Hs1 as [|[k1 v1] l1 Hs1 IH Hall1]; intros [|[k2 v2] l2] Hs2 Heq; [done| | |].
  - specialize (Heq k2); simpl in Heq. by rewrite eqvb_refl in Heq.
  - specialize (Heq k1); simpl in Heq. by rewrite eqvb_refl in Heq.
  - apply StronglySorted_inv in Hs2 as [Hs2 Hall2].
    pose proof (om_below_None k1 _ Hall1) as N1. pose proof (om_below_None k2 _ Hall2) as N2.
    assert (k1 = k2) as ->.
    { destruct (ltb_cases k1 k2) as [[L|]|L]; [|done|].
      - exfalso. pose proof (Heq k1) as Hk; simpl in Hk. rewrite eqvb_refl in Hk.
        assert (eqvb k1 k2 = false) as E by by apply eqvb_false, ltb_ne. rewrite E in Hk.
        rewrite om_below_None in Hk; [done|]. eapply Forall_impl; [exact Hall2|].
        intros [??]; simpl. by apply ltb_trans.
      - exfalso. pose proof (Heq k2) as Hk; simpl in Hk. rewrite eqvb_refl in Hk.
        assert (eqvb k2 k1 = false) as E by by apply eqvb_false, ltb_ne. rewrite E in Hk.
        rewrite om_below_None in Hk; [done|]. eapply Forall_impl; [exact Hall1|].
        intros [??]; simpl. by apply ltb_trans. }
    pose proof (Heq k2) as Hk; simpl in Hk. rewrite eqvb_refl in Hk. injection Hk as <-.
    f_equal. apply IH; [done|]. intros k. specialize (Heq k); simpl in Heq.
    destruct (eqvb k k2) eqn:E; [|done]. apply eqvb_true in E as ->.
    by rewrite N1, N2.
Qed.

(** Counting the entries that satisfy a test, one key apart from the rest. *)
Definition om_count (f : K * V → bool) m : Z := zlength (List.filter f (om_list m)).
Definition except (k : K) (f : K * V → bool) : K * V → bool := λ p, if eqvb p.1 k then false else f p.

Lemma count_except_below k f l :
  (∀ p, p ∈ l → ltb k p.1 = true) → List.filter (except k f) l = List.filter f l.
Proof.
  induction l as [|p l IH]; intros Hb; simpl; [done|]. unfold except at 1.
  assert (eqvb p.1 k = false) as ->.
  { apply eqvb_false. intros E. pose proof (Hb p ltac:(by left)) as L. by rewrite E, ltb_irrefl in L. }
  rewrite IH; [done|]. intros. apply Hb. by right.
Qed.

Lemma om_count_split k f m :
  om_wf m →
  om_count f m = om_count (except k f) m + match m !! k with Some v => Z.b2z (f (k, v)) | None => 0 end.
Proof.
  unfold om_count, om_wf, lookup, omap_lookup. induction (om_list m) as [|[k1 v1] l IH]; intros Hs; [done|].
  apply StronglySorted_inv in Hs as [Hs Hb]. simpl. unfold except at 1; simpl.
  destruct (eqvb k1 k) eqn:E.
  - apply eqvb_true in E as ->. rewrite eqvb_refl.
    rewrite count_except_below by by apply Forall_forall.
    destruct (f (k, v1)); rewrite ?zlength_cons; simpl; lia.
  - assert (eqvb k k1 = false) as -> by (apply eqvb_false; apply eqvb_false in E; congruence).
    destruct (f (k1, v1)); rewrite ?zlength_cons, IH by done; lia.
Qed.

Lemma om_count_except_insert k f v m :
  om_wf m → om_count (except k f) (<[k := v]> m) = om_count (except k f) m.
Proof.
  unfold om_count, om_wf, insert, omap_insert; simpl.
  assert (∀ w l, List.filter (except k f) ((k, w) :: l) = List.filter (except k f) l) as Hk.
  { intros w l. simpl. unfold except at 1; simpl. by rewrite eqvb_refl. }
  induction (om_list m) as [|[k1 v1] l IH]; intros Hs; [by cbn [list_put]; rewrite Hk|].
  apply StronglySorted_inv in Hs as [Hs Hb]. cbn [list_put].
  destruct (ltb k k1) eqn:E1; [by rewrite Hk|]. destruct (ltb k1 k) eqn:E2.
  - simpl. destruct (except k f (k1, v1)); rewrite ?zlength_cons, IH by done; done.
  - assert (k1 = k) as -> by by apply ltb_total. by rewrite !Hk.
Qed.

Lemma om_count_map f (g : V → V) m : (∀ p, f (p.1, g p.2) = f p) → om_count f (om_map g m) = om_count f m.
Proof.
  intros Hf. unfold om_count, om_map, zlength. simpl. f_equal.
  induction (om_list m) as [|p l IH]; [done|]. rewrite fmap_cons. cbn [List.filter]. rewrite Hf.
  destruct (f p); cbn [length]; [by f_equal|done].
Qed.

Lemma om_count_nonneg f m : 0 ≤ om_count f m.
Proof. apply zlength_nonneg. Qed.

Lemma emplace_true k v m m' : emplace k v m = (m', true) ↔ m !! k = None ∧ m' = <[k := v]> m.
Proof. unfold emplace. destruct (m !! k); naive_solver. Qed.
End OMapFacts.

#[export] Hint Resolve om_wf_empty om_wf_insert om_wf_delete om_wf_map : drain.
#[export] Hint Rewrite @om_lookup_insert_eq @om_lookup_delete_eq @om_lookup_map
  @om_lookup_empty using typeclasses eauto : drain.

(** Decides which of the two cases a lookup after an update is in. *)
Ltac om_cases H :=
  apply om_lookup_insert_Some in H as [[? ?]|[? H]]; [subst|].

(** ** [std::sort] and [std::unique]

    [std::sort] is modelled by insertion sort, which is what the library's
    introsort runs on short ranges; where the comparison identifies only equal
    elements (drain targets, resource ids) the sorted permutation is unique
    and the choice of algorithm is not observable ([sort_unique]). *)

Section Sorting.
Context {A : Type} (lt : A → A → bool).

Fixpoint insert_sorted (x : A) (l : list A) : list A :=
  match l with
  | [] => [x]
  | y :: l' => if lt x y then x :: l else y :: insert_sorted x l'
  end.

(** Inserting from the right end keeps equivalent elements in their order. *)
Definition sort_by (l : list A) : list A := foldl (λ acc x, insert_sorted x acc) [] l.

(** [v.erase(std::unique(v.begin(), v.end()), v.end())]: an element equal to
    the last one kept is dropped. *)
Fixpoint unique_from (eqb : A → A → bool) (prev : A) (l : list A) : list A :=
  match l with
  | [] => []
  | x :: l' => if eqb prev x then unique_from eqb prev l' else x :: unique_from eqb x l'
  end.

Definition unique_by (eqb : A → A → bool) (l : list A) : list A :=
  match l with
  | [] => []
  | x :: l' => x :: unique_from eqb x l'
  end.

Lemma insert_sorted_perm x l : insert_sorted x l ≡ₚ x :: l.
Proof.
  induction l as [|y l IH]; simpl; [done|].
  destruct (lt x y); [done|]. rewrite IH. constructor.
Qed.

Lemma sort_by_acc_perm l acc : foldl (λ acc x, insert_sorted x acc) acc l ≡ₚ l ++ acc.
Proof.
  revert acc. induction l as [|x l IH]; intros acc; simpl; [done|].
  rewrite IH, insert_sorted_perm. by rewrite Permutation_middle.
Qed.

Lemma sort_by_perm l : sort_by l ≡ₚ l.
Proof. unfold sort_by. by rewrite sort_by_acc_perm, app_nil_r. Qed.

Lemma sort_by_nil l : sort_by l = [] ↔ l = [].
Proof.
  split; [|by intros ->]. intros E. pose proof (sort_by_perm l) as P.
  rewrite E in P. by apply Permutation_nil_l in P.
Qed.
End Sorting.

Lemma unique_from_ext {A} (f g : A → A → bool) x l :
  (∀ a b, f a b = g a b) → unique_from f x l = unique_from g x l.
Proof. intros E. revert x. induction l as [|y l IH]; intros x; simpl; [done|]. by rewrite E, !IH. Qed.

Lemma unique_by_ext {A} (f g : A → A → bool) l :
  (∀ a b, f a b = g a b) → unique_by f l = unique_by g l.
Proof. intros E. destruct l; simpl; [done|]. by rewrite (unique_from_ext f g). Qed.

Section SortFacts.
Context `{StrictOrd A}.
Implicit Types (l : list A) (x y : A).

(** Weakly and strictly increasing ranges. *)
Definition weakly_sorted l : Prop := StronglySorted (λ x y, ltb y x = false) l.
Definition strictly_sorted l : Prop := StronglySorted (λ x y, ltb x y = true) l.

Lemma nltb_trans x y z : ltb y x = false → ltb z y = false → ltb z x = false.
Proof.
  intros Hyx Hzy. destruct (ltb z x) eqn:L; [|done].
  destruct (ltb_cases x y) as [[L'| ->]|L']; [|congruence|congruence].
  pose proof (ltb_trans _ _ _ L L'). congruence.
Qed.

Lemma insert_sorted_weakly x l : weakly_sorted l → weakly_sorted (insert_sorted ltb x l).
Proof.
  induction 1 as [|y l Hs IH Hall]; simpl; [repeat constructor|].
  destruct (ltb x y) eqn:L.
  - constructor; [by constructor|]. constructor; [by apply ltb_antisym|].
    eapply Forall_impl; [exact Hall|]. intros z Hz. eapply nltb_trans; [|exact Hz]. by apply ltb_antisym.
  - constructor; [done|]. by rewrite insert_sorted_perm, Forall_cons.
Qed.

Lemma sort_by_weakly l : weakly_sorted (sort_by ltb l).
Proof.
  unfold sort_by. assert (weakly_sorted []) as Hs by constructor. revert Hs. generalize (@nil A) as acc.
  induction l as [|x l IH]; intros acc Hs; simpl; [done|]. by apply IH, insert_sorted_weakly.
Qed.

Lemma unique_from_spec x l :
  weakly_sorted (x :: l) →
  strictly_sorted (x :: unique_from eqvb x l) ∧
  (∀ y, y ∈ x :: unique_from eqvb x l ↔ y ∈ x :: l).
Proof.
  revert x. induction l as [|z l IH]; intros x Hs; simpl.
  { split; [repeat constructor|done]. }
  apply StronglySorted_inv in Hs as [Hs Hall].
  destruct (eqvb x z) eqn:E.
  - apply eqvb_true in E as <-. destruct (IH x) as [Hst Hel]; [done|].
    split; [done|]. intros y. rewrite Hel, !elem_of_cons. naive_solver.
  - destruct (IH z Hs) as [Hst Hel]. split.
    + constructor; [done|]. apply Forall_cons in Hall as [Hxz Hall]. rewrite Forall_forall. intros y Hy.
      assert (y ∈ z :: l) as Hy' by by apply Hel.
      assert (ltb x z = true) as Lxz.
      { destruct (ltb_cases x z) as [[|]|]; [done|subst; by rewrite eqvb_refl in E|congruence]. }
      apply elem_of_cons in Hy as [->|Hy]; [done|].
      apply StronglySorted_inv in Hst as [_ Hz]. rewrite Forall_forall in Hz.
      eapply ltb_trans; [exact Lxz|by apply Hz].
    + intros y. rewrite (elem_of_cons (z :: _)), Hel, !elem_of_cons. naive_solver.
Qed.

(** The sort/unique idiom of the sources. *)
Definition sort_unique l : list A := unique_by eqvb (sort_by ltb l).

Lemma sort_unique_spec l :
  strictly_sorted (sort_unique l) ∧ ∀ x, x ∈ sort_unique l ↔ x ∈ l.
Proof.
  unfold sort_unique. pose proof (sort_by_weakly l) as Hs. pose proof (sort_by_perm ltb l) as P.
  destruct (sort_by ltb l) as [|x k]; simpl.
  - apply Permutation_nil in P. subst l. split; [constructor|done].
  - destruct (unique_from_spec x k Hs) as [? Hel]. split; [done|]. intros y. rewrite Hel. by rewrite P.
Qed.

Lemma strictly_sorted_unique l1 l2 :
  strictly_sorted l1 → strictly_sorted l2 → (∀ x, x ∈ l1 ↔ x ∈ l2) → l1 = l2.
Proof.
  intros Hs1. revert l2. induction Hs1 as [|x1 l1 Hs1 IH Hall1]; intros l2 Hs2 Hel.
  - destruct l2 as [|x2 l2]; [done|]. specialize (Hel x2). rewrite elem_of_cons in Hel.
    destruct Hel as [_ Hel]. by apply not_elem_of_nil in Hel; [|left].
  - destruct l2 as [|x2 l2].
    { specialize (Hel x1). rewrite elem_of_cons in Hel. destruct Hel as [Hel _].
      by apply not_elem_of_nil in Hel; [|left]. }
    apply StronglySorted_inv in Hs2 as [Hs2 Hall2]. rewrite Forall_forall in Hall1, Hall2.
    assert (x1 = x2) as ->.
    { pose proof (proj1 (Hel x1)) as H1. pose proof (proj2 (Hel x2)) as H2.
      rewrite !elem_of_cons in H1, H2.
      destruct H1 as [|H1]; [by left|done|]. destruct H2 as [|H2]; [by left|done|].
      specialize (Hall1 _ H2). specialize (Hall2 _ H1).
      by rewrite (ltb_antisym _ _ Hall1) in Hall2. }
    f_equal. apply IH; [done|]. intros y. split; intros Hy.
    + pose proof (proj1 (Hel y)) as Hy'. rewrite !elem_of_cons in Hy'.
      destruct Hy' as [->|]; [by right| |done]. specialize (Hall1 _ Hy). by rewrite ltb_irrefl in Hall1.
    + pose proof (proj2 (Hel y)) as Hy'. rewrite !elem_of_cons in Hy'.
      destruct Hy' as [->|]; [by right| |done]. specialize (Hall2 _ Hy). by rewrite ltb_irrefl in Hall2.
Qed.

(** The result depends only on the set of elements, never on their order. *)
Lemma sort_unique_perm l1 l2 : l1 ≡ₚ l2 → sort_unique l1 = sort_unique l2.
Proof.
  intros P. destruct (sort_unique_spec l1) as [? E1], (sort_unique_spec l2) as [? E2].
  apply strictly_sorted_unique; [done..|]. intros x. by rewrite E1, E2, P.
Qed.

Lemma sort_unique_sorted_id l : strictly_sorted l → sort_unique l = l.
Proof.
  intros. destruct (sort_unique_spec l) as [? E]. by apply strictly_sorted_unique.
Qed.

Lemma strictly_sorted_NoDup l : strictly_sorted l → NoDup l.
Proof.
  induction 1 as [|x l Hs IH Hall]; constructor; [|done].
  rewrite Forall_forall in Hall. intros Hx. specialize (Hall _ Hx). by rewrite ltb_irrefl in Hall.
Qed.
End SortFacts.

(** ** [std::binary_search] *)

Section BinarySearch.
Context `{Ord A}.

(** [std::lower_bound] on the half-open range of [len] elements from [first]. *)
Fixpoint lower_bound_loop (fuel : nat) (l : list A) (x : A) (first len : nat) : nat :=
  match fuel with
  | O => first
  | S fuel =>
      if decide (len = 0%nat) then first
      else
        let half := Nat.div2 len in
        let mid := (first + half)%nat in
        match l !! mid with
        | Some y =>
            if ltb y x then lower_bound_loop fuel l x (mid + 1) (len - (half + 1))
            else lower_bound_loop fuel l x first half
        | None => first
        end
  end.

Definition lower_bound (l : list A) (x : A) : nat :=
  lower_bound_loop (length l) l x 0 (length l).

Definition binary_search (l : list A) (x : A) : bool :=
  match l !! lower_bound l x with
  | Some y => negb (ltb x y)
  | None => false
  end.
End BinarySearch.

Section BinarySearchFacts.
Context `{StrictOrd A}.
Implicit Types (l : list A) (x y : A) (i j : nat).

Lemma strictly_sorted_lookup l i j x y :
  strictly_sorted l → l !! i = Some x → l !! j = Some y → (i < j)%nat → ltb x y = true.
Proof.
  intros Hs. revert i j. induction Hs as [|z l Hs IH Hall]; intros i j Hi Hj Hlt; [done|].
  rewrite Forall_forall in Hall. destruct i as [|i], j as [|j]; simpl in *; [lia| |lia|].
  - injection Hi as <-. apply Hall. by eapply list_elem_of_lookup_2.
  - eapply IH; eauto. lia.
Qed.

(** Everything before the result is smaller than [x] and nothing from it on is. *)
Lemma lower_bound_loop_spec l x fuel first len :
  strictly_sorted l → (len ≤ fuel)%nat → (first + len ≤ length l)%nat →
  (∀ i y, l !! i = Some y → (i < first)%nat → ltb y x = true) →
  (∀ i y, l !! i = Some y → (first + len ≤ i)%nat → ltb y x = false) →
  ∀ i y, l !! i = Some y → ltb y x = true ↔ (i < lower_bound_loop fuel l x first len)%nat.
Proof.
  intros Hs. revert first len. induction fuel as [|fuel IH]; intros first len Hf Hlen Hlo Hhi i y Hi;
    cbn [lower_bound_loop].
  { assert (len = 0%nat) as -> by lia. split; [|by eauto]. intros L.
    destruct (decide (i < first)%nat); [done|]. rewrite (Hhi i y) in L; [done|done|lia]. }
  destruct (decide (len = 0%nat)) as [->|Hne].
  { split; [|by eauto]. intros L. destruct (decide (i < first)%nat); [done|].
    rewrite (Hhi i y) in L; [done|done|lia]. }
  pose proof (Nat.lt_div2 len ltac:(lia)) as Hd. cbv zeta. set (half := Nat.div2 len) in *.
  destruct (l !! (first + half)%nat) as [z|] eqn:Hz; [|apply lookup_ge_None in Hz; lia].
  destruct (ltb z x) eqn:L.
  - apply IH; [lia|lia| | |done].
    + intros j w Hj Hlt. destruct (decide (j = first + half)%nat) as [->|]; [congruence|].
      eapply ltb_trans; [|exact L]. eapply strictly_sorted_lookup; [done|exact Hj|exact Hz|lia].
    + intros j w Hj Hge. apply (Hhi j w Hj). lia.
  - apply IH; [lia|lia|done| |done]. intros j w Hj Hge.
    destruct (decide (j = first + half)%nat) as [->|]; [congruence|].
    destruct (ltb w x) eqn:Lw; [|done]. rewrite <-L. symmetry. eapply ltb_trans; [|exact Lw].
    eapply strictly_sorted_lookup; [done|exact Hz|exact Hj|lia].
Qed.

Lemma binary_search_elem l x : strictly_sorted l → binary_search l x = true ↔ x ∈ l.
Proof.
  intros Hs. pose proof (lower_bound_loop_spec l x (length l) 0 (length l) Hs
    ltac:(lia) ltac:(lia) ltac:(lia)) as Hlb.
  assert (∀ i y, l !! i = Some y → ltb y x = true ↔ (i < lower_bound l x)%nat) as Hlb'.
  { apply Hlb. intros i y Hi%lookup_lt_Some. lia. }
  clear Hlb. unfold binary_search. split.
  - destruct (l !! lower_bound l x) as [y|] eqn:E; [|done]. intros ?%negb_true_iff.
    assert (ltb y x = false). { destruct (ltb y x) eqn:L; [|done]. apply (Hlb' _ _ E) in L. lia. }
    assert (x = y) as -> by by apply ltb_total. by eapply list_elem_of_lookup_2.
  - intros (i & Hi)%list_elem_of_lookup.
    assert (¬ (i < lower_bound l x)%nat) as Hge.
    { intros Hlt. apply (Hlb' _ _ Hi) in Hlt. by rewrite ltb_irrefl in Hlt. }
    destruct (l !! lower_bound l x) as [y|] eqn:E.
    + apply negb_true_iff. destruct (ltb x y) eqn:L; [|done].
      destruct (decide (i = lower_bound l x)) as [->|]; [rewrite E in Hi; simplify_eq; by rewrite ltb_irrefl in L|].
      assert (ltb y x = true) as L'. { eapply strictly_sorted_lookup; [done|exact E|exact Hi|lia]. }
      by rewrite (ltb_antisym _ _ L) in L'.
    + apply lookup_ge_None in E. apply lookup_lt_Some in Hi. lia.
Qed.
End BinarySearchFacts.

(** Map operations are rewritten with their lemmas, never computed by [simpl]. *)
#[global] Arguments lookup : simpl never.
#[global] Arguments insert : simpl never.
#[global] Arguments delete : simpl never.
