(* ===== verification/Checked.v ===== *)
(** * Checked machine arithmetic

    [include/drain/checked.hpp] and the saturating clock addition of
    [src/clock.cpp].  A machine integer is a [Z] together with the integral
    type it lives in; conversions and unsigned operations wrap around
    explicitly, as [static_cast] does. *)

From S2P Require Import Prelude.

(** ** Integral types *)

Record int_type := IntType { it_signed : bool; it_bits : Z }.

Definition u8 := IntType false 8.
Definition u16 := IntType false 16.
Definition u32 := IntType false 32.
Definition u64 := IntType false 64.
Definition i32 := IntType true 32.
Definition i64 := IntType true 64.
(** [std::size_t] on the supported 64-bit targets. *)
Definition size_t := u64.

Definition it_wf (T : int_type) : Prop := 8 ≤ it_bits T.

(** [std::numeric_limits<T>::min()] and [max()]. *)
Definition int_min (T : int_type) : Z := if it_signed T then - 2 ^ (it_bits T - 1) else 0.
Definition int_max (T : int_type) : Z :=
  if it_signed T then 2 ^ (it_bits T - 1) - 1 else 2 ^ it_bits T - 1.

Definition in_range (T : int_type) (v : Z) : Prop := int_min T ≤ v ≤ int_max T.
#[export] Instance in_range_dec T v : Decision (in_range T v).
Proof. unfold in_range. apply _. Defined.

(** [std::make_unsigned_t<T>]. *)
Definition make_unsigned (T : int_type) : int_type := IntType false (it_bits T).

(** [static_cast<T>(v)]: reduction modulo the width, read back as signed. *)
Definition wrap (T : int_type) (v : Z) : Z :=
  let m := v mod 2 ^ it_bits T in
  if it_signed T && (2 ^ (it_bits T - 1) <=? m) then m - 2 ^ it_bits T else m.

(** Integral promotion and [std::common_type_t]. *)
Definition promote (T : int_type) : int_type := if it_bits T <? 32 then i32 else T.
Definition common_type (A B : int_type) : int_type :=
  let A := promote A in
  let B := promote B in
  if eqb (it_signed A) (it_signed B) then IntType (it_signed A) (Z.max (it_bits A) (it_bits B))
  else
    let u := if it_signed A then B else A in
    let s := if it_signed A then A else B in
    if it_bits s <=? it_bits u then u else s.

(** ** The helpers *)

Definition narrow_checked (To From : int_type) (value : Z) : option Z :=
  if it_signed From && negb (it_signed To) && (value <? 0) then None
  else
    let CommonFrom := common_type From To in
    let widened := wrap CommonFrom value in
    if wrap CommonFrom (int_max To) <? widened then None
    else if it_signed To && (widened <? wrap CommonFrom (int_min To)) then None
    else Some (wrap To value).

Definition add_checked (T : int_type) (a b : Z) : option Z :=
  let U := make_unsigned T in
  if negb (it_signed T) then
    let ua := wrap U a in
    let ub := wrap U b in
    if wrap U (int_max U - ub) <? ua then None else Some (wrap T (wrap U (ua + ub)))
  else if (0 <? b) && (wrap T (int_max T - b) <? a) then None
  else if (b <? 0) && (a <? wrap T (int_min T - b)) then None
  else Some (wrap T (wrap U a + wrap U b)).

Definition sub_checked (T : int_type) (a b : Z) : option Z :=
  let U := make_unsigned T in
  if negb (it_signed T) && (wrap U a <? wrap U b) then None
  else if it_signed T && (0 <? b) && (a <? wrap T (int_min T + b)) then None
  else if it_signed T && (b <? 0) && (wrap T (int_max T + b) <? a) then None
  else Some (wrap T (wrap U a - wrap U b)).

Definition mul_checked (T : int_type) (a b : Z) : option Z :=
  let U := make_unsigned T in
  let ua := if a <? 0 then wrap U (0 - wrap U a) else wrap U a in
  let ub := if b <? 0 then wrap U (0 - wrap U b) else wrap U b in
  let limit := int_max U in
  if negb (ua =? 0) && (wrap U (limit / ua) <? ub) then None
  else
    let product := wrap U (ua * ub) in
    if negb (it_signed T) then Some (wrap T product)
    else
      let negative := negb (eqb (a <? 0) (b <? 0)) in
      let positive_limit := wrap U (int_max T) in
      if negative then
        if wrap U (positive_limit + 1) <? product then None
        else Some (wrap T (wrap U (0 - product)))
      else if positive_limit <? product then None
      else Some (wrap T product).

Definition increment_checked (T : int_type) (value : Z) : option Z := add_checked T value 1.

Definition scale_ratio_checked (T : int_type) (value numerator denominator : Z) : option Z :=
  if denominator =? 0 then None
  else
    match mul_checked T value numerator with
    | None => None
    | Some product => Some (wrap T (product / denominator))
    end.

(** [drain::saturating_add] on nanosecond counts. *)
Definition saturating_add (base delta : Z) : Z :=
  let kMax := int_max i64 in
  let kMin := int_min i64 in
  if (0 <? delta) && (kMax - delta <? base) then kMax
  else if (delta <? 0) && (base <? kMin - delta) then kMin
  else base + delta.

(** ** Facts *)

Section Wrap.
Context (T : int_type) (HT : it_wf T).

Lemma pow_half : 2 ^ it_bits T = 2 * 2 ^ (it_bits T - 1).
Proof. red in HT. rewrite <-Z.pow_succ_r by lia. f_equal. lia. Qed.

Lemma pow_half_pos : 0 < 2 ^ (it_bits T - 1).
Proof. apply Z.pow_pos_nonneg; [lia|]. red in HT. lia. Qed.

Lemma wrap_id v : in_range T v → wrap T v = v.
Proof.
  unfold in_range, wrap, int_min, int_max. pose proof pow_half. pose proof pow_half_pos.
  destruct (it_signed T); simpl; intros.
  - destruct (decide (0 ≤ v)).
    + rewrite Z.mod_small by lia. destruct (Z.leb_spec (2 ^ (it_bits T - 1)) v); lia.
    + assert (v mod 2 ^ it_bits T = v + 2 ^ it_bits T) as ->.
      { symmetry. apply Z.mod_unique with (-1); lia. }
      destruct (Z.leb_spec (2 ^ (it_bits T - 1)) (v + 2 ^ it_bits T)); lia.
  - rewrite Z.mod_small; lia.
Qed.

Lemma wrap_range v : in_range T (wrap T v).
Proof.
  unfold in_range, wrap, int_min, int_max. pose proof pow_half. pose proof pow_half_pos.
  pose proof (Z.mod_pos_bound v (2 ^ it_bits T) ltac:(lia)).
  destruct (it_signed T); simpl; [|lia].
  destruct (Z.leb_spec (2 ^ (it_bits T - 1)) (v mod 2 ^ it_bits T)); lia.
Qed.

(** Wrapping only depends on the residue. *)
Lemma wrap_mod v w : v mod 2 ^ it_bits T = w mod 2 ^ it_bits T → wrap T v = wrap T w.
Proof. unfold wrap. by intros ->. Qed.

Lemma wrap_unsigned_mod v : wrap (make_unsigned T) v mod 2 ^ it_bits T = v mod 2 ^ it_bits T.
Proof. unfold wrap, make_unsigned; simpl. by rewrite Z.mod_mod by (pose proof pow_half; pose proof pow_half_pos; lia). Qed.
End Wrap.

Lemma make_unsigned_wf T : it_wf T → it_wf (make_unsigned T).
Proof. done. Qed.

Lemma in_range_spec T v :
  in_range T v ↔ if it_signed T then - 2 ^ (it_bits T - 1) ≤ v < 2 ^ (it_bits T - 1)
                 else 0 ≤ v < 2 ^ it_bits T.
Proof. unfold in_range, int_min, int_max. destruct (it_signed T); lia. Qed.

(** Unfolds a machine type to linear facts about one power of two. *)
Ltac int_facts T HT :=
  pose proof (pow_half T HT); pose proof (pow_half_pos T HT).

Lemma wrap_signed T v :
  it_wf T → it_signed T = true → - 2 ^ (it_bits T - 1) ≤ v < 2 ^ (it_bits T - 1) → wrap T v = v.
Proof. intros HT S Hv. apply wrap_id; [done|]. apply in_range_spec. by rewrite S. Qed.

Lemma wrap_unsigned T v : it_wf T → 0 ≤ v < 2 ^ it_bits T → wrap (make_unsigned T) v = v.
Proof. intros HT Hv. apply wrap_id; [done|]. by apply in_range_spec. Qed.

(** Casting to unsigned, operating and casting back is the exact operation
    modulo the width. *)
Lemma wrap_add_unsigned T a b :
  it_wf T → wrap T (wrap (make_unsigned T) a + wrap (make_unsigned T) b) = wrap T (a + b).
Proof.
  intros HT. int_facts T HT. apply wrap_mod.
  rewrite Z.add_mod, !wrap_unsigned_mod, <-Z.add_mod by (done || lia). done.
Qed.

Lemma wrap_sub_unsigned T a b :
  it_wf T → wrap T (wrap (make_unsigned T) a - wrap (make_unsigned T) b) = wrap T (a - b).
Proof.
  intros HT. apply wrap_mod. rewrite Zminus_mod, !wrap_unsigned_mod, <-Zminus_mod by done. done.
Qed.

Lemma wrap_neg_unsigned T a :
  it_wf T → wrap T (wrap (make_unsigned T) (0 - a)) = wrap T (- a).
Proof. intros HT. apply wrap_mod. rewrite wrap_unsigned_mod by done. by f_equal. Qed.

(** Splits on the comparisons of the goal and on representability of the
    exact result, once the type's signedness is known. *)
Ltac exact_cases S :=
  let D := fresh "D" in
  case_decide as D; rewrite in_range_spec, S in D; zcases;
  rewrite ?wrap_signed by (done || lia); first [done | lia | f_equal; lia].

(** [add_checked] returns the exact sum when it is representable, and nothing
    otherwise. *)
Lemma add_checked_exact T a b :
  it_wf T → in_range T a → in_range T b →
  add_checked T a b = if decide (in_range T (a + b)) then Some (a + b) else None.
Proof.
  intros HT Ha Hb. int_facts T HT. unfold add_checked. rewrite wrap_add_unsigned by done.
  rewrite in_range_spec in Ha, Hb. destruct (it_signed T) eqn:S; simpl.
  - unfold int_min, int_max. rewrite S.
    destruct (Z.ltb_spec 0 b), (Z.ltb_spec b 0); simpl; try lia;
      try rewrite (wrap_signed T (_ - b)) by (done || lia); exact_cases S.
  - rewrite (wrap_unsigned T a), (wrap_unsigned T b) by (done || lia).
    change (int_max (make_unsigned T)) with (2 ^ it_bits T - 1).
    rewrite (wrap_unsigned T (_ - b)) by (done || lia).
    case_decide as D; rewrite in_range_spec, S in D; zcases; try (done || lia).
    rewrite (wrap_unsigned T) by (done || lia). rewrite wrap_id; [done|done|].
    rewrite in_range_spec, S. lia.
Qed.

Lemma sub_checked_exact T a b :
  it_wf T → in_range T a → in_range T b →
  sub_checked T a b = if decide (in_range T (a - b)) then Some (a - b) else None.
Proof.
  intros HT Ha Hb. int_facts T HT. unfold sub_checked. rewrite wrap_sub_unsigned by done.
  rewrite in_range_spec in Ha, Hb. destruct (it_signed T) eqn:S; simpl.
  - unfold int_min, int_max. rewrite S.
    destruct (Z.ltb_spec 0 b), (Z.ltb_spec b 0); simpl; try lia;
      try rewrite (wrap_signed T (_ + b)) by (done || lia); exact_cases S.
  - rewrite !wrap_unsigned by (done || lia).
    case_decide as D; rewrite in_range_spec, S in D; zcases; try (done || lia).
    rewrite wrap_id; [done|done|]. rewrite in_range_spec, S. lia.
Qed.

(** The magnitude computation of [mul_checked] is the absolute value. *)
Lemma magnitude_abs T a :
  it_wf T → in_range T a →
  (if a <? 0 then wrap (make_unsigned T) (0 - wrap (make_unsigned T) a)
   else wrap (make_unsigned T) a) = Z.abs a.
Proof.
  intros HT Ha. int_facts T HT. rewrite in_range_spec in Ha. destruct (Z.ltb_spec a 0).
  - destruct (it_signed T); [|lia].
    transitivity (wrap (make_unsigned T) (- a)); [|rewrite wrap_unsigned by (done || lia); lia].
    apply wrap_mod; simpl. rewrite Zminus_mod, wrap_unsigned_mod, <-Zminus_mod by done. by f_equal.
  - rewrite wrap_unsigned; [lia|done|]. destruct (it_signed T); lia.
Qed.

(** The division guard detects exactly the products that leave the width. *)
Lemma product_guard m x y :
  0 < m → 0 ≤ x < m → 0 ≤ y < m →
  negb (x =? 0) && ((m - 1) / x <? y) = negb (x * y <? m).
Proof.
  intros Hm Hx Hy. destruct (Z.eqb_spec x 0) as [->|Hne]; simpl.
  { by destruct (Z.ltb_spec (0 * y) m); [|lia]. }
  pose proof (Z.mul_div_le (m - 1) x ltac:(lia)).
  pose proof (Z.mul_succ_div_gt (m - 1) x ltac:(lia)).
  destruct (Z.ltb_spec ((m - 1) / x) y), (Z.ltb_spec (x * y) m); simpl; done || nia.
Qed.

Lemma mul_checked_exact T a b :
  it_wf T → in_range T a → in_range T b →
  mul_checked T a b = if decide (in_range T (a * b)) then Some (a * b) else None.
Proof.
  intros HT Ha Hb. int_facts T HT. unfold mul_checked. rewrite !magnitude_abs by done.
  rewrite in_range_spec in Ha, Hb.
  assert (Z.abs a < 2 ^ it_bits T ∧ Z.abs b < 2 ^ it_bits T) as [Haa Hbb] by (destruct (it_signed T); lia).
  assert (0 ≤ (2 ^ it_bits T - 1) / Z.abs a < 2 ^ it_bits T) as Hd.
  { destruct (decide (Z.abs a = 0)) as [->|]; [rewrite Zdiv_0_r; lia|].
    split; [apply Z.div_pos; lia|]. apply Z.div_lt_upper_bound; nia. }
  change (int_max (make_unsigned T)) with (2 ^ it_bits T - 1).
  rewrite (wrap_unsigned T (_ / _)) by done. rewrite product_guard by lia. rewrite <-Z.abs_mul.
  destruct (Z.ltb_spec (Z.abs (a * b)) (2 ^ it_bits T)) as [L|L]; simpl.
  - rewrite (wrap_unsigned T (Z.abs _)) by (done || lia). destruct (it_signed T) eqn:S; simpl.
    + unfold int_max. rewrite S.
      rewrite !(wrap_unsigned T (2 ^ _ - 1)), (wrap_unsigned T (_ - 1 + 1)) by (done || lia).
      rewrite wrap_neg_unsigned by done.
      assert (a * b = if eqb (a <? 0) (b <? 0) then Z.abs (a * b) else - Z.abs (a * b)) as Hs
        by (destruct (Z.ltb_spec a 0), (Z.ltb_spec b 0); simpl; nia).
      destruct (eqb (a <? 0) (b <? 0)); simpl; exact_cases S.
    + assert (Z.abs (a * b) = a * b) as E by nia. rewrite E in *.
      rewrite wrap_id by (done || (rewrite in_range_spec, S; lia)).
      rewrite decide_True; [done|]. rewrite in_range_spec, S. lia.
  - rewrite decide_False; [done|]. rewrite in_range_spec. destruct (it_signed T); nia.
Qed.

Lemma increment_checked_exact T v :
  it_wf T → in_range T v → 
  increment_checked T v = if decide (v < int_max T) then Some (v + 1) else None.
Proof.
  intros HT Hv. unfold increment_checked. int_facts T HT.
  rewrite add_checked_exact; [|done|done|].
  - unfold in_range in *. repeat case_decide; done || lia.
  - red in HT. assert (2 ^ 7 ≤ 2 ^ (it_bits T - 1)) by (apply Z.pow_le_mono_r; lia).
    unfold in_range, int_min, int_max in *. destruct (it_signed T); lia.
Qed.

Lemma increment_checked_Some T v w :
  it_wf T → in_range T v → increment_checked T v = Some w → w = v + 1 ∧ in_range T w.
Proof.
  intros HT Hv. rewrite increment_checked_exact by done. case_decide; [|done].
  intros [= <-]. unfold in_range in *. lia.
Qed.

(** The saturating addition is the exact sum clamped to the 64-bit range. *)
Lemma saturating_add_clamp base delta :
  in_range i64 base → in_range i64 delta →
  saturating_add base delta = Z.max (int_min i64) (Z.min (int_max i64) (base + delta)).
Proof.
  unfold in_range, saturating_add. change (int_min i64) with (- 2 ^ 63).
  change (int_max i64) with (2 ^ 63 - 1). intros. zcases; lia.
Qed.

Lemma saturating_add_range base delta : in_range i64 base → in_range i64 delta → in_range i64 (saturating_add base delta).
Proof. intros [??] [??]. rewrite saturating_add_clamp by done. assert (int_min i64 ≤ int_max i64) by done. unfold in_range. lia. Qed.

(** Everything the sources count lives in a well-formed type. *)
Lemma it_wf_u64 : it_wf u64.
Proof. unfold it_wf; simpl; lia. Qed.
Lemma it_wf_i64 : it_wf i64.
Proof. unfold it_wf; simpl; lia. Qed.
Lemma it_wf_u32 : it_wf u32.
Proof. unfold it_wf; simpl; lia. Qed.
#[export] Hint Resolve it_wf_u64 it_wf_i64 it_wf_u32 make_unsigned_wf : drain.

(** [++counter] on a [std::uint64_t] whose overflow the sources do not check. *)
Definition u64_inc (v : Z) : Z := wrap u64 (v + 1).
