(* ===== verification/Result.v ===== *)
(** * Results

    [include/drain/result.hpp] and [src/result.cpp]: the error taxonomy and the
    [Result<T>] type.  A fallible C++ function becomes a function into [result];
    a fallible member function that mutates returns its result paired with the
    state it leaves, because the sources do not roll back on error. *)

From S2P Require Import Prelude.

(** [drain::ErrorCode]. *)
Module ErrorCode.
Inductive t : Set :=
  | Ok | InvalidArgument | MalformedIdentity | NotFound | AlreadyExists | DuplicateIdentity
  | StaleGeneration | StaleAuthority | StaleEpoch | StaleIncarnation | StaleEvidence
  | StaleRevision | AdmissionClosed | IllegalTransition | PolicyViolation | RedundancyViolation
  | CapacityViolation | DomainLimitViolation | ProtectedObligationRemains | AuthorityRequired
  | PersistenceCorrupt | PersistenceIo | BoundsExceeded | Cancelled | Unsupported
  | ProtocolError | TransportError | Busy | ShuttingDown | Internal | Blocked.

#[export] Instance t_eq_dec : EqDecision t.
Proof. solve_decision. Defined.

(** [static_cast<std::uint8_t>]: the enumerator's value. *)
Definition rank (x : t) : Z :=
  match x with
  | Ok => 0 | InvalidArgument => 1 | MalformedIdentity => 2 | NotFound => 3
  | AlreadyExists => 4 | DuplicateIdentity => 5 | StaleGeneration => 6 | StaleAuthority => 7
  | StaleEpoch => 8 | StaleIncarnation => 9 | StaleEvidence => 10 | StaleRevision => 11
  | AdmissionClosed => 12 | IllegalTransition => 13 | PolicyViolation => 14
  | RedundancyViolation => 15 | CapacityViolation => 16 | DomainLimitViolation => 17
  | ProtectedObligationRemains => 18 | AuthorityRequired => 19 | PersistenceCorrupt => 20
  | PersistenceIo => 21 | BoundsExceeded => 22 | Cancelled => 23 | Unsupported => 24
  | ProtocolError => 25 | TransportError => 26 | Busy => 27 | ShuttingDown => 28
  | Internal => 29 | Blocked => 30
  end.

Definition to_string (x : t) : string :=
  match x with
  | Ok => "ok"
  | InvalidArgument => "invalid-argument"
  | MalformedIdentity => "malformed-identity"
  | NotFound => "not-found"
  | AlreadyExists => "already-exists"
  | DuplicateIdentity => "duplicate-identity"
  | StaleGeneration => "stale-generation"
  | StaleAuthority => "stale-authority"
  | StaleEpoch => "stale-epoch"
  | StaleIncarnation => "stale-incarnation"
  | StaleEvidence => "stale-evidence"
  | StaleRevision => "stale-revision"
  | AdmissionClosed => "admission-closed"
  | IllegalTransition => "illegal-transition"
  | PolicyViolation => "policy-violation"
  | RedundancyViolation => "redundancy-violation"
  | CapacityViolation => "capacity-violation"
  | DomainLimitViolation => "domain-limit-violation"
  | ProtectedObligationRemains => "protected-obligation-remains"
  | AuthorityRequired => "authority-required"
  | PersistenceCorrupt => "persistence-corrupt"
  | PersistenceIo => "persistence-io"
  | BoundsExceeded => "bounds-exceeded"
  | Cancelled => "cancelled"
  | Unsupported => "unsupported"
  | ProtocolError => "protocol-error"
  | TransportError => "transport-error"
  | Busy => "busy"
  | ShuttingDown => "shutting-down"
  | Internal => "internal"
  | Blocked => "blocked"
  end.

End ErrorCode.
Export (hints) ErrorCode.

Record error := Error { err_code : ErrorCode.t; err_message : string }.

#[export] Instance error_eq_dec : EqDecision error.
Proof. solve_decision. Defined.

(** [drain::is_stale_fence]: the caller presented stale fencing state. *)
Definition is_stale_fence (code : ErrorCode.t) : bool :=
  match code with
  | ErrorCode.StaleGeneration | ErrorCode.StaleAuthority | ErrorCode.StaleEpoch
  | ErrorCode.StaleIncarnation | ErrorCode.StaleEvidence | ErrorCode.StaleRevision => true
  | _ => false
  end.

(** [drain::is_retryable]. *)
Definition is_retryable (code : ErrorCode.t) : bool :=
  match code with
  | ErrorCode.Busy | ErrorCode.TransportError | ErrorCode.PersistenceIo => true
  | _ => false
  end.

(** [Error::to_string]. *)
Definition error_to_string (e : error) : string :=
  if decide (err_code e = ErrorCode.Ok) then "ok"
  else
    let out := ErrorCode.to_string (err_code e) in
    if negb (bool_decide (err_message e = "")) then out ++s ": " ++s err_message e else out.

Inductive result (A : Type) :=
  | Ok (a : A)
  | Err (e : error).
Arguments Ok {A} a.
Arguments Err {A} e.

(** [Status] is [Result<void>]. *)
Notation status := (result unit).
Notation ok_status := (Ok tt).

Definition fail {A} (code : ErrorCode.t) (message : string) : result A := Err (Error code message).

Definition is_ok {A} (r : result A) : bool := match r with Ok _ => true | Err _ => false end.

(** [Result::code]: a success reports [Ok]. *)
Definition result_code {A} (r : result A) : ErrorCode.t :=
  match r with Ok _ => ErrorCode.Ok | Err e => err_code e end.

(** [Result::error]: the empty error on success. *)
Definition result_error {A} (r : result A) : error :=
  match r with Ok _ => Error ErrorCode.Ok "" | Err e => e end.

Definition result_bind {A B} (r : result A) (f : A → result B) : result B :=
  match r with Ok a => f a | Err e => Err e end.

(** [let? x := e in k] is the sources' [auto x = e; if (!x.ok()) return x.error();]. *)
Notation "'let?' x := e 'in' k" := (result_bind e (λ x, k))
  (at level 200, x pattern, e at level 100, k at level 200) : drain_scope.

Lemma is_ok_true {A} (r : result A) : is_ok r = true ↔ ∃ a, r = Ok a.
Proof. destruct r; simpl; naive_solver. Qed.

Lemma is_ok_status (r : status) : is_ok r = true ↔ r = ok_status.
Proof. destruct r as [[]|]; naive_solver. Qed.

Lemma result_bind_Ok {A B} (r : result A) (f : A → result B) b :
  result_bind r f = Ok b ↔ ∃ a, r = Ok a ∧ f a = Ok b.
Proof. destruct r; simpl; naive_solver. Qed.

#[export] Hint Rewrite @result_bind_Ok : drain.
