(* ===== verification/Text.v ===== *)
(** * Text and digests

    Decimal and hexadecimal rendering, the string searches the parsers use, and
    the FNV-1a digest of [src/digest.cpp]. *)

From S2P Require Import Prelude Checked.
From stdpp Require Import pretty.
#[local] Open Scope Z_scope.

(** [std::to_string] on an integer. *)
Definition decimal (v : Z) : string := pretty v.

(** The unsigned value of a [char]. *)
Definition char_code (c : Ascii.ascii) : Z := Z.of_N (Ascii.N_of_ascii c).

(** [std::string_view::find(char)]. *)
Fixpoint find_char (c : Ascii.ascii) (s : string) : option nat :=
  match s with
  | EmptyString => None
  | String a s => if decide (a = c) then Some 0%nat else S <$> find_char c s
  end.

(** [text.substr(pos)]. *)
Definition substr_from (pos : nat) (s : string) : string :=
  String.substring pos (String.length s - pos) s.

Fixpoint string_all (f : Ascii.ascii → bool) (s : string) : bool :=
  match s with
  | EmptyString => true
  | String a s => f a && string_all f s
  end.

(** ** Digests *)

Definition kPrime : Z := 1099511628211.
Definition kOffset : Z := 1469598103934665603.

(** One byte: [state ^= byte; state *= kPrime] on [std::uint64_t]. *)
Definition digest_byte (state byte : Z) : Z := wrap u64 (Z.lxor state byte * kPrime).

(** [Digest64::update]. *)
Fixpoint digest_update (state : Z) (text : string) : Z :=
  match text with
  | EmptyString => state
  | String c text => digest_update (digest_byte state (char_code c)) text
  end.

(** [Digest64::update_u64]: little-endian bytes. *)
Definition digest_update_u64 (state value : Z) : Z :=
  foldl (λ st shift, digest_byte st (Z.land (Z.shiftr value shift) 255)) state
    [0; 8; 16; 24; 32; 40; 48; 56].

Definition digest_update_u32 (state value : Z) : Z := digest_update_u64 state value.
Definition digest_update_bool (state : Z) (value : bool) : Z :=
  digest_update_u64 state (if value then 1 else 0).

(** [Digest64::update_tagged]: both parts are length-prefixed. *)
Definition digest_update_tagged (state : Z) (tag value : string) : Z :=
  let state := digest_update_u64 state (Z.of_nat (String.length tag)) in
  let state := digest_update state tag in
  let state := digest_update_u64 state (Z.of_nat (String.length value)) in
  digest_update state value.

Definition fnv1a64 (text : string) : Z := digest_update kOffset text.

Arguments digest_update_u64 : simpl never.
Arguments digest_update_tagged : simpl never.
Arguments digest_update_bool : simpl never.

(** ** Hexadecimal *)

Definition kHex (nibble : Z) : Ascii.ascii :=
  default Ascii.zero (String.get (Z.to_nat nibble) "0123456789abcdef").

(** The loop of [hex_u32] and [hex_u64]: digits are written from the right end
    while the value is shifted. *)
Fixpoint hex_loop (digits : nat) (value : Z) (out : string) : string :=
  match digits with
  | O => out
  | S digits => hex_loop digits (Z.shiftr value 4) (String (kHex (Z.land value 15)) out)
  end.

Definition hex_u32 (value : Z) : string := hex_loop 8 value "".
Definition hex_u64 (value : Z) : string := hex_loop 16 value "".

(** The reading of such a rendering, most significant digit first. *)
Definition unhex_digit (c : Ascii.ascii) : Z :=
  let v := char_code c in if v <? 58 then v - 48 else v - 87.

Fixpoint unhex (acc : Z) (s : string) : Z :=
  match s with
  | EmptyString => acc
  | String c s => unhex (acc * 16 + unhex_digit c) s
  end.

(** ** Facts *)

Lemma digest_byte_range state byte : in_range u64 (digest_byte state byte).
Proof. apply wrap_range, it_wf_u64. Qed.

Lemma digest_update_range state text : in_range u64 state → in_range u64 (digest_update state text).
Proof.
  revert state. induction text as [|c text IH]; intros state Hs; simpl; [done|].
  apply IH, digest_byte_range.
Qed.

(** Every digest the program compares or stores is a 64-bit value. *)
Lemma fnv1a64_range text : in_range u64 (fnv1a64 text).
Proof. by apply digest_update_range. Qed.

Lemma digest_update_u64_range state value : in_range u64 (digest_update_u64 state value).
Proof. apply digest_byte_range. Qed.

Lemma digest_update_tagged_range state tag value : in_range u64 (digest_update_tagged state tag value).
Proof. apply digest_update_range, digest_update_u64_range. Qed.

Lemma kHex_unhex n : 0 ≤ n < 16 → unhex_digit (kHex n) = n.
Proof.
  intros Hn. assert (Forall (λ n, unhex_digit (kHex n) = n) (seqZ 0 16)) as Hall
    by (vm_compute; repeat constructor).
  rewrite Forall_forall in Hall. apply Hall, elem_of_seqZ. lia.
Qed.

Lemma hex_loop_unhex d value out acc :
  0 ≤ value < 16 ^ Z.of_nat d →
  unhex acc (hex_loop d value out) = unhex (acc * 16 ^ Z.of_nat d + value) out.
Proof.
  revert value out. induction d as [|d IH]; intros value out Hv; cbn [hex_loop].
  - f_equal. change (16 ^ Z.of_nat 0) with 1 in *. lia.
  - rewrite Nat2Z.inj_succ, Z.pow_succ_r in * by lia.
    pose proof (Z.div_mod value 16 ltac:(lia)). pose proof (Z.mod_pos_bound value 16 ltac:(lia)).
    rewrite Z.shiftr_div_pow2 by lia. change (2 ^ 4) with 16.
    assert (Z.land value 15 = value mod 16) as -> by (apply (Z.land_ones value 4); lia).
    rewrite IH.
    + cbn [unhex]. rewrite kHex_unhex by lia. f_equal. nia.
    + split; [apply Z.div_pos; lia|apply Z.div_lt_upper_bound; lia].
Qed.

(** The hexadecimal rendering loses nothing. *)
Lemma hex_u64_unhex value : in_range u64 value → unhex 0 (hex_u64 value) = value.
Proof. intros [??]. unfold hex_u64. rewrite hex_loop_unhex; [done|]. change (16 ^ Z.of_nat 16) with (int_max u64 + 1). change (int_min u64) with 0 in *. lia. Qed.

Lemma hex_u64_inj v w : in_range u64 v → in_range u64 w → hex_u64 v = hex_u64 w → v = w.
Proof. intros Hv Hw E. by rewrite <-(hex_u64_unhex v), <-(hex_u64_unhex w), E. Qed.

(** *** Searching and splitting *)

Lemma string_all_app f a b : string_all f (a ++s b) = string_all f a && string_all f b.
Proof. induction a as [|c a IH]; simpl; [done|]. by rewrite IH, andb_assoc. Qed.

Lemma find_char_app c a b :
  string_all (λ x, negb (bool_decide (x = c))) a = true →
  find_char c (a ++s String c b) = Some (String.length a).
Proof.
  induction a as [|x a IH]; simpl; [by rewrite decide_True|].
  intros [Hx Ha]%andb_true_iff. apply negb_true_iff, bool_decide_eq_false in Hx.
  rewrite decide_False by done. by rewrite IH.
Qed.

Lemma substring_all a : String.substring 0 (String.length a) a = a.
Proof. induction a as [|c a IH]; simpl; [done|]. by rewrite IH. Qed.

Lemma substring_prefix a b : String.substring 0 (String.length a) (a ++s b) = a.
Proof. induction a as [|c a IH]; simpl; [by destruct b|]. by rewrite IH. Qed.

Lemma substring_skip a b n : String.substring (String.length a) n (a ++s b) = String.substring 0 n b.
Proof. induction a as [|c a IH]; simpl; [done|]. by rewrite IH. Qed.

Lemma string_length_app a b : String.length (a ++s b) = (String.length a + String.length b)%nat.
Proof. induction a as [|c a IH]; simpl; [done|]. by rewrite IH. Qed.

Lemma string_app_assoc (a b c : string) : (a ++s b) ++s c = a ++s b ++s c.
Proof. induction a as [|x a IH]; [done|]. change (String x ((a ++s b) ++s c) = String x (a ++s b ++s c)). by rewrite IH. Qed.

Lemma substr_from_app a c b : substr_from (String.length a + 1) (a ++s String c b) = b.
Proof.
  unfold substr_from.
  assert (a ++s String c b = (a ++s String c "") ++s b) as ->.
  { by rewrite string_app_assoc. }
  rewrite string_length_app.
  assert (String.length (a ++s String c "") = (String.length a + 1)%nat) as E
    by by rewrite string_length_app.
  rewrite <-E, substring_skip, Nat.add_comm, Nat.add_sub. apply substring_all.
Qed.

Lemma string_app_nil_r (s : string) : s ++s "" = s.
Proof. induction s as [|c s IH]; [done|]. change (String c (s ++s "") = String c s). by rewrite IH. Qed.
