(* ===== verification/Json.v ===== *)
(** * JSON

    [include/drain/json.hpp] and [src/json.cpp]: values with insertion-ordered
    objects, the deterministic writer, and the strict bounded parser.  The
    parser's position is the unread rest of the text; its loops run on fuel, and
    [None] would mean that the fuel ran out ([json_parse_returns] in JsonFacts
    shows that it does not).  Doubles are the Standard Library's binary64
    [spec_float]; [std::strtod] and ["%.17g"] are its correctly rounded
    conversions. *)

From S2P Require Import Prelude Containers Checked Result Text.
From Stdlib Require Import Ascii SpecFloat.
#[local] Open Scope Z_scope.

(** [drain::JsonLimits]. *)
Record JsonLimits := MkJsonLimits {
  jl_max_depth : Z;
  jl_max_string_bytes : Z;
  jl_max_container_entries : Z;
  jl_max_nodes : Z;
  jl_max_total_bytes : Z;
}.
Definition default_limits : JsonLimits := MkJsonLimits 32 8192 65536 262144 (8 * 1024 * 1024).

(** [drain::JsonValue]; an object is its keys and values in insertion order. *)
Inductive json : Type :=
  | JNull
  | JBool (b : bool)
  | JInt (z : Z)
  | JUint (z : Z)
  | JReal (f : spec_float)
  | JString (s : string)
  | JArray (items : list json)
  | JObject (members : list (string * json)).

Definition jobject : json := JObject [].

(** ** Accessors *)

Definition is_object (v : json) : bool := match v with JObject _ => true | _ => false end.
Definition is_array (v : json) : bool := match v with JArray _ => true | _ => false end.
Definition is_string (v : json) : bool := match v with JString _ => true | _ => false end.
Definition is_bool (v : json) : bool := match v with JBool _ => true | _ => false end.
Definition is_real (v : json) : bool := match v with JReal _ => true | _ => false end.

Definition as_bool (fallback : bool) (v : json) : bool := match v with JBool b => b | _ => fallback end.

Definition as_int (fallback : Z) (v : json) : Z :=
  match v with
  | JInt z => z
  | JUint z => if z <=? int_max i64 then z else fallback
  | _ => fallback
  end.

Definition as_uint (fallback : Z) (v : json) : Z :=
  match v with
  | JUint z => z
  | JInt z => if 0 <=? z then z else fallback
  | _ => fallback
  end.

Definition as_string (v : json) : string := match v with JString s => s | _ => "" end.
Definition as_array (v : json) : list json := match v with JArray l => l | _ => [] end.
Definition as_object (v : json) : list (string * json) := match v with JObject m => m | _ => [] end.

(** The member loop that [find] and [set] share. *)
Fixpoint member_find (key : string) (members : list (string * json)) : option json :=
  match members with
  | [] => None
  | (k, v) :: members => if String.eqb k key then Some v else member_find key members
  end.

Fixpoint member_set (key : string) (value : json) (members : list (string * json)) : list (string * json) :=
  match members with
  | [] => [(key, value)]
  | (k, v) :: members =>
      if String.eqb k key then (k, value) :: members else (k, v) :: member_set key value members
  end.

(** [JsonValue::set]: a value that is not an object becomes one. *)
Definition json_set (key : string) (value : json) (v : json) : json := JObject (member_set key value (as_object v)).

(** [JsonValue::find]. *)
Definition json_find (key : string) (v : json) : option json :=
  match v with JObject members => member_find key members | _ => None end.

Definition get_string (key fallback : string) (v : json) : string :=
  match json_find key v with Some (JString s) => s | _ => fallback end.
Definition get_uint (key : string) (fallback : Z) (v : json) : Z :=
  match json_find key v with Some found => as_uint fallback found | None => fallback end.
Definition get_int (key : string) (fallback : Z) (v : json) : Z :=
  match json_find key v with Some found => as_int fallback found | None => fallback end.
Definition get_bool (key : string) (fallback : bool) (v : json) : bool :=
  match json_find key v with Some found => as_bool fallback found | None => fallback end.

(** [JsonValue::size]. *)
Definition json_size (v : json) : Z :=
  match v with
  | JArray l => zlength l
  | JObject m => zlength m
  | JString s => Z.of_nat (String.length s)
  | _ => 0
  end.

(** ** Writing *)

Definition str1 (c : Ascii.ascii) : string := String c EmptyString.
Definition ch (code : Z) : Ascii.ascii := Ascii.ascii_of_N (Z.to_N code).
Definition kQuote : Ascii.ascii := "034"%char.
Definition kBackslash : Ascii.ascii := "092"%char.

(** The body of the loop of [append_escaped]. *)
Definition escape_char (c : Ascii.ascii) : string :=
  let code := char_code c in
  if code =? 34 then String kBackslash (str1 kQuote)
  else if code =? 92 then String kBackslash (str1 kBackslash)
  else if code =? 8 then String kBackslash "b"
  else if code =? 12 then String kBackslash "f"
  else if code =? 10 then String kBackslash "n"
  else if code =? 13 then String kBackslash "r"
  else if code =? 9 then String kBackslash "t"
  else if code <? 32 then
    String kBackslash ("u00" ++s String (kHex (Z.land (Z.shiftr code 4) 15)) (str1 (kHex (Z.land code 15))))
  else str1 c.

Fixpoint escape_body (text : string) : string :=
  match text with
  | EmptyString => EmptyString
  | String c text => escape_char c ++s escape_body text
  end.

(** [append_escaped] and [json_escape]. *)
Definition json_escape (text : string) : string := String kQuote (escape_body text ++s str1 kQuote).

Definition repeat_char (n : Z) (c : Ascii.ascii) : string := Nat.iter (Z.to_nat n) (String c) EmptyString.

(** [n / d] rounded to the nearest integer, ties to even. *)
Definition div_half_even (n d : Z) : Z :=
  let q := n / d in
  let r := 2 * (n mod d) in
  if (d <? r) || ((d =? r) && Z.odd q) then q + 1 else q.

(** The decimal exponent of [n / d]: the [x] with [10^x <= n/d < 10^(x+1)]. *)
Definition decimal_exponent (n d : Z) : Z :=
  let digits v := Z.of_nat (String.length (decimal v)) in
  let guess := digits n - digits d in
  let scaled x := if 0 <=? x then (n, d * 10 ^ x) else (n * 10 ^ (- x), d) in
  let '(a, b) := scaled guess in
  if b <=? a then guess else guess - 1.

(** Trailing zeros, as [%g] drops them; [fraction] is what follows the point. *)
Fixpoint strip_zeros (fraction : string) : string :=
  match fraction with
  | EmptyString => EmptyString
  | String c rest =>
      match strip_zeros rest with
      | EmptyString => if bool_decide (c = "0"%char) then EmptyString else str1 c
      | s => String c s
      end
  end.
Definition with_fraction (whole fraction : string) : string :=
  match strip_zeros fraction with EmptyString => whole | f => whole ++s "." ++s f end.

(** [snprintf("%.17g")] on a positive finite double [n / d]. *)
Definition print_17g (n d : Z) : string :=
  let x := decimal_exponent n d in
  let scale := 16 - x in
  let r := if 0 <=? scale then div_half_even (n * 10 ^ scale) d else div_half_even n (d * 10 ^ (- scale)) in
  let '(r, x) := if r =? 10 ^ 17 then (10 ^ 16, x + 1) else (r, x) in
  let digits := decimal r in
  if (x <? -4) || (17 <=? x) then
    with_fraction (String.substring 0 1 digits) (substr_from 1 digits) ++s "e"
      ++s (if x <? 0 then "-" else "+") ++s (if Z.abs x <? 10 then "0" else "") ++s decimal (Z.abs x)
  else if 0 <=? x then
    with_fraction (String.substring 0 (Z.to_nat (x + 1)) digits) (substr_from (Z.to_nat (x + 1)) digits)
  else with_fraction "0" (repeat_char (- x - 1) "0" ++s digits).

(** [append_number]. *)
Definition append_number (value : spec_float) : string :=
  match value with
  | S754_nan | S754_infinity _ => "0"
  | S754_zero s => if s then "-0" else "0"
  | S754_finite s m e =>
      (if s then "-" else "")
      ++s (if 0 <=? e then print_17g (Z.pos m * 2 ^ e) 1 else print_17g (Z.pos m) (2 ^ (- e)))
  end.

Section Dump.
Context (indent : Z).

Definition pad (depth : Z) : string := if 0 <? indent then repeat_char (indent * depth) " " else "".
Definition newline : string := if 0 <? indent then str1 "010"%char else "".
Definition colon : string := if 0 <? indent then ": " else ":".

(** Items joined by commas, each on a line of its own when indenting. *)
Fixpoint dump_items (depth : Z) (items : list string) : string :=
  match items with
  | [] => ""
  | [item] => newline ++s pad depth ++s item
  | item :: items => newline ++s pad depth ++s item ++s "," ++s dump_items depth items
  end.

(** [dump_into]. *)
Fixpoint dump_into (depth : Z) (value : json) : string :=
  match value with
  | JNull => "null"
  | JBool b => if b then "true" else "false"
  | JInt z => decimal z
  | JUint z => decimal z
  | JReal f => append_number f
  | JString s => json_escape s
  | JArray [] => "[]"
  | JArray items =>
      "[" ++s dump_items (depth + 1) (List.map (dump_into (depth + 1)) items) ++s newline ++s pad depth ++s "]"
  | JObject [] => "{}"
  | JObject members =>
      "{" ++s dump_items (depth + 1)
                (List.map (λ p, json_escape p.1 ++s colon ++s dump_into (depth + 1) p.2) members)
      ++s newline ++s pad depth ++s "}"
  end.
End Dump.

(** [JsonValue::dump]. *)
Definition dump (indent : Z) (value : json) : string := dump_into indent 0 value.

(** ** Reading *)

Definition is_space (c : Ascii.ascii) : bool :=
  let code := char_code c in (code =? 32) || (code =? 9) || (code =? 10) || (code =? 13).
Definition is_digit (c : Ascii.ascii) : bool := (48 <=? char_code c) && (char_code c <=? 57).

Fixpoint skip_whitespace (text : string) : string :=
  match text with
  | String c rest => if is_space c then skip_whitespace rest else text
  | EmptyString => EmptyString
  end.

(** [consume]: the rest after [expected], if it comes first. *)
Definition consume (expected : Ascii.ascii) (text : string) : option string :=
  match text with
  | String c rest => if bool_decide (c = expected) then Some rest else None
  | EmptyString => None
  end.

Definition protocol_error {A} (message : string) : result A := fail ErrorCode.ProtocolError message.
Definition bounds_error {A} (message : string) : result A := fail ErrorCode.BoundsExceeded message.

(** [text_.compare(pos_, literal.size(), literal) == 0]. *)
Fixpoint strip_literal (literal text : string) : option string :=
  match literal, text with
  | EmptyString, _ => Some text
  | String a literal, String b text => if bool_decide (a = b) then strip_literal literal text else None
  | String _ _, EmptyString => None
  end.

Definition parse_literal (literal : string) (value : json) (text : string) : result (json * string) :=
  match strip_literal literal text with
  | Some rest => Ok (value, rest)
  | None => protocol_error "invalid json literal"
  end.

(** *** Strings *)

Definition hex_digit (c : Ascii.ascii) : option Z :=
  let code := char_code c in
  if (48 <=? code) && (code <=? 57) then Some (code - 48)
  else if (97 <=? code) && (code <=? 102) then Some (code - 97 + 10)
  else if (65 <=? code) && (code <=? 70) then Some (code - 65 + 10)
  else None.

(** [parse_hex4] on four characters. *)
Definition hex4 (a b c d : Ascii.ascii) : option Z :=
  match hex_digit a, hex_digit b, hex_digit c, hex_digit d with
  | Some a, Some b, Some c, Some d =>
      Some (Z.lor (Z.shiftl (Z.lor (Z.shiftl (Z.lor (Z.shiftl a 4) b) 4) c) 4) d)
  | _, _, _, _ => None
  end.

(** [append_utf8]. *)
Definition utf8 (code : Z) : string :=
  if code <? 0x80 then str1 (ch code)
  else if code <? 0x800 then
    String (ch (Z.lor 0xc0 (Z.shiftr code 6))) (str1 (ch (Z.lor 0x80 (Z.land code 0x3f))))
  else if code <? 0x10000 then
    String (ch (Z.lor 0xe0 (Z.shiftr code 12)))
      (String (ch (Z.lor 0x80 (Z.land (Z.shiftr code 6) 0x3f))) (str1 (ch (Z.lor 0x80 (Z.land code 0x3f)))))
  else
    String (ch (Z.lor 0xf0 (Z.shiftr code 18)))
      (String (ch (Z.lor 0x80 (Z.land (Z.shiftr code 12) 0x3f)))
         (String (ch (Z.lor 0x80 (Z.land (Z.shiftr code 6) 0x3f))) (str1 (ch (Z.lor 0x80 (Z.land code 0x3f)))))).

(** The escapes of one letter. *)
Definition simple_escape (c : Ascii.ascii) : option Ascii.ascii :=
  let code := char_code c in
  if code =? 34 then Some kQuote
  else if code =? 92 then Some kBackslash
  else if code =? 47 then Some c
  else if code =? 98 then Some (ch 8)
  else if code =? 102 then Some (ch 12)
  else if code =? 110 then Some (ch 10)
  else if code =? 114 then Some (ch 13)
  else if code =? 116 then Some (ch 9)
  else None.

(** A piece of text was appended to [out], whose size is now [size]. *)
Definition string_length (s : string) : Z := Z.of_nat (String.length s).

Section ParseString.
Context (limits : JsonLimits).

(** The loop of [parse_string] after the opening quote; [size] is [out.size()]
    and the result is what the loop still appends, with the unread rest. *)
Fixpoint parse_chars (size : Z) (text : string) {struct text} : result (string * string) :=
  let appended (piece : string) (k : Z → result (string * string)) : result (string * string) :=
    if jl_max_string_bytes limits <? size + string_length piece
    then bounds_error "json string length budget exceeded"
    else match k (size + string_length piece) with
         | Ok (s, rest) => Ok (piece ++s s, rest)
         | Err err => Err err
         end in
  match text with
  | EmptyString => protocol_error "unterminated json string"
  | String c rest =>
      if char_code c =? 34 then Ok ("", rest)
      else if char_code c <? 32 then protocol_error "unescaped control character in json string"
      else if negb (char_code c =? 92) then
        if jl_max_string_bytes limits <=? size then bounds_error "json string length budget exceeded"
        else match parse_chars (size + 1) rest with
             | Ok (s, rest) => Ok (String c s, rest)
             | Err err => Err err
             end
      else
        match rest with
        | EmptyString => protocol_error "truncated json escape"
        | String esc rest =>
            match simple_escape esc with
            | Some piece => appended (str1 piece) (λ size, parse_chars size rest)
            | None =>
                if negb (char_code esc =? 117) then protocol_error "invalid json escape"
                else
                  match rest with
                  | String a (String b (String c (String d rest))) =>
                      match hex4 a b c d with
                      | None => protocol_error "invalid hex digit in unicode escape"
                      | Some code =>
                          if (0xd800 <=? code) && (code <=? 0xdbff) then
                            match rest with
                            | String x (String y rest) =>
                                if bool_decide (x = kBackslash) && bool_decide (y = "u"%char) then
                                  match rest with
                                  | String a (String b (String c (String d rest))) =>
                                      match hex4 a b c d with
                                      | None => protocol_error "invalid hex digit in unicode escape"
                                      | Some low =>
                                          if (low <? 0xdc00) || (0xdfff <? low)
                                          then protocol_error "invalid low surrogate in json string"
                                          else appended
                                                 (utf8 (0x10000 + Z.shiftl (code - 0xd800) 10 + (low - 0xdc00)))
                                                 (λ size, parse_chars size rest)
                                      end
                                  | _ => protocol_error "truncated unicode escape"
                                  end
                                else protocol_error "lone high surrogate in json string"
                            | _ => protocol_error "lone high surrogate in json string"
                            end
                          else if (0xdc00 <=? code) && (code <=? 0xdfff) then
                            protocol_error "unpaired low surrogate in json string"
                          else appended (utf8 code) (λ size, parse_chars size rest)
                      end
                  | _ => protocol_error "truncated unicode escape"
                  end
            end
        end
  end.

(** [parse_string], called at the opening quote. *)
Definition parse_string (text : string) : result (string * string) :=
  match text with
  | String _ rest => parse_chars 0 rest
  | EmptyString => parse_chars 0 EmptyString
  end.
End ParseString.

(** *** Numbers *)

Fixpoint take_digits (text : string) : string * string :=
  match text with
  | String c rest => if is_digit c then let '(d, rest) := take_digits rest in (String c d, rest) else ("", text)
  | EmptyString => ("", "")
  end.

Fixpoint digits_value (acc : Z) (digits : string) : Z :=
  match digits with
  | EmptyString => acc
  | String c rest => digits_value (10 * acc + (char_code c - 48)) rest
  end.

(** [std::strtod] on a number token: [mantissa * 10^exponent] rounded to nearest
    even; beyond the range of doubles the power is not computed. *)
Definition strtod (negative : bool) (mantissa exponent : Z) : spec_float :=
  let size := Z.of_nat (String.length (decimal mantissa)) in
  if mantissa =? 0 then S754_zero negative
  else if 400 <? exponent then S754_infinity negative
  else if size + exponent <? -400 then S754_zero negative
  else
    match (if 0 <=? exponent then mantissa * 10 ^ exponent else mantissa), 10 ^ (- exponent) with
    | Z.pos m, Z.pos d =>
        if 0 <=? exponent then binary_round 53 1024 negative m 0
        else
          let '(q, e', loc) := SFdiv_core_binary 53 1024 (Z.pos m) 0 (Z.pos d) 0 in
          binary_round_aux 53 1024 negative q e' loc
    | Z.pos m, _ => binary_round 53 1024 negative m 0
    | _, _ => S754_zero negative
    end.

(** [JsonValue::as_real]: an integer converts to the nearest double, ties to even. *)
Definition as_real (fallback : spec_float) (v : json) : spec_float :=
  match v with
  | JReal f => f
  | JInt i => strtod (i <? 0) (Z.abs i) 0
  | JUint u => strtod false u 0
  | _ => fallback
  end.
Example as_real_rounds :
  as_real S754_nan (JUint (2 ^ 53 + 1)) = as_real S754_nan (JUint (2 ^ 53)) ∧
  as_real S754_nan (JInt (-1)) = S754_finite true 4503599627370496 (-52) ∧ as_real S754_nan (JBool true) = S754_nan.
Proof. vm_compute. done. Qed.

Definition is_finite (f : spec_float) : bool :=
  match f with S754_nan | S754_infinity _ => false | _ => true end.

(** The integer part. *)
Definition parse_integer_part (text : string) : result (string * string) :=
  match text with
  | EmptyString => protocol_error "truncated json number"
  | String c rest =>
      if char_code c =? 48 then
        match rest with
        | String c' _ => if is_digit c' then protocol_error "leading zero in json number" else Ok ("0", rest)
        | EmptyString => Ok ("0", rest)
        end
      else if (49 <=? char_code c) && (char_code c <=? 57) then Ok (take_digits text)
      else protocol_error "invalid json number"
  end.

(** The fraction, with the flag [integral]. *)
Definition parse_fraction (text : string) : result (option string * string) :=
  match consume "."%char text with
  | None => Ok (None, text)
  | Some text =>
      let '(d, rest) := take_digits text in
      if bool_decide (d = "") then protocol_error "missing fraction digits in json number" else Ok (Some d, rest)
  end.

(** The exponent: its sign and digits. *)
Definition parse_exponent (text : string) : result (option (bool * string) * string) :=
  match text with
  | String c rest =>
      if (char_code c =? 101) || (char_code c =? 69) then
        let '(negative, rest) :=
          match rest with
          | String s after =>
              if char_code s =? 43 then (false, after) else if char_code s =? 45 then (true, after) else (false, rest)
          | EmptyString => (false, rest)
          end in
        let '(d, rest) := take_digits rest in
        if bool_decide (d = "") then protocol_error "missing exponent digits in json number"
        else Ok (Some (negative, d), rest)
      else Ok (None, text)
  | EmptyString => Ok (None, text)
  end.

(** [parse_number]: integers that fit are integers, everything else a double.
    An integral token has at most twenty characters, its sign included. *)
Definition parse_number (text : string) : result (json * string) :=
  let '(negative, text) := match consume "-"%char text with Some rest => (true, rest) | None => (false, text) end in
  result_bind (parse_integer_part text) (λ '(whole, text),
  result_bind (parse_fraction text) (λ '(fraction, text),
  result_bind (parse_exponent text) (λ '(exponent, rest),
    let v := digits_value 0 whole in
    let token_size := (if negative : bool then 1 else 0) + string_length whole in
    let integral := match fraction, exponent with None, None => token_size <=? 20 | _, _ => false end in
    if integral && negative && (v <=? - int_min i64) then Ok (JInt (- v), rest)
    else if integral && negb negative && (v <=? int_max u64) then Ok (JUint v, rest)
    else
      let frac := default "" fraction in
      let e := match exponent with
               | Some (true, d) => - digits_value 0 d
               | Some (false, d) => digits_value 0 d
               | None => 0
               end in
      let real := strtod negative (digits_value v frac) (e - string_length frac) in
      if is_finite real then Ok (JReal real, rest) else protocol_error "json number out of range"))).

(** *** Values *)

(** A parser step: out of fuel, an error, or the value with the unread rest and
    the nodes counted so far. *)
Definition parsed (A : Type) : Type := option (result (A * string * Z)).

Definition then_parse {A B} (p : parsed A) (k : A → string → Z → parsed B) : parsed B :=
  match p with
  | None => None
  | Some (Err err) => Some (Err err)
  | Some (Ok (a, text, nodes)) => k a text nodes
  end.

(** Lifts a step that counts no node. *)
Definition lift_step {A} (nodes : Z) (r : result (A * string)) : parsed A :=
  Some (match r with Ok (a, rest) => Ok (a, rest, nodes) | Err err => Err err end).

Section ParseValue.
Context (limits : JsonLimits).

(** [parse_value], and the loops of [parse_object] and [parse_array] after the
    members or items already read. *)
Fixpoint parse_value (fuel : nat) (depth nodes : Z) (text : string) {struct fuel} : parsed json :=
  match fuel with
  | O => None
  | S fuel =>
      if jl_max_depth limits <? depth then Some (bounds_error "json nesting depth exceeded")
      else if jl_max_nodes limits <? nodes + 1 then Some (bounds_error "json node budget exceeded")
      else
        let nodes := nodes + 1 in
        match text with
        | EmptyString => Some (protocol_error "unexpected end of json input")
        | String c rest =>
            let code := char_code c in
            if code =? 123 then
              let text := skip_whitespace rest in
              match consume "}"%char text with
              | Some rest => Some (Ok (JObject [], rest, nodes))
              | None => parse_members fuel depth nodes [] text
              end
            else if code =? 91 then
              let text := skip_whitespace rest in
              match consume "]"%char text with
              | Some rest => Some (Ok (JArray [], rest, nodes))
              | None => parse_items fuel depth nodes [] text
              end
            else if code =? 34 then
              lift_step nodes (result_bind (parse_string limits text) (λ '(s, rest), Ok (JString s, rest)))
            else if code =? 116 then lift_step nodes (parse_literal "true" (JBool true) text)
            else if code =? 102 then lift_step nodes (parse_literal "false" (JBool false) text)
            else if code =? 110 then lift_step nodes (parse_literal "null" JNull text)
            else lift_step nodes (parse_number text)
        end
  end
with parse_members (fuel : nat) (depth nodes : Z) (members : list (string * json)) (text : string)
  {struct fuel} : parsed json :=
  match fuel with
  | O => None
  | S fuel =>
      let text := skip_whitespace text in
      match consume kQuote text with
      | None => Some (protocol_error "expected object key")
      | Some _ =>
          match parse_string limits text with
          | Err err => Some (Err err)
          | Ok (key, text) =>
              if jl_max_container_entries limits <=? zlength members then
                Some (bounds_error "json object entry budget exceeded")
              else if existsb (λ m, bool_decide (m.1 = key)) members then
                Some (protocol_error "duplicate json object key")
              else
                match consume ":"%char (skip_whitespace text) with
                | None => Some (protocol_error "expected ':' in json object")
                | Some text =>
                    then_parse (parse_value fuel (depth + 1) nodes (skip_whitespace text))
                      (λ value text nodes,
                        let members := members ++ [(key, value)] in
                        let text := skip_whitespace text in
                        match consume ","%char text, consume "}"%char text with
                        | Some rest, _ => parse_members fuel depth nodes members rest
                        | None, Some rest => Some (Ok (JObject members, rest, nodes))
                        | None, None => Some (protocol_error "expected ',' or '}' in json object")
                        end)
                end
          end
      end
  end
with parse_items (fuel : nat) (depth nodes : Z) (items : list json) (text : string)
  {struct fuel} : parsed json :=
  match fuel with
  | O => None
  | S fuel =>
      if jl_max_container_entries limits <=? zlength items then
        Some (bounds_error "json array entry budget exceeded")
      else
        then_parse (parse_value fuel (depth + 1) nodes (skip_whitespace text))
          (λ value text nodes,
            let items := items ++ [value] in
            let text := skip_whitespace text in
            match consume ","%char text, consume "]"%char text with
            | Some rest, _ => parse_items fuel depth nodes items rest
            | None, Some rest => Some (Ok (JArray items, rest, nodes))
            | None, None => Some (protocol_error "expected ',' or ']' in json array")
            end)
  end.

(** Every call reads a character or passes from a container to its first entry. *)
Definition parse_fuel (text : string) : nat := (2 * String.length text + 2)%nat.

(** [Parser::run] and [json_parse]. *)
Definition json_parse (text : string) : option (result json) :=
  if jl_max_total_bytes limits <? string_length text then
    Some (bounds_error "json input exceeds max_total_bytes")
  else
    match parse_value (parse_fuel text) 0 0 (skip_whitespace text) with
    | None => None
    | Some (Err err) => Some (Err err)
    | Some (Ok (value, rest, _)) =>
        if bool_decide (skip_whitespace rest = "") then Some (Ok value)
        else Some (protocol_error "trailing content after json value")
    end.
End ParseValue.
