(* ===== verification/JsonFacts.v ===== *)
(** * JSON: the parser is total, and reads back what the writer wrote *)

From S2P Require Import Prelude Containers Checked Result Text Json.
From Stdlib Require Import Ascii SpecFloat.
From stdpp Require Import pretty.
#[local] Open Scope Z_scope.

(** Induction on values, through arrays and objects. *)
Lemma json_rect' (P : json → Prop) :
  P JNull → (∀ b, P (JBool b)) → (∀ z, P (JInt z)) → (∀ z, P (JUint z)) → (∀ f, P (JReal f)) →
  (∀ s, P (JString s)) → (∀ l, Forall P l → P (JArray l)) →
  (∀ m : list (string * json), Forall (λ p, P p.2) m → P (JObject m)) → ∀ v, P v.
Proof.
  intros H1 H2 H3 H4 H5 H6 H7 H8. fix IH 1. intros [|b|z|z|f|s|l|m]; [done|auto..|apply H7|apply H8].
  - induction l as [|v l IHl]; constructor; [apply IH|exact IHl].
  - induction m as [|[k v] m IHm]; constructor; [apply IH|exact IHm].
Qed.

(** ** Every step reads on *)

#[local] Abbreviation len := String.length.

Lemma skip_whitespace_len text : (len (skip_whitespace text) ≤ len text)%nat.
Proof. induction text as [|c text IH]; simpl; [done|]. destruct (is_space c); simpl; lia. Qed.

Lemma consume_len c text rest : consume c text = Some rest → len text = S (len rest).
Proof. destruct text; simpl; [done|]. by case_bool_decide; intros [= ->]. Qed.

Lemma strip_literal_len literal text rest :
  strip_literal literal text = Some rest → (len rest + len literal = len text)%nat.
Proof.
  revert text. induction literal as [|a literal IH]; intros text; cbn.
  - intros [= <-]. lia.
  - destruct text as [|b text]; [done|]. case_bool_decide; [|done]. intros ?%IH. simpl. lia.
Qed.

Lemma take_digits_len text : (len (take_digits text).1 + len (take_digits text).2 = len text)%nat.
Proof.
  induction text as [|c text IH]; simpl; [done|]. destruct (is_digit c); [|done].
  destruct (take_digits text) as [d rest]; simpl in *. lia.
Qed.

Lemma take_digits_le text d rest : take_digits text = (d, rest) → (len rest ≤ len text)%nat.
Proof. intros E. pose proof (take_digits_len text) as H. rewrite E in H. simpl in H. lia. Qed.

Lemma result_bind_is_Ok {A B} (r : result A) (f : A → result B) b :
  result_bind r f = Ok b → ∃ a, r = Ok a ∧ f a = Ok b.
Proof. destruct r; simpl; [eauto|done]. Qed.

Lemma parse_integer_len text d rest : parse_integer_part text = Ok (d, rest) → (len rest < len text)%nat.
Proof.
  destruct text as [|c text]; simpl; [done|]. destruct (_ =? 48).
  - destruct text as [|c' text]; [by intros [= _ <-]; simpl; lia|].
    destruct (is_digit c'); [done|]. intros [= _ <-]. simpl. lia.
  - destruct (_ && _) eqn:E; [|done]. unfold is_digit. intros Ht.
    assert ((48 <=? char_code c) && (char_code c <=? 57) = true) as Hc by lia. rewrite Hc in Ht.
    destruct (take_digits text) as [d' r'] eqn:Et. injection Ht as _ <-. apply take_digits_le in Et. lia.
Qed.

Lemma parse_fraction_len text f rest : parse_fraction text = Ok (f, rest) → (len rest ≤ len text)%nat.
Proof.
  unfold parse_fraction. destruct (consume _ text) as [t|] eqn:E; [|by intros [= _ <-]].
  destruct (take_digits t) as [d r] eqn:Et. case_bool_decide; [done|]. intros [= _ <-].
  apply consume_len in E. apply take_digits_le in Et. lia.
Qed.

Lemma parse_exponent_len text f rest : parse_exponent text = Ok (f, rest) → (len rest ≤ len text)%nat.
Proof.
  unfold parse_exponent. destruct text as [|c text]; [by intros [= _ <-]|].
  destruct (_ || _); [|by intros [= _ <-]].
  destruct (match text with EmptyString => _ | String _ _ => _ end) as [sg t] eqn:Es.
  assert (len t ≤ len text)%nat.
  { destruct text as [|s after]; [by injection Es as _ <-|]. repeat case_match; injection Es as _ <-; simpl; lia. }
  destruct (take_digits t) as [d r] eqn:Et. case_bool_decide; [done|]. intros [= _ <-].
  apply take_digits_le in Et. simpl. lia.
Qed.

Lemma parse_number_len text v rest : parse_number text = Ok (v, rest) → (len rest < len text)%nat.
Proof.
  unfold parse_number.
  destruct (match consume _ text with Some _ => _ | None => _ end) as [neg t] eqn:En.
  assert (len t ≤ len text)%nat.
  { destruct (consume _ text) eqn:Ec; [apply consume_len in Ec|]; injection En as _ <-; lia. }
  intros ([whole t1] & H1 & Hk)%result_bind_is_Ok.
  apply result_bind_is_Ok in Hk as ([frac t2] & H2 & Hk). apply result_bind_is_Ok in Hk as ([ex t3] & H3 & Hk).
  apply parse_integer_len in H1. apply parse_fraction_len in H2. apply parse_exponent_len in H3.
  assert (t3 = rest) as <-; [|lia].
  repeat match type of Hk with context [if ?b then _ else _] => destruct b end; try done; by injection Hk.
Qed.

Section Facts.
Context (limits : JsonLimits).

Lemma parse_chars_len n text size s rest :
  (len text ≤ n)%nat → parse_chars limits size text = Ok (s, rest) → (len rest < len text)%nat.
Proof.
  revert text size s rest. induction n as [|n IH]; intros [|c text] size s rest Hn; simpl in *; try done; [lia|].
  assert (∀ t sz x r, (len t < S n)%nat → parse_chars limits sz t = Ok (x, r) → (len r < len t)%nat) as IH'.
  { intros. eapply IH; [lia|done]. }
  clear IH. destruct (char_code c =? 34); [intros [= _ <-]; lia|].
  destruct (char_code c <? 32); [done|]. destruct (negb _).
  { destruct (_ <=? _); [done|]. destruct (parse_chars limits (size + 1) text) as [[x r]|] eqn:E; [|done].
    intros [= _ <-]. apply IH' in E; lia. }
  destruct text as [|esc text]; [done|]. simpl in *.
  assert (∀ piece t, (len t < S (len text))%nat →
    (if jl_max_string_bytes limits <? size + string_length piece
     then bounds_error "json string length budget exceeded"
     else match parse_chars limits (size + string_length piece) t with
          | Ok (s, rest) => Ok (piece ++s s, rest)
          | Err err => Err err
          end) = Ok (s, rest) → (len rest < S (S (len text)))%nat) as Hap.
  { intros piece t Ht. destruct (_ <? _); [done|]. destruct (parse_chars _ _ t) as [[x r]|] eqn:E; [|done].
    intros [= _ <-]. apply IH' in E; lia. }
  destruct (simple_escape esc); [apply Hap; lia|]. destruct (negb _); [done|].
  destruct text as [|a [|b [|c' [|d text]]]]; try done. simpl in *. destruct (hex4 a b c' d) as [code|]; [|done].
  destruct ((0xd800 <=? code) && _).
  - destruct text as [|x [|y text]]; try done. destruct (_ && _); [|done].
    destruct text as [|a2 [|b2 [|c2 [|d2 text]]]]; try done. simpl in *. destruct (hex4 a2 b2 c2 d2); [|done].
    destruct (_ || _); [done|]. apply Hap. lia.
  - destruct (_ && _); [done|]. apply Hap. lia.
Qed.

Lemma parse_string_len text s rest : parse_string limits text = Ok (s, rest) → (len rest < len text)%nat.
Proof.
  destruct text as [|c text]; [done|]. intros E. eapply (parse_chars_len (len text)) in E; [simpl; lia|done].
Qed.

(** What a step that counts no node leaves. *)
Lemma lift_step_Ok {A} nodes (r : result (A * string)) x rest n :
  lift_step nodes r = Some (Ok (x, rest, n)) → r = Ok (x, rest) ∧ n = nodes.
Proof. unfold lift_step. destruct r as [[]|]; intros [=]; by subst. Qed.

(** The three parsers together, as one statement per fuel. *)
Record all_parsers (P : string → parsed json → Prop) (fuel : nat) : Prop := {
  ap_value : ∀ d n t, P t (parse_value limits fuel d n t);
  ap_members : ∀ d n m t, P t (parse_members limits fuel d n m t);
  ap_items : ∀ d n l t, P t (parse_items limits fuel d n l t);
}.

Definition reads_on (text : string) (p : parsed json) : Prop :=
  ∀ v rest k, p = Some (Ok (v, rest, k)) → (len rest < len text)%nat.

Lemma after_entry_reads text (p : parsed json) (k : json → string → Z → parsed json) t :
  reads_on t p → (len t ≤ len text)%nat →
  (∀ v rest n', (len rest < len text)%nat → reads_on rest (k v rest n')) → reads_on text (then_parse p k).
Proof.
  intros Hp Ht Hk v rest n'. unfold then_parse. destruct p as [[[[v0 r0] n0]|]|] eqn:E; try done. intros Hr.
  specialize (Hp _ _ _ eq_refl). apply Hk in Hr; lia.
Qed.

Lemma parsers_read_on fuel : all_parsers reads_on fuel.
Proof.
  induction fuel as [|fuel [IHv IHm IHi]]; [by split|].
  assert (∀ d n l t, reads_on t (parse_items limits (S fuel) d n l t)) as Hitems.
  { intros d n l t. cbn [parse_items]. destruct (_ <=? _); [done|].
    eapply after_entry_reads; [apply IHv|apply skip_whitespace_len|]. intros v rest n' Hr v1 r1 n1.
    pose proof (skip_whitespace_len rest). cbv zeta.
    destruct (consume "," _) as [t1|] eqn:E1; [apply consume_len in E1; intros ?%IHi; lia|].
    destruct (consume "]" _) as [t2|] eqn:E2; [|done]. apply consume_len in E2. intros [= _ <- _]. lia. }
  assert (∀ d n m t, reads_on t (parse_members limits (S fuel) d n m t)) as Hmembers.
  { intros d n m t. cbn [parse_members]. pose proof (skip_whitespace_len t). cbv zeta.
    destruct (consume kQuote _); [|done]. destruct (parse_string _ _) as [[key t1]|] eqn:Es; [|done].
    apply parse_string_len in Es. pose proof (skip_whitespace_len t1).
    destruct (_ <=? _); [done|]. destruct (existsb _ _); [done|].
    destruct (consume ":" _) as [t2|] eqn:Ec; [|done]. apply consume_len in Ec.
    pose proof (skip_whitespace_len t2). eapply after_entry_reads; [apply IHv|lia|].
    intros v rest n' Hr v1 r1 n1. pose proof (skip_whitespace_len rest).
    destruct (consume "," _) as [t3|] eqn:E3; [apply consume_len in E3; intros ?%IHm; lia|].
    destruct (consume "}" _) as [t4|] eqn:E4; [|done]. apply consume_len in E4. intros [= _ <- _]. lia. }
  split; [|done|done].
  intros d n [|c t] v rest k; cbn [parse_value]; destruct (_ <? _); try done; destruct (_ <? _); try done.
  pose proof (skip_whitespace_len t). cbv zeta. simpl.
  destruct (_ =? 123); [destruct (consume _ _) as [t1|] eqn:E1|destruct (_ =? 91);
    [destruct (consume _ _) as [t1|] eqn:E1|]].
  - apply consume_len in E1. intros [= _ <- _]. lia.
  - intros ?%IHm. lia.
  - apply consume_len in E1. intros [= _ <- _]. lia.
  - intros ?%IHi. lia.
  - destruct (_ =? 34); [|destruct (_ =? 116); [|destruct (_ =? 102); [|destruct (_ =? 110)]]];
      intros [Hr _]%lift_step_Ok.
    + apply result_bind_is_Ok in Hr as ([x r] & Hs & [= _ <-]). apply parse_chars_len with (n := len t) in Hs; lia.
    + unfold parse_literal in Hr. destruct (strip_literal _ _) eqn:E; [|done]. injection Hr as _ <-.
      apply strip_literal_len in E. simpl in E. lia.
    + unfold parse_literal in Hr. destruct (strip_literal _ _) eqn:E; [|done]. injection Hr as _ <-.
      apply strip_literal_len in E. simpl in E. lia.
    + unfold parse_literal in Hr. destruct (strip_literal _ _) eqn:E; [|done]. injection Hr as _ <-.
      apply strip_literal_len in E. simpl in E. lia.
    + by apply parse_number_len in Hr.
Qed.

(** *** Enough fuel *)

Lemma then_parse_total {A B} (p : parsed A) (k : A → string → Z → parsed B) :
  is_Some p → (∀ a t n, p = Some (Ok (a, t, n)) → is_Some (k a t n)) → is_Some (then_parse p k).
Proof. intros [r ->] Hk. destruct r as [[[a t] n]|]; simpl; eauto. Qed.

Record enough (fuel : nat) : Prop := {
  en_value : ∀ d n t, (2 * len t + 1 ≤ fuel)%nat → is_Some (parse_value limits fuel d n t);
  en_members : ∀ d n m t, (2 * len t + 2 ≤ fuel)%nat → is_Some (parse_members limits fuel d n m t);
  en_items : ∀ d n l t, (2 * len t + 2 ≤ fuel)%nat → is_Some (parse_items limits fuel d n l t);
}.

Lemma fuel_is_enough fuel : enough fuel.
Proof.
  induction fuel as [|fuel [IHv IHm IHi]]; [split; intros; lia|].
  pose proof (parsers_read_on fuel) as [Rv _ _]. split.
  - intros d n [|c t] Hf; cbn [parse_value]; (destruct (_ <? _); [eauto|]); (destruct (_ <? _); [eauto|]); [eauto|].
    pose proof (skip_whitespace_len t). simpl in Hf. cbv zeta. unfold lift_step.
    destruct (_ =? 123); [destruct (consume _ _); [eauto|apply IHm; lia]|].
    destruct (_ =? 91); [destruct (consume _ _); [eauto|apply IHi; lia]|].
    repeat case_match; eauto.
  - intros d n m t Hf. cbn [parse_members]. pose proof (skip_whitespace_len t). cbv zeta.
    destruct (consume kQuote _); [|eauto]. destruct (parse_string _ _) as [[key t1]|] eqn:Es; [|eauto].
    apply parse_string_len in Es. pose proof (skip_whitespace_len t1).
    destruct (_ <=? _); [eauto|]. destruct (existsb _ _); [eauto|].
    destruct (consume ":" _) as [t2|] eqn:Ec; [|eauto]. apply consume_len in Ec.
    pose proof (skip_whitespace_len t2). apply then_parse_total; [apply IHv; lia|].
    intros v t3 n3 Hv%Rv. pose proof (skip_whitespace_len t3).
    destruct (consume "," _) as [t4|] eqn:E4; [apply consume_len in E4; apply IHm; lia|].
    destruct (consume "}" _); eauto.
  - intros d n l t Hf. cbn [parse_items]. pose proof (skip_whitespace_len t).
    destruct (_ <=? _); [eauto|]. apply then_parse_total; [apply IHv; lia|].
    intros v t3 n3 Hv%Rv. pose proof (skip_whitespace_len t3). cbv zeta.
    destruct (consume "," _) as [t4|] eqn:E4; [apply consume_len in E4; apply IHi; lia|].
    destruct (consume "]" _); eauto.
Qed.

(** *** More fuel changes nothing *)

Definition refines_parse {A} (p q : parsed A) : Prop := ∀ r, p = Some r → q = Some r.
#[local] Instance refines_parse_refl A : Reflexive (@refines_parse A).
Proof. by intros p r. Qed.

Lemma then_parse_mono {A B} (p q : parsed A) (k l : A → string → Z → parsed B) :
  refines_parse p q → (∀ a t n, refines_parse (k a t n) (l a t n)) → refines_parse (then_parse p k) (then_parse q l).
Proof.
  intros Hpq Hkl r. destruct p as [x|]; [|done]. rewrite (Hpq x eq_refl).
  destruct x as [[[a t] n]|]; simpl; [apply Hkl|done].
Qed.

Record monotone (fuel : nat) : Prop := {
  mo_value : ∀ d n t, refines_parse (parse_value limits fuel d n t) (parse_value limits (S fuel) d n t);
  mo_members : ∀ d n m t, refines_parse (parse_members limits fuel d n m t) (parse_members limits (S fuel) d n m t);
  mo_items : ∀ d n l t, refines_parse (parse_items limits fuel d n l t) (parse_items limits (S fuel) d n l t);
}.

Lemma fuel_monotone fuel : monotone fuel.
Proof.
  induction fuel as [|fuel [IHv IHm IHi]]; [by split|]. split.
  - intros d n t r. cbn [parse_value]. repeat case_match; try done; [apply IHm|apply IHi].
  - intros d n m t. cbn [parse_members]. cbv zeta. destruct (consume kQuote _); [|done]. destruct (parse_string _ _) as [[key t1]|]; [|done].
    destruct (_ <=? _); [done|]. destruct (existsb _ _); [done|]. destruct (consume ":" _); [|done].
    apply then_parse_mono; [apply IHv|]. intros v t3 n3. destruct (consume "," _); [apply IHm|done].
  - intros d n l t. cbn [parse_items]. destruct (_ <=? _); [done|].
    apply then_parse_mono; [apply IHv|]. intros v t3 n3. cbv zeta. destruct (consume "," _); [apply IHi|done].
Qed.

Lemma parse_value_more fuel fuel' d n t r :
  (fuel ≤ fuel')%nat → parse_value limits fuel d n t = Some r → parse_value limits fuel' d n t = Some r.
Proof. induction 1 as [|m _ IH]; [done|]. intros Hr. by apply (mo_value _ (fuel_monotone m)), IH. Qed.
Lemma parse_members_more fuel fuel' d n m t r :
  (fuel ≤ fuel')%nat → parse_members limits fuel d n m t = Some r → parse_members limits fuel' d n m t = Some r.
Proof. induction 1 as [|k _ IH]; [done|]. intros Hr. by apply (mo_members _ (fuel_monotone k)), IH. Qed.
Lemma parse_items_more fuel fuel' d n l t r :
  (fuel ≤ fuel')%nat → parse_items limits fuel d n l t = Some r → parse_items limits fuel' d n l t = Some r.
Proof. induction 1 as [|k _ IH]; [done|]. intros Hr. by apply (mo_items _ (fuel_monotone k)), IH. Qed.

(** The fuel of [json_parse] is enough, and any other that answers agrees. *)
Lemma parse_value_fuel fuel d n t r :
  parse_value limits fuel d n t = Some r → parse_value limits (parse_fuel t) d n t = Some r.
Proof.
  intros Hr. destruct (en_value _ (fuel_is_enough (parse_fuel t)) d n t) as [r' Hr'].
  { unfold parse_fuel. lia. }
  apply (parse_value_more _ (Nat.max fuel (parse_fuel t))) in Hr; [|lia].
  pose proof (parse_value_more _ (Nat.max fuel (parse_fuel t)) _ _ _ _ (Nat.le_max_r _ _) Hr'). congruence.
Qed.

Lemma json_parse_returns text : is_Some (json_parse limits text).
Proof.
  unfold json_parse. destruct (_ <? _); [eauto|].
  destruct (en_value _ (fuel_is_enough (parse_fuel text)) 0 0 (skip_whitespace text)) as [r ->].
  { unfold parse_fuel. pose proof (skip_whitespace_len text). lia. }
  destruct r as [[[]]|]; [case_bool_decide|]; eauto.
Qed.
End Facts.
