(* ===== verification/JsonText.v ===== *)
(** * JSON: what the writer wrote is read back

    Numbers, strings, and by induction every value the writer can be given
    without a double. *)

From S2P Require Import Prelude Containers Checked Result Text Json JsonFacts.
From Stdlib Require Import Ascii SpecFloat.
From stdpp Require Import pretty.
#[local] Open Scope Z_scope.

(** ** Numbers *)

Lemma digits_value_app acc a b : digits_value acc (a ++s b) = digits_value (digits_value acc a) b.
Proof. revert acc. induction a as [|c a IH]; intros acc; simpl; [done|apply IH]. Qed.

Lemma digit_char d : (d < 10)%N →
  is_digit (pretty_N_char d) = true ∧ char_code (pretty_N_char d) - 48 = Z.of_N d ∧
  (d ≠ 0%N → 49 ≤ char_code (pretty_N_char d) ≤ 57).
Proof.
  intros Hd. assert (d = 0 ∨ d = 1 ∨ d = 2 ∨ d = 3 ∨ d = 4 ∨ d = 5 ∨ d = 6 ∨ d = 7 ∨ d = 8 ∨ d = 9)%N as H by lia.
  repeat destruct H as [->|H]; subst; vm_compute; done.
Qed.

(** The digits of a positive number: no leading zero, the right value and size. *)
Record digits_of (x : N) (c : Ascii.ascii) (ds : string) : Prop := {
  dg_first : 49 ≤ char_code c ≤ 57;
  dg_all : string_all is_digit (String c ds) = true;
  dg_value : digits_value 0 (String c ds) = Z.of_N x;
  dg_size : 10 ^ string_length ds ≤ Z.of_N x;
}.

Lemma pretty_digits x s : (0 < x)%N → ∃ c ds, pretty_N_go x s = String c (ds ++s s) ∧ digits_of x c ds.
Proof.
  revert s. induction (N.lt_wf_0 x) as [x _ IH]. intros s Hx. rewrite pretty_N_go_step by done.
  assert (x mod 10 < 10)%N as Hm by (apply N.mod_lt; lia).
  destruct (digit_char _ Hm) as (Hd & Hv & Hf).
  assert (Z.of_N x = 10 * Z.of_N (x / 10) + Z.of_N (x mod 10)) as Hx10.
  { pose proof (N.div_mod x 10 ltac:(lia)). lia. }
  destruct (decide (x / 10 = 0)%N) as [E|E].
  - rewrite E, pretty_N_go_0. exists (pretty_N_char (x mod 10)), "". split; [done|].
    rewrite E in Hx10. assert (x mod 10 ≠ 0)%N by lia. split; [by apply Hf| | |].
    + simpl. by rewrite Hd.
    + cbn [digits_value]. lia.
    + change (10 ^ string_length "") with 1. lia.
  - destruct (IH (x / 10)%N) with (s := String (pretty_N_char (x mod 10)) s) as (c & ds & Ep & [D1 D2 D3 D4]);
      [apply N.div_lt; lia|lia|]. exists c, (ds ++s str1 (pretty_N_char (x mod 10))). split.
    { rewrite Ep. by rewrite string_app_assoc. }
    split; [done| | |].
    + change (string_all is_digit (String c ds ++s str1 (pretty_N_char (x mod 10))) = true).
      rewrite string_all_app, D2. simpl. by rewrite Hd.
    + change (digits_value 0 (String c ds ++s str1 (pretty_N_char (x mod 10))) = Z.of_N x).
      rewrite digits_value_app, D3. cbn [digits_value str1]. lia.
    + unfold string_length in *. rewrite string_length_app. simpl String.length.
      rewrite Nat2Z.inj_add, Z.pow_add_r by lia. change (10 ^ Z.of_nat 1) with 10. lia.
Qed.

Lemma decimal_pos z : 0 < z → ∃ c ds, decimal z = String c ds ∧ digits_of (Z.to_N z) c ds.
Proof.
  intros Hz. destruct z as [|p|p]; try lia.
  change (decimal (Z.pos p)) with (if decide (N.pos p = 0)%N then "0" else pretty_N_go (N.pos p) "").
  rewrite decide_False by done. destruct (pretty_digits (N.pos p) "" ltac:(lia)) as (c & ds & E & D).
  exists c, ds. rewrite E. by rewrite string_app_nil_r.
Qed.

Lemma decimal_neg z : 0 < z → decimal (- z) = "-" ++s decimal z.
Proof. by destruct z. Qed.

(** What may follow a number without becoming part of it. *)
Definition stops (rest : string) : Prop :=
  match rest with
  | EmptyString => True
  | String c _ => is_digit c = false ∧ char_code c ≠ 46 ∧ char_code c ≠ 101 ∧ char_code c ≠ 69
  end.

Lemma take_digits_app d rest :
  string_all is_digit d = true → stops rest → take_digits (d ++s rest) = (d, rest).
Proof.
  intros Hd Hr. induction d as [|c d IH]; simpl in *.
  - destruct rest as [|c rest]; [done|]. simpl. by destruct Hr as [-> _].
  - apply andb_true_iff in Hd as [-> Hd]. by rewrite IH.
Qed.

Lemma no_fraction rest : stops rest → parse_fraction rest = Ok (None, rest).
Proof.
  unfold parse_fraction. destruct rest as [|c rest]; [done|]. simpl. intros (_ & Hc & _).
  case_bool_decide as E; [|done]. subst c. by destruct Hc.
Qed.
Lemma no_exponent rest : stops rest → parse_exponent rest = Ok (None, rest).
Proof.
  unfold parse_exponent. destruct rest as [|c rest]; [done|]. intros (_ & _ & H1 & H2).
  by rewrite (proj2 (Z.eqb_neq _ _) H1), (proj2 (Z.eqb_neq _ _) H2).
Qed.

Lemma integer_part z rest : 0 ≤ z → stops rest →
  parse_integer_part (decimal z ++s rest) = Ok (decimal z, rest) ∧
  digits_value 0 (decimal z) = z ∧ (0 < z → 10 ^ (string_length (decimal z) - 1) ≤ z).
Proof.
  intros Hz Hr. destruct (decide (z = 0)) as [->|Hne].
  { split; [|split; [done|lia]]. destruct rest as [|c rest]; [done|]. destruct Hr as [Hd _].
    change (parse_integer_part (decimal 0 ++s String c rest)) with
      (if is_digit c then @protocol_error (string * string) "leading zero in json number" else Ok ("0", String c rest)).
    by rewrite Hd. }
  destruct (decimal_pos z ltac:(lia)) as (c & ds & E & [D1 D2 D3 D4]). rewrite E. split_and!.
  - simpl. rewrite (proj2 (Z.eqb_neq _ _)) by lia.
    assert ((49 <=? char_code c) && (char_code c <=? 57) = true) as -> by lia.
    change (Ok (take_digits (String c ds ++s rest)) = Ok (String c ds, rest)). by rewrite take_digits_app.
  - rewrite D3. lia.
  - intros _. unfold string_length in *. simpl String.length. rewrite Nat2Z.inj_succ.
    replace (Z.succ (Z.of_nat (String.length ds)) - 1) with (Z.of_nat (String.length ds)) by lia. lia.
Qed.

Lemma size_bound z k : 0 ≤ z → z < 10 ^ k → 0 ≤ k → (0 < z → 10 ^ (string_length (decimal z) - 1) ≤ z) →
  string_length (decimal z) ≤ k ∨ z = 0.
Proof.
  intros Hz Hk Hk0 Hs. destruct (decide (z = 0)); [by right|left]. specialize (Hs ltac:(lia)).
  assert (10 ^ (string_length (decimal z) - 1) < 10 ^ k) as Hlt by lia.
  apply Z.pow_lt_mono_r_iff in Hlt; lia.
Qed.

Lemma parse_uint z rest : in_range u64 z → stops rest → parse_number (decimal z ++s rest) = Ok (JUint z, rest).
Proof.
  intros [Hz1 Hz2] Hr. change (int_min u64) with 0 in Hz1. change (int_max u64) with 18446744073709551615 in Hz2.
  destruct (integer_part z rest Hz1 Hr) as (Hp & Hv & Hs).
  assert (consume "-" (decimal z ++s rest) = None) as Hc.
  { destruct (decide (z = 0)) as [->|]; [done|].
    destruct (decimal_pos z ltac:(lia)) as (c & ds & -> & [D1 _ _ _]). simpl.
    case_bool_decide as E; [|done]. subst c. vm_compute in D1. by destruct D1. }
  assert (string_length (decimal z) ≤ 20) as Hsz.
  { destruct (size_bound z 20) as [?| ->]; try done; lia. }
  unfold parse_number. rewrite Hc, Hp. cbn [result_bind]. rewrite no_fraction by done. cbn [result_bind]. rewrite no_exponent by done. cbn [result_bind].
  rewrite Hv, (proj2 (Z.leb_le _ _)) by lia. cbn [andb negb].
  change (int_max u64) with 18446744073709551615. by rewrite (proj2 (Z.leb_le _ _)).
Qed.

Lemma parse_int z rest : int_min i64 ≤ z < 0 → stops rest → parse_number (decimal z ++s rest) = Ok (JInt z, rest).
Proof.
  intros [Hz1 Hz2] Hr. change (int_min i64) with (-9223372036854775808) in Hz1.
  destruct (integer_part (- z) rest ltac:(lia) Hr) as (Hp & Hv & Hs).
  replace z with (- (- z)) at 1 by lia. rewrite decimal_neg by lia.
  assert (string_length (decimal (- z)) ≤ 19) as Hsz.
  { destruct (size_bound (- z) 19) as [?|?]; try done; lia. }
  unfold parse_number. change (consume "-" (("-" ++s decimal (- z)) ++s rest)) with (Some (decimal (- z) ++s rest)).
  cbv iota beta. rewrite Hp. cbn [result_bind]. rewrite no_fraction by done. cbn [result_bind]. rewrite no_exponent by done. cbn [result_bind].
  rewrite Hv, (proj2 (Z.leb_le _ _)) by lia. cbn [andb].
  change (- int_min i64) with 9223372036854775808. rewrite (proj2 (Z.leb_le _ _)) by lia. by rewrite Z.opp_involutive.
Qed.

(** ** Strings *)

(** The three ways a character is written. *)
Inductive escaped (c : Ascii.ascii) : string → Prop :=
  | esc_plain : (char_code c =? 34) = false → (char_code c <? 32) = false → (char_code c =? 92) = false →
      escaped c (str1 c)
  | esc_letter e : simple_escape e = Some c → escaped c (String kBackslash (str1 e))
  | esc_unicode a b code : hex4 "0" "0" a b = Some code → utf8 code = str1 c →
      (0xd800 <=? code) = false → (0xdc00 <=? code) = false →
      escaped c (String kBackslash ("u00" ++s String a (str1 b))).

Lemma escape_control n : (n < 32)%N → escaped (ascii_of_N n) (escape_char (ascii_of_N n)).
Proof.
  intros Hn. assert (Forall (λ m, escaped (ascii_of_N m) (escape_char (ascii_of_N m))) (N.of_nat <$> seq 0 32)) as Hall.
  { repeat constructor;
      first [by (eapply esc_unicode; reflexivity) | by (eapply esc_letter; reflexivity)]. }
  rewrite Forall_forall in Hall. apply Hall, list_elem_of_fmap. exists (N.to_nat n). rewrite elem_of_seq. lia.
Qed.

Lemma escape_char_escaped c : escaped c (escape_char c).
Proof.
  destruct (char_code c =? 34) eqn:E1; [|destruct (char_code c =? 92) eqn:E2; [|destruct (char_code c <? 32) eqn:E3]].
  - assert (c = kQuote) as ->; [|by eapply (esc_letter _ kQuote)].
    rewrite <-(ascii_N_embedding c). apply Z.eqb_eq in E1. unfold char_code in E1. by replace (N_of_ascii c) with 34%N by lia.
  - assert (c = kBackslash) as ->; [|by eapply (esc_letter _ kBackslash)].
    rewrite <-(ascii_N_embedding c). apply Z.eqb_eq in E2. unfold char_code in E2. by replace (N_of_ascii c) with 92%N by lia.
  - rewrite <-(ascii_N_embedding c). apply escape_control. unfold char_code in E3. lia.
  - assert (escape_char c = str1 c) as ->; [|by constructor]. unfold escape_char. rewrite E1, E2, E3.
    by repeat rewrite (proj2 (Z.eqb_neq _ _)) by lia.
Qed.

Section Text.
Context (limits : JsonLimits).

Lemma parse_escaped size text rest :
  size + string_length text ≤ jl_max_string_bytes limits →
  parse_chars limits size (escape_body text ++s String kQuote rest) = Ok (text, rest).
Proof.
  revert size. induction text as [|c text IH]; intros size Hs; [done|].
  unfold string_length in Hs. simpl String.length in Hs. rewrite Nat2Z.inj_succ in Hs. fold (string_length text) in Hs.
  assert (0 ≤ string_length text) by (unfold string_length; lia).
  cbn [escape_body]. rewrite string_app_assoc. destruct (escape_char_escaped c) as [E1 E2 E3|e He|a b code Hh Hu Hc1 Hc2].
  - change (str1 c ++s escape_body text ++s String kQuote rest) with
      (String c (escape_body text ++s String kQuote rest)). cbn [parse_chars]. rewrite E1, E2, E3. cbn [negb].
    rewrite (proj2 (Z.leb_gt _ _)) by lia. rewrite IH by lia. done.
  - change (String kBackslash (str1 e) ++s escape_body text ++s String kQuote rest) with
      (String kBackslash (String e (escape_body text ++s String kQuote rest))). cbn [parse_chars].
    rewrite He. change (string_length (str1 c)) with 1. cbn [negb].
    change (char_code kBackslash =? 34) with false. change (char_code kBackslash <? 32) with false.
    change (char_code kBackslash =? 92) with true. cbv iota. cbn [negb].
    rewrite (proj2 (Z.ltb_ge _ _)) by lia. rewrite IH by lia. done.
  - change (String kBackslash ("u00" ++s String a (str1 b)) ++s escape_body text ++s String kQuote rest) with
      (String kBackslash (String "u" (String "0" (String "0" (String a (String b (escape_body text ++s String kQuote rest))))))).
    cbn [parse_chars]. change (simple_escape "u") with (@None Ascii.ascii).
    change (char_code kBackslash =? 34) with false. change (char_code kBackslash <? 32) with false.
    change (char_code kBackslash =? 92) with true. change (char_code "u" =? 117) with true. cbv iota. cbn [negb].
    rewrite Hh, Hc1, Hc2, Hu. cbn [andb]. change (string_length (str1 c)) with 1.
    rewrite (proj2 (Z.ltb_ge _ _)) by lia. rewrite IH by lia. done.
Qed.

Lemma parse_escaped_string text rest :
  string_length text ≤ jl_max_string_bytes limits → parse_string limits (json_escape text ++s rest) = Ok (text, rest).
Proof.
  intros Hs. unfold parse_string, json_escape. change (parse_chars limits 0 ((escape_body text ++s str1 kQuote) ++s rest) = Ok (text, rest)). rewrite string_app_assoc.
  by apply parse_escaped.
Qed.

(** ** Values *)

(** What the writer can be given so that the reader takes it back: integers in
    their canonical signedness, no doubles, everything within the limits. *)
Fixpoint json_fits (depth : Z) (v : json) : bool :=
  (depth <=? jl_max_depth limits) &&
  match v with
  | JNull | JBool _ => true
  | JInt z => (int_min i64 <=? z) && (z <? 0)
  | JUint z => (0 <=? z) && (z <=? int_max u64)
  | JReal _ => false
  | JString s => string_length s <=? jl_max_string_bytes limits
  | JArray l => (zlength l <=? jl_max_container_entries limits) && forallb (json_fits (depth + 1)) l
  | JObject m =>
      (zlength m <=? jl_max_container_entries limits) && bool_decide (NoDup m.*1) &&
      forallb (λ p, (string_length p.1 <=? jl_max_string_bytes limits) && json_fits (depth + 1) p.2) m
  end.

Fixpoint json_nodes (v : json) : Z :=
  1 + match v with
      | JArray l => foldr (λ x n, json_nodes x + n) 0 l
      | JObject m => foldr (λ p n, json_nodes p.2 + n) 0 m
      | _ => 0
      end.

Definition skips (s : string) : Prop := ∀ t, skip_whitespace (s ++s t) = skip_whitespace t.

Lemma skips_repeat n : skips (repeat_char n " ").
Proof. intros t. unfold repeat_char. induction (Z.to_nat n) as [|k IH]; simpl; [done|]. apply IH. Qed.
Lemma skips_pad indent d : skips (pad indent d).
Proof. unfold pad. destruct (0 <? indent); [apply skips_repeat|done]. Qed.
Lemma skips_newline indent : skips (newline indent).
Proof. unfold newline. by destruct (0 <? indent). Qed.

Definition starts (s : string) : Prop := ∀ t, skip_whitespace (s ++s t) = s ++s t.

Lemma starts_char c s : is_space c = false → starts (String c s).
Proof. intros Hc t. simpl. by rewrite Hc. Qed.

Lemma starts_decimal z : starts (decimal z).
Proof.
  destruct (decide (z = 0)) as [->|]; [by apply starts_char|]. destruct (decide (0 < z)).
  - destruct (decimal_pos z) as (c & ds & -> & [D _ _ _]); [done|]. apply starts_char. unfold is_space. lia.
  - replace z with (- - z) by lia. rewrite decimal_neg by lia. by apply starts_char.
Qed.

Lemma dump_starts indent d v : is_real v = false → starts (dump_into indent d v).
Proof.
  destruct v as [|[]|z|z|f|s|[|x l]|[|[k x] m]]; intros Hr; try by apply starts_char.
  - apply starts_decimal.
  - apply starts_decimal.
  - done.
Qed.

Lemma fits_not_real d v : json_fits d v = true → is_real v = false.
Proof. destruct v; simpl; [done..| |done|done|done]. by rewrite andb_false_r. Qed.

(** The parser reads back one value, whatever follows it. *)
Definition reads_back (v : json) : Prop :=
  ∀ indent dump_depth depth nodes rest,
    json_fits depth v = true → nodes + json_nodes v ≤ jl_max_nodes limits → stops rest →
    ∃ fuel, parse_value limits fuel depth nodes (dump_into indent dump_depth v ++s rest)
            = Some (Ok (v, rest, nodes + json_nodes v)).

Lemma json_nodes_pos v : 1 ≤ json_nodes v.
Proof.
  induction v as [|b|z|z|f|s|l IH|m IH] using json_rect'; simpl; try lia.
  - assert (0 ≤ foldr (λ x n, json_nodes x + n) 0 l); [|lia]. induction IH; simpl; lia.
  - assert (0 ≤ foldr (λ (p : string * json) n, json_nodes p.2 + n) 0 m); [|lia]. induction IH; simpl; lia.
Qed.

(** A scalar: one step of [parse_value] on a text that begins with [c]. *)
Lemma parse_scalar v c s rest depth nodes :
  nodes + 1 ≤ jl_max_nodes limits → depth ≤ jl_max_depth limits →
  char_code c ≠ 123 → char_code c ≠ 91 →
  (if char_code c =? 34 then result_bind (parse_string limits (String c s)) (λ '(s, rest), Ok (JString s, rest))
   else if char_code c =? 116 then parse_literal "true" (JBool true) (String c s)
   else if char_code c =? 102 then parse_literal "false" (JBool false) (String c s)
   else if char_code c =? 110 then parse_literal "null" JNull (String c s)
   else parse_number (String c s)) = Ok (v, rest) →
  parse_value limits 1 depth nodes (String c s) = Some (Ok (v, rest, nodes + 1)).
Proof.
  intros Hn Hd H1 H2 Hr. cbn [parse_value]. rewrite (proj2 (Z.ltb_ge _ _) Hd), (proj2 (Z.ltb_ge _ _) Hn).
  rewrite (proj2 (Z.eqb_neq _ _) H1), (proj2 (Z.eqb_neq _ _) H2). cbv zeta. unfold lift_step.
  repeat match type of Hr with (if ?b then _ else _) = _ => destruct b; [by rewrite Hr|] end. by rewrite Hr.
Qed.

Lemma parse_value_decimal v z rest depth nodes :
  nodes + 1 ≤ jl_max_nodes limits → depth ≤ jl_max_depth limits →
  parse_number (decimal z ++s rest) = Ok (v, rest) →
  parse_value limits 1 depth nodes (decimal z ++s rest) = Some (Ok (v, rest, nodes + 1)).
Proof.
  intros Hn Hd Hp.
  assert (∃ c s, decimal z = String c s ∧ (48 ≤ char_code c ≤ 57 ∨ char_code c = 45)) as (c & s & E & Hc).
  { destruct (decide (z = 0)) as [->|]; [exists "0"%char, ""; split; [done|by left]|]. destruct (decide (0 < z)).
    - destruct (decimal_pos z) as (c & ds & -> & [D _ _ _]); [done|]. exists c, ds. split; [done|]. lia.
    - replace z with (- - z) by lia. rewrite decimal_neg by lia. exists "-"%char, (decimal (- z)). split; [done|by right]. }
  rewrite E in *. change (String c s ++s rest) with (String c (s ++s rest)) in *.
  apply parse_scalar; [done|done|lia|lia|].
  rewrite !(proj2 (Z.eqb_neq (char_code c) _)) by lia. done.
Qed.

(** What closes a container. *)
Definition closing (indent d : Z) (c : Ascii.ascii) (rest : string) : string :=
  newline indent ++s pad indent d ++s String c rest.

Lemma closing_stops indent d c rest : c = "]"%char ∨ c = "}"%char → stops (closing indent d c rest).
Proof.
  intros Hc. unfold closing, newline, pad. destruct (0 <? indent); [by vm_compute|].
  by destruct Hc as [->| ->]; vm_compute.
Qed.

Lemma closing_skip indent d c rest :
  is_space c = false → skip_whitespace (closing indent d c rest) = String c rest.
Proof. intros Hc. unfold closing. rewrite (skips_newline indent), (skips_pad indent d). simpl. by rewrite Hc. Qed.

Lemma consume_same c rest : consume c (String c rest) = Some rest.
Proof. simpl. by rewrite bool_decide_true. Qed.

(** One entry read, then the continuation, at the larger of the two fuels. *)
Lemma then_value_more (k : nat → json → string → Z → parsed json) v text d n rest n' r f1 f2 :
  (∀ f g, (f ≤ g)%nat → k f v rest n' = Some r → k g v rest n' = Some r) →
  parse_value limits f1 d n text = Some (Ok (v, rest, n')) → k f2 v rest n' = Some r →
  then_parse (parse_value limits (Nat.max f1 f2) d n text) (k (Nat.max f1 f2)) = Some r.
Proof.
  intros Hk Hv Hr. rewrite (parse_value_more _ f1 _ _ _ _ _ (Nat.le_max_l _ _) Hv). simpl.
  by eapply Hk; [apply Nat.le_max_r|].
Qed.

Definition items_nodes (l : list json) : Z := foldr (λ x n, json_nodes x + n) 0 l.
Definition members_nodes (m : list (string * json)) : Z := foldr (λ p n, json_nodes p.2 + n) 0 m.

Lemma parse_items_back l x indent dd depth :
  Forall reads_back (x :: l) → ∀ nodes acc rest,
  forallb (json_fits (depth + 1)) (x :: l) = true →
  zlength acc + zlength (x :: l) ≤ jl_max_container_entries limits →
  nodes + items_nodes (x :: l) ≤ jl_max_nodes limits →
  ∃ fuel, parse_items limits fuel depth nodes acc
      (dump_items indent (dd + 1) (List.map (dump_into indent (dd + 1)) (x :: l)) ++s closing indent dd "]" rest)
    = Some (Ok (JArray (acc ++ x :: l), rest, nodes + items_nodes (x :: l))).
Proof.
  revert x. induction l as [|y l IH]; intros x Hb nodes acc rest Hf He Hn; apply Forall_cons in Hb as [Hx Hl];
    apply andb_true_iff in Hf as [Hfx Hfl]; rewrite zlength_cons in He; cbn [items_nodes foldr] in *.
  - destruct (Hx indent (dd + 1) (depth + 1) nodes (closing indent dd "]" rest)) as [f1 Hv];
      [done|lia|apply closing_stops; by left|].
    exists (S (Nat.max f1 0)). cbn [parse_items List.map dump_items]. rewrite zlength_nil in He.
    rewrite (proj2 (Z.leb_gt _ _)) by lia. rewrite !string_app_assoc, (skips_newline indent), (skips_pad indent _).
    rewrite (dump_starts indent (dd + 1) x) by (by eapply fits_not_real).
    eapply (then_value_more (λ _ value text nodes, _)); [done|exact Hv|]. cbv zeta.
    rewrite closing_skip, consume_same by done. simpl. by rewrite Z.add_0_r.
  - assert (0 ≤ items_nodes l).
    { clear. induction l as [|z l IH]; simpl; [done|]. pose proof (json_nodes_pos z). lia. }
    pose proof (json_nodes_pos x). pose proof (json_nodes_pos y). unfold items_nodes in *.
    destruct (IH y Hl (nodes + json_nodes x) (acc ++ [x]) rest Hfl) as [f2 Hi];
      [rewrite zlength_app, !zlength_cons, zlength_nil in *; lia|simpl in *; lia|].
    set (more := dump_items indent (dd + 1) (List.map (dump_into indent (dd + 1)) (y :: l)) ++s closing indent dd "]" rest) in *.
    destruct (Hx indent (dd + 1) (depth + 1) nodes (String "," more)) as [f1 Hv]; [done|lia|by vm_compute|].
    exists (S (Nat.max f1 f2)). cbn [parse_items]. rewrite (proj2 (Z.leb_gt _ _)) by (rewrite zlength_cons in He; pose proof (zlength_nonneg l); lia).
    assert (dump_items indent (dd + 1) (List.map (dump_into indent (dd + 1)) (x :: y :: l)) ++s closing indent dd "]" rest
      = newline indent ++s pad indent (dd + 1) ++s dump_into indent (dd + 1) x ++s String "," more) as ->.
    { subst more. cbn [List.map dump_items]. by rewrite !string_app_assoc. }
    rewrite (skips_newline indent), (skips_pad indent _), (dump_starts indent (dd + 1) x) by (by eapply fits_not_real).
    eapply (then_value_more (λ fuel value text nodes,
      let items := acc ++ [value] in
      let text := skip_whitespace text in
      match consume ","%char text, consume "]"%char text with
      | Some rest, _ => parse_items limits fuel depth nodes items rest
      | None, Some rest => Some (Ok (JArray items, rest, nodes))
      | None, None => Some (protocol_error "expected ',' or ']' in json array")
      end)); [|exact Hv|].
    + intros f g Hfg. cbv zeta. destruct (consume "," _); [by apply parse_items_more|done].
    + cbv zeta. change (skip_whitespace (String "," more)) with (String "," more). rewrite consume_same. rewrite Hi. rewrite <-app_assoc. simpl. do 3 f_equal. lia.
Qed.

(** The text of one member. *)
Definition dump_member (indent d : Z) (p : string * json) : string :=
  json_escape p.1 ++s colon indent ++s dump_into indent d p.2.

Definition member_fits (depth : Z) (p : string * json) : bool :=
  (string_length p.1 <=? jl_max_string_bytes limits) && json_fits depth p.2.

Lemma colon_skips indent t : consume ":"%char (skip_whitespace (colon indent ++s t)) = Some (if 0 <? indent then String " " t else t).
Proof. unfold colon. by destruct (0 <? indent). Qed.

(** A member read up to its value: what the loop does next. *)
Lemma parse_member_step fuel depth nodes acc k v indent dd text :
  member_fits (depth + 1) (k, v) = true → zlength acc < jl_max_container_entries limits →
  existsb (λ m, bool_decide (m.1 = k)) acc = false →
  parse_members limits (S fuel) depth nodes acc
    (newline indent ++s pad indent dd ++s dump_member indent dd (k, v) ++s text) =
  then_parse (parse_value limits fuel (depth + 1) nodes (dump_into indent dd v ++s text))
    (λ value text nodes,
      let members := acc ++ [(k, value)] in
      let text := skip_whitespace text in
      match consume ","%char text, consume "}"%char text with
      | Some rest, _ => parse_members limits fuel depth nodes members rest
      | None, Some rest => Some (Ok (JObject members, rest, nodes))
      | None, None => Some (protocol_error "expected ',' or '}' in json object")
      end).
Proof.
  intros [Hk%Z.leb_le Hv]%andb_true_iff He Hd. cbn [parse_members]. cbv zeta. simpl in Hk, Hv.
  rewrite (skips_newline indent), (skips_pad indent dd). unfold dump_member. cbn [fst snd].
  rewrite !string_app_assoc.
  assert (∀ t, skip_whitespace (json_escape k ++s t) = json_escape k ++s t) as -> by by apply starts_char.
  assert (∀ t, consume kQuote (json_escape k ++s t) = Some ((escape_body k ++s str1 kQuote) ++s t)) as -> by done.
  rewrite parse_escaped_string by done. rewrite (proj2 (Z.leb_gt _ _) He), Hd, colon_skips.
  f_equal. f_equal. pose proof (dump_starts indent dd v (fits_not_real _ _ Hv) text) as Hs.
  destruct (0 <? indent); [simpl|]; exact Hs.
Qed.

Lemma parse_members_back m p indent dd depth :
  Forall (λ p, reads_back p.2) (p :: m) → ∀ nodes acc rest,
  forallb (member_fits (depth + 1)) (p :: m) = true →
  zlength acc + zlength (p :: m) ≤ jl_max_container_entries limits →
  NoDup (acc.*1 ++ (p :: m).*1) → nodes + members_nodes (p :: m) ≤ jl_max_nodes limits →
  ∃ fuel, parse_members limits fuel depth nodes acc
      (dump_items indent (dd + 1) (List.map (dump_member indent (dd + 1)) (p :: m)) ++s closing indent dd "}" rest)
    = Some (Ok (JObject (acc ++ p :: m), rest, nodes + members_nodes (p :: m))).
Proof.
  revert p. induction m as [|q m IH]; intros [k v] Hb nodes acc rest Hf He Hnd Hn; apply Forall_cons in Hb as [Hx Hl];
    apply andb_true_iff in Hf as [Hfx Hfl]; rewrite zlength_cons in He; cbn [members_nodes foldr snd] in *;
    pose proof (proj1 (andb_true_iff _ _) Hfx) as [_ Hfv]; cbn [snd] in Hfv;
    (assert (existsb (λ m, bool_decide (m.1 = k)) acc = false) as Hdup;
      [apply existsb_false_elem; intros [k' v'] Hin; apply bool_decide_false; intros Hk; cbn in Hk; subst k';
       apply NoDup_app in Hnd as (_ & Hnd & _); apply (Hnd k); [by apply (list_elem_of_fmap_2 fst _ (k, v'))|by left]|]).
  - destruct (Hx indent (dd + 1) (depth + 1) nodes (closing indent dd "}" rest)) as [f1 Hv];
      [done|lia|apply closing_stops; by right|].
    exists (S (Nat.max f1 0)). rewrite zlength_nil in He. cbn [List.map dump_items]. rewrite !string_app_assoc.
    rewrite parse_member_step by (done || lia).
    eapply (then_value_more (λ _ value text nodes, _)); [done|exact Hv|]. cbv zeta.
    rewrite closing_skip, consume_same by done. simpl. by rewrite Z.add_0_r.
  - assert (0 ≤ members_nodes m).
    { clear. induction m as [|z l IH]; simpl; [done|]. pose proof (json_nodes_pos z.2). lia. }
    pose proof (json_nodes_pos v). pose proof (json_nodes_pos q.2). unfold members_nodes in *.
    destruct (IH q Hl (nodes + json_nodes v) (acc ++ [(k, v)]) rest Hfl) as [f2 Hi];
      [rewrite zlength_app, !zlength_cons, zlength_nil in *; lia
      |rewrite fmap_app, <-app_assoc; done|simpl in *; lia|].
    set (more := dump_items indent (dd + 1) (List.map (dump_member indent (dd + 1)) (q :: m)) ++s closing indent dd "}" rest) in *.
    destruct (Hx indent (dd + 1) (depth + 1) nodes (String "," more)) as [f1 Hv]; [done|lia|by vm_compute|].
    exists (S (Nat.max f1 f2)).
    assert (dump_items indent (dd + 1) (List.map (dump_member indent (dd + 1)) ((k, v) :: q :: m)) ++s closing indent dd "}" rest
      = newline indent ++s pad indent (dd + 1) ++s dump_member indent (dd + 1) (k, v) ++s String "," more) as ->.
    { subst more. cbn [List.map dump_items]. by rewrite !string_app_assoc. }
    rewrite parse_member_step by (done || (rewrite zlength_cons in He; pose proof (zlength_nonneg m); lia)).
    eapply (then_value_more (λ fuel value text nodes,
      let members := acc ++ [(k, value)] in
      let text := skip_whitespace text in
      match consume ","%char text, consume "}"%char text with
      | Some rest, _ => parse_members limits fuel depth nodes members rest
      | None, Some rest => Some (Ok (JObject members, rest, nodes))
      | None, None => Some (protocol_error "expected ',' or '}' in json object")
      end)); [|exact Hv|].
    + intros f g Hfg. cbv zeta. destruct (consume "," _); [by apply parse_members_more|done].
    + cbv zeta. change (skip_whitespace (String "," more)) with (String "," more). rewrite consume_same, Hi.
      rewrite <-app_assoc. simpl. do 3 f_equal. lia.
Qed.

Lemma dump_array indent d x l rest :
  dump_into indent d (JArray (x :: l)) ++s rest =
  String "[" (dump_items indent (d + 1) (List.map (dump_into indent (d + 1)) (x :: l)) ++s closing indent d "]" rest).
Proof. unfold closing. cbn [dump_into]. cbn [String.append]. by rewrite !string_app_assoc. Qed.

Lemma dump_object indent d p m rest :
  dump_into indent d (JObject (p :: m)) ++s rest =
  String "{" (dump_items indent (d + 1) (List.map (dump_member indent (d + 1)) (p :: m)) ++s closing indent d "}" rest).
Proof. unfold closing. cbn [dump_into]. cbn [String.append]. by rewrite !string_app_assoc. Qed.

(** The text between the bracket and the first entry starts no empty container. *)
Lemma items_not_closed indent d c s items rest :
  is_space c = false → c ≠ "]"%char → c ≠ "}"%char →
  let text := dump_items indent d (String c s :: items) ++s rest in
  consume "]"%char (skip_whitespace text) = None ∧ consume "}"%char (skip_whitespace text) = None.
Proof.
  intros Hc H1 H2. cbv zeta.
  assert (∃ t, dump_items indent d (String c s :: items) ++s rest = newline indent ++s pad indent d ++s String c t) as [t ->].
  { destruct items; simpl; rewrite !string_app_assoc; eauto. }
  rewrite (skips_newline indent), (skips_pad indent d). simpl. rewrite Hc. simpl.
  by rewrite !bool_decide_false by congruence.
Qed.

Lemma dump_first indent d v :
  is_real v = false →
  ∃ c s, dump_into indent d v = String c s ∧ is_space c = false ∧ c ≠ "]"%char ∧ c ≠ "}"%char.
Proof.
  assert (∀ z, ∃ c s, decimal z = String c s ∧ is_space c = false ∧ c ≠ "]"%char ∧ c ≠ "}"%char) as Hd.
  { intros z. destruct (decide (z = 0)) as [->|]; [by exists "0"%char, ""|]. destruct (decide (0 < z)).
    - destruct (decimal_pos z) as (c & ds & -> & [D _ _ _]); [done|]. exists c, ds. split_and!; [done|unfold is_space; lia|..];
        intros ->; vm_compute in D; by destruct D.
    - replace z with (- - z) by lia. rewrite decimal_neg by lia. exists "-"%char, (decimal (- z)). by split_and!. }
  destruct v as [|[]|z|z|f|s|[|x l]|[|p m]]; intros Hr; try (eexists _, _; split; [reflexivity|by split_and!]);
    [apply Hd|apply Hd|done].
Qed.

Lemma skip_skip t : skip_whitespace (skip_whitespace t) = skip_whitespace t.
Proof. induction t as [|c t IH]; simpl; [done|]. destruct (is_space c) eqn:E; [done|]. simpl. by rewrite E. Qed.

Lemma parse_items_skip fuel d n acc t : parse_items limits fuel d n acc (skip_whitespace t) = parse_items limits fuel d n acc t.
Proof. destruct fuel; cbn [parse_items]; [done|]. by rewrite skip_skip. Qed.
Lemma parse_members_skip fuel d n acc t :
  parse_members limits fuel d n acc (skip_whitespace t) = parse_members limits fuel d n acc t.
Proof. destruct fuel; cbn [parse_members]; [done|]. by rewrite skip_skip. Qed.

(** A container with a first entry is read by its loop. *)
Lemma parse_open_array fuel depth nodes items text r :
  depth ≤ jl_max_depth limits → nodes + 1 ≤ jl_max_nodes limits →
  consume "]"%char (skip_whitespace text) = None →
  parse_items limits fuel depth (nodes + 1) [] text = Some (Ok (JArray items, r.1, r.2)) →
  parse_value limits (S fuel) depth nodes (String "[" text) = Some (Ok (JArray items, r.1, r.2)).
Proof.
  intros Hd Hn Hc Hp. cbn [parse_value]. rewrite (proj2 (Z.ltb_ge _ _) Hd), (proj2 (Z.ltb_ge _ _) Hn).
  change (char_code "[" =? 123) with false. change (char_code "[" =? 91) with true. cbv zeta. cbv iota.
  by rewrite Hc, parse_items_skip.
Qed.

Lemma parse_open_object fuel depth nodes members text r :
  depth ≤ jl_max_depth limits → nodes + 1 ≤ jl_max_nodes limits →
  consume "}"%char (skip_whitespace text) = None →
  parse_members limits fuel depth (nodes + 1) [] text = Some (Ok (JObject members, r.1, r.2)) →
  parse_value limits (S fuel) depth nodes (String "{" text) = Some (Ok (JObject members, r.1, r.2)).
Proof.
  intros Hd Hn Hc Hp. cbn [parse_value]. rewrite (proj2 (Z.ltb_ge _ _) Hd), (proj2 (Z.ltb_ge _ _) Hn).
  change (char_code "{" =? 123) with true. cbv zeta. cbv iota. by rewrite Hc, parse_members_skip.
Qed.

Lemma items_nodes_nonneg l : 0 ≤ items_nodes l.
Proof. induction l as [|z l IH]; simpl; [done|]. pose proof (json_nodes_pos z). lia. Qed.
Lemma members_nodes_nonneg m : 0 ≤ members_nodes m.
Proof. induction m as [|z l IH]; simpl; [done|]. pose proof (json_nodes_pos z.2). lia. Qed.

Lemma array_reads_back l : Forall reads_back l → reads_back (JArray l).
Proof.
  intros IH indent dd depth nodes rest [Hd%Z.leb_le Hf]%andb_true_iff Hn Hr.
  change (json_nodes (JArray l)) with (1 + items_nodes l) in *. pose proof (items_nodes_nonneg l) as Hpos.
  destruct l as [|x l].
  { exists 1%nat. cbn -[Z.add]. rewrite (proj2 (Z.ltb_ge _ _) Hd), (proj2 (Z.ltb_ge _ (nodes + 1))) by (simpl in *; lia).
    by rewrite Z.add_0_r. }
  apply andb_true_iff in Hf as [He%Z.leb_le Hf].
  destruct (parse_items_back l x indent dd depth IH (nodes + 1) [] rest Hf) as [fuel Hp]; [by rewrite zlength_nil|lia|].
  exists (S fuel). rewrite dump_array. pose proof (proj1 (andb_true_iff _ _) Hf) as [Hfx _].
  destruct (dump_first indent (dd + 1) x (fits_not_real _ _ Hfx)) as (c & s & Ex & H1 & H2 & H3).
  replace (nodes + (1 + items_nodes (x :: l))) with (nodes + 1 + items_nodes (x :: l)) by lia.
  apply (parse_open_array fuel depth nodes (x :: l) _ (rest, _)); [done|lia| |exact Hp].
  cbn [List.map]. rewrite Ex. by apply items_not_closed.
Qed.

Lemma object_reads_back (m : list (string * json)) : Forall (λ p, reads_back p.2) m → reads_back (JObject m).
Proof.
  intros IH indent dd depth nodes rest [Hd%Z.leb_le Hf]%andb_true_iff Hn Hr.
  change (json_nodes (JObject m)) with (1 + members_nodes m) in *. pose proof (members_nodes_nonneg m) as Hpos.
  destruct m as [|p m].
  { exists 1%nat. cbn -[Z.add]. rewrite (proj2 (Z.ltb_ge _ _) Hd), (proj2 (Z.ltb_ge _ (nodes + 1))) by (simpl in *; lia).
    by rewrite Z.add_0_r. }
  apply andb_true_iff in Hf as [[He%Z.leb_le Hk%bool_decide_eq_true]%andb_true_iff Hf].
  destruct (parse_members_back m p indent dd depth IH (nodes + 1) [] rest Hf) as [fuel Hp]; [by rewrite zlength_nil|done|lia|].
  exists (S fuel). rewrite dump_object.
  replace (nodes + (1 + members_nodes (p :: m))) with (nodes + 1 + members_nodes (p :: m)) by lia.
  apply (parse_open_object fuel depth nodes (p :: m) _ (rest, _)); [done|lia| |exact Hp].
  cbn [List.map]. by apply items_not_closed.
Qed.

Lemma value_reads_back v : reads_back v.
Proof.
  induction v as [|b|z|z|f|s|l IH|m IH] using json_rect'; [..|by apply array_reads_back|by apply object_reads_back];
    intros indent dd depth nodes rest Hf Hn Hr; apply andb_true_iff in Hf as [Hd%Z.leb_le Hf];
    change (json_nodes _) with 1 in *.
  - exists 1%nat. by apply parse_scalar.
  - exists 1%nat. destruct b; by apply parse_scalar.
  - exists 1%nat. apply andb_true_iff in Hf as [? ?]. apply parse_value_decimal; [done|done|]. apply parse_int; [lia|done].
  - exists 1%nat. apply andb_true_iff in Hf as [? ?]. apply parse_value_decimal; [done|done|].
    apply parse_uint; [split; change (int_min u64) with 0; lia|done].
  - done.
  - exists 1%nat. apply parse_scalar; [done|done|done|done|].
    change (result_bind (parse_string limits (json_escape s ++s rest)) (λ '(s, rest), Ok (JString s, rest)) = Ok (JString s, rest)).
    rewrite parse_escaped_string by lia. done.
Qed.

(** What [dump] writes, at any indentation, [json_parse] reads back. *)
Lemma json_dump_parse indent v :
  json_fits 0 v = true → json_nodes v ≤ jl_max_nodes limits →
  string_length (dump indent v) ≤ jl_max_total_bytes limits →
  json_parse limits (dump indent v) = Some (Ok v).
Proof.
  intros Hf Hn Hs. unfold json_parse. rewrite (proj2 (Z.ltb_ge _ _) Hs).
  pose proof (dump_starts indent 0 v (fits_not_real _ _ Hf) "") as Hst. rewrite string_app_nil_r in Hst.
  unfold dump in *. rewrite Hst.
  destruct (value_reads_back v indent 0 0 0 "" Hf Hn I) as [fuel Hp]. rewrite string_app_nil_r in Hp.
  apply parse_value_fuel in Hp. by rewrite Hp.
Qed.
End Text.
