(* ===== verification/JsonBounds.v ===== *)
(** * JSON: what the parser accepts is within its limits

    Every value [json_parse] returns respects each bound of [JsonLimits]
    (nesting, string sizes, container sizes, total nodes), holds numbers of their
    machine width, and has no object with a repeated key. *)

From S2P Require Import Prelude Containers Checked Result Text Json JsonFacts JsonText.
From Stdlib Require Import Ascii SpecFloat.
#[local] Open Scope Z_scope.

(** The fields of [JsonLimits] are of type [size_t]. *)
Definition limits_wf (limits : JsonLimits) : bool :=
  forallb (λ z, (0 <=? z) && (z <=? int_max u64))
    [jl_max_depth limits; jl_max_string_bytes limits; jl_max_container_entries limits; jl_max_nodes limits;
     jl_max_total_bytes limits].

Section Bounds.
Context (limits : JsonLimits).

Fixpoint json_within (depth : Z) (v : json) : bool :=
  (depth <=? jl_max_depth limits) &&
  match v with
  | JNull | JBool _ => true
  | JInt z => (int_min i64 <=? z) && (z <=? int_max i64)
  | JUint z => (0 <=? z) && (z <=? int_max u64)
  | JReal f => is_finite f
  | JString s => string_length s <=? jl_max_string_bytes limits
  | JArray l => (zlength l <=? jl_max_container_entries limits) && forallb (json_within (depth + 1)) l
  | JObject m =>
      (zlength m <=? jl_max_container_entries limits) && bool_decide (NoDup m.*1) &&
      forallb (λ p, (string_length p.1 <=? jl_max_string_bytes limits) && json_within (depth + 1) p.2) m
  end.

(** The failures of the parser. *)
Definition parse_error (err : error) : Prop :=
  err_code err = ErrorCode.ProtocolError ∨ err_code err = ErrorCode.BoundsExceeded.

(** A step that succeeds satisfies [P]; one that fails, fails as a parser. *)
Definition outcome {A} (P : A → Prop) (r : result A) : Prop :=
  match r with Ok a => P a | Err err => parse_error err end.

Lemma outcome_protocol {A} (P : A → Prop) m : outcome P (protocol_error m).
Proof. by left. Qed.
Lemma outcome_bounds {A} (P : A → Prop) m : outcome P (bounds_error m).
Proof. by right. Qed.
#[local] Hint Resolve outcome_protocol outcome_bounds : core.
#[local] Hint Extern 1 (parse_error _) => (by left) || (by right) : core.

Lemma outcome_bind {A B} (P : A → Prop) (Q : B → Prop) r k :
  outcome P r → (∀ a, P a → outcome Q (k a)) → outcome Q (result_bind r k).
Proof. destruct r; simpl; auto. Qed.

Lemma zstring_length_app a b : string_length (a ++s b) = string_length a + string_length b.
Proof. unfold string_length. rewrite string_length_app. lia. Qed.

Lemma parse_chars_bound n text size :
  (String.length text ≤ n)%nat → size ≤ jl_max_string_bytes limits →
  outcome (λ p, size + string_length p.1 ≤ jl_max_string_bytes limits) (parse_chars limits size text).
Proof.
  revert text size. induction n as [|n IH]; intros [|c text] size Hn Hs; simpl in *; auto; [lia|].
  assert (∀ t sz, (String.length t ≤ n)%nat → sz ≤ jl_max_string_bytes limits →
    outcome (λ p, sz + string_length p.1 ≤ jl_max_string_bytes limits) (parse_chars limits sz t)) as IH' by auto.
  clear IH. destruct (char_code c =? 34); [simpl; unfold string_length; simpl; lia|].
  destruct (char_code c <? 32); auto. destruct (negb _).
  { destruct (_ <=? _) eqn:Hle; auto. pose proof (IH' text (size + 1) ltac:(lia) ltac:(lia)) as H.
    destruct (parse_chars limits (size + 1) text) as [[x r]|]; [|done]. simpl in *.
    unfold string_length in *. simpl. lia. }
  destruct text as [|esc text]; auto. simpl in *.
  assert (∀ piece t, (String.length t ≤ n)%nat →
    outcome (λ p, size + string_length p.1 ≤ jl_max_string_bytes limits)
     (if jl_max_string_bytes limits <? size + string_length piece
     then bounds_error "json string length budget exceeded"
     else match parse_chars limits (size + string_length piece) t with
          | Ok (s, rest) => Ok (piece ++s s, rest)
          | Err err => Err err
          end)) as Hap.
  { intros piece t Ht. destruct (_ <? _) eqn:Hlt; auto.
    pose proof (IH' t (size + string_length piece) Ht ltac:(lia)) as H.
    destruct (parse_chars _ _ t) as [[x r]|]; [|done]. simpl in *. rewrite zstring_length_app. lia. }
  destruct (simple_escape esc); [apply Hap; lia|]. destruct (negb _); auto.
  destruct text as [|a [|b [|c' [|d text]]]]; auto. simpl in *. destruct (hex4 a b c' d) as [code|]; auto.
  destruct ((0xd800 <=? code) && _).
  - destruct text as [|x [|y text]]; auto. destruct (_ && _); auto.
    destruct text as [|a2 [|b2 [|c2 [|d2 text]]]]; auto. simpl in *. destruct (hex4 a2 b2 c2 d2); auto.
    destruct (_ || _); auto. apply Hap. lia.
  - destruct (_ && _); auto. apply Hap. lia.
Qed.

Lemma parse_string_bound text :
  0 ≤ jl_max_string_bytes limits →
  outcome (λ p, string_length p.1 ≤ jl_max_string_bytes limits) (parse_string limits text).
Proof. intros H. destruct text as [|c text]; [apply outcome_protocol|]. by apply (parse_chars_bound (String.length text)). Qed.

Lemma digits_value_nonneg d acc : string_all is_digit d = true → 0 ≤ acc → 0 ≤ digits_value acc d.
Proof.
  revert acc. induction d as [|c d IH]; intros acc; simpl; [done|]. intros [Hc Hd]%andb_true_iff Ha.
  apply IH; [done|]. unfold is_digit in Hc. lia.
Qed.

Lemma take_digits_all text : string_all is_digit (take_digits text).1 = true.
Proof.
  induction text as [|c text IH]; simpl; [done|]. destruct (is_digit c) eqn:E; [|done].
  destruct (take_digits text); simpl in *. by rewrite E.
Qed.

Lemma parse_integer_digits text :
  outcome (λ p, string_all is_digit p.1 = true) (parse_integer_part text).
Proof.
  destruct text as [|c text]; simpl; auto. destruct (_ =? 48).
  - destruct text as [|c' text]; [done|]. destruct (is_digit c'); auto. done.
  - destruct (_ && _); auto. exact (take_digits_all (String c text)).
Qed.

Lemma parse_number_bound text d :
  d ≤ jl_max_depth limits → outcome (λ p, json_within d p.1 = true ∧ json_nodes p.1 = 1) (parse_number text).
Proof.
  intros Hd%Z.leb_le. unfold parse_number.
  destruct (match consume _ text with Some _ => _ | None => _ end) as [neg t].
  eapply outcome_bind; [apply parse_integer_digits|]. intros [whole t1] Hw. simpl in Hw.
  apply outcome_bind with (P := λ _, True).
  { unfold parse_fraction. destruct (consume _ _); [|done]. destruct (take_digits _).
    case_bool_decide; [apply outcome_protocol|done]. }
  intros [frac t2] _. apply outcome_bind with (P := λ _, True).
  { unfold parse_exponent. repeat case_match; by auto. }
  intros [ex t3] _. cbv zeta. pose proof (digits_value_nonneg whole 0 Hw ltac:(lia)) as Hpos.
  destruct (_ && (_ <=? - _)) eqn:E1; [|destruct (_ && (_ <=? int_max u64)) eqn:E2; [|destruct (is_finite _) eqn:E3; auto]];
    simpl; rewrite Hd; (split; [|done]).
  - apply andb_true_iff in E1 as [_ E1]. change (int_min i64) with (-9223372036854775808) in *.
    change (int_max i64) with 9223372036854775807. simpl. lia.
  - apply andb_true_iff in E2 as [_ E2]. simpl. lia.
  - done.
Qed.

(** *** The three parsers *)

Definition items_within (depth : Z) (l : list json) : Prop :=
  zlength l ≤ jl_max_container_entries limits ∧ forallb (json_within (depth + 1)) l = true.
Definition members_within (depth : Z) (m : list (string * json)) : Prop :=
  zlength m ≤ jl_max_container_entries limits ∧ NoDup m.*1 ∧
  forallb (λ p, (string_length p.1 <=? jl_max_string_bytes limits) && json_within (depth + 1) p.2) m = true.

(** [base] nodes were counted before the value the step is inside of. *)
Definition accepts (depth base : Z) (p : parsed json) : Prop :=
  match p with
  | None => True
  | Some r => outcome (λ '(v, _, k), json_within depth v = true ∧ k = base + json_nodes v ∧ k ≤ jl_max_nodes limits) r
  end.

Record bounded (fuel : nat) : Prop := {
  bo_value : ∀ d n t, accepts d n (parse_value limits fuel d n t);
  bo_members : ∀ d n m t, d ≤ jl_max_depth limits → n ≤ jl_max_nodes limits → members_within d m →
    accepts d (n - 1 - members_nodes m) (parse_members limits fuel d n m t);
  bo_items : ∀ d n l t, d ≤ jl_max_depth limits → n ≤ jl_max_nodes limits → items_within d l →
    accepts d (n - 1 - items_nodes l) (parse_items limits fuel d n l t);
}.

Lemma accepts_then d base d' base' p k :
  accepts d' base' p →
  (∀ v t n, json_within d' v = true → n = base' + json_nodes v → n ≤ jl_max_nodes limits → accepts d base (k v t n)) →
  accepts d base (then_parse p k).
Proof. destruct p as [[[[v t] n]|err]|]; simpl; [|done..]. intros (Hv & Hn & Hm) Hk. by apply Hk. Qed.

Lemma accepts_lift d n nodes (r : result (json * string)) :
  nodes = n + 1 → nodes ≤ jl_max_nodes limits →
  outcome (λ p, json_within d p.1 = true ∧ json_nodes p.1 = 1) r → accepts d n (lift_step nodes r).
Proof. intros -> Hn. destruct r as [[v t]|err]; simpl; [|done]. intros [Hv ->]. done. Qed.

Lemma accepts_err d n r : outcome (λ _, False) r → accepts d n (Some r).
Proof. destruct r; done. Qed.

Lemma items_nodes_snoc l x : items_nodes (l ++ [x]) = items_nodes l + json_nodes x.
Proof. induction l as [|y l IH]; simpl; [lia|]. unfold items_nodes in *. simpl. lia. Qed.
Lemma members_nodes_snoc m k x : members_nodes (m ++ [(k, x)]) = members_nodes m + json_nodes x.
Proof. induction m as [|y m IH]; simpl; [lia|]. unfold members_nodes in *. simpl. lia. Qed.

Lemma accepts_array d l rest n :
  d ≤ jl_max_depth limits → n ≤ jl_max_nodes limits → items_within d l →
  accepts d (n - 1 - items_nodes l) (Some (Ok (JArray l, rest, n))).
Proof.
  intros Hd%Z.leb_le Hn [Hz%Z.leb_le Hl]. simpl. rewrite Hd, Hz, Hl. split_and!; [done| |done].
  fold (items_nodes l). lia.
Qed.

Lemma accepts_object d m rest n :
  d ≤ jl_max_depth limits → n ≤ jl_max_nodes limits → members_within d m →
  accepts d (n - 1 - members_nodes m) (Some (Ok (JObject m, rest, n))).
Proof.
  intros Hd%Z.leb_le Hn (Hz%Z.leb_le & Hk & Hm). simpl. rewrite Hd, Hz, Hm, bool_decide_true by done.
  split_and!; [done| |done]. fold (members_nodes m). lia.
Qed.

Lemma members_within_snoc d m key v :
  members_within d m → zlength m < jl_max_container_entries limits →
  existsb (λ p : string * json, bool_decide (p.1 = key)) m = false →
  string_length key ≤ jl_max_string_bytes limits → json_within (d + 1) v = true →
  members_within d (m ++ [(key, v)]).
Proof.
  intros (_ & Hk & Hm) Hz He Hs%Z.leb_le Hv. unfold members_within.
  rewrite zlength_app, zlength_cons, zlength_nil, forallb_app, Hm, fmap_app, NoDup_app. simpl. rewrite Hs, Hv.
  split_and!; [lia|done| |apply NoDup_singleton|done].
  intros k Hin ->%list_elem_of_singleton. apply list_elem_of_fmap in Hin as ([k' v'] & -> & Hin).
  apply not_true_iff_false in He. apply He, existsb_exists. exists (k', v'). split; [by apply list_elem_of_In|].
  by apply bool_decide_eq_true.
Qed.

Hypothesis Hlimits : limits_wf limits = true.

Lemma string_limit_nonneg : 0 ≤ jl_max_string_bytes limits.
Proof. unfold limits_wf in Hlimits. simpl in Hlimits. lia. Qed.

Lemma literal_bound d literal v text :
  d ≤ jl_max_depth limits → json_within d v = true → json_nodes v = 1 →
  outcome (λ p, json_within d p.1 = true ∧ json_nodes p.1 = 1) (parse_literal literal v text).
Proof. intros. unfold parse_literal. destruct (strip_literal _ _); [done|apply outcome_protocol]. Qed.

Lemma parsers_bounded fuel : bounded fuel.
Proof.
  induction fuel as [|fuel [IHv IHm IHi]]; [by split|]. split.
  - intros d n t. cbn [parse_value]. destruct (_ <? d) eqn:Hd; [by apply accepts_err, outcome_bounds|].
    destruct (_ <? n + 1) eqn:Hn; [by apply accepts_err, outcome_bounds|].
    apply Z.ltb_ge in Hd, Hn. pose proof (proj2 (Z.leb_le _ _) Hd) as Hd'.
    destruct t as [|c t]; [by apply accepts_err, outcome_protocol|]. cbv zeta.
    assert (0 ≤ jl_max_container_entries limits) by (unfold limits_wf in Hlimits; simpl in Hlimits; lia).
    assert (items_within d []) by done.
    assert (members_within d []) by (split_and!; [done|apply NoDup_nil_2|done]).
    replace n with (n + 1 - 1 - items_nodes []) at 1 by (unfold items_nodes; simpl; lia).
    destruct (_ =? 123); [|destruct (_ =? 91)].
    + change (items_nodes []) with (members_nodes []). destruct (consume _ _); [by apply accepts_object|by apply IHm].
    + destruct (consume _ _); [by apply accepts_array|by apply IHi].
    + change (items_nodes []) with 0. replace (n + 1 - 1 - 0) with n by lia.
      destruct (_ =? 34); [|destruct (_ =? 116); [|destruct (_ =? 102); [|destruct (_ =? 110)]]];
        (apply accepts_lift; [done|done|]); [|apply literal_bound; simpl; by rewrite ?Hd'..|by apply parse_number_bound].
      eapply outcome_bind; [apply parse_string_bound, string_limit_nonneg|]. intros [s r] Hs%Z.leb_le. simpl in *.
      by rewrite Hd', Hs.
  - intros d n m t Hd Hn Hm. cbn [parse_members]. cbv zeta.
    destruct (consume kQuote _); [|by apply accepts_err, outcome_protocol].
    pose proof (parse_string_bound (skip_whitespace t) string_limit_nonneg) as Hs.
    destruct (parse_string _ _) as [[key t1]|err]; [|by destruct Hs; [left|right]]. simpl in Hs.
    destruct (_ <=? _) eqn:Hz; [by apply accepts_err, outcome_bounds|]. apply Z.leb_gt in Hz.
    destruct (existsb _ _) eqn:He; [by apply accepts_err, outcome_protocol|].
    destruct (consume ":" _) as [t2|]; [|by apply accepts_err, outcome_protocol].
    eapply accepts_then; [apply IHv|]. intros v t3 n3 Hv -> Hn3.
    pose proof (members_within_snoc _ _ _ _ Hm Hz He Hs Hv) as Hm'.
    replace (n - 1 - members_nodes m) with (n + json_nodes v - 1 - members_nodes (m ++ [(key, v)]))
      by (rewrite members_nodes_snoc; lia).
    destruct (consume "," _); [by apply IHm|]. destruct (consume "}" _); [by apply accepts_object|].
    by apply accepts_err, outcome_protocol.
  - intros d n l t Hd Hn [_ Hl]. cbn [parse_items].
    destruct (_ <=? _) eqn:Hz; [by apply accepts_err, outcome_bounds|]. apply Z.leb_gt in Hz.
    eapply accepts_then; [apply IHv|]. intros v t3 n3 Hv -> Hn3. cbv zeta.
    assert (items_within d (l ++ [v])) as Hl'.
    { split; [rewrite zlength_app, zlength_cons, zlength_nil; lia|]. rewrite forallb_app, Hl. simpl. by rewrite Hv. }
    replace (n - 1 - items_nodes l) with (n + json_nodes v - 1 - items_nodes (l ++ [v]))
      by (rewrite items_nodes_snoc; lia).
    destruct (consume "," _); [by apply IHi|]. destruct (consume "]" _); [by apply accepts_array|].
    by apply accepts_err, outcome_protocol.
Qed.

Lemma json_parse_outcome text :
  ∃ r, json_parse limits text = Some r ∧
    match r with
    | Ok v => json_within 0 v = true ∧ json_nodes v ≤ jl_max_nodes limits
    | Err err => parse_error err
    end.
Proof.
  destruct (json_parse_returns limits text) as [r Hr]. exists r. split; [done|]. unfold json_parse in Hr.
  destruct (_ <? _); [injection Hr as <-; by right|].
  pose proof (bo_value _ (parsers_bounded (parse_fuel text)) 0 0 (skip_whitespace text)) as Ha.
  destruct (parse_value _ _ _ _ _) as [[[[v t] n]|err]|]; simpl in Ha; [|by injection Hr as <-|done].
  destruct Ha as (Hv & Hn & Hm). case_bool_decide; injection Hr as <-; [|by left]. split; [done|lia].
Qed.
End Bounds.

(** ** Reading numbers out of what was parsed *)

Lemma within_find limits depth v key found :
  json_within limits depth v = true → json_find key v = Some found → json_within limits (depth + 1) found = true.
Proof.
  destruct v as [| | | | | | |m]; try done. simpl. intros [_ [_ Hm]%andb_true_iff]%andb_true_iff.
  induction m as [|[k x] m IH]; simpl; [done|]. apply andb_true_iff in Hm as [[_ Hx]%andb_true_iff Hm].
  destruct (String.eqb k key); [by intros [= <-]|by apply IH].
Qed.

Lemma as_uint_range limits depth v fallback :
  json_within limits depth v = true → in_range u64 fallback → in_range u64 (as_uint fallback v).
Proof.
  intros Hv Hf. destruct v; simpl in *; try done; apply andb_true_iff in Hv as [_ [H1%Z.leb_le H2%Z.leb_le]%andb_true_iff]; [|by split].
  destruct (Z.leb_spec 0 z); [|done]. split; [done|]. change (int_max u64) with 18446744073709551615.
  change (int_max i64) with 9223372036854775807 in H2. lia.
Qed.

Lemma get_uint_range limits depth v key fallback :
  json_within limits depth v = true → in_range u64 fallback → in_range u64 (get_uint key fallback v).
Proof.
  intros Hv Hf. unfold get_uint. destruct (json_find key v) as [found|] eqn:E; [|done].
  eapply as_uint_range; [|done]. by eapply within_find.
Qed.
