(* ===== verification/JsonCanonical.v ===== *)
(** * JSON: the signedness a text does not keep

    A text holds an integer and not the type it was written from: the writer prints
    [JsonValue(7)] and [JsonValue(7u)] as the same ["7"], and [parse_number] reads
    every text without a minus sign as unsigned.  [canonical] is the value that
    comes back.  It is written as the same text, holds the same integers, and is
    the value itself where no signed integer is non-negative. *)

From S2P Require Import Prelude Containers Checked Result Text Json JsonFacts JsonText JsonBounds.
#[local] Open Scope Z_scope.

Fixpoint canonical (v : json) : json :=
  match v with
  | JInt z => if 0 <=? z then JUint z else JInt z
  | JArray l => JArray (List.map canonical l)
  | JObject m => JObject (List.map (λ p, (p.1, canonical p.2)) m)
  | _ => v
  end.

(** A value that is read back with the types it was written with. *)
Fixpoint negative_ints (v : json) : bool :=
  match v with
  | JInt z => z <? 0
  | JArray l => forallb negative_ints l
  | JObject m => forallb (λ p, negative_ints p.2) m
  | _ => true
  end.

Fixpoint no_reals (v : json) : bool :=
  match v with
  | JReal _ => false
  | JArray l => forallb no_reals l
  | JObject m => forallb (λ p, no_reals p.2) m
  | _ => true
  end.

Lemma map_same {A} (f : A → A) l : Forall (λ x, f x = x) l → List.map f l = l.
Proof. induction 1 as [|x l Hx _ IH]; simpl; [done|by rewrite Hx, IH]. Qed.

Lemma map_map_same {A B} (f : A → A) (g : A → B) l : Forall (λ x, g (f x) = g x) l → List.map g (List.map f l) = List.map g l.
Proof. induction 1 as [|x l Hx _ IH]; simpl; [done|by rewrite Hx, IH]. Qed.

Lemma Forall_forallb {A} (P : A → Prop) (f : A → bool) l :
  Forall (λ x, f x = true → P x) l → forallb f l = true → Forall P l.
Proof. induction 1; simpl; [constructor|]. intros [? ?]%andb_true_iff. constructor; auto. Qed.

Lemma canonical_id v : negative_ints v = true → canonical v = v.
Proof.
  induction v as [|b|z|z|f|s|l IH|m IH] using json_rect'; simpl; try done.
  - intros Hz%Z.ltb_lt. destruct (Z.leb_spec 0 z); [lia|done].
  - intros Hl. f_equal. by apply map_same, (Forall_forallb _ negative_ints).
  - intros Hm. f_equal. apply map_same, (Forall_forallb _ (λ p, negative_ints p.2)); [|done].
    eapply Forall_impl; [exact IH|]. intros [k v] Hv Hn. simpl in *. by rewrite Hv.
Qed.

Lemma canonical_negative v : negative_ints (canonical v) = true.
Proof.
  induction v as [|b|z|z|f|s|l IH|m IH] using json_rect'; simpl; try done.
  - destruct (Z.leb_spec 0 z); simpl; [done|]. by apply Z.ltb_lt.
  - induction IH as [|x l Hx _ IHl]; simpl; [done|]. by rewrite Hx.
  - induction IH as [|x l Hx _ IHl]; simpl; [done|]. by rewrite Hx.
Qed.

(** ** The text is the same *)

Lemma dump_into_canonical indent v : ∀ d, dump_into indent d (canonical v) = dump_into indent d v.
Proof.
  induction v as [|b|z|z|f|s|l IH|m IH] using json_rect'; intros d; try done.
  - simpl. by destruct (0 <=? z).
  - assert (List.map (dump_into indent (d + 1)) (List.map canonical l) = List.map (dump_into indent (d + 1)) l) as E
      by (apply map_map_same; eapply Forall_impl; [exact IH|]; auto).
    destruct l as [|x l]; [done|]. cbn [canonical List.map dump_into] in *. by rewrite E.
  - assert (List.map (λ p, json_escape p.1 ++s colon indent ++s dump_into indent (d + 1) p.2)
              (List.map (λ p, (p.1, canonical p.2)) m)
            = List.map (λ p, json_escape p.1 ++s colon indent ++s dump_into indent (d + 1) p.2) m) as E
      by (apply map_map_same; eapply Forall_impl; [exact IH|]; intros p Hp; simpl; by rewrite Hp).
    destruct m as [|x m]; [done|]. cbn [canonical List.map dump_into] in *. by rewrite E.
Qed.

Lemma dump_canonical indent v : dump indent (canonical v) = dump indent v.
Proof. apply dump_into_canonical. Qed.

(** ** So are the size and the integers *)

Lemma json_nodes_canonical v : json_nodes (canonical v) = json_nodes v.
Proof.
  induction v as [|b|z|z|f|s|l IH|m IH] using json_rect'; try done.
  - cbn [canonical]. by destruct (0 <=? z).
  - cbn [canonical json_nodes]. f_equal. induction IH as [|x l Hx _ IHl]; simpl; [done|]. by rewrite Hx, IHl.
  - cbn [canonical json_nodes]. f_equal. induction IH as [|x l Hx _ IHl]; simpl; [done|]. by rewrite Hx, IHl.
Qed.

Lemma as_uint_canonical fallback v : as_uint fallback (canonical v) = as_uint fallback v.
Proof. destruct v as [|b|z|z|f|s|l|m]; simpl; try done. destruct (Z.leb_spec 0 z); simpl; [done|]. by rewrite (proj2 (Z.leb_gt _ _)). Qed.

Lemma as_int_canonical fallback v :
  (∀ z, v = JInt z → z ≤ int_max i64) → as_int fallback (canonical v) = as_int fallback v.
Proof.
  destruct v as [|b|z|z|f|s|l|m]; simpl; try done. intros Hz.
  destruct (Z.leb_spec 0 z); simpl; [|done]. by rewrite (proj2 (Z.leb_le _ _) (Hz z eq_refl)).
Qed.

Lemma keys_canonical (m : list (string * json)) : fst <$> List.map (λ p, (p.1, canonical p.2)) m = m.*1.
Proof. induction m as [|[k v] m IH]; simpl; [done|]. by f_equal. Qed.

(** Within the limits and free of reals, a value is read back as its canonical
    form. *)
Lemma within_fits limits v :
  no_reals v = true → ∀ d, json_within limits d v = true → json_fits limits d (canonical v) = true.
Proof.
  induction v as [|b|z|z|f|s|l IH|m IH] using json_rect'; try done.
  - intros _ d. cbn [json_within]. intros [Hd Hz]%andb_true_iff. simpl. change (int_max i64) with (2 ^ 63 - 1) in Hz.
    destruct (Z.leb_spec 0 z); cbn [json_fits]; rewrite Hd; apply andb_true_iff; split; [done| |done|];
      apply andb_true_iff in Hz as [H1%Z.leb_le H2%Z.leb_le]; change (int_max u64) with (2 ^ 64 - 1); lia.
  - intros Hr d [Hd [Hl Hf]%andb_true_iff]%andb_true_iff. cbn [canonical json_fits]. rewrite Hd, zlength_map, Hl. simpl in *.
    clear Hd Hl. induction IH as [|x l Hx _ IHl]; simpl in *; [done|].
    apply andb_true_iff in Hr as [Hr1 Hr2]. apply andb_true_iff in Hf as [Hf1 Hf2]. rewrite Hx by done. auto.
  - intros Hr d [Hd [[Hl Hk]%andb_true_iff Hf]%andb_true_iff]%andb_true_iff. cbn [canonical json_fits].
    rewrite Hd, zlength_map, Hl, keys_canonical, Hk. simpl in *. clear Hd Hl Hk.
    induction IH as [|x m Hx _ IHm]; simpl in *; [done|].
    apply andb_true_iff in Hr as [Hr1 Hr2]. apply andb_true_iff in Hf as [[Hs Hf1]%andb_true_iff Hf2].
    rewrite Hs, Hx by done. auto.
Qed.

Lemma json_dump_parse_canonical limits indent v :
  json_within limits 0 v = true → no_reals v = true → json_nodes v ≤ jl_max_nodes limits →
  string_length (dump indent v) ≤ jl_max_total_bytes limits →
  json_parse limits (dump indent v) = Some (Ok (canonical v)).
Proof.
  intros Hw Hr Hn Hs. rewrite <- dump_canonical in *. apply json_dump_parse; [by apply within_fits| |done].
  by rewrite json_nodes_canonical.
Qed.
