(* ===== verification/Identity.v ===== *)
(** * Identities and drain targets

    [include/drain/identity.hpp] and [src/identity.cpp].  Slug identities are
    strings and numeric identities are integers; the C++ tag parameters only
    separate them at compile time, so here they are notations. *)

From Stdlib Require Import Ascii.
From S2P Require Import Prelude Containers Checked Result Text.

Notation ResourceId := string (only parsing).
Notation DomainId := string (only parsing).
Notation HolderId := string (only parsing).
Notation GroupId := string (only parsing).
Notation ServiceId := string (only parsing).
Notation NodeId := string (only parsing).

Notation DrainId := Z (only parsing).
Notation DrainSetId := Z (only parsing).
Notation ObligationId := Z (only parsing).
Notation Attempt := Z (only parsing).
Notation Generation := Z (only parsing).
Notation Epoch := Z (only parsing).
Notation IncarnationId := Z (only parsing).
Notation AuthorityId := Z (only parsing).
Notation EvidenceSeq := Z (only parsing).
Notation Revision := Z (only parsing).
Notation RequestNonce := Z (only parsing).

(** Nanoseconds since the clock's epoch, a signed 64-bit count. *)
Notation TimePoint := Z (only parsing).
Notation Duration := Z (only parsing).

Definition kMaxSlugLength : Z := 128.
Definition kMaxTargetsPerRequest : Z := 256.

(** [NumId::next]: wraps at the representation's width. *)
Definition next_id (v : Z) : Z := wrap u64 (v + 1).

(** ** Slugs *)

Definition is_slug_char (ch : Ascii.ascii) : bool :=
  let c := char_code ch in
  if (65 <=? c) && (c <=? 90) then true
  else if (97 <=? c) && (c <=? 122) then true
  else if (48 <=? c) && (c <=? 57) then true
  else (c =? 95) || (c =? 46) || (c =? 58) || (c =? 45).

Definition is_valid_slug (text : string) : bool :=
  if bool_decide (text = "") || (kMaxSlugLength <? Z.of_nat (String.length text)) then false
  else string_all is_slug_char text.

(** [SlugId::parse]. *)
Definition slug_parse (text : string) : option string :=
  if negb (is_valid_slug text) then None else Some text.

(** ** Targets *)

(** [drain::TargetKind]. *)
Module TargetKind.
Inductive t : Set :=
  | Port | Link | Switch | Path | Service | Resource.

#[export] Instance t_eq_dec : EqDecision t.
Proof. solve_decision. Defined.

(** [static_cast<std::uint8_t>]: the enumerator's value. *)
Definition rank (x : t) : Z :=
  match x with
  | Port => 0 | Link => 1 | Switch => 2 | Path => 3 | Service => 4 | Resource => 5
  end.

Definition to_string (x : t) : string :=
  match x with
  | Port => "port"
  | Link => "link"
  | Switch => "switch"
  | Path => "path"
  | Service => "service"
  | Resource => "resource"
  end.

Lemma target_rank_inj x y : rank x = rank y → x = y.
Proof. by destruct x, y. Qed.

End TargetKind.
Export (hints) TargetKind.

Definition target_kind_from_string (text : string) : option TargetKind.t :=
  if bool_decide (text = "port") then Some TargetKind.Port
  else if bool_decide (text = "link") then Some TargetKind.Link
  else if bool_decide (text = "switch") then Some TargetKind.Switch
  else if bool_decide (text = "path") then Some TargetKind.Path
  else if bool_decide (text = "service") then Some TargetKind.Service
  else if bool_decide (text = "resource") then Some TargetKind.Resource
  else None.

(** [drain::DrainTarget]. *)
Record DrainTarget := MkTarget {
  tg_kind : TargetKind.t;
  tg_id : ResourceId;
  tg_domain : DomainId;
}.

#[export] Instance DrainTarget_eq_dec : EqDecision DrainTarget.
Proof. solve_decision. Defined.

(** The defaulted [operator<=>], memberwise in declaration order: the key order
    of every [std::map] over targets. *)
Definition target_key (t : DrainTarget) : Z * (string * string) :=
  (TargetKind.rank (tg_kind t), (tg_id t, tg_domain t)).
#[export] Instance target_ord : Ord DrainTarget := λ a b, ltb (target_key a) (target_key b).

(** [DrainTarget::to_string]. *)
Definition target_to_string (t : DrainTarget) : string :=
  TargetKind.to_string (tg_kind t) ++s ":" ++s tg_id t ++s "@" ++s tg_domain t.

(** [DrainTarget::parse]. *)
Definition target_parse (text : string) : option DrainTarget :=
  match find_char ":"%char text with
  | None => None
  | Some sep =>
      let kind_text := String.substring 0 sep text in
      let rest := substr_from (sep + 1) text in
      let '(id_text, domain_text) :=
        match find_char "@"%char rest with
        | Some at_ => (String.substring 0 at_ rest, substr_from (at_ + 1) rest)
        | None => (rest, "")
        end in
      match target_kind_from_string kind_text with
      | None => None
      | Some kind =>
          match slug_parse id_text with
          | None => None
          | Some id =>
              if negb (bool_decide (domain_text = "")) then
                match slug_parse domain_text with
                | None => None
                | Some domain => Some (MkTarget kind id domain)
                end
              else Some (MkTarget kind id "")
          end
      end
  end.

(** [drain::target_order_less]: failure domain, then kind rank, then identity. *)
Definition target_order_less (a b : DrainTarget) : bool :=
  if negb (bool_decide (tg_domain a = tg_domain b)) then ltb (tg_domain a) (tg_domain b)
  else
    let ak := TargetKind.rank (tg_kind a) in
    let bk := TargetKind.rank (tg_kind b) in
    if negb (ak =? bk) then ak <? bk else ltb (tg_id a) (tg_id b).

(** ** Facts *)

#[export] Instance target_key_inj : Inj (=) (=) target_key.
Proof. intros [k1 i1 d1] [k2 i2 d2] [= Hk -> ->]. by apply TargetKind.target_rank_inj in Hk as ->. Qed.

#[export] Instance target_strict : StrictOrd DrainTarget := strict_ord_inj target_key.

Definition order_key (t : DrainTarget) : string * (Z * string) :=
  (tg_domain t, (TargetKind.rank (tg_kind t), tg_id t)).

#[export] Instance order_key_inj : Inj (=) (=) order_key.
Proof. intros [k1 i1 d1] [k2 i2 d2] [= -> Hk ->]. by apply TargetKind.target_rank_inj in Hk as ->. Qed.

(** The chain of comparisons is the lexicographic order on the three keys. *)
Lemma target_order_less_lex a b : target_order_less a b = ltb (order_key a) (order_key b).
Proof.
  apply eq_true_iff_eq. rewrite pair_ltb_true, pair_ltb_true. unfold target_order_less; simpl.
  change (ltb (TargetKind.rank (tg_kind a)) (TargetKind.rank (tg_kind b)))
    with (TargetKind.rank (tg_kind a) <? TargetKind.rank (tg_kind b)).
  case_bool_decide as D; simpl.
  - rewrite D, ltb_irrefl. destruct (Z.eqb_spec (TargetKind.rank (tg_kind a)) (TargetKind.rank (tg_kind b))) as [E|E]; simpl.
    + rewrite E, Z.ltb_irrefl. naive_solver.
    + naive_solver.
  - naive_solver.
Qed.

Definition order_less_ord : Ord DrainTarget := target_order_less.

(** [target_order_less] is a strict total order, as [std::sort] requires, and
    it identifies only equal targets. *)
Lemma order_less_strict : @StrictOrd DrainTarget order_less_ord.
Proof.
  split; unfold ltb, order_less_ord.
  - intros x. rewrite target_order_less_lex. apply ltb_irrefl.
  - intros x y z. rewrite !target_order_less_lex. apply ltb_trans.
  - intros x y. rewrite !target_order_less_lex. intros ??. apply (inj order_key). by apply ltb_total.
Qed.

Lemma target_kind_roundtrip k : target_kind_from_string (TargetKind.to_string k) = Some k.
Proof. by destruct k. Qed.

Lemma slug_char_not_at s :
  string_all is_slug_char s = true → string_all (λ x, negb (bool_decide (x = "@"%char))) s = true.
Proof.
  induction s as [|c s IH]; simpl; [done|]. intros [Hc Hs]%andb_true_iff. rewrite IH by done.
  rewrite andb_true_r. apply negb_true_iff, bool_decide_eq_false. by intros ->.
Qed.

Lemma is_valid_slug_chars s : is_valid_slug s = true → string_all is_slug_char s = true.
Proof. unfold is_valid_slug. by case_match. Qed.

Lemma slug_parse_Some s t : slug_parse s = Some t ↔ t = s ∧ is_valid_slug s = true.
Proof. unfold slug_parse. destruct (is_valid_slug s); naive_solver. Qed.

(** A target whose identity is a slug and whose domain is empty or a slug, as
    every target that passed a parser is. *)
Definition target_wf (t : DrainTarget) : Prop :=
  is_valid_slug (tg_id t) = true ∧ (tg_domain t = "" ∨ is_valid_slug (tg_domain t) = true).
#[export] Instance target_wf_dec t : Decision (target_wf t).
Proof. unfold target_wf. apply _. Defined.

Lemma target_parse_to_string t :
  target_wf t → target_parse (target_to_string t) = Some t.
Proof.
  destruct t as [k id dom]. intros [Hid Hdom]; simpl in *. unfold target_parse, target_to_string; simpl.
  change (":" ++s id ++s "@" ++s dom) with (String ":"%char (id ++s "@" ++s dom)).
  rewrite find_char_app by by destruct k.
  rewrite substring_prefix, substr_from_app.
  change ("@" ++s dom) with (String "@"%char dom).
  rewrite find_char_app by by apply slug_char_not_at, is_valid_slug_chars.
  rewrite substring_prefix, substr_from_app, target_kind_roundtrip.
  unfold slug_parse. rewrite Hid; simpl. destruct Hdom as [->|Hd]; [done|].
  rewrite Hd. by case_bool_decide as E; [subst|].
Qed.

(** Parsing only ever produces well-formed targets. *)
Lemma target_parse_wf text t : target_parse text = Some t → target_wf t.
Proof.
  unfold target_parse. intros Hp. repeat case_match; simplify_eq;
    repeat match goal with H : slug_parse _ = Some _ |- _ => apply slug_parse_Some in H as [-> ?] end;
    split; simpl; auto.
Qed.
