(* ===== verification/Lifecycle.v ===== *)
(** * Drain lifecycle

    [include/drain/lifecycle.hpp] and [src/lifecycle.cpp]: the lifecycle states
    with their legality table, blockers, and the drain record with its mutators. *)

From S2P Require Import Prelude Containers Checked Result Text Identity.

(** [drain::DrainState]. *)
Module DrainState.
Inductive t : Set :=
  | Requested | Validating | AdmissionClosed | Evacuating | Quiescing | Verifying | Drained
  | Blocked | Cancelled | Failed | Restoring.

#[export] Instance t_eq_dec : EqDecision t.
Proof. solve_decision. Defined.

(** [static_cast<std::uint8_t>]: the enumerator's value. *)
Definition rank (x : t) : Z :=
  match x with
  | Requested => 0 | Validating => 1 | AdmissionClosed => 2 | Evacuating => 3 | Quiescing => 4
  | Verifying => 5 | Drained => 6 | Blocked => 7 | Cancelled => 8 | Failed => 9
  | Restoring => 10
  end.

Definition to_string (x : t) : string :=
  match x with
  | Requested => "requested"
  | Validating => "validating"
  | AdmissionClosed => "admission-closed"
  | Evacuating => "evacuating"
  | Quiescing => "quiescing"
  | Verifying => "verifying"
  | Drained => "drained"
  | Blocked => "blocked"
  | Cancelled => "cancelled"
  | Failed => "failed"
  | Restoring => "restoring"
  end.

End DrainState.
Export (hints) DrainState.

Definition drain_state_from_string (text : string) : option DrainState.t :=
  if bool_decide (text = "requested") then Some DrainState.Requested
  else if bool_decide (text = "validating") then Some DrainState.Validating
  else if bool_decide (text = "admission-closed") then Some DrainState.AdmissionClosed
  else if bool_decide (text = "evacuating") then Some DrainState.Evacuating
  else if bool_decide (text = "quiescing") then Some DrainState.Quiescing
  else if bool_decide (text = "verifying") then Some DrainState.Verifying
  else if bool_decide (text = "drained") then Some DrainState.Drained
  else if bool_decide (text = "blocked") then Some DrainState.Blocked
  else if bool_decide (text = "cancelled") then Some DrainState.Cancelled
  else if bool_decide (text = "failed") then Some DrainState.Failed
  else if bool_decide (text = "restoring") then Some DrainState.Restoring
  else None.

Definition is_settled (state : DrainState.t) : bool :=
  bool_decide (state = DrainState.Drained) || bool_decide (state = DrainState.Cancelled)
  || bool_decide (state = DrainState.Failed).

Definition is_active (state : DrainState.t) : bool := negb (is_settled state).

(** [drain::is_legal_drain_transition]. *)
Definition is_legal_drain_transition (from to : DrainState.t) : bool :=
  if bool_decide (from = to) then true
  else
    match from, to with
    | DrainState.Requested,
      (DrainState.Validating | DrainState.Blocked | DrainState.Cancelled | DrainState.Failed) => true
    | DrainState.Validating,
      (DrainState.AdmissionClosed | DrainState.Blocked | DrainState.Cancelled | DrainState.Failed) => true
    | DrainState.AdmissionClosed,
      (DrainState.Evacuating | DrainState.Quiescing | DrainState.Blocked | DrainState.Cancelled
      | DrainState.Failed) => true
    | DrainState.Evacuating,
      (DrainState.Quiescing | DrainState.Blocked | DrainState.Cancelled | DrainState.Failed) => true
    | DrainState.Quiescing,
      (DrainState.Verifying | DrainState.Evacuating | DrainState.Blocked | DrainState.Cancelled
      | DrainState.Failed) => true
    | DrainState.Verifying,
      (DrainState.Drained | DrainState.Quiescing | DrainState.Blocked | DrainState.Cancelled
      | DrainState.Failed) => true
    | DrainState.Blocked,
      (DrainState.Requested | DrainState.Validating | DrainState.AdmissionClosed
      | DrainState.Evacuating | DrainState.Quiescing | DrainState.Verifying | DrainState.Cancelled
      | DrainState.Failed | DrainState.Restoring) => true
    | DrainState.Cancelled, (DrainState.Restoring | DrainState.Failed) => true
    | DrainState.Failed, (DrainState.Restoring | DrainState.Cancelled) => true
    | DrainState.Restoring, (DrainState.Cancelled | DrainState.Failed | DrainState.Blocked) => true
    | DrainState.Drained, DrainState.Restoring => true
    | _, _ => false
    end.

(** [drain::BlockerCode]. *)
Module BlockerCode.
Inductive t : Set :=
  | AdmissionFenceMissing | ProtectedObligationActive | ObligationGraceExpired
  | ReleaseEvidenceMissing | ReleaseEvidenceStale | DomainLimitReached
  | CorrelatedDrainConflict | CapacityInsufficient | RedundancyViolation
  | PathDiversityViolation | AlternatePathLost | AuthorityInvalid | GenerationSuperseded
  | EvacuationAttemptsExhausted | ObligationReappeared | RestartRecoveryPending
  | TopologyInconsistent | PolicyRevisionMismatch | SetPredecessorPending | ObligationFailed
  | QuiescenceEvidenceMissing.

#[export] Instance t_eq_dec : EqDecision t.
Proof. solve_decision. Defined.

(** [static_cast<std::uint8_t>]: the enumerator's value. *)
Definition rank (x : t) : Z :=
  match x with
  | AdmissionFenceMissing => 0 | ProtectedObligationActive => 1 | ObligationGraceExpired => 2
  | ReleaseEvidenceMissing => 3 | ReleaseEvidenceStale => 4 | DomainLimitReached => 5
  | CorrelatedDrainConflict => 6 | CapacityInsufficient => 7 | RedundancyViolation => 8
  | PathDiversityViolation => 9 | AlternatePathLost => 10 | AuthorityInvalid => 11
  | GenerationSuperseded => 12 | EvacuationAttemptsExhausted => 13 | ObligationReappeared => 14
  | RestartRecoveryPending => 15 | TopologyInconsistent => 16 | PolicyRevisionMismatch => 17
  | SetPredecessorPending => 18 | ObligationFailed => 19 | QuiescenceEvidenceMissing => 20
  end.

Definition to_string (x : t) : string :=
  match x with
  | AdmissionFenceMissing => "admission-fence-missing"
  | ProtectedObligationActive => "protected-obligation-active"
  | ObligationGraceExpired => "obligation-grace-expired"
  | ReleaseEvidenceMissing => "release-evidence-missing"
  | ReleaseEvidenceStale => "release-evidence-stale"
  | DomainLimitReached => "domain-limit-reached"
  | CorrelatedDrainConflict => "correlated-drain-conflict"
  | CapacityInsufficient => "capacity-insufficient"
  | RedundancyViolation => "redundancy-violation"
  | PathDiversityViolation => "path-diversity-violation"
  | AlternatePathLost => "alternate-path-lost"
  | AuthorityInvalid => "authority-invalid"
  | GenerationSuperseded => "generation-superseded"
  | EvacuationAttemptsExhausted => "evacuation-attempts-exhausted"
  | ObligationReappeared => "obligation-reappeared"
  | RestartRecoveryPending => "restart-recovery-pending"
  | TopologyInconsistent => "topology-inconsistent"
  | PolicyRevisionMismatch => "policy-revision-mismatch"
  | SetPredecessorPending => "set-predecessor-pending"
  | ObligationFailed => "obligation-failed"
  | QuiescenceEvidenceMissing => "quiescence-evidence-missing"
  end.

End BlockerCode.
Export (hints) BlockerCode.

(** [drain::Blocker]. *)
Record Blocker := MkBlocker {
  bk_code : BlockerCode.t;
  bk_subject : string;
  bk_detail : string;
  bk_since : TimePoint;
  bk_deadline : TimePoint;
}.

#[export] Instance Blocker_eq_dec : EqDecision Blocker.
Proof. solve_decision. Defined.

#[export] Instance eta_Blocker : Eta Blocker := λ r,
  MkBlocker
    (bk_code r) (bk_subject r) (bk_detail r) (bk_since r) (bk_deadline r).
#[export] Instance upd_bk_since : Update bk_since := ltac:(solve_update bk_since).
Arguments upd_bk_since f r /.

(** [operator==] and [operator<] compare the code and the subject only. *)
Definition blocker_eqb (a b : Blocker) : bool :=
  bool_decide (bk_code a = bk_code b) && bool_decide (bk_subject a = bk_subject b).
Definition blocker_ltb (a b : Blocker) : bool :=
  if negb (bool_decide (bk_code a = bk_code b))
  then BlockerCode.rank (bk_code a) <? BlockerCode.rank (bk_code b)
  else ltb (bk_subject a) (bk_subject b).

(** [drain::describe_time]. *)
Definition describe_time (point : TimePoint) : string := decimal point ++s "ns".

(** [drain::describe_duration]; the magnitude is taken in the unsigned type. *)
Definition describe_duration (nanos : Duration) : string :=
  let out := decimal nanos ++s "ns" in
  if (1000000 <=? nanos) || (nanos <=? -1000000) then
    let magnitude := wrap u64 (if nanos <? 0 then - nanos else nanos) in
    let millis := magnitude / 1000000 in
    let micros := (magnitude mod 1000000) / 1000 in
    let fraction := decimal micros in
    out ++s " (" ++s (if nanos <? 0 then "-" else "") ++s decimal millis ++s "."
        ++s String.concat "" (replicate (3 - Nat.min 3 (String.length fraction)) "0") ++s fraction ++s "ms)"
  else out.

(** [Blocker::render]. *)
Definition blocker_render (b : Blocker) : string :=
  BlockerCode.to_string (bk_code b) ++s " subject=" ++s bk_subject b
  ++s " since=" ++s describe_time (bk_since b)
  ++s (if negb (bk_deadline b =? 0) then " deadline=" ++s describe_time (bk_deadline b) else "")
  ++s (if negb (bool_decide (bk_detail b = "")) then " detail=" ++s bk_detail b else "").

(** [drain::DrainRecord]. *)
Record DrainRecord := MkDrainRecord {
  dr_id : DrainId;
  dr_set : DrainSetId;
  dr_target : DrainTarget;
  dr_generation : Generation;
  dr_restore_generation : Generation;
  dr_attempt : Attempt;
  dr_revision : Revision;
  dr_state : DrainState.t;
  dr_blocked_from : option DrainState.t;
  dr_authority : AuthorityId;
  dr_node : NodeId;
  dr_requested_at : TimePoint;
  dr_state_since : TimePoint;
  dr_admission_closed_at : TimePoint;
  dr_completed_at : TimePoint;
  dr_restored_at : TimePoint;
  dr_last_evacuation_at : TimePoint;
  dr_evacuation_requests : Z;
  dr_remaining_protected : Z;
  dr_completion_digest : Z;
  dr_completion_evidence : EvidenceSeq;
  dr_reason : string;
  dr_terminal_detail : string;
  dr_blockers : list Blocker;
}.

#[export] Instance DrainRecord_eq_dec : EqDecision DrainRecord.
Proof. solve_decision. Defined.

#[export] Instance eta_DrainRecord : Eta DrainRecord := λ r,
  MkDrainRecord
    (dr_id r) (dr_set r) (dr_target r) (dr_generation r) (dr_restore_generation r)
    (dr_attempt r) (dr_revision r) (dr_state r) (dr_blocked_from r) (dr_authority r) (dr_node r)
    (dr_requested_at r) (dr_state_since r) (dr_admission_closed_at r) (dr_completed_at r)
    (dr_restored_at r) (dr_last_evacuation_at r) (dr_evacuation_requests r)
    (dr_remaining_protected r) (dr_completion_digest r) (dr_completion_evidence r) (dr_reason r)
    (dr_terminal_detail r) (dr_blockers r).
#[export] Instance upd_dr_set : Update dr_set := ltac:(solve_update dr_set).
#[export] Instance upd_dr_generation : Update dr_generation := ltac:(solve_update dr_generation).
#[export] Instance upd_dr_restore_generation : Update dr_restore_generation := ltac:(solve_update dr_restore_generation).
#[export] Instance upd_dr_attempt : Update dr_attempt := ltac:(solve_update dr_attempt).
#[export] Instance upd_dr_revision : Update dr_revision := ltac:(solve_update dr_revision).
#[export] Instance upd_dr_state : Update dr_state := ltac:(solve_update dr_state).
#[export] Instance upd_dr_blocked_from : Update dr_blocked_from := ltac:(solve_update dr_blocked_from).
#[export] Instance upd_dr_authority : Update dr_authority := ltac:(solve_update dr_authority).
#[export] Instance upd_dr_node : Update dr_node := ltac:(solve_update dr_node).
#[export] Instance upd_dr_state_since : Update dr_state_since := ltac:(solve_update dr_state_since).
#[export] Instance upd_dr_admission_closed_at : Update dr_admission_closed_at := ltac:(solve_update dr_admission_closed_at).
#[export] Instance upd_dr_completed_at : Update dr_completed_at := ltac:(solve_update dr_completed_at).
#[export] Instance upd_dr_restored_at : Update dr_restored_at := ltac:(solve_update dr_restored_at).
#[export] Instance upd_dr_last_evacuation_at : Update dr_last_evacuation_at := ltac:(solve_update dr_last_evacuation_at).
#[export] Instance upd_dr_evacuation_requests : Update dr_evacuation_requests := ltac:(solve_update dr_evacuation_requests).
#[export] Instance upd_dr_remaining_protected : Update dr_remaining_protected := ltac:(solve_update dr_remaining_protected).
#[export] Instance upd_dr_completion_digest : Update dr_completion_digest := ltac:(solve_update dr_completion_digest).
#[export] Instance upd_dr_completion_evidence : Update dr_completion_evidence := ltac:(solve_update dr_completion_evidence).
#[export] Instance upd_dr_reason : Update dr_reason := ltac:(solve_update dr_reason).
#[export] Instance upd_dr_terminal_detail : Update dr_terminal_detail := ltac:(solve_update dr_terminal_detail).
#[export] Instance upd_dr_blockers : Update dr_blockers := ltac:(solve_update dr_blockers).
Arguments upd_dr_set f r /.
Arguments upd_dr_generation f r /.
Arguments upd_dr_restore_generation f r /.
Arguments upd_dr_attempt f r /.
Arguments upd_dr_revision f r /.
Arguments upd_dr_state f r /.
Arguments upd_dr_blocked_from f r /.
Arguments upd_dr_authority f r /.
Arguments upd_dr_node f r /.
Arguments upd_dr_state_since f r /.
Arguments upd_dr_admission_closed_at f r /.
Arguments upd_dr_completed_at f r /.
Arguments upd_dr_restored_at f r /.
Arguments upd_dr_last_evacuation_at f r /.
Arguments upd_dr_evacuation_requests f r /.
Arguments upd_dr_remaining_protected f r /.
Arguments upd_dr_completion_digest f r /.
Arguments upd_dr_completion_evidence f r /.
Arguments upd_dr_reason f r /.
Arguments upd_dr_terminal_detail f r /.
Arguments upd_dr_blockers f r /.

(** The constructor: revision 1, [Requested], everything else at its default. *)
Definition new_drain_record (id : DrainId) (target : DrainTarget) (generation : Generation)
    (authority : AuthorityId) (at_ : TimePoint) : DrainRecord :=
  MkDrainRecord id 0 target generation 0 0 1 DrainState.Requested None authority ""
    at_ at_ 0 0 0 0 0 0 0 0 "" "" [].

(** The assignments [DrainRecord::transition] makes once its guards passed. *)
Definition moved (next : DrainState.t) (at_ : TimePoint) (detail : string) (r : DrainRecord)
  : DrainRecord :=
  let r :=
    if bool_decide (next = DrainState.Blocked) then r <| dr_blocked_from := Some (dr_state r) |>
    else if bool_decide (dr_state r = DrainState.Blocked) then
      r <| dr_blocked_from := None |> <| dr_blockers := [] |>
    else r in
  let r := r <| dr_state := next |> in
  let r := r <| dr_state_since := at_ |> in
  let r := r <| dr_revision := next_id (dr_revision r) |> in
  let r := if bool_decide (next = DrainState.AdmissionClosed)
           then r <| dr_admission_closed_at := at_ |> else r in
  let r := if bool_decide (next = DrainState.Drained) || bool_decide (next = DrainState.Cancelled)
              || bool_decide (next = DrainState.Failed)
           then r <| dr_terminal_detail := detail |> else r in
  let r := if bool_decide (next = DrainState.Restoring)
           then r <| dr_terminal_detail := "" |> else r in
  r.

(** [DrainRecord::transition]. *)
Definition transition (next : DrainState.t) (at_ : TimePoint) (detail : string) (r : DrainRecord)
  : status * DrainRecord :=
  if bool_decide (next = dr_state r) then (ok_status, r)
  else if negb (is_legal_drain_transition (dr_state r) next) then
    (fail ErrorCode.IllegalTransition
       ("drain " ++s decimal (dr_id r) ++s " cannot move from " ++s DrainState.to_string (dr_state r)
        ++s " to " ++s DrainState.to_string next), r)
  else if dr_revision r =? int_max u64 then
    (fail ErrorCode.BoundsExceeded ("drain " ++s decimal (dr_id r) ++s " revision space exhausted"), r)
  else (ok_status, moved next at_ detail r).

(** [DrainRecord::set_blockers]: normalised by sort and unique. *)
Definition normalise_blockers (blockers : list Blocker) : list Blocker :=
  unique_by blocker_eqb (sort_by blocker_ltb blockers).
Definition set_blockers (blockers : list Blocker) (r : DrainRecord) : DrainRecord :=
  r <| dr_blockers := normalise_blockers blockers |>.

(** [DrainRecord::record_completion]. *)
Definition record_completion (at_ : TimePoint) (remaining_protected digest : Z)
    (evidence : EvidenceSeq) (r : DrainRecord) : status * DrainRecord :=
  if negb (remaining_protected =? 0) then
    (fail ErrorCode.ProtectedObligationRemains
       ("refusing to complete drain " ++s decimal (dr_id r) ++s ": " ++s decimal remaining_protected
        ++s " protected dependencies remain on " ++s target_to_string (dr_target r)), r)
  else
    (ok_status,
     r <| dr_completed_at := at_ |> <| dr_remaining_protected := remaining_protected |>
       <| dr_completion_digest := digest |> <| dr_completion_evidence := evidence |>).

(** [DrainRecord::note_evacuation_attempt]: an unchecked 32-bit increment. *)
Definition note_evacuation_attempt (at_ : TimePoint) (r : DrainRecord) : DrainRecord :=
  r <| dr_last_evacuation_at := at_ |>
    <| dr_evacuation_requests := wrap u32 (dr_evacuation_requests r + 1) |>.

(** [DrainRecord::mark_restored]. *)
Definition mark_restored (at_ : TimePoint) (reopened_generation : Generation) (r : DrainRecord)
  : DrainRecord :=
  r <| dr_restored_at := at_ |> <| dr_restore_generation := reopened_generation |>.

Definition reset_evacuation_attempts (r : DrainRecord) : DrainRecord :=
  r <| dr_evacuation_requests := 0 |>.

Definition has_blocker (code : BlockerCode.t) (r : DrainRecord) : bool :=
  existsb (λ b, bool_decide (bk_code b = code)) (dr_blockers r).

(** ** Facts *)

Lemma dr_id_moved next at_ detail r : dr_id (moved next at_ detail r) = dr_id r.
Proof. unfold moved. by repeat case_bool_decide. Qed.
Lemma dr_set_moved next at_ detail r : dr_set (moved next at_ detail r) = dr_set r.
Proof. unfold moved. by repeat case_bool_decide. Qed.
Lemma dr_target_moved next at_ detail r : dr_target (moved next at_ detail r) = dr_target r.
Proof. unfold moved. by repeat case_bool_decide. Qed.
Lemma dr_generation_moved next at_ detail r : dr_generation (moved next at_ detail r) = dr_generation r.
Proof. unfold moved. by repeat case_bool_decide. Qed.
Lemma dr_restore_generation_moved next at_ detail r : dr_restore_generation (moved next at_ detail r) = dr_restore_generation r.
Proof. unfold moved. by repeat case_bool_decide. Qed.
Lemma dr_attempt_moved next at_ detail r : dr_attempt (moved next at_ detail r) = dr_attempt r.
Proof. unfold moved. by repeat case_bool_decide. Qed.
Lemma dr_authority_moved next at_ detail r : dr_authority (moved next at_ detail r) = dr_authority r.
Proof. unfold moved. by repeat case_bool_decide. Qed.
Lemma dr_node_moved next at_ detail r : dr_node (moved next at_ detail r) = dr_node r.
Proof. unfold moved. by repeat case_bool_decide. Qed.
Lemma dr_requested_at_moved next at_ detail r : dr_requested_at (moved next at_ detail r) = dr_requested_at r.
Proof. unfold moved. by repeat case_bool_decide. Qed.
Lemma dr_completed_at_moved next at_ detail r : dr_completed_at (moved next at_ detail r) = dr_completed_at r.
Proof. unfold moved. by repeat case_bool_decide. Qed.
Lemma dr_restored_at_moved next at_ detail r : dr_restored_at (moved next at_ detail r) = dr_restored_at r.
Proof. unfold moved. by repeat case_bool_decide. Qed.
Lemma dr_last_evacuation_at_moved next at_ detail r : dr_last_evacuation_at (moved next at_ detail r) = dr_last_evacuation_at r.
Proof. unfold moved. by repeat case_bool_decide. Qed.
Lemma dr_evacuation_requests_moved next at_ detail r : dr_evacuation_requests (moved next at_ detail r) = dr_evacuation_requests r.
Proof. unfold moved. by repeat case_bool_decide. Qed.
Lemma dr_remaining_protected_moved next at_ detail r : dr_remaining_protected (moved next at_ detail r) = dr_remaining_protected r.
Proof. unfold moved. by repeat case_bool_decide. Qed.
Lemma dr_completion_digest_moved next at_ detail r : dr_completion_digest (moved next at_ detail r) = dr_completion_digest r.
Proof. unfold moved. by repeat case_bool_decide. Qed.
Lemma dr_completion_evidence_moved next at_ detail r : dr_completion_evidence (moved next at_ detail r) = dr_completion_evidence r.
Proof. unfold moved. by repeat case_bool_decide. Qed.
Lemma dr_reason_moved next at_ detail r : dr_reason (moved next at_ detail r) = dr_reason r.
Proof. unfold moved. by repeat case_bool_decide. Qed.
Lemma dr_state_moved next at_ detail r : dr_state (moved next at_ detail r) = next.
Proof. unfold moved. by repeat case_bool_decide. Qed.
Lemma dr_state_since_moved next at_ detail r : dr_state_since (moved next at_ detail r) = at_.
Proof. unfold moved. by repeat case_bool_decide. Qed.
Lemma dr_revision_moved next at_ detail r :
  dr_revision (moved next at_ detail r) = next_id (dr_revision r).
Proof. unfold moved. by repeat case_bool_decide. Qed.
Lemma dr_blocked_from_moved next at_ detail r :
  dr_blocked_from (moved next at_ detail r) =
    if bool_decide (next = DrainState.Blocked) then Some (dr_state r)
    else if bool_decide (dr_state r = DrainState.Blocked) then None else dr_blocked_from r.
Proof. unfold moved. by repeat case_bool_decide. Qed.

#[export] Hint Rewrite dr_id_moved dr_set_moved dr_target_moved dr_generation_moved dr_restore_generation_moved dr_attempt_moved dr_authority_moved dr_node_moved dr_requested_at_moved dr_completed_at_moved dr_restored_at_moved dr_last_evacuation_at_moved dr_evacuation_requests_moved dr_remaining_protected_moved dr_completion_digest_moved dr_completion_evidence_moved dr_reason_moved dr_state_moved dr_state_since_moved dr_revision_moved : drain.

(** The three outcomes of a transition: nothing to do, a refusal that leaves the
    record alone, or the legal move. *)
Lemma transition_cases next at_ detail r st r' :
  transition next at_ detail r = (st, r') →
  (next = dr_state r ∧ st = ok_status ∧ r' = r) ∨
  (r' = r ∧ is_ok st = false ∧ next ≠ dr_state r ∧
   (is_legal_drain_transition (dr_state r) next = false ∨ dr_revision r = int_max u64)) ∨
  (next ≠ dr_state r ∧ is_legal_drain_transition (dr_state r) next = true ∧
   dr_revision r ≠ int_max u64 ∧ st = ok_status ∧ r' = moved next at_ detail r).
Proof.
  unfold transition. case_bool_decide as D; [naive_solver|].
  destruct (is_legal_drain_transition (dr_state r) next) eqn:L; simpl;
    [|intros [= <- <-]; right; left; eauto].
  destruct (Z.eqb_spec (dr_revision r) (int_max u64)); intros [= <- <-]; [right; left|right; right]; eauto.
Qed.

(** The record's own invariant: [Blocked] and only [Blocked] remembers the
    state it holds, and that state can be resumed. *)
Definition record_wf (r : DrainRecord) : Prop :=
  in_range u64 (dr_revision r) ∧ 1 ≤ dr_revision r ∧
  (dr_state r = DrainState.Blocked ↔ is_Some (dr_blocked_from r)) ∧
  (∀ s, dr_blocked_from r = Some s →
     s ≠ DrainState.Blocked ∧ is_legal_drain_transition s DrainState.Blocked = true).

Lemma new_drain_record_wf id target generation authority at_ :
  record_wf (new_drain_record id target generation authority at_).
Proof. split_and!; simpl; [split; vm_compute; by intros|lia| |done]. split; [done|by intros []]. Qed.

Lemma next_id_exact v : in_range u64 v → v ≠ int_max u64 → next_id v = v + 1 ∧ in_range u64 (v + 1).
Proof.
  intros Hv Hne. assert (in_range u64 (v + 1)) as Hr.
  { destruct Hv. split; [|lia]. lia. }
  split; [|done]. apply wrap_id; [apply it_wf_u64|done].
Qed.

Lemma moved_wf next at_ detail r :
  record_wf r → next ≠ dr_state r → is_legal_drain_transition (dr_state r) next = true →
  dr_revision r ≠ int_max u64 → record_wf (moved next at_ detail r).
Proof.
  intros (Hr & H1 & Hb & Hs) Hne Hl Hm. destruct (next_id_exact _ Hr Hm) as [E ?].
  unfold record_wf. rewrite dr_revision_moved, dr_state_moved, dr_blocked_from_moved, E.
  split_and!; [done|lia| |].
  - case_bool_decide as D; [by rewrite D; split; eauto|]. case_bool_decide as D'; [by split; [|intros []]|].
    split; [done|]. intros Hs'. by apply Hb in Hs'.
  - case_bool_decide as D; [|case_bool_decide; [done|auto]]. intros s [= <-]. subst next. auto.
Qed.

(** A state that can be blocked can be resumed: the engine's unblock is never
    an illegal transition. *)
Lemma unblock_legal s :
  s ≠ DrainState.Blocked → is_legal_drain_transition s DrainState.Blocked = true →
  is_legal_drain_transition DrainState.Blocked s = true.
Proof. by destruct s. Qed.

(** Strict increase of the revision on every applied change. *)
Lemma moved_revision next at_ detail r :
  record_wf r → dr_revision r ≠ int_max u64 →
  dr_revision (moved next at_ detail r) = dr_revision r + 1.
Proof. intros (Hr & _) Hm. rewrite dr_revision_moved. by apply next_id_exact. Qed.

(** [Drained] is entered from [Verifying] only and left through [Restoring] only. *)
Lemma drained_entry from :
  is_legal_drain_transition from DrainState.Drained = true →
  from = DrainState.Drained ∨ from = DrainState.Verifying.
Proof. destruct from; vm_compute; auto; done. Qed.

Lemma drained_exit to :
  is_legal_drain_transition DrainState.Drained to = true →
  to = DrainState.Drained ∨ to = DrainState.Restoring.
Proof. destruct to; vm_compute; auto; done. Qed.

Lemma drain_state_roundtrip s : drain_state_from_string (DrainState.to_string s) = Some s.
Proof. by destruct s. Qed.
