(* ===== verification/Obligation.v ===== *)
(** * Obligations

    [include/drain/obligation.hpp] and [src/obligation.cpp]: the dependencies
    carried by resources, the revision fence on their state changes, and the
    bounded table that never erases one. *)

From S2P Require Import Prelude Containers Checked Result Text Identity Lifecycle.

Definition kMaxDependenciesPerObligation : Z := 64.
Definition kMaxObligationReappearances : Z := 1000000.

(** [drain::ObligationKind]. *)
Module ObligationKind.
Inductive t : Set :=
  | ActiveFlow | Reservation | WorkloadNetworkContract | PathDiversityCommitment
  | CapacityGuarantee | Supplied.

#[export] Instance t_eq_dec : EqDecision t.
Proof. solve_decision. Defined.

(** [static_cast<std::uint8_t>]: the enumerator's value. *)
Definition rank (x : t) : Z :=
  match x with
  | ActiveFlow => 0 | Reservation => 1 | WorkloadNetworkContract => 2
  | PathDiversityCommitment => 3 | CapacityGuarantee => 4 | Supplied => 5
  end.

Definition to_string (x : t) : string :=
  match x with
  | ActiveFlow => "active-flow"
  | Reservation => "reservation"
  | WorkloadNetworkContract => "workload-network-contract"
  | PathDiversityCommitment => "path-diversity-commitment"
  | CapacityGuarantee => "capacity-guarantee"
  | Supplied => "supplied"
  end.

End ObligationKind.
Export (hints) ObligationKind.

(** [drain::EvacuationMode]; [None_] is [EvacuationMode::None]. *)
Module EvacuationMode.
Inductive t : Set :=
  | None_ | Reroute | Migrate | Release | RerouteAndRelease.

#[export] Instance t_eq_dec : EqDecision t.
Proof. solve_decision. Defined.

(** [static_cast<std::uint8_t>]: the enumerator's value. *)
Definition rank (x : t) : Z :=
  match x with
  | None_ => 0 | Reroute => 1 | Migrate => 2 | Release => 3 | RerouteAndRelease => 4
  end.

Definition to_string (x : t) : string :=
  match x with
  | None_ => "none"
  | Reroute => "reroute"
  | Migrate => "migrate"
  | Release => "release"
  | RerouteAndRelease => "reroute-and-release"
  end.

End EvacuationMode.
Export (hints) EvacuationMode.

(** [drain::ProtectionClass]. *)
Module ProtectionClass.
Inductive t : Set :=
  | Advisory | Protected.

#[export] Instance t_eq_dec : EqDecision t.
Proof. solve_decision. Defined.

(** [static_cast<std::uint8_t>]: the enumerator's value. *)
Definition rank (x : t) : Z :=
  match x with
  | Advisory => 0 | Protected => 1
  end.

Definition to_string (x : t) : string :=
  match x with
  | Advisory => "advisory"
  | Protected => "protected"
  end.

End ProtectionClass.
Export (hints) ProtectionClass.

(** [drain::ObligationState]. *)
Module ObligationState.
Inductive t : Set :=
  | Admitted_ | Evacuating | Quiescing | Released | Retired | Failed.

#[export] Instance t_eq_dec : EqDecision t.
Proof. solve_decision. Defined.

(** [static_cast<std::uint8_t>]: the enumerator's value. *)
Definition rank (x : t) : Z :=
  match x with
  | Admitted_ => 0 | Evacuating => 1 | Quiescing => 2 | Released => 3 | Retired => 4
  | Failed => 5
  end.

Definition to_string (x : t) : string :=
  match x with
  | Admitted_ => "admitted"
  | Evacuating => "evacuating"
  | Quiescing => "quiescing"
  | Released => "released"
  | Retired => "retired"
  | Failed => "failed"
  end.

End ObligationState.
Export (hints) ObligationState.

Definition obligation_kind_from_string (text : string) : option ObligationKind.t :=
  if bool_decide (text = "active-flow") then Some ObligationKind.ActiveFlow
  else if bool_decide (text = "reservation") then Some ObligationKind.Reservation
  else if bool_decide (text = "workload-network-contract") then Some ObligationKind.WorkloadNetworkContract
  else if bool_decide (text = "path-diversity-commitment") then Some ObligationKind.PathDiversityCommitment
  else if bool_decide (text = "capacity-guarantee") then Some ObligationKind.CapacityGuarantee
  else if bool_decide (text = "supplied") then Some ObligationKind.Supplied
  else None.

Definition evacuation_mode_from_string (text : string) : option EvacuationMode.t :=
  if bool_decide (text = "none") then Some EvacuationMode.None_
  else if bool_decide (text = "reroute") then Some EvacuationMode.Reroute
  else if bool_decide (text = "migrate") then Some EvacuationMode.Migrate
  else if bool_decide (text = "release") then Some EvacuationMode.Release
  else if bool_decide (text = "reroute-and-release") then Some EvacuationMode.RerouteAndRelease
  else None.

Definition protection_class_from_string (text : string) : option ProtectionClass.t :=
  if bool_decide (text = "advisory") then Some ProtectionClass.Advisory
  else if bool_decide (text = "protected") then Some ProtectionClass.Protected
  else None.

Definition obligation_state_from_string (text : string) : option ObligationState.t :=
  if bool_decide (text = "admitted") then Some ObligationState.Admitted_
  else if bool_decide (text = "evacuating") then Some ObligationState.Evacuating
  else if bool_decide (text = "quiescing") then Some ObligationState.Quiescing
  else if bool_decide (text = "released") then Some ObligationState.Released
  else if bool_decide (text = "retired") then Some ObligationState.Retired
  else if bool_decide (text = "failed") then Some ObligationState.Failed
  else None.

Definition default_evacuation_mode (kind : ObligationKind.t) : EvacuationMode.t :=
  match kind with
  | ObligationKind.ActiveFlow => EvacuationMode.RerouteAndRelease
  | ObligationKind.Reservation => EvacuationMode.Release
  | ObligationKind.WorkloadNetworkContract => EvacuationMode.Migrate
  | ObligationKind.PathDiversityCommitment => EvacuationMode.Reroute
  | ObligationKind.CapacityGuarantee => EvacuationMode.Release
  | ObligationKind.Supplied => EvacuationMode.RerouteAndRelease
  end.

(** [is_legal_obligation_transition]. *)
Definition is_legal_obligation_transition (from to : ObligationState.t) : bool :=
  if bool_decide (from = to) then true
  else
    match from, to with
    | ObligationState.Admitted_,
      (ObligationState.Evacuating | ObligationState.Quiescing | ObligationState.Released
      | ObligationState.Retired | ObligationState.Failed) => true
    | ObligationState.Evacuating,
      (ObligationState.Quiescing | ObligationState.Released | ObligationState.Retired
      | ObligationState.Failed) => true
    | ObligationState.Quiescing,
      (ObligationState.Released | ObligationState.Retired | ObligationState.Failed
      | ObligationState.Admitted_) => true
    | ObligationState.Released,
      (ObligationState.Retired | ObligationState.Failed | ObligationState.Admitted_
      | ObligationState.Quiescing) => true
    | ObligationState.Retired, ObligationState.Admitted_ => true
    | ObligationState.Failed,
      (ObligationState.Admitted_ | ObligationState.Evacuating | ObligationState.Quiescing) => true
    | _, _ => false
    end.

(** [drain::Obligation]. *)
Record Obligation := MkObligation {
  ob_id : ObligationId;
  ob_kind : ObligationKind.t;
  ob_protection : ProtectionClass.t;
  ob_holder : HolderId;
  ob_service : ServiceId;
  ob_group : GroupId;
  ob_mode : EvacuationMode.t;
  ob_dependencies : list DrainTarget;
  ob_capacity : Z;
  ob_grace : Duration;
  ob_attempt : Attempt;
  ob_admitted_at : TimePoint;
  ob_admission_generation : Generation;
  ob_state : ObligationState.t;
  ob_revision : Revision;
  ob_release_evidence : EvidenceSeq;
  ob_cleared_at : TimePoint;
  ob_reappearances : Z;
  ob_note : string;
}.

#[export] Instance Obligation_eq_dec : EqDecision Obligation.
Proof. solve_decision. Defined.

#[export] Instance eta_Obligation : Eta Obligation := λ r,
  MkObligation
    (ob_id r) (ob_kind r) (ob_protection r) (ob_holder r) (ob_service r) (ob_group r)
    (ob_mode r) (ob_dependencies r) (ob_capacity r) (ob_grace r) (ob_attempt r)
    (ob_admitted_at r) (ob_admission_generation r) (ob_state r) (ob_revision r)
    (ob_release_evidence r) (ob_cleared_at r) (ob_reappearances r) (ob_note r).
#[export] Instance upd_ob_id : Update ob_id := ltac:(solve_update ob_id).
#[export] Instance upd_ob_protection : Update ob_protection := ltac:(solve_update ob_protection).
#[export] Instance upd_ob_service : Update ob_service := ltac:(solve_update ob_service).
#[export] Instance upd_ob_group : Update ob_group := ltac:(solve_update ob_group).
#[export] Instance upd_ob_mode : Update ob_mode := ltac:(solve_update ob_mode).
#[export] Instance upd_ob_dependencies : Update ob_dependencies := ltac:(solve_update ob_dependencies).
#[export] Instance upd_ob_capacity : Update ob_capacity := ltac:(solve_update ob_capacity).
#[export] Instance upd_ob_grace : Update ob_grace := ltac:(solve_update ob_grace).
#[export] Instance upd_ob_attempt : Update ob_attempt := ltac:(solve_update ob_attempt).
#[export] Instance upd_ob_admitted_at : Update ob_admitted_at := ltac:(solve_update ob_admitted_at).
#[export] Instance upd_ob_admission_generation : Update ob_admission_generation := ltac:(solve_update ob_admission_generation).
#[export] Instance upd_ob_state : Update ob_state := ltac:(solve_update ob_state).
#[export] Instance upd_ob_revision : Update ob_revision := ltac:(solve_update ob_revision).
#[export] Instance upd_ob_release_evidence : Update ob_release_evidence := ltac:(solve_update ob_release_evidence).
#[export] Instance upd_ob_cleared_at : Update ob_cleared_at := ltac:(solve_update ob_cleared_at).
#[export] Instance upd_ob_reappearances : Update ob_reappearances := ltac:(solve_update ob_reappearances).
#[export] Instance upd_ob_note : Update ob_note := ltac:(solve_update ob_note).
Arguments upd_ob_id f r /.
Arguments upd_ob_protection f r /.
Arguments upd_ob_service f r /.
Arguments upd_ob_group f r /.
Arguments upd_ob_mode f r /.
Arguments upd_ob_dependencies f r /.
Arguments upd_ob_capacity f r /.
Arguments upd_ob_grace f r /.
Arguments upd_ob_attempt f r /.
Arguments upd_ob_admitted_at f r /.
Arguments upd_ob_admission_generation f r /.
Arguments upd_ob_state f r /.
Arguments upd_ob_revision f r /.
Arguments upd_ob_release_evidence f r /.
Arguments upd_ob_cleared_at f r /.
Arguments upd_ob_reappearances f r /.
Arguments upd_ob_note f r /.

(** [Obligation::normalize_dependencies]. *)
Definition normalize_dependencies (deps : list DrainTarget) : list DrainTarget :=
  unique_by (λ a b, bool_decide (a = b)) (sort_by target_order_less deps).

(** The constructor. *)
Definition new_obligation (kind : ObligationKind.t) (holder : HolderId)
    (dependencies : list DrainTarget) : Obligation :=
  MkObligation 0 kind ProtectionClass.Protected holder "" "" (default_evacuation_mode kind)
    (normalize_dependencies dependencies) 0 0 0 0 0 ObligationState.Admitted_ 1 0 0 0 "".

(** [Obligation::depends_on]: a binary search in the normalised dependencies. *)
Definition depends_on (ob : Obligation) (target : DrainTarget) : bool :=
  @binary_search _ order_less_ord (ob_dependencies ob) target.

Definition depends_on_resource (ob : Obligation) (id : ResourceId) : bool :=
  existsb (λ t, bool_decide (tg_id t = id)) (ob_dependencies ob).

Definition blocks_completion (ob : Obligation) : bool :=
  bool_decide (ob_protection ob = ProtectionClass.Protected)
  && negb (bool_decide (ob_state ob = ObligationState.Retired)).

Definition needs_evacuation (ob : Obligation) : bool :=
  match ob_state ob with
  | ObligationState.Admitted_ | ObligationState.Evacuating | ObligationState.Quiescing
  | ObligationState.Released => true
  | _ => false
  end.

(** [Obligation::label]. *)
Definition obligation_label (ob : Obligation) : string :=
  "obligation:" ++s decimal (ob_id ob) ++s "/" ++s ObligationKind.to_string (ob_kind ob)
  ++s " holder=" ++s ob_holder ob.

(** [Obligation::apply_state]. *)
Definition apply_state (expected_revision : Revision) (next : ObligationState.t)
    (evidence : EvidenceSeq) (at_ : TimePoint) (ob : Obligation) : status * Obligation :=
  if negb (expected_revision =? ob_revision ob) then
    (fail ErrorCode.StaleRevision
       ("obligation revision mismatch on " ++s obligation_label ob ++s ": expected "
        ++s decimal expected_revision ++s " have " ++s decimal (ob_revision ob)), ob)
  else if bool_decide (next = ob_state ob) then
    if (evidence =? 0) || (evidence =? ob_release_evidence ob) then (ok_status, ob)
    else if bool_decide (ob_state ob = ObligationState.Quiescing)
            || bool_decide (ob_state ob = ObligationState.Released)
            || bool_decide (ob_state ob = ObligationState.Retired) then
      if ob_revision ob =? int_max u64 then
        (fail ErrorCode.BoundsExceeded (obligation_label ob ++s " revision space exhausted"), ob)
      else
        (ok_status,
         ob <| ob_release_evidence := evidence |> <| ob_cleared_at := at_ |>
            <| ob_revision := next_id (ob_revision ob) |>)
    else (ok_status, ob)
  else if negb (is_legal_obligation_transition (ob_state ob) next) then
    (fail ErrorCode.IllegalTransition
       (obligation_label ob ++s " cannot move from " ++s ObligationState.to_string (ob_state ob)
        ++s " to " ++s ObligationState.to_string next), ob)
  else if ob_revision ob =? int_max u64 then
    (fail ErrorCode.BoundsExceeded (obligation_label ob ++s " revision space exhausted"), ob)
  else
    let reappearance := bool_decide (next = ObligationState.Admitted_)
                        && negb (bool_decide (ob_state ob = ObligationState.Admitted_)) in
    let ob := ob <| ob_state := next |> in
    let ob := ob <| ob_revision := next_id (ob_revision ob) |> in
    let ob := if bool_decide (next = ObligationState.Retired)
                 || bool_decide (next = ObligationState.Released)
              then ob <| ob_release_evidence := evidence |> <| ob_cleared_at := at_ |> else ob in
    let ob := if reappearance
              then ob <| ob_release_evidence := 0 |> <| ob_cleared_at := 0 |>
                      <| ob_reappearances := wrap u32 (ob_reappearances ob + 1) |>
              else ob in
    (ok_status, ob).

(** [drain::ObligationTable]. *)
Record ObligationTable := MkObligationTable {
  ot_obligations : omap ObligationId Obligation;
  ot_max_obligations : Z;
  ot_high_water : ObligationId;
}.

#[export] Instance eta_ObligationTable : Eta ObligationTable := λ r,
  MkObligationTable
    (ot_obligations r) (ot_max_obligations r) (ot_high_water r).
#[export] Instance upd_ot_obligations : Update ot_obligations := ltac:(solve_update ot_obligations).
#[export] Instance upd_ot_max_obligations : Update ot_max_obligations := ltac:(solve_update ot_max_obligations).
#[export] Instance upd_ot_high_water : Update ot_high_water := ltac:(solve_update ot_high_water).
Arguments upd_ot_obligations f r /.
Arguments upd_ot_max_obligations f r /.
Arguments upd_ot_high_water f r /.

Definition new_obligation_table (max_obligations : Z) : ObligationTable :=
  MkObligationTable ∅ max_obligations 0.

(** [ObligationTable::insert]. *)
Definition ot_insert (draft : Obligation) (t : ObligationTable) : result Obligation * ObligationTable :=
  if ot_max_obligations t <=? om_size (ot_obligations t) then
    (fail ErrorCode.BoundsExceeded "obligation table is at capacity", t)
  else
    match increment_checked u64 (ot_high_water t) with
    | None => (fail ErrorCode.BoundsExceeded "obligation id space exhausted", t)
    | Some next =>
        let t := t <| ot_high_water := next |> in
        let draft := draft <| ob_id := next |> in
        match emplace next draft (ot_obligations t) with
        | (_, false) => (fail ErrorCode.DuplicateIdentity "obligation id already present", t)
        | (m, true) => (Ok draft, t <| ot_obligations := m |>)
        end
    end.

(** [ObligationTable::insert_with_id]. *)
Definition ot_insert_with_id (draft : Obligation) (t : ObligationTable)
  : result Obligation * ObligationTable :=
  if ot_max_obligations t <=? om_size (ot_obligations t) then
    (fail ErrorCode.BoundsExceeded "obligation table is at capacity", t)
  else if ob_id draft =? 0 then
    (fail ErrorCode.DuplicateIdentity "obligation id zero is reserved", t)
  else
    match emplace (ob_id draft) draft (ot_obligations t) with
    | (_, false) => (fail ErrorCode.DuplicateIdentity "duplicate obligation id in snapshot", t)
    | (m, true) =>
        let t := t <| ot_obligations := m |> in
        let t := if ot_high_water t <? ob_id draft then t <| ot_high_water := ob_id draft |> else t in
        (Ok draft, t)
    end.

Definition ot_find (id : ObligationId) (t : ObligationTable) : option Obligation :=
  ot_obligations t !! id.

(** Writing through the pointer [find_mutable] returned. *)
Definition ot_store (id : ObligationId) (ob : Obligation) (t : ObligationTable) : ObligationTable :=
  t <| ot_obligations := <[id := ob]> (ot_obligations t) |>.

Definition ot_all (t : ObligationTable) : list Obligation := om_values (ot_obligations t).

Definition dependents_of (t : ObligationTable) (target : DrainTarget) : list Obligation :=
  List.filter (λ ob, depends_on ob target) (ot_all t).

Definition protected_dependents_of (t : ObligationTable) (target : DrainTarget) : list Obligation :=
  List.filter (λ ob, bool_decide (ob_protection ob = ProtectionClass.Protected)
                     && depends_on ob target) (ot_all t).

(** The drain completion gate. *)
Definition outstanding_protected_dependents_of (t : ObligationTable) (target : DrainTarget)
  : list Obligation :=
  List.filter (λ ob, blocks_completion ob && depends_on ob target) (ot_all t).

(** [ObligationTable::digest]. *)
Definition ot_digest (t : ObligationTable) : Z :=
  foldl (λ d p,
    let '(id, ob) := p in
    let d := digest_update_u64 d id in
    let d := digest_update_tagged d "kind" (ObligationKind.to_string (ob_kind ob)) in
    let d := digest_update_tagged d "protection" (ProtectionClass.to_string (ob_protection ob)) in
    let d := digest_update_tagged d "state" (ObligationState.to_string (ob_state ob)) in
    let d := digest_update_u64 d (ob_revision ob) in
    let d := digest_update_u64 d (ob_reappearances ob) in
    let d := digest_update_tagged d "holder" (ob_holder ob) in
    foldl (λ d dep, digest_update_tagged d "dep" (target_to_string dep)) d (ob_dependencies ob))
    (digest_update_u64 kOffset (ot_high_water t)) (om_list (ot_obligations t)).

(** ** Facts *)

Lemma normalize_dependencies_sort_unique deps :
  normalize_dependencies deps = @sort_unique _ order_less_ord deps.
Proof.
  unfold normalize_dependencies, sort_unique. apply unique_by_ext. intros a b.
  pose proof order_less_strict. apply eq_true_iff_eq. by rewrite bool_decide_eq_true, eqvb_true.
Qed.

(** An obligation's own invariant: normalised dependencies, a live revision. *)
Definition obligation_wf (ob : Obligation) : Prop :=
  @strictly_sorted _ order_less_ord (ob_dependencies ob) ∧
  in_range u64 (ob_revision ob) ∧ 1 ≤ ob_revision ob.

Lemma new_obligation_wf kind holder deps : obligation_wf (new_obligation kind holder deps).
Proof.
  split_and!; simpl; [|split; vm_compute; by intros|lia]. rewrite normalize_dependencies_sort_unique.
  apply (@sort_unique_spec _ order_less_ord order_less_strict).
Qed.

Lemma new_obligation_deps kind holder deps t :
  t ∈ ob_dependencies (new_obligation kind holder deps) ↔ t ∈ deps.
Proof.
  simpl. rewrite normalize_dependencies_sort_unique.
  apply (@sort_unique_spec _ order_less_ord order_less_strict).
Qed.

(** The binary search decides membership. *)
Lemma depends_on_elem ob t : obligation_wf ob → depends_on ob t = true ↔ t ∈ ob_dependencies ob.
Proof. intros [Hs _]. by apply (@binary_search_elem _ order_less_ord order_less_strict). Qed.

Lemma apply_state_stale expected next evidence at_ ob :
  expected ≠ ob_revision ob →
  (apply_state expected next evidence at_ ob).2 = ob ∧
  result_code (apply_state expected next evidence at_ ob).1 = ErrorCode.StaleRevision.
Proof. intros Hne. unfold apply_state. by rewrite (proj2 (Z.eqb_neq _ _) Hne). Qed.

(** What a state report can do: refuse without effect, replay without effect,
    refresh the proof, or move legally; a change always advances the revision. *)
Lemma apply_state_cases expected next evidence at_ ob st ob' :
  apply_state expected next evidence at_ ob = (st, ob') →
  (ob' = ob) ∨
  (st = ok_status ∧ expected = ob_revision ob ∧ ob_revision ob ≠ int_max u64 ∧
   ob_revision ob' = next_id (ob_revision ob) ∧ ob_state ob' = next ∧
   is_legal_obligation_transition (ob_state ob) next = true ∧
   ob_id ob' = ob_id ob ∧ ob_protection ob' = ob_protection ob ∧
   ob_dependencies ob' = ob_dependencies ob ∧ ob_admission_generation ob' = ob_admission_generation ob).
Proof.
  unfold apply_state. destruct (Z.eqb_spec expected (ob_revision ob)) as [->|]; simpl; [|naive_solver].
  case_bool_decide as D.
  - subst next. destruct (_ || _); [naive_solver|]. destruct (_ || _); [|naive_solver].
    destruct (Z.eqb_spec (ob_revision ob) (int_max u64)); intros [= <- <-]; [by left|right].
    split_and!; try done. unfold is_legal_obligation_transition. by rewrite bool_decide_true.
  - destruct (is_legal_obligation_transition (ob_state ob) next) eqn:L; simpl; [|naive_solver].
    destruct (Z.eqb_spec (ob_revision ob) (int_max u64)); intros [= <- <-]; [by left|right].
    by repeat case_match.
Qed.

Lemma apply_state_wf expected next evidence at_ ob st ob' :
  obligation_wf ob → apply_state expected next evidence at_ ob = (st, ob') → obligation_wf ob'.
Proof.
  intros (Hd & Hr & H1) Ha. apply apply_state_cases in Ha as [->|(-> & -> & Hm & Er & _ & _ & _ & _ & Ed & _)];
    [done|]. destruct (next_id_exact _ Hr Hm) as [E ?]. unfold obligation_wf. rewrite Ed, Er, E.
  split_and!; [done|done|lia].
Qed.

(** *** The table *)

(** Ids are the keys, none exceeds the high-water mark, zero is never used. *)
Definition table_wf (t : ObligationTable) : Prop :=
  om_wf (ot_obligations t) ∧ in_range u64 (ot_high_water t) ∧
  ∀ id ob, ot_find id t = Some ob → ob_id ob = id ∧ 1 ≤ id ≤ ot_high_water t ∧ obligation_wf ob.

Lemma new_obligation_table_wf n : table_wf (new_obligation_table n).
Proof. split_and!; simpl; [constructor|split; vm_compute; by intros|done]. Qed.

Lemma high_water_next v next :
  in_range u64 v → increment_checked u64 v = Some next → next = v + 1 ∧ in_range u64 next.
Proof. apply increment_checked_Some, it_wf_u64. Qed.

(** On a well-formed table the id is never already present, so insertion
    succeeds exactly when there is room and the id space is not exhausted. *)
Lemma ot_insert_Ok draft t ob t' :
  table_wf t → ot_insert draft t = (Ok ob, t') →
  ot_find (ot_high_water t + 1) t = None ∧
  ob = draft <| ob_id := ot_high_water t + 1 |> ∧
  ot_high_water t' = ot_high_water t + 1 ∧ in_range u64 (ot_high_water t') ∧
  ot_max_obligations t' = ot_max_obligations t ∧
  ot_obligations t' = <[ot_high_water t + 1 := ob]> (ot_obligations t) ∧
  om_size (ot_obligations t) < ot_max_obligations t.
Proof.
  intros (Hwf & Hr & Hids). unfold ot_insert.
  destruct (Z.leb_spec (ot_max_obligations t) (om_size (ot_obligations t))); [done|].
  destruct (increment_checked u64 (ot_high_water t)) as [next|] eqn:Hn; [|done].
  apply high_water_next in Hn as [-> ?]; [|done]. simpl.
  destruct (emplace _ _ _) as [m []] eqn:He; intros [= <- <-].
  apply emplace_true in He as [? ->]. by split_and!.
Qed.

Lemma ot_insert_Err draft t e t' :
  table_wf t → ot_insert draft t = (Err e, t') → t' = t ∧ err_code e = ErrorCode.BoundsExceeded.
Proof.
  intros (Hwf & Hr & Hids). unfold ot_insert.
  destruct (Z.leb_spec (ot_max_obligations t) (om_size (ot_obligations t))); [by intros [= <- <-]|].
  destruct (increment_checked u64 (ot_high_water t)) as [next|] eqn:Hn; [|by intros [= <- <-]].
  apply high_water_next in Hn as [-> ?]; [|done]. simpl. unfold emplace.
  destruct (ot_obligations t !! (ot_high_water t + 1)) as [ob|] eqn:Hl; [|done].
  destruct (Hids _ _ Hl) as (_ & ? & _). lia.
Qed.

Lemma ot_insert_wf draft t ob t' :
  table_wf t → obligation_wf draft → ot_insert draft t = (Ok ob, t') → table_wf t'.
Proof.
  intros Hwf Hd Hi. pose proof Hwf as (Hm & Hr & Hids).
  destruct (ot_insert_Ok _ _ _ _ Hwf Hi) as (_ & -> & Hh & ? & _ & Em & _).
  split_and!; [rewrite Em; by apply om_wf_insert|done|].
  intros id ob Hl. unfold ot_find in Hl. rewrite Em in Hl. destruct Hr. change (int_min u64) with 0 in *.
  om_cases Hl; [simpl; split_and!; [done|lia|lia|done]|].
  destruct (Hids _ _ Hl) as (? & ? & ?). split_and!; [done|lia|lia|done].
Qed.

(** Neither the limit of a table nor its size exceeds a bound. *)
Definition table_within (bound : Z) (t : ObligationTable) : Prop :=
  ot_max_obligations t ≤ bound ∧ om_size (ot_obligations t) ≤ bound.

Lemma ot_insert_within bound draft t ob t' :
  table_wf t → ot_insert draft t = (Ok ob, t') → table_within bound t → table_within bound t'.
Proof.
  intros Hwf Hi [H1 H2]. destruct (ot_insert_Ok _ _ _ _ Hwf Hi) as (Hf & _ & _ & _ & Em & Et & Hroom).
  split; [by rewrite Em|]. rewrite Et, om_size_insert_None by done. lia.
Qed.

Lemma ot_store_within bound id ob ob' t :
  table_wf t → ot_find id t = Some ob → table_within bound t → table_within bound (ot_store id ob' t).
Proof. intros Hwf Hf [H1 H2]. split; [done|]. simpl. erewrite om_size_insert_Some; [done|apply Hwf|exact Hf]. Qed.

Lemma ot_store_wf id ob ob' t :
  table_wf t → ot_find id t = Some ob → ob_id ob' = ob_id ob → obligation_wf ob' →
  table_wf (ot_store id ob' t).
Proof.
  intros (Hm & Hr & Hids) Hf Hid Hwf. destruct (Hids _ _ Hf) as (Hi & Hb & _).
  split_and!; simpl; [by apply om_wf_insert|done|].
  intros id' ob'' Hl. unfold ot_find in Hl; simpl in Hl. om_cases Hl; [|by apply Hids].
  split_and!; [congruence|lia|lia|done].
Qed.

Lemma ot_find_store id ob t id' :
  ot_find id' (ot_store id ob t) = if decide (id = id') then Some ob else ot_find id' t.
Proof.
  unfold ot_find, ot_store; simpl. case_decide; [subst; apply om_lookup_insert_eq|by apply om_lookup_insert_ne].
Qed.

Lemma ot_all_elem t ob : table_wf t → ob ∈ ot_all t ↔ ∃ id, ot_find id t = Some ob.
Proof.
  intros (Hm & _). split; [by apply om_values_lookup|]. intros [id ?]. by eapply om_lookup_values.
Qed.

(** The gate lists exactly the unretired protected obligations that name the
    target. *)
Lemma outstanding_elem t target ob :
  table_wf t →
  ob ∈ outstanding_protected_dependents_of t target ↔
  ∃ id, ot_find id t = Some ob ∧ ob_protection ob = ProtectionClass.Protected ∧
        ob_state ob ≠ ObligationState.Retired ∧ target ∈ ob_dependencies ob.
Proof.
  intros Hwf. unfold outstanding_protected_dependents_of, blocks_completion.
  rewrite list_elem_of_In, filter_In, <-list_elem_of_In, ot_all_elem by done.
  rewrite !andb_true_iff, negb_true_iff, bool_decide_eq_true, bool_decide_eq_false. split.
  - intros ((id & Hf) & (? & ?) & Hd). exists id. split_and!; try done.
    apply depends_on_elem; [|done]. by apply (proj2 (proj2 Hwf) id).
  - intros (id & Hf & ? & ? & Hd). split; [by eauto|]. split; [done|].
    apply depends_on_elem; [|done]. by apply (proj2 (proj2 Hwf) id).
Qed.

Lemma outstanding_nil t target :
  table_wf t →
  outstanding_protected_dependents_of t target = [] ↔
  ∀ id ob, ot_find id t = Some ob → ob_protection ob = ProtectionClass.Protected →
           target ∈ ob_dependencies ob → ob_state ob = ObligationState.Retired.
Proof.
  intros Hwf. split.
  - intros E id ob Hf Hp Hd. destruct (decide (ob_state ob = ObligationState.Retired)); [done|].
    assert (ob ∈ outstanding_protected_dependents_of t target) as Hin
      by (apply outstanding_elem; [done|]; eauto 6). rewrite E in Hin. by apply not_elem_of_nil in Hin.
  - intros Hall. destruct (outstanding_protected_dependents_of t target) as [|ob l] eqn:E; [done|].
    assert (ob ∈ outstanding_protected_dependents_of t target) as Hin by (rewrite E; left).
    apply outstanding_elem in Hin as (id & Hf & Hp & Hs & Hd); [|done]. by destruct Hs; eauto.
Qed.

Lemma ot_digest_range t : in_range u64 (ot_digest t).
Proof.
  unfold ot_digest. apply foldl_inv; [apply digest_update_u64_range|].
  intros d [id ob] _ _. apply foldl_inv; [apply digest_update_tagged_range|].
  intros. apply digest_update_tagged_range.
Qed.

#[export] Hint Resolve new_obligation_wf new_obligation_table_wf ot_insert_wf apply_state_wf : drain.
