(* ===== verification/Evidence.v ===== *)
(** * Evidence ledger

    [include/drain/evidence.hpp] and [src/evidence.cpp]: observations keyed by
    stream, monotonic per stream, bounded, and quarantined on recovery. *)

From S2P Require Import Prelude Containers Checked Result Text Identity Lifecycle.

(** [drain::EvidenceKind]. *)
Module EvidenceKind.
Inductive t : Set :=
  | AdmissionClosed | ObligationEvacuated | ObligationReleased | FlowQuiesced | PathAvailable
  | PathLost | CapacityAvailable | ResourceRemoved | ResourceRestored.

#[export] Instance t_eq_dec : EqDecision t.
Proof. solve_decision. Defined.

(** [static_cast<std::uint8_t>]: the enumerator's value. *)
Definition rank (x : t) : Z :=
  match x with
  | AdmissionClosed => 0 | ObligationEvacuated => 1 | ObligationReleased => 2
  | FlowQuiesced => 3 | PathAvailable => 4 | PathLost => 5 | CapacityAvailable => 6
  | ResourceRemoved => 7 | ResourceRestored => 8
  end.

Definition to_string (x : t) : string :=
  match x with
  | AdmissionClosed => "admission-closed"
  | ObligationEvacuated => "obligation-evacuated"
  | ObligationReleased => "obligation-released"
  | FlowQuiesced => "flow-quiesced"
  | PathAvailable => "path-available"
  | PathLost => "path-lost"
  | CapacityAvailable => "capacity-available"
  | ResourceRemoved => "resource-removed"
  | ResourceRestored => "resource-restored"
  end.

Lemma evidence_rank_inj x y : rank x = rank y → x = y.
Proof. by destruct x, y. Qed.

End EvidenceKind.
Export (hints) EvidenceKind.

Definition evidence_kind_from_string (text : string) : option EvidenceKind.t :=
  if bool_decide (text = "admission-closed") then Some EvidenceKind.AdmissionClosed
  else if bool_decide (text = "obligation-evacuated") then Some EvidenceKind.ObligationEvacuated
  else if bool_decide (text = "obligation-released") then Some EvidenceKind.ObligationReleased
  else if bool_decide (text = "flow-quiesced") then Some EvidenceKind.FlowQuiesced
  else if bool_decide (text = "path-available") then Some EvidenceKind.PathAvailable
  else if bool_decide (text = "path-lost") then Some EvidenceKind.PathLost
  else if bool_decide (text = "capacity-available") then Some EvidenceKind.CapacityAvailable
  else if bool_decide (text = "resource-removed") then Some EvidenceKind.ResourceRemoved
  else if bool_decide (text = "resource-restored") then Some EvidenceKind.ResourceRestored
  else None.

(** [drain::EvidenceKey]: the identity of an evidence stream. *)
Record EvidenceKey := MkEvidenceKey {
  ek_kind : EvidenceKind.t;
  ek_drain : DrainId;
  ek_obligation : ObligationId;
  ek_resource : ResourceId;
}.

#[export] Instance EvidenceKey_eq_dec : EqDecision EvidenceKey.
Proof. solve_decision. Defined.

(** [operator<] on keys. *)
Definition evidence_key_less (a b : EvidenceKey) : bool :=
  if negb (bool_decide (EvidenceKind.rank (ek_kind a) = EvidenceKind.rank (ek_kind b)))
  then ltb (EvidenceKind.rank (ek_kind a)) (EvidenceKind.rank (ek_kind b))
  else if negb (bool_decide (ek_drain a = ek_drain b)) then ltb (ek_drain a) (ek_drain b)
  else if negb (bool_decide (ek_obligation a = ek_obligation b))
  then ltb (ek_obligation a) (ek_obligation b)
  else ltb (ek_resource a) (ek_resource b).
#[export] Instance evidence_key_ord : Ord EvidenceKey := evidence_key_less.

(** [EvidenceKey::label]. *)
Definition evidence_key_label (k : EvidenceKey) : string :=
  EvidenceKind.to_string (ek_kind k) ++s " drain=" ++s decimal (ek_drain k) ++s " obligation="
  ++s decimal (ek_obligation k) ++s " resource="
  ++s (if bool_decide (ek_resource k = "") then "-" else ek_resource k).

(** [drain::Evidence]. *)
Record Evidence := MkEvidence {
  ev_seq : EvidenceSeq;
  ev_key : EvidenceKey;
  ev_generation : Generation;
  ev_epoch : Epoch;
  ev_producer : IncarnationId;
  ev_authority : AuthorityId;
  ev_observed_at : TimePoint;
  ev_expires_at : TimePoint;
  ev_healthy : bool;
  ev_quantity : Z;
  ev_detail : string;
  ev_attested : bool;
}.

#[export] Instance Evidence_eq_dec : EqDecision Evidence.
Proof. solve_decision. Defined.

#[export] Instance eta_Evidence : Eta Evidence := λ r,
  MkEvidence
    (ev_seq r) (ev_key r) (ev_generation r) (ev_epoch r) (ev_producer r) (ev_authority r)
    (ev_observed_at r) (ev_expires_at r) (ev_healthy r) (ev_quantity r) (ev_detail r)
    (ev_attested r).
#[export] Instance upd_ev_attested : Update ev_attested := ltac:(solve_update ev_attested).
#[export] Instance upd_ev_seq : Update ev_seq := ltac:(solve_update ev_seq).
Arguments upd_ev_attested f r /.
Arguments upd_ev_seq f r /.

(** [drain::EvidenceRecordKey]: stream first, sequence second. *)
Notation EvidenceRecordKey := (EvidenceKey * EvidenceSeq)%type.

(** [drain::EvidenceFence]. *)
Record EvidenceFence := MkEvidenceFence {
  ef_live_incarnation : IncarnationId;
  ef_live_epoch : Epoch;
  ef_now : TimePoint;
  ef_allowed_skew : Duration;
}.
(** [drain::EvidenceLedger]; [el_latest_seq] is [latest_]. *)
Record EvidenceLedger := MkEvidenceLedger {
  el_records : omap EvidenceRecordKey Evidence;
  el_latest_seq : omap EvidenceKey EvidenceSeq;
  el_max_records : Z;
  el_global_high_water : EvidenceSeq;
}.

#[export] Instance eta_EvidenceLedger : Eta EvidenceLedger := λ r,
  MkEvidenceLedger
    (el_records r) (el_latest_seq r) (el_max_records r) (el_global_high_water r).
#[export] Instance upd_el_records : Update el_records := ltac:(solve_update el_records).
#[export] Instance upd_el_latest_seq : Update el_latest_seq := ltac:(solve_update el_latest_seq).
#[export] Instance upd_el_max_records : Update el_max_records := ltac:(solve_update el_max_records).
#[export] Instance upd_el_global_high_water : Update el_global_high_water := ltac:(solve_update el_global_high_water).
Arguments upd_el_records f r /.
Arguments upd_el_latest_seq f r /.
Arguments upd_el_max_records f r /.
Arguments upd_el_global_high_water f r /.

Definition new_evidence_ledger (max_records : Z) : EvidenceLedger := MkEvidenceLedger ∅ ∅ max_records 0.

(** [EvidenceLedger::retire_one_for]: the oldest record of the incoming stream,
    otherwise any record superseded on its own stream. *)
Definition el_retire_one_for (incoming : EvidenceKey) (l : EvidenceLedger) : option EvidenceLedger :=
  let erase := λ k, l <| el_records := delete k (el_records l) |> in
  match List.find (λ p, bool_decide (ev_key p.2 = incoming)) (om_list (el_records l)) with
  | Some (k, _) => Some (erase k)
  | None =>
      match List.find (λ p, match el_latest_seq l !! ev_key p.2 with
                            | Some s => negb (s =? ev_seq p.2)
                            | None => false
                            end) (om_list (el_records l)) with
      | Some (k, _) => Some (erase k)
      | None => None
      end
  end.

(** The storing half of [EvidenceLedger::record], once a slot is available. *)
Definition el_store (draft : Evidence) (l : EvidenceLedger) : result Evidence * EvidenceLedger :=
  let draft := draft <| ev_attested := true |> in
  let seq := ev_seq draft in
  match emplace (ev_key draft, seq) draft (el_records l) with
  | (_, false) =>
      (fail ErrorCode.DuplicateIdentity
         ("this stream already holds a record with sequence " ++s decimal seq), l)
  | (m, true) =>
      let l := l <| el_records := m |> in
      let l := l <| el_latest_seq := <[ev_key draft := seq]> (el_latest_seq l) |> in
      let l := if el_global_high_water l <? seq then l <| el_global_high_water := seq |> else l in
      (Ok draft, l)
  end.

(** [EvidenceLedger::record]. *)
Definition el_record (draft : Evidence) (fence : EvidenceFence) (require_live_incarnation : bool)
    (l : EvidenceLedger) : result Evidence * EvidenceLedger :=
  if saturating_add (ef_now fence) (ef_allowed_skew fence) <? ev_observed_at draft then
    (fail ErrorCode.InvalidArgument "evidence observed beyond the tolerated clock skew is rejected", l)
  else if negb (ev_epoch draft =? ef_live_epoch fence) then
    (fail ErrorCode.StaleEpoch "evidence produced under a superseded authority epoch", l)
  else if require_live_incarnation && negb (ev_producer draft =? ef_live_incarnation fence) then
    (fail ErrorCode.StaleIncarnation
       ("evidence produced by incarnation " ++s decimal (ev_producer draft)
        ++s " cannot be accepted by incarnation " ++s decimal (ef_live_incarnation fence)), l)
  else
    match (match el_latest_seq l !! ev_key draft with
           | Some s => if ev_seq draft <=? s then Some s else None
           | None => None
           end) with
    | Some s =>
        (fail ErrorCode.DuplicateIdentity
           ("evidence sequence " ++s decimal (ev_seq draft) ++s " is not newer than " ++s decimal s
            ++s " for " ++s evidence_key_label (ev_key draft)), l)
    | None =>
        if el_max_records l <=? om_size (el_records l) then
          match el_retire_one_for (ev_key draft) l with
          | None => (fail ErrorCode.BoundsExceeded "evidence ledger is at capacity", l)
          | Some l => el_store draft l
          end
        else el_store draft l
    end.

(** [EvidenceLedger::quarantine_all]. *)
Definition quarantine_all (l : EvidenceLedger) : EvidenceLedger :=
  l <| el_records := om_map (λ e, e <| ev_attested := false |>) (el_records l) |>.

(** [EvidenceLedger::attest]. *)
Definition el_attest (key : EvidenceKey) (seq : EvidenceSeq) (fence : EvidenceFence)
    (l : EvidenceLedger) : status * EvidenceLedger :=
  match el_records l !! (key, seq) with
  | None => (fail ErrorCode.NotFound "no evidence record for that stream and sequence", l)
  | Some e =>
      if negb (ev_epoch e =? ef_live_epoch fence) then
        (fail ErrorCode.StaleEpoch "evidence record belongs to a superseded epoch", l)
      else if negb (ev_producer e =? ef_live_incarnation fence) then
        (fail ErrorCode.StaleIncarnation
           "evidence record was produced by a previous incarnation and cannot be re-attested", l)
      else
        (ok_status,
         l <| el_records := <[(key, seq) := e <| ev_attested := true |>]> (el_records l) |>)
  end.

(** [EvidenceLedger::latest]. *)
Definition el_latest (key : EvidenceKey) (l : EvidenceLedger) : option Evidence :=
  match el_latest_seq l !! key with
  | None => None
  | Some seq => el_records l !! (key, seq)
  end.

(** [EvidenceLedger::find]. *)
Definition el_find (key : EvidenceKey) (seq : EvidenceSeq) (l : EvidenceLedger) : option Evidence :=
  el_records l !! (key, seq).

(** [EvidenceLedger::is_fresh]. *)
Definition is_fresh (e : Evidence) (fence : EvidenceFence) (freshness : Duration) : bool :=
  if negb (ev_attested e) then false
  else if negb (ev_epoch e =? ef_live_epoch fence) then false
  else if saturating_add (ef_now fence) (ef_allowed_skew fence) <? ev_observed_at e then false
  else if freshness <=? 0 then false
  else ef_now fence <=? saturating_add (ev_observed_at e) freshness.

(** [EvidenceLedger::fresh]. *)
Definition el_fresh (key : EvidenceKey) (fence : EvidenceFence) (freshness : Duration)
    (l : EvidenceLedger) : option Evidence :=
  match el_latest key l with
  | None => None
  | Some candidate => if is_fresh candidate fence freshness then Some candidate else None
  end.

(** [EvidenceLedger::high_water]. *)
Definition el_high_water (key : EvidenceKey) (l : EvidenceLedger) : EvidenceSeq :=
  default 0 (el_latest_seq l !! key).

(** [EvidenceLedger::digest]. *)
Definition el_digest (l : EvidenceLedger) : Z :=
  foldl (λ d e,
    let d := digest_update_u64 d (ev_seq e) in
    let d := digest_update_tagged d "key" (evidence_key_label (ev_key e)) in
    let d := digest_update_u64 d (ev_generation e) in
    let d := digest_update_u64 d (if 0 <? ev_observed_at e then ev_observed_at e else 0) in
    let d := digest_update_bool d (ev_healthy e) in
    let d := digest_update_u64 d (ev_quantity e) in
    digest_update_bool d (ev_attested e)) kOffset (om_values (el_records l)).

Definition el_clear (l : EvidenceLedger) : EvidenceLedger :=
  l <| el_records := ∅ |> <| el_latest_seq := ∅ |> <| el_global_high_water := 0 |>.

(** ** Facts *)

Definition evidence_key_tuple (k : EvidenceKey) : Z * (Z * (Z * string)) :=
  (EvidenceKind.rank (ek_kind k), (ek_drain k, (ek_obligation k, ek_resource k))).

#[export] Instance evidence_key_tuple_inj : Inj (=) (=) evidence_key_tuple.
Proof. intros [????] [????] [= Hk -> -> ->]. by apply EvidenceKind.evidence_rank_inj in Hk as ->. Qed.

Lemma evidence_key_less_lex a b :
  evidence_key_less a b = ltb (evidence_key_tuple a) (evidence_key_tuple b).
Proof. unfold evidence_key_less. by rewrite !chain_ltb. Qed.

#[export] Instance evidence_key_strict : StrictOrd EvidenceKey.
Proof.
  split; unfold ltb, evidence_key_ord.
  - intros x. rewrite evidence_key_less_lex. apply ltb_irrefl.
  - intros x y z. rewrite !evidence_key_less_lex. apply ltb_trans.
  - intros x y. rewrite !evidence_key_less_lex. intros ??. apply (inj evidence_key_tuple). by apply ltb_total.
Qed.

(** Records are filed under their own key; the newest sequence of a stream is
    the one [latest_] names and it is always present. *)
Record ledger_wf (l : EvidenceLedger) : Prop := {
  lw_records : om_wf (el_records l);
  lw_latest : om_wf (el_latest_seq l);
  lw_filed : ∀ k s e, el_records l !! (k, s) = Some e →
    ev_key e = k ∧ ev_seq e = s ∧ ∃ s', el_latest_seq l !! k = Some s' ∧ s ≤ s';
  lw_present : ∀ k s, el_latest_seq l !! k = Some s →
    is_Some (el_records l !! (k, s)) ∧ s ≤ el_global_high_water l;
}.

Lemma new_evidence_ledger_wf n : ledger_wf (new_evidence_ledger n).
Proof. split; done || constructor. Qed.

(** What retiring leaves: one record fewer, and every other stream keeps its
    newest record. *)
Record retired_for (k : EvidenceKey) (l l' : EvidenceLedger) : Prop := {
  rt_latest : el_latest_seq l' = el_latest_seq l;
  rt_max : el_max_records l' = el_max_records l;
  rt_high : el_global_high_water l' = el_global_high_water l;
  rt_wf : om_wf (el_records l');
  rt_sub : ∀ p e, el_records l' !! p = Some e → el_records l !! p = Some e;
  rt_keep : ∀ k' s, k' ≠ k → el_latest_seq l !! k' = Some s →
    el_records l' !! (k', s) = el_records l !! (k', s);
}.

Lemma retired_for_delete k k0 s0 l :
  ledger_wf l →
  (k0 = k ∨ el_latest_seq l !! k0 ≠ Some s0) →
  retired_for k l (l <| el_records := delete (k0, s0) (el_records l) |>).
Proof.
  intros Hwf Hk. split; simpl; try done.
  - apply om_wf_delete, Hwf.
  - intros p e. destruct (decide (p = (k0, s0))) as [->|Hne].
    + by rewrite om_lookup_delete_eq.
    + by rewrite om_lookup_delete_ne by congruence.
  - intros k' s Hne Hl. apply om_lookup_delete_ne. intros [= -> ->]. destruct Hk as [->|Hk]; [done|].
    by rewrite Hl in Hk.
Qed.

Lemma find_filed f l k e :
  ledger_wf l → List.find f (om_list (el_records l)) = Some (k, e) →
  el_records l !! k = Some e ∧ k = (ev_key e, ev_seq e) ∧ f (k, e) = true.
Proof.
  intros Hwf Hf. apply find_some in Hf as [Hin Hfe]. apply list_elem_of_In in Hin.
  apply om_elem_lookup in Hin; [|by apply lw_records]. destruct k as [k s].
  by destruct (lw_filed l Hwf _ _ _ Hin) as (<- & <- & _).
Qed.

Lemma el_retire_spec k l l' :
  ledger_wf l → el_retire_one_for k l = Some l' →
  retired_for k l l' ∧ om_size (el_records l') < om_size (el_records l).
Proof.
  intros Hwf Hr. unfold el_retire_one_for in Hr.
  assert (∀ p e, el_records l !! p = Some e → om_size (delete p (el_records l)) < om_size (el_records l)) as Hlt.
  { intros p e Hp. apply om_size_delete_lt. eauto. }
  destruct (List.find (λ p, bool_decide (ev_key p.2 = k)) _) as [[p e]|] eqn:F1.
  - apply find_filed in F1 as (Hp & -> & Hk); [|done]. injection Hr as <-. split; [|by eapply Hlt].
    apply bool_decide_eq_true in Hk. apply retired_for_delete; auto.
  - destruct (List.find _ _) as [[p e]|] eqn:F2 in Hr; [|done].
    apply find_filed in F2 as (Hp & -> & Hk); [|done]. injection Hr as <-. split; [|by eapply Hlt].
    apply retired_for_delete; [done|]. right. intros Hl. simpl in Hk. rewrite Hl in Hk.
    by rewrite Z.eqb_refl in Hk.
Qed.

(** Storing a record newer than its stream's newest always succeeds. *)
Lemma el_store_spec draft l l0 :
  ledger_wf l0 → retired_for (ev_key draft) l0 l →
  (∀ s, el_latest_seq l0 !! ev_key draft = Some s → s < ev_seq draft) →
  ∃ l', el_store draft l = (Ok (draft <| ev_attested := true |>), l') ∧ ledger_wf l' ∧
    el_records l' = <[(ev_key draft, ev_seq draft) := draft <| ev_attested := true |>]> (el_records l) ∧
    el_latest_seq l' = <[ev_key draft := ev_seq draft]> (el_latest_seq l0) ∧
    el_records l !! (ev_key draft, ev_seq draft) = None ∧
    el_max_records l' = el_max_records l0.
Proof.
  intros Hwf Hret Hnew. unfold el_store; simpl.
  assert (el_records l !! (ev_key draft, ev_seq draft) = None) as Hnone.
  { destruct (el_records l !! _) as [e|] eqn:He; [|done]. apply (rt_sub _ _ _ Hret) in He.
    destruct (lw_filed _ Hwf _ _ _ He) as (_ & _ & s' & Hs' & ?). specialize (Hnew _ Hs'). lia. }
  unfold emplace. rewrite Hnone. eexists. split; [reflexivity|].
  match goal with |- ledger_wf (if _ then _ else ?x) ∧ _ => set (l1 := x) end.
  assert (∀ g, ev_seq draft ≤ g → el_global_high_water l ≤ g →
            ledger_wf (l1 <| el_global_high_water := g |>)) as Hgen.
  { intros g Hg1 Hg2. rewrite (rt_high _ _ _ Hret) in Hg2. split; simpl.
    - apply om_wf_insert, Hret.
    - rewrite (rt_latest _ _ _ Hret). apply om_wf_insert, Hwf.
    - intros k s e He. rewrite (rt_latest _ _ _ Hret). om_cases He.
      + simplify_eq. split_and!; [done|done|]. exists (ev_seq draft). by rewrite om_lookup_insert_eq.
      + apply (rt_sub _ _ _ Hret) in He. destruct (lw_filed _ Hwf _ _ _ He) as (? & ? & s' & Hs' & ?).
        split_and!; [done|done|]. destruct (decide (ev_key draft = k)) as [<-|].
        * exists (ev_seq draft). rewrite om_lookup_insert_eq. specialize (Hnew _ Hs'). split; [done|lia].
        * exists s'. by rewrite om_lookup_insert_ne.
    - intros k s Hs. rewrite (rt_latest _ _ _ Hret) in Hs. om_cases Hs.
      + rewrite om_lookup_insert_eq. split; [eauto|lia].
      + destruct (lw_present _ Hwf _ _ Hs) as [? ?]. rewrite om_lookup_insert_ne by congruence.
        split; [|lia]. by rewrite (rt_keep _ _ _ Hret). }
  split.
  { destruct (Z.ltb_spec (el_global_high_water l) (ev_seq draft)).
    - apply (Hgen (ev_seq draft)); lia.
    - apply (Hgen (el_global_high_water l)); lia. }
  rewrite <-(rt_max _ _ _ Hret), <-(rt_latest _ _ _ Hret). by repeat case_match.
Qed.

Lemma retired_for_refl k l : ledger_wf l → retired_for k l l.
Proof. intros Hwf. split; try done. apply Hwf. Qed.

(** Neither the limit of a ledger nor its size exceeds a bound. *)
Definition ledger_within (bound : Z) (l : EvidenceLedger) : Prop :=
  el_max_records l ≤ bound ∧ om_size (el_records l) ≤ bound.

(** The record a full ledger gives up for a new one on stream [k]: one of that
    stream, or one that is superseded on its own. *)
Inductive displaced (k : EvidenceKey) (l : EvidenceLedger) : option EvidenceRecordKey → Prop :=
  | displaced_none : om_size (el_records l) < el_max_records l → displaced k l None
  | displaced_one k0 s0 :
      el_max_records l ≤ om_size (el_records l) → is_Some (el_find k0 s0 l) →
      k0 = k ∨ (∃ s, el_latest_seq l !! k0 = Some s ∧ s0 < s) → displaced k l (Some (k0, s0)).

Lemma el_retire_displaced k l l' :
  ledger_wf l → el_max_records l ≤ om_size (el_records l) → el_retire_one_for k l = Some l' →
  ∃ p, displaced k l (Some p) ∧ el_records l' = delete p (el_records l).
Proof.
  intros Hwf Hfull. unfold el_retire_one_for.
  destruct (List.find (λ p, bool_decide (ev_key p.2 = k)) _) as [[p e]|] eqn:F1.
  - apply find_filed in F1 as (Hp & -> & Hk%bool_decide_eq_true); [|done]. intros [= <-]. simpl in Hk.
    exists (ev_key e, ev_seq e). split; [|done]. constructor; [done|eexists; exact Hp|by left].
  - clear F1. destruct (List.find _ _) as [[p e]|] eqn:F2; [|done]. intros [= <-].
    apply find_filed in F2 as (Hp & -> & Hk); [|done]. exists (ev_key e, ev_seq e). split; [|done].
    constructor; [done|eexists; exact Hp|right]. simpl in Hk.
    destruct (lw_filed _ Hwf _ _ _ Hp) as (_ & _ & s' & Hs & Hle). rewrite Hs in Hk.
    apply negb_true_iff, Z.eqb_neq in Hk. exists s'. split; [done|lia].
Qed.

(** What an accepted record does to every record of the ledger. *)
Lemma el_record_find draft fence live l d l' :
  ledger_wf l → el_record draft fence live l = (Ok d, l') →
  ∃ lost, displaced (ev_key draft) l lost ∧
  ∀ k s, el_find k s l' =
    if decide ((k, s) = (ev_key draft, ev_seq draft)) then Some (draft <| ev_attested := true |>)
    else if decide (lost = Some (k, s)) then None else el_find k s l.
Proof.
  intros Hwf. unfold el_record. destruct (_ <? _); [done|]. destruct (negb _); [done|].
  destruct (live && _); [done|].
  destruct (match el_latest_seq l !! ev_key draft with
            | Some s => if ev_seq draft <=? s then Some s else None | None => None end) as [|] eqn:Hold; [done|].
  assert (∀ s, el_latest_seq l !! ev_key draft = Some s → s < ev_seq draft) as Hnew.
  { intros s Hs. rewrite Hs in Hold. by destruct (Z.leb_spec (ev_seq draft) s). }
  destruct (Z.leb_spec (el_max_records l) (om_size (el_records l))) as [Hfull|Hroom].
  - destruct (el_retire_one_for (ev_key draft) l) as [l1|] eqn:Hr; [|done]. intros Hs.
    destruct (el_retire_displaced _ _ _ Hwf Hfull Hr) as (p & Hd & Ep). exists (Some p). split; [done|].
    apply el_retire_spec in Hr as [Hret _]; [|done].
    destruct (el_store_spec draft l1 l Hwf Hret Hnew) as (l2 & E & _ & Er & _). rewrite E in Hs.
    injection Hs as _ <-. intros k s. unfold el_find. rewrite Er, Ep. case_decide as D.
    + rewrite D. apply om_lookup_insert_eq.
    + rewrite om_lookup_insert_ne by congruence. case_decide as D2; [injection D2 as ->; apply om_lookup_delete_eq|].
      apply om_lookup_delete_ne. congruence.
  - intros Hs. exists None. split; [by constructor|].
    destruct (el_store_spec draft l l Hwf (retired_for_refl _ _ Hwf) Hnew) as (l2 & E & _ & Er & _).
    rewrite E in Hs. injection Hs as _ <-. intros k s. unfold el_find. rewrite Er. case_decide as D.
    + rewrite D. apply om_lookup_insert_eq.
    + by rewrite om_lookup_insert_ne by congruence.
Qed.

(** The whole acceptance rule of [record], with its effect. *)
Lemma el_record_cases draft fence live l res l' :
  ledger_wf l → el_record draft fence live l = (res, l') →
  (is_ok res = false ∧ l' = l) ∨
  (res = Ok (draft <| ev_attested := true |>) ∧ ledger_wf l' ∧
   ev_observed_at draft ≤ saturating_add (ef_now fence) (ef_allowed_skew fence) ∧
   ev_epoch draft = ef_live_epoch fence ∧
   (live = true → ev_producer draft = ef_live_incarnation fence) ∧
   (∀ s, el_latest_seq l !! ev_key draft = Some s → s < ev_seq draft) ∧
   el_max_records l' = el_max_records l ∧
   (∀ bound, ledger_within bound l → ledger_within bound l') ∧
   (∀ k, el_latest k l' = if decide (k = ev_key draft) then Some (draft <| ev_attested := true |>)
                          else el_latest k l)).
Proof.
  intros Hwf. unfold el_record.
  destruct (Z.ltb_spec (saturating_add (ef_now fence) (ef_allowed_skew fence)) (ev_observed_at draft)) as [|Hobs];
    [by intros [= <- <-]; left|].
  destruct (Z.eqb_spec (ev_epoch draft) (ef_live_epoch fence)) as [Hep|]; simpl; [|by intros [= <- <-]; left].
  destruct (live && negb (ev_producer draft =? ef_live_incarnation fence)) eqn:Hlive; [by intros [= <- <-]; left|].
  assert (live = true → ev_producer draft = ef_live_incarnation fence) as Hprod.
  { intros ->. simpl in Hlive. by apply negb_false_iff, Z.eqb_eq in Hlive. }
  assert (∀ l1, retired_for (ev_key draft) l l1 →
     (om_size (el_records l1) < om_size (el_records l) ∨ om_size (el_records l1) < el_max_records l) →
     (∀ s, el_latest_seq l !! ev_key draft = Some s → s < ev_seq draft) →
     el_store draft l1 = (res, l') →
     res = Ok (draft <| ev_attested := true |>) ∧ ledger_wf l' ∧
     el_max_records l' = el_max_records l ∧
     (∀ bound, ledger_within bound l → ledger_within bound l') ∧
     (∀ k, el_latest k l' = if decide (k = ev_key draft) then Some (draft <| ev_attested := true |>)
                            else el_latest k l)) as Hst.
  { intros l1 Hret Hsz Hnew Hs.
    destruct (el_store_spec draft l1 l Hwf Hret Hnew) as (l2 & E & Hwf2 & Er & El & Hn & Em).
    rewrite E in Hs. injection Hs as <- <-. split_and!; try done.
    - intros bound [Hb1 Hb2]. split; [by rewrite Em|]. rewrite Er, om_size_insert_None by done. lia.
    - intros k. unfold el_latest. rewrite Er, El. case_decide as D.
      + subst k. by rewrite !om_lookup_insert_eq.
      + rewrite om_lookup_insert_ne by congruence. destruct (el_latest_seq l !! k) as [s|] eqn:Hk; [|done].
        rewrite om_lookup_insert_ne by congruence. by apply (rt_keep _ _ _ Hret). }
  destruct (match el_latest_seq l !! ev_key draft with
            | Some s => if ev_seq draft <=? s then Some s else None
            | None => None
            end) as [s|] eqn:Hold; [by intros [= <- <-]; left|].
  assert (∀ s, el_latest_seq l !! ev_key draft = Some s → s < ev_seq draft) as Hnew.
  { intros s Hs. rewrite Hs in Hold. by destruct (Z.leb_spec (ev_seq draft) s). }
  destruct (Z.leb_spec (el_max_records l) (om_size (el_records l))) as [Hfull|Hroom].
  - destruct (el_retire_one_for (ev_key draft) l) as [l1|] eqn:Hr; [|by intros [= <- <-]; left].
    apply el_retire_spec in Hr as [Hret Hlt]; [|done]. intros Hs. right.
    destruct (Hst l1 Hret ltac:(lia) Hnew Hs) as (? & ? & ? & ? & ?). by split_and!.
  - intros Hs. right. destruct (Hst l (retired_for_refl _ _ Hwf) ltac:(lia) Hnew Hs) as (? & ? & ? & ? & ?).
    by split_and!.
Qed.

Lemma el_record_wf draft fence live l res l' :
  ledger_wf l → el_record draft fence live l = (res, l') → ledger_wf l'.
Proof. intros Hwf Hr. destruct (el_record_cases _ _ _ _ _ _ Hwf Hr) as [[_ ->]|(_ & ? & _)]; done. Qed.

Lemma el_record_within bound draft fence live l res l' :
  ledger_wf l → el_record draft fence live l = (res, l') → ledger_within bound l → ledger_within bound l'.
Proof.
  intros Hwf Hr. destruct (el_record_cases _ _ _ _ _ _ Hwf Hr) as [[_ ->]|(_ & _ & _ & _ & _ & _ & _ & H & _)]; auto.
Qed.

Lemma quarantine_within bound l : ledger_within bound l → ledger_within bound (quarantine_all l).
Proof. intros [H1 H2]. split; [done|]. simpl. by rewrite om_size_map. Qed.

Lemma el_attest_within bound key seq fence l st l' :
  ledger_wf l → el_attest key seq fence l = (st, l') → ledger_within bound l → ledger_within bound l'.
Proof.
  intros Hwf. unfold el_attest. destruct (el_records l !! (key, seq)) as [e|] eqn:He; [|by intros [= _ <-]].
  destruct (negb _); [by intros [= _ <-]|]. destruct (negb _); [by intros [= _ <-]|]. intros [= _ <-] [H1 H2].
  split; [done|]. simpl. erewrite om_size_insert_Some; [done|apply Hwf|exact He].
Qed.

Lemma quarantine_all_wf l : ledger_wf l → ledger_wf (quarantine_all l).
Proof.
  intros Hwf. split; simpl.
  - apply om_wf_map, Hwf.
  - apply Hwf.
  - intros k s e. rewrite om_lookup_map, fmap_Some. intros (e0 & He0 & ->). simpl. by apply (lw_filed _ Hwf).
  - intros k s Hs. rewrite om_lookup_map, fmap_is_Some. by apply (lw_present _ Hwf).
Qed.

Lemma el_latest_quarantine k l :
  el_latest k (quarantine_all l) = (λ e, e <| ev_attested := false |>) <$> el_latest k l.
Proof. unfold el_latest; simpl. destruct (el_latest_seq l !! k); [|done]. apply om_lookup_map. Qed.

Lemma el_find_quarantine k s l :
  el_find k s (quarantine_all l) = (λ e, e <| ev_attested := false |>) <$> el_find k s l.
Proof. apply om_lookup_map. Qed.

(** Nothing in a quarantined ledger is fresh. *)
Lemma el_fresh_quarantine k fence freshness l : el_fresh k fence freshness (quarantine_all l) = None.
Proof. unfold el_fresh. rewrite el_latest_quarantine. by destruct (el_latest k l). Qed.

Lemma el_attest_wf key seq fence l st l' :
  ledger_wf l → el_attest key seq fence l = (st, l') → ledger_wf l'.
Proof.
  intros Hwf. unfold el_attest. destruct (el_records l !! (key, seq)) as [e|] eqn:He; [|by intros [= _ <-]].
  destruct (negb (ev_epoch e =? _)); [by intros [= _ <-]|].
  destruct (negb (ev_producer e =? _)); intros [= _ <-]; [done|].
  destruct (lw_filed _ Hwf _ _ _ He) as (? & ? & ?). split; simpl.
  - apply om_wf_insert, Hwf.
  - apply Hwf.
  - intros k s e' He'. om_cases He'; [by simplify_eq|by apply (lw_filed _ Hwf)].
  - intros k s Hs. destruct (lw_present _ Hwf _ _ Hs) as [[e' He'] ?]. split; [|done].
    destruct (decide ((key, seq) = (k, s))) as [[= -> ->]|]; [rewrite om_lookup_insert_eq; eauto|].
    rewrite om_lookup_insert_ne by done. eauto.
Qed.

Lemma el_latest_key k l e : ledger_wf l → el_latest k l = Some e → ev_key e = k.
Proof.
  intros Hwf. unfold el_latest. destruct (el_latest_seq l !! k) as [s|]; [|done].
  intros He. by apply (lw_filed _ Hwf) in He as (? & _).
Qed.

(** What freshness means. *)
Lemma el_fresh_Some k fence freshness l e :
  el_fresh k fence freshness l = Some e ↔
  el_latest k l = Some e ∧ ev_attested e = true ∧ ev_epoch e = ef_live_epoch fence ∧
  ev_observed_at e ≤ saturating_add (ef_now fence) (ef_allowed_skew fence) ∧ 0 < freshness ∧
  ef_now fence ≤ saturating_add (ev_observed_at e) freshness.
Proof.
  unfold el_fresh, is_fresh. destruct (el_latest k l) as [e0|]; [|naive_solver].
  split.
  - intros H. repeat case_in H; simplify_eq; breflect; by split_and!.
  - intros ([= ->] & -> & -> & ? & ? & ?). rewrite Z.eqb_refl; simpl.
    destruct (Z.ltb_spec (saturating_add (ef_now fence) (ef_allowed_skew fence)) (ev_observed_at e)); [lia|].
    destruct (Z.leb_spec freshness 0); [lia|]. by rewrite (proj2 (Z.leb_le _ _)).
Qed.

#[export] Hint Resolve new_evidence_ledger_wf el_record_wf quarantine_all_wf el_attest_wf : drain.
