(* ===== verification/Authority.v ===== *)
(** * Authority registry

    [include/drain/authority.hpp] and [src/authority.cpp]: tokens scoped to a
    failure domain, fenced by incarnation, epoch and scope generation. *)

From S2P Require Import Prelude Containers Checked Result Text Identity Lifecycle.

Definition kMaxAuthorityTokens : Z := 65536.

(** [drain::AuthorityToken]. *)
Record AuthorityToken := MkAuthorityToken {
  at_id : AuthorityId;
  at_scope : DomainId;
  at_generation : Generation;
  at_epoch : Epoch;
  at_incarnation : IncarnationId;
  at_issued_at : TimePoint;
  at_expires_at : TimePoint;
  at_revoked : bool;
  at_revoked_at : TimePoint;
  at_revocation_reason : string;
}.

#[export] Instance AuthorityToken_eq_dec : EqDecision AuthorityToken.
Proof. solve_decision. Defined.

#[export] Instance eta_AuthorityToken : Eta AuthorityToken := λ r,
  MkAuthorityToken
    (at_id r) (at_scope r) (at_generation r) (at_epoch r) (at_incarnation r) (at_issued_at r)
    (at_expires_at r) (at_revoked r) (at_revoked_at r) (at_revocation_reason r).
#[export] Instance upd_at_revoked : Update at_revoked := ltac:(solve_update at_revoked).
#[export] Instance upd_at_revoked_at : Update at_revoked_at := ltac:(solve_update at_revoked_at).
#[export] Instance upd_at_revocation_reason : Update at_revocation_reason := ltac:(solve_update at_revocation_reason).
Arguments upd_at_revoked f r /.
Arguments upd_at_revoked_at f r /.
Arguments upd_at_revocation_reason f r /.

(** The constructor: a live token. *)
Definition new_authority_token (id : AuthorityId) (scope : DomainId) (generation : Generation)
    (epoch : Epoch) (incarnation : IncarnationId) (issued_at expires_at : TimePoint) : AuthorityToken :=
  MkAuthorityToken id scope generation epoch incarnation issued_at expires_at false 0 "".

(** [AuthorityToken::expired_at]. *)
Definition expired_at (t : AuthorityToken) (now : TimePoint) : bool :=
  negb (at_expires_at t =? 0) && (at_expires_at t <? now).

(** [AuthorityToken::revoke]. *)
Definition token_revoke (at_ : TimePoint) (reason : string) (t : AuthorityToken) : AuthorityToken :=
  t <| at_revoked := true |> <| at_revoked_at := at_ |> <| at_revocation_reason := reason |>.

(** [AuthorityToken::label]. *)
Definition token_label (t : AuthorityToken) : string :=
  "authority:" ++s decimal (at_id t) ++s " scope="
  ++s (if bool_decide (at_scope t = "") then "*" else at_scope t) ++s " generation="
  ++s decimal (at_generation t) ++s " epoch=" ++s decimal (at_epoch t) ++s " incarnation="
  ++s decimal (at_incarnation t).

(** [drain::AuthorityRejection]; [None_] is [AuthorityRejection::None]. *)
Module AuthorityRejection.
Inductive t : Set :=
  | None_ | Unknown | Revoked | Expired | StaleEpoch | StaleIncarnation | StaleGeneration.

#[export] Instance t_eq_dec : EqDecision t.
Proof. solve_decision. Defined.

(** [static_cast<std::uint8_t>]: the enumerator's value. *)
Definition rank (x : t) : Z :=
  match x with
  | None_ => 0 | Unknown => 1 | Revoked => 2 | Expired => 3 | StaleEpoch => 4
  | StaleIncarnation => 5 | StaleGeneration => 6
  end.

Definition to_string (x : t) : string :=
  match x with
  | None_ => "none"
  | Unknown => "unknown"
  | Revoked => "revoked"
  | Expired => "expired"
  | StaleEpoch => "stale-epoch"
  | StaleIncarnation => "stale-incarnation"
  | StaleGeneration => "stale-generation"
  end.

End AuthorityRejection.
Export (hints) AuthorityRejection.

(** [drain::AuthorityRegistry]. *)
Record AuthorityRegistry := MkAuthorityRegistry {
  ar_tokens : omap AuthorityId AuthorityToken;
  ar_scope_generations : omap DomainId Generation;
  ar_high_water : AuthorityId;
  ar_incarnation : IncarnationId;
  ar_epoch : Epoch;
}.

#[export] Instance eta_AuthorityRegistry : Eta AuthorityRegistry := λ r,
  MkAuthorityRegistry
    (ar_tokens r) (ar_scope_generations r) (ar_high_water r) (ar_incarnation r) (ar_epoch r).
#[export] Instance upd_ar_tokens : Update ar_tokens := ltac:(solve_update ar_tokens).
#[export] Instance upd_ar_scope_generations : Update ar_scope_generations := ltac:(solve_update ar_scope_generations).
#[export] Instance upd_ar_high_water : Update ar_high_water := ltac:(solve_update ar_high_water).
#[export] Instance upd_ar_incarnation : Update ar_incarnation := ltac:(solve_update ar_incarnation).
#[export] Instance upd_ar_epoch : Update ar_epoch := ltac:(solve_update ar_epoch).
Arguments upd_ar_tokens f r /.
Arguments upd_ar_scope_generations f r /.
Arguments upd_ar_high_water f r /.
Arguments upd_ar_incarnation f r /.
Arguments upd_ar_epoch f r /.

(** A default-constructed registry: no incarnation, epoch one. *)
Definition new_authority_registry : AuthorityRegistry := MkAuthorityRegistry ∅ ∅ 0 0 1.

(** [AuthorityRegistry::install_incarnation]. *)
Definition install_incarnation (incarnation : IncarnationId) (at_ : TimePoint) (r : AuthorityRegistry)
  : status * AuthorityRegistry :=
  if incarnation =? 0 then (fail ErrorCode.InvalidArgument "incarnation id must be non-zero", r)
  else if incarnation <=? ar_incarnation r then
    (fail ErrorCode.StaleIncarnation
       "incarnation id must advance: it is a fresh-incarnation fence, not a label", r)
  else (ok_status, r <| ar_incarnation := incarnation |>).

(** [AuthorityRegistry::revoke_all]. *)
Definition revoke_all (at_ : TimePoint) (reason : string) (r : AuthorityRegistry)
  : status * AuthorityRegistry :=
  (ok_status,
   r <| ar_tokens := om_map (λ t, if negb (at_revoked t) then token_revoke at_ reason t else t)
                            (ar_tokens r) |>).

(** [AuthorityRegistry::begin_new_epoch]. *)
Definition begin_new_epoch (incarnation : IncarnationId) (at_ : TimePoint) (reason : string)
    (r : AuthorityRegistry) : status * AuthorityRegistry :=
  if incarnation <=? ar_incarnation r then
    (fail ErrorCode.StaleIncarnation "incarnation id must advance across restarts", r)
  else
    match increment_checked u64 (ar_epoch r) with
    | None => (fail ErrorCode.BoundsExceeded "authority epoch space exhausted", r)
    | Some next_epoch =>
        let r := r <| ar_epoch := next_epoch |> in
        let r := r <| ar_incarnation := incarnation |> in
        revoke_all at_ reason r
    end.

(** [AuthorityRegistry::install_line]. *)
Definition install_line (incarnation : IncarnationId) (epoch : Epoch) (at_ : TimePoint)
    (reason : string) (r : AuthorityRegistry) : status * AuthorityRegistry :=
  if incarnation =? 0 then (fail ErrorCode.InvalidArgument "incarnation id must be non-zero", r)
  else if epoch =? 0 then (fail ErrorCode.InvalidArgument "authority epoch must be non-zero", r)
  else if negb (ar_incarnation r =? 0) && (incarnation <=? ar_incarnation r) then
    (fail ErrorCode.StaleIncarnation "the authority line must advance its incarnation", r)
  else if epoch <? ar_epoch r then
    (fail ErrorCode.StaleEpoch "the authority line must not rewind its epoch", r)
  else
    let r := r <| ar_incarnation := incarnation |> in
    let r := r <| ar_epoch := epoch |> in
    revoke_all at_ reason r.

(** [AuthorityRegistry::scope_generation]. *)
Definition scope_generation (scope : DomainId) (r : AuthorityRegistry) : Generation :=
  default 0 (ar_scope_generations r !! scope).

(** [AuthorityRegistry::issue]. *)
Definition ar_issue (scope : DomainId) (at_ : TimePoint) (validity : Duration) (r : AuthorityRegistry)
  : result AuthorityToken * AuthorityRegistry :=
  if ar_incarnation r =? 0 then
    (fail ErrorCode.AuthorityRequired "no incarnation is installed; authority cannot be issued", r)
  else if kMaxAuthorityTokens <=? om_size (ar_tokens r) then
    (fail ErrorCode.BoundsExceeded "authority token limit reached", r)
  else
    match increment_checked u64 (ar_high_water r) with
    | None => (fail ErrorCode.BoundsExceeded "authority id space exhausted", r)
    | Some next =>
        let r := r <| ar_high_water := next |> in
        let expires_at := if validity =? 0 then 0 else saturating_add at_ validity in
        let token := new_authority_token next scope (scope_generation scope r) (ar_epoch r)
                       (ar_incarnation r) at_ expires_at in
        (Ok token, r <| ar_tokens := (emplace next token (ar_tokens r)).1 |>)
    end.

(** [AuthorityRegistry::advance_scope_generation]. *)
Definition advance_scope_generation (scope : DomainId) (r : AuthorityRegistry)
  : result Generation * AuthorityRegistry :=
  let current := default 0 (ar_scope_generations r !! scope) in
  match increment_checked u64 current with
  | None => (fail ErrorCode.BoundsExceeded "scope generation space exhausted", r)
  | Some next =>
      (Ok next, r <| ar_scope_generations := <[scope := next]> (ar_scope_generations r) |>)
  end.

(** [AuthorityRegistry::check]: the registry's own copy is consulted for
    existence and revocation, the presented token for everything else. *)
Definition ar_check (token : AuthorityToken) (now : TimePoint) (r : AuthorityRegistry)
  : AuthorityRejection.t :=
  match ar_tokens r !! at_id token with
  | None => AuthorityRejection.Unknown
  | Some stored =>
      if at_revoked stored then AuthorityRejection.Revoked
      else if negb (at_incarnation token =? ar_incarnation r) then AuthorityRejection.StaleIncarnation
      else if negb (at_epoch token =? ar_epoch r) then AuthorityRejection.StaleEpoch
      else if negb (at_generation token =? scope_generation (at_scope token) r)
      then AuthorityRejection.StaleGeneration
      else if expired_at token now then AuthorityRejection.Expired
      else AuthorityRejection.None_
  end.

(** [AuthorityRegistry::validate]. *)
Definition ar_validate (token : AuthorityToken) (now : TimePoint) (r : AuthorityRegistry) : status :=
  match ar_check token now r with
  | AuthorityRejection.None_ => ok_status
  | AuthorityRejection.Unknown =>
      fail ErrorCode.AuthorityRequired "authority token is not known to this incarnation"
  | AuthorityRejection.Revoked => fail ErrorCode.StaleAuthority "authority token was revoked"
  | AuthorityRejection.Expired => fail ErrorCode.StaleAuthority "authority token expired"
  | AuthorityRejection.StaleEpoch =>
      fail ErrorCode.StaleEpoch "authority token belongs to a superseded epoch"
  | AuthorityRejection.StaleIncarnation =>
      fail ErrorCode.StaleIncarnation
        "authority token was issued by a previous incarnation and cannot be reused"
  | AuthorityRejection.StaleGeneration =>
      fail ErrorCode.StaleGeneration "authority token belongs to a superseded scope generation"
  end.

(** [AuthorityRegistry::revoke]. *)
Definition ar_revoke (id : AuthorityId) (at_ : TimePoint) (reason : string) (r : AuthorityRegistry)
  : status * AuthorityRegistry :=
  match ar_tokens r !! id with
  | None => (fail ErrorCode.NotFound "authority token is not known", r)
  | Some token =>
      (ok_status, r <| ar_tokens := <[id := token_revoke at_ reason token]> (ar_tokens r) |>)
  end.

Definition ar_find (id : AuthorityId) (r : AuthorityRegistry) : option AuthorityToken := ar_tokens r !! id.
Definition ar_all_tokens (r : AuthorityRegistry) : list AuthorityToken := om_values (ar_tokens r).
Definition ar_clear (r : AuthorityRegistry) : AuthorityRegistry := new_authority_registry.

(** ** Facts *)

(** Ids are the keys and never exceed the high-water mark. *)
Definition registry_wf (r : AuthorityRegistry) : Prop :=
  om_wf (ar_tokens r) ∧ om_wf (ar_scope_generations r) ∧ in_range u64 (ar_high_water r) ∧
  in_range u64 (ar_epoch r) ∧ in_range u64 (ar_incarnation r) ∧
  (∀ s g, ar_scope_generations r !! s = Some g → in_range u64 g) ∧
  ∀ id t, ar_find id r = Some t → at_id t = id ∧ 1 ≤ id ≤ ar_high_water r.

Lemma new_authority_registry_wf : registry_wf new_authority_registry.
Proof. split_and!; first [done | apply om_wf_empty]. Qed.

Lemma revoke_all_find at_ reason r id :
  ar_find id (revoke_all at_ reason r).2 =
  (λ t, if negb (at_revoked t) then token_revoke at_ reason t else t) <$> ar_find id r.
Proof. unfold ar_find; simpl. apply om_lookup_map. Qed.

Lemma revoke_all_revoked at_ reason r id t :
  ar_find id (revoke_all at_ reason r).2 = Some t → at_revoked t = true.
Proof.
  rewrite revoke_all_find, fmap_Some. intros (t0 & _ & ->). destruct (at_revoked t0) eqn:E; done.
Qed.

Lemma revoke_all_wf at_ reason r : registry_wf r → registry_wf (revoke_all at_ reason r).2.
Proof.
  intros (H1 & H2 & H3 & H4 & H5 & H6 & H7). split_and!; try done.
  - simpl. by apply om_wf_map.
  - intros id t. rewrite revoke_all_find, fmap_Some. intros (t0 & Ht0 & ->). simpl.
    destruct (H7 _ _ Ht0). destruct (negb (at_revoked t0)); simpl; by split.
Qed.

(** Acceptance, spelled out. *)
Lemma ar_validate_ok token now r :
  ar_validate token now r = ok_status ↔
  (∃ stored, ar_find (at_id token) r = Some stored ∧ at_revoked stored = false) ∧
  at_incarnation token = ar_incarnation r ∧ at_epoch token = ar_epoch r ∧
  at_generation token = scope_generation (at_scope token) r ∧ expired_at token now = false.
Proof.
  unfold ar_validate, ar_check, ar_find.
  destruct (ar_tokens r !! at_id token) as [stored|]; [|by split; [|intros ((? & ? & _) & _)]].
  split.
  - intros H. repeat case_in H; try done; breflect; split_and!; eauto.
  - intros ((? & [= <-] & ->) & -> & -> & -> & ->). by rewrite !Z.eqb_refl.
Qed.

Lemma ar_issue_Ok scope at_ validity r token r' :
  registry_wf r → ar_issue scope at_ validity r = (Ok token, r') →
  at_id token = ar_high_water r + 1 ∧ at_scope token = scope ∧
  at_generation token = scope_generation scope r ∧ at_epoch token = ar_epoch r ∧
  at_incarnation token = ar_incarnation r ∧ at_revoked token = false ∧
  at_expires_at token = (if validity =? 0 then 0 else saturating_add at_ validity) ∧
  ar_find (at_id token) r = None ∧ ar_tokens r' = <[at_id token := token]> (ar_tokens r) ∧
  ar_high_water r' = at_id token ∧ in_range u64 (at_id token) ∧ ar_epoch r' = ar_epoch r ∧
  ar_incarnation r' = ar_incarnation r ∧ ar_scope_generations r' = ar_scope_generations r.
Proof.
  intros (H1 & H2 & H3 & H4 & H5 & H6 & H7). unfold ar_issue.
  destruct (ar_incarnation r =? 0); [done|]. destruct (_ <=? _); [done|].
  destruct (increment_checked u64 (ar_high_water r)) as [next|] eqn:Hn; [|done].
  apply increment_checked_Some in Hn as [-> Hr]; [|apply it_wf_u64|done]. intros [= <- <-]; simpl.
  assert (ar_find (ar_high_water r + 1) r = None) as Hnone.
  { destruct (ar_find (ar_high_water r + 1) r) as [t|] eqn:Ht; [|done]. destruct (H7 _ _ Ht). lia. }
  unfold emplace. unfold ar_find in Hnone. rewrite Hnone. split_and!; done.
Qed.

Lemma ar_issue_wf scope at_ validity r res r' :
  registry_wf r → ar_issue scope at_ validity r = (res, r') → registry_wf r'.
Proof.
  intros Hwf Hi. destruct res as [token|e].
  - destruct (ar_issue_Ok _ _ _ _ _ _ Hwf Hi) as (Hid & _ & _ & _ & _ & _ & _ & _ & Et & Eh & Hr & Ee & Ei & Es).
    destruct Hwf as (H1 & H2 & H3 & H4 & H5 & H6 & H7). unfold registry_wf. rewrite Eh, Ee, Ei, Es, Et.
    split_and!; try done; [by apply om_wf_insert|]. intros id t Ht. unfold ar_find in Ht. rewrite Et in Ht.
    destruct H3. change (int_min u64) with 0 in *. om_cases Ht; [split; [done|lia]|].
    destruct (H7 _ _ Ht). split; [done|lia].
  - unfold ar_issue in Hi. repeat case_in Hi; by simplify_eq.
Qed.

Lemma advance_scope_generation_wf scope r res r' :
  registry_wf r → advance_scope_generation scope r = (res, r') → registry_wf r'.
Proof.
  intros (H1 & H2 & H3 & H4 & H5 & H6 & H7). unfold advance_scope_generation.
  assert (in_range u64 (default 0 (ar_scope_generations r !! scope))) as Hr.
  { destruct (ar_scope_generations r !! scope) eqn:E; simpl; [by eapply H6|done]. }
  destruct (increment_checked u64 _) as [next|] eqn:Hn; intros [= <- <-]; [|by split_and!].
  apply increment_checked_Some in Hn as [-> Hr']; [|apply it_wf_u64|done].
  split_and!; simpl; try done; [by apply om_wf_insert|].
  intros s g Hs. om_cases Hs; [done|by eapply H6].
Qed.

Lemma ar_revoke_wf id at_ reason r st r' :
  registry_wf r → ar_revoke id at_ reason r = (st, r') → registry_wf r'.
Proof.
  intros (H1 & H2 & H3 & H4 & H5 & H6 & H7). unfold ar_revoke.
  destruct (ar_tokens r !! id) as [t|] eqn:Ht; intros [= <- <-]; [|by split_and!].
  split_and!; simpl; try done; [by apply om_wf_insert|]. intros id' t'. unfold ar_find; simpl. intros Ht'.
  destruct (H7 _ _ Ht). om_cases Ht'; [done|by apply H7].
Qed.

Lemma install_line_cases incarnation epoch at_ reason r st r' :
  install_line incarnation epoch at_ reason r = (st, r') →
  (is_ok st = false ∧ r' = r) ∨
  (st = ok_status ∧ incarnation ≠ 0 ∧ epoch ≠ 0 ∧
   (ar_incarnation r = 0 ∨ ar_incarnation r < incarnation) ∧ ar_epoch r ≤ epoch ∧
   r' = (revoke_all at_ reason (r <| ar_incarnation := incarnation |> <| ar_epoch := epoch |>)).2).
Proof.
  unfold install_line.
  destruct (Z.eqb_spec incarnation 0); [by intros [= <- <-]; left|].
  destruct (Z.eqb_spec epoch 0); [by intros [= <- <-]; left|].
  destruct (Z.eqb_spec (ar_incarnation r) 0); simpl;
    [|destruct (Z.leb_spec incarnation (ar_incarnation r)); [by intros [= <- <-]; left|]];
  (destruct (Z.ltb_spec epoch (ar_epoch r)); [by intros [= <- <-]; left|]);
  intros [= <- <-]; right; split_and!; auto; lia.
Qed.

(** Every token the registry held is refused on the new line, whatever the
    presenter writes into its other fields. *)
Lemma install_line_fences incarnation epoch at_ reason r r' token now :
  install_line incarnation epoch at_ reason r = (ok_status, r') →
  ar_validate token now r' ≠ ok_status.
Proof.
  intros Hi. apply install_line_cases in Hi as [[? _]|(_ & _ & _ & _ & _ & ->)]; [done|].
  rewrite ar_validate_ok. intros ((t & Ht & Hr) & _).
  apply revoke_all_revoked in Ht. congruence.
Qed.

(** The tokens held do not exceed the limit of the registry. *)
Definition registry_within (r : AuthorityRegistry) : Prop := om_size (ar_tokens r) ≤ kMaxAuthorityTokens.

Lemma ar_issue_within scope at_ validity r res r' :
  registry_wf r → ar_issue scope at_ validity r = (res, r') → registry_within r → registry_within r'.
Proof.
  intros Hwf Hi. unfold registry_within. destruct res as [token|e].
  - destruct (ar_issue_Ok _ _ _ _ _ _ Hwf Hi) as (_ & _ & _ & _ & _ & _ & _ & Hf & -> & _).
    rewrite om_size_insert_None by done. unfold ar_issue in Hi. destruct (_ =? _); [done|].
    destruct (Z.leb_spec kMaxAuthorityTokens (om_size (ar_tokens r))); [done|lia].
  - unfold ar_issue in Hi. repeat case_in Hi; by simplify_eq.
Qed.

Lemma ar_revoke_within id at_ reason r st r' :
  registry_wf r → ar_revoke id at_ reason r = (st, r') → registry_within r → registry_within r'.
Proof.
  intros Hwf. unfold ar_revoke, registry_within. destruct (ar_tokens r !! id) as [t|] eqn:Ht; intros [= _ <-]; [|done].
  simpl. erewrite om_size_insert_Some; [done|apply Hwf|exact Ht].
Qed.

Lemma install_line_within incarnation epoch at_ reason r st r' :
  install_line incarnation epoch at_ reason r = (st, r') → registry_within r → registry_within r'.
Proof.
  unfold registry_within.
  intros [[_ ->]|(_ & _ & _ & _ & _ & ->)]%install_line_cases; [done|]. simpl. by rewrite om_size_map.
Qed.

Lemma install_incarnation_within incarnation at_ r st r' :
  install_incarnation incarnation at_ r = (st, r') → registry_within r → registry_within r'.
Proof. unfold install_incarnation, registry_within. repeat case_match; by intros [= _ <-]. Qed.

Lemma install_line_wf incarnation epoch at_ reason r st r' :
  registry_wf r → in_range u64 incarnation → in_range u64 epoch →
  install_line incarnation epoch at_ reason r = (st, r') → registry_wf r'.
Proof.
  intros Hwf Hi He Hl. apply install_line_cases in Hl as [[_ ->]|(_ & _ & _ & _ & _ & ->)]; [done|].
  apply revoke_all_wf. destruct Hwf as (H1 & H2 & H3 & H4 & H5 & H6 & H7). by split_and!.
Qed.

(** Advancing a scope's generation refuses every token issued for it before. *)
Lemma advance_scope_fences scope r g r' token now :
  registry_wf r → advance_scope_generation scope r = (Ok g, r') →
  at_scope token = scope → at_generation token ≤ scope_generation scope r →
  ar_validate token now r' ≠ ok_status.
Proof.
  intros (_ & _ & _ & _ & _ & H6 & _). unfold advance_scope_generation, scope_generation.
  assert (in_range u64 (default 0 (ar_scope_generations r !! scope))) as Hr.
  { destruct (ar_scope_generations r !! scope) eqn:E; simpl; [by eapply H6|done]. }
  destruct (increment_checked u64 _) as [next|] eqn:Hn; intros [= <- <-].
  apply increment_checked_Some in Hn as [-> ?]; [|apply it_wf_u64|done].
  intros <- Hle. rewrite ar_validate_ok. intros (_ & _ & _ & Hg & _).
  unfold scope_generation in Hg; simpl in Hg. rewrite om_lookup_insert_eq in Hg. simpl in Hg. lia.
Qed.

#[export] Hint Resolve new_authority_registry_wf ar_issue_wf advance_scope_generation_wf ar_revoke_wf
  revoke_all_wf install_line_wf : drain.
