(* ===== verification/Admission.v ===== *)
(** * Admission fence

    [include/drain/admission.hpp] and [src/admission.cpp]: per target, whether
    new dependencies may bind, and under which generation. *)

From S2P Require Import Prelude Containers Checked Result Text Identity Lifecycle.

Definition kMaxFencedTargets : Z := 65536.

(** [drain::FenceEntry]. *)
Record FenceEntry := MkFenceEntry {
  fe_closed : bool;
  fe_generation : Generation;
  fe_drain : DrainId;
  fe_closed_at : TimePoint;
  fe_opened_at : TimePoint;
  fe_reason : string;
}.

#[export] Instance FenceEntry_eq_dec : EqDecision FenceEntry.
Proof. solve_decision. Defined.

#[export] Instance eta_FenceEntry : Eta FenceEntry := λ r,
  MkFenceEntry
    (fe_closed r) (fe_generation r) (fe_drain r) (fe_closed_at r) (fe_opened_at r) (fe_reason r).
#[export] Instance upd_fe_closed : Update fe_closed := ltac:(solve_update fe_closed).
#[export] Instance upd_fe_generation : Update fe_generation := ltac:(solve_update fe_generation).
#[export] Instance upd_fe_drain : Update fe_drain := ltac:(solve_update fe_drain).
#[export] Instance upd_fe_closed_at : Update fe_closed_at := ltac:(solve_update fe_closed_at).
#[export] Instance upd_fe_opened_at : Update fe_opened_at := ltac:(solve_update fe_opened_at).
#[export] Instance upd_fe_reason : Update fe_reason := ltac:(solve_update fe_reason).
Arguments upd_fe_closed f r /.
Arguments upd_fe_generation f r /.
Arguments upd_fe_drain f r /.
Arguments upd_fe_closed_at f r /.
Arguments upd_fe_opened_at f r /.
Arguments upd_fe_reason f r /.

Definition default_fence_entry : FenceEntry := MkFenceEntry false 0 0 0 0 "".

(** [drain::AdmissionFence]: its only member is the map. *)
Notation AdmissionFence := (omap DrainTarget FenceEntry).

(** [AdmissionFence::close].  [entries_[target]] creates the entry; both error
    paths that follow erase it. *)
Definition fence_close (target : DrainTarget) (drain : DrainId) (at_ : TimePoint) (reason : string)
    (f : AdmissionFence) : result Generation * AdmissionFence :=
  if drain =? 0 then
    (fail ErrorCode.InvalidArgument "a fence closure must name the drain that closed it", f)
  else
    let entry := default default_fence_entry (f !! target) in
    let f := <[target := entry]> f in
    match increment_checked u64 (fe_generation entry) with
    | None =>
        (fail ErrorCode.BoundsExceeded "admission generation space exhausted for this target",
         delete target f)
    | Some next =>
        if kMaxFencedTargets <? om_size f then
          (fail ErrorCode.BoundsExceeded "admission fence table is at capacity", delete target f)
        else
          (Ok next,
           <[target := entry <| fe_closed := true |> <| fe_generation := next |>
                             <| fe_drain := drain |> <| fe_closed_at := at_ |>
                             <| fe_reason := reason |>]> f)
    end.

(** [AdmissionFence::reopen]. *)
Definition fence_reopen (target : DrainTarget) (drain : DrainId) (at_ : TimePoint) (reason : string)
    (f : AdmissionFence) : result Generation * AdmissionFence :=
  match f !! target with
  | None => (fail ErrorCode.IllegalTransition "admission for this target is not closed", f)
  | Some entry =>
      if negb (fe_closed entry) then
        (fail ErrorCode.IllegalTransition "admission for this target is not closed", f)
      else if drain =? 0 then
        (fail ErrorCode.InvalidArgument "a fence reopen must name the drain that owns the closure", f)
      else
        match increment_checked u64 (fe_generation entry) with
        | None =>
            (fail ErrorCode.BoundsExceeded "admission generation space exhausted for this target", f)
        | Some next =>
            (Ok next,
             <[target := entry <| fe_closed := false |> <| fe_generation := next |>
                               <| fe_drain := drain |> <| fe_opened_at := at_ |>
                               <| fe_reason := reason |>]> f)
        end
  end.

(** [AdmissionFence::is_closed], [entry] and [generation]. *)
Definition fence_is_closed (target : DrainTarget) (f : AdmissionFence) : bool :=
  match f !! target with Some e => fe_closed e | None => false end.
Definition fence_entry (target : DrainTarget) (f : AdmissionFence) : option FenceEntry := f !! target.
Definition fence_generation (target : DrainTarget) (f : AdmissionFence) : Generation :=
  match f !! target with Some e => fe_generation e | None => 0 end.

(** [AdmissionFence::check_admission]. *)
Definition check_admission (target : DrainTarget) (presented : Generation) (f : AdmissionFence) : status :=
  match f !! target with
  | None =>
      if negb (presented =? 0) then
        fail ErrorCode.StaleGeneration
          ("target " ++s target_to_string target ++s " has never been fenced, so generation "
           ++s decimal presented ++s " cannot be current")
      else ok_status
  | Some e =>
      if negb (presented =? fe_generation e) then
        fail ErrorCode.StaleGeneration
          ("target " ++s target_to_string target ++s " is at generation " ++s decimal (fe_generation e)
           ++s " but the caller presented " ++s decimal presented)
      else if fe_closed e then
        fail ErrorCode.AdmissionClosed
          ("admission for " ++s target_to_string target ++s " is closed by drain " ++s decimal (fe_drain e))
      else ok_status
  end.

Definition closed_count (f : AdmissionFence) : Z := zlength (List.filter fe_closed (om_values f)).

(** ** Facts *)

(** A stored entry has been fenced at least once, and a closed one names its
    drain. *)
Definition fence_wf (f : AdmissionFence) : Prop :=
  om_wf f ∧ om_size f ≤ kMaxFencedTargets ∧
  ∀ t e, f !! t = Some e →
    in_range u64 (fe_generation e) ∧ 1 ≤ fe_generation e ∧ (fe_closed e = true → fe_drain e ≠ 0).

Lemma fence_wf_empty : fence_wf ∅.
Proof. split_and!; [apply om_wf_empty|done|done]. Qed.

(** Admission is granted exactly when the target is open and the caller knows
    its current generation. *)
Lemma check_admission_ok target presented f :
  check_admission target presented f = ok_status ↔
  fence_is_closed target f = false ∧ presented = fence_generation target f.
Proof.
  unfold check_admission, fence_is_closed, fence_generation. destruct (f !! target) as [e|].
  - destruct (Z.eqb_spec presented (fe_generation e)); simpl; [|naive_solver].
    destruct (fe_closed e); naive_solver.
  - destruct (Z.eqb_spec presented 0); naive_solver.
Qed.

Lemma fence_generation_range target f : fence_wf f → in_range u64 (fence_generation target f).
Proof.
  intros (_ & _ & Hf). unfold fence_generation. destruct (f !! target) eqn:E; [|done].
  by destruct (Hf _ _ E).
Qed.

Lemma fence_entry_default target f :
  fe_generation (default default_fence_entry (f !! target)) = fence_generation target f.
Proof. unfold fence_generation. by destruct (f !! target). Qed.

(** What [close] does, with the generation space not exhausted: it closes the
    target under the next generation, or leaves the fence as it was. *)
Lemma fence_close_cases target drain at_ reason f res f' :
  fence_wf f → fence_generation target f ≠ int_max u64 →
  fence_close target drain at_ reason f = (res, f') →
  (is_ok res = false ∧ f' = f) ∨
  (∃ e, res = Ok (fence_generation target f + 1) ∧ drain ≠ 0 ∧ f' = <[target := e]> f ∧
     fe_closed e = true ∧ fe_generation e = fence_generation target f + 1 ∧ fe_drain e = drain ∧
     in_range u64 (fence_generation target f + 1) ∧ om_size f' ≤ kMaxFencedTargets).
Proof.
  intros Hwf Hmax. pose proof (fence_generation_range target f Hwf) as Hr. destruct Hwf as (Hm & Hsz & Hf).
  unfold fence_close. destruct (Z.eqb_spec drain 0); [by intros [= <- <-]; left|].
  rewrite fence_entry_default. rewrite increment_checked_exact by (apply it_wf_u64 || done).
  rewrite decide_True by (destruct Hr; lia).
  set (e0 := default default_fence_entry (f !! target)).
  assert (∀ v, om_size (<[target := v]> (<[target := e0]> f)) = om_size (<[target := e0]> f)) as Hs.
  { intros v. eapply om_size_insert_Some; [by apply om_wf_insert|apply om_lookup_insert_eq]. }
  destruct (Z.ltb_spec kMaxFencedTargets (om_size (<[target:=e0]> f))) as [Hfull|Hroom].
  - intros [= <- <-]. left. split; [done|]. apply om_ext; [by apply om_wf_delete, om_wf_insert|done|].
    intros t. destruct (decide (target = t)) as [<-|].
    + rewrite om_lookup_delete_eq. destruct (f !! target) eqn:E; [|done].
      erewrite om_size_insert_Some in Hfull by done. lia.
    + by rewrite om_lookup_delete_ne, om_lookup_insert_ne.
  - intros [= <- <-]. right. eexists. split; [done|]. split; [done|]. split.
    { apply om_ext; [by apply om_wf_insert, om_wf_insert|by apply om_wf_insert|]. intros t.
      destruct (decide (target = t)) as [<-|]; [by rewrite !om_lookup_insert_eq|by rewrite !om_lookup_insert_ne]. }
    destruct Hr. split_and!; try done; [split; lia|rewrite Hs; lia].
Qed.

Lemma fence_reopen_cases target drain at_ reason f res f' :
  fence_wf f → fence_reopen target drain at_ reason f = (res, f') →
  (is_ok res = false ∧ f' = f) ∨
  (∃ e, res = Ok (fence_generation target f + 1) ∧ drain ≠ 0 ∧ f' = <[target := e]> f ∧
     fence_is_closed target f = true ∧
     fe_closed e = false ∧ fe_generation e = fence_generation target f + 1 ∧ fe_drain e = drain ∧
     in_range u64 (fence_generation target f + 1)).
Proof.
  intros Hwf. pose proof (fence_generation_range target f Hwf) as Hr. destruct Hwf as (Hm & Hsz & Hf).
  unfold fence_reopen, fence_generation, fence_is_closed in *.
  destruct (f !! target) as [e|]; [|by intros [= <- <-]; left].
  destruct (fe_closed e); simpl; [|by intros [= <- <-]; left].
  destruct (Z.eqb_spec drain 0); [by intros [= <- <-]; left|].
  destruct (increment_checked u64 (fe_generation e)) as [next|] eqn:Hn; intros [= <- <-]; [|by left].
  apply increment_checked_Some in Hn as [-> ?]; [|apply it_wf_u64|done].
  right. eexists. by split_and!.
Qed.

Lemma fence_insert_wf target e f :
  fence_wf f → om_size (<[target := e]> f) ≤ kMaxFencedTargets → in_range u64 (fe_generation e) →
  1 ≤ fe_generation e → (fe_closed e = true → fe_drain e ≠ 0) → fence_wf (<[target := e]> f).
Proof.
  intros (Hm & Hsz & Hf) Hs Hr H1 Hc. split_and!; [by apply om_wf_insert|done|].
  intros t e' He'. om_cases He'; [done|by eapply Hf].
Qed.

Lemma fence_close_wf target drain at_ reason f res f' :
  fence_wf f → fence_generation target f ≠ int_max u64 →
  fence_close target drain at_ reason f = (res, f') → fence_wf f'.
Proof.
  intros Hwf Hmax Hc. pose proof (fence_generation_range target f Hwf) as [??]. change (int_min u64) with 0 in *.
  destruct (fence_close_cases _ _ _ _ _ _ _ Hwf Hmax Hc) as [[_ ->]|(e & _ & ? & -> & ? & Eg & Ed & ? & ?)]; [done|].
  apply fence_insert_wf; rewrite ?Eg, ?Ed; done || lia.
Qed.

Lemma fence_reopen_wf target drain at_ reason f res f' :
  fence_wf f → fence_reopen target drain at_ reason f = (res, f') → fence_wf f'.
Proof.
  intros Hwf Hc. pose proof (fence_generation_range target f Hwf) as [??]. change (int_min u64) with 0 in *.
  destruct (fence_reopen_cases _ _ _ _ _ _ _ Hwf Hc) as [[_ ->]|(e & _ & ? & -> & Hcl & Ec & Eg & Ed & ?)]; [done|].
  apply fence_insert_wf; rewrite ?Eg, ?Ed, ?Ec; try (done || lia).
  unfold fence_is_closed in Hcl. destruct (f !! target) eqn:E; [|done].
  erewrite om_size_insert_Some; [apply Hwf|apply Hwf|done].
Qed.

(** *** Reading the fence after an update *)

Lemma fence_is_closed_insert target e f t :
  fence_is_closed t (<[target := e]> f) = if decide (target = t) then fe_closed e else fence_is_closed t f.
Proof.
  unfold fence_is_closed. case_decide; [subst; by rewrite om_lookup_insert_eq|by rewrite om_lookup_insert_ne].
Qed.
Lemma fence_generation_insert target e f t :
  fence_generation t (<[target := e]> f) = if decide (target = t) then fe_generation e else fence_generation t f.
Proof.
  unfold fence_generation. case_decide; [subst; by rewrite om_lookup_insert_eq|by rewrite om_lookup_insert_ne].
Qed.

#[export] Hint Resolve fence_wf_empty fence_close_wf fence_reopen_wf fence_generation_range : drain.
