(* ===== verification/Codec.v ===== *)
(** * Records as JSON

    What the snapshot writes and reads for each kind of record: [to_json] and
    [from_json] of targets ([src/identity.cpp]), blockers and drain records
    ([src/lifecycle.cpp]), obligations ([src/obligation.cpp]), evidence
    ([src/evidence.cpp]), authority tokens ([src/authority.cpp]) and fence entries
    ([src/admission.cpp]), and the tables that hold them.

    [Codec] is the interface between these and the engine's snapshot: a record
    that is [storable] reads back as its [recovered] form.  Recovery is not always
    the identity: attestations and authority do not survive a restart. *)

From S2P Require Import Prelude Containers Checked Result Text Json.
From S2P Require Import Identity Lifecycle Obligation Evidence Authority Admission.
#[local] Open Scope Z_scope.

(** ** Building and reading objects *)

(** [JsonValue::object()] followed by one [set] per field. *)
Definition obj (fields : list (string * json)) : json := foldl (λ v f, json_set f.1 f.2 v) jobject fields.

(** [JsonValue(static_cast<std::uint64_t>(t.count()))]. *)
Definition ns (t : Z) : json := JUint (wrap u64 t).

Definition is_number (v : json) : bool := match v with JInt _ | JUint _ | JReal _ => true | _ => false end.

(** [read_u64], [read_i64] and [read_bool], repeated at the top of each source
    file. *)
Definition read_u64_or (key : string) (fallback : Z) (v : json) : Z :=
  match json_find key v with Some found => if is_number found then as_uint fallback found else fallback | None => fallback end.
Definition read_i64_or (key : string) (fallback : Z) (v : json) : Z :=
  match json_find key v with Some found => if is_number found then as_int fallback found else fallback | None => fallback end.
Definition read_bool (key : string) (fallback : bool) (v : json) : bool :=
  match json_find key v with Some found => if is_bool found then as_bool fallback found else fallback | None => fallback end.
Notation read_u64 key v := (read_u64_or key 0 v).
Notation read_i64 key v := (read_i64_or key 0 v).

(** [if (!x.has_value()) return error;] *)
Notation "'let!' x := o 'else' err 'in' k" := (match o with Some x => k | None => err end)
  (at level 200, x pattern, o at level 100, err at level 100, k at level 200) : drain_scope.

Definition corrupt {A} (message : string) : result A := fail ErrorCode.PersistenceCorrupt message.

(** [if (!x.ok()) return Error(PersistenceCorrupt, prefix + x.error().message());] *)
Definition rejected {A} (prefix : string) (r : result A) : result A :=
  match r with Ok a => Ok a | Err err => corrupt (prefix ++s err_message err) end.

(** A loop that decodes every entry and stops at the first failure. *)
Fixpoint decode_all {A} (decode : json → result A) (items : list json) : result (list A) :=
  match items with
  | [] => Ok []
  | item :: items => let? a := decode item in let? l := decode_all decode items in Ok (a :: l)
  end.

(** A loop that inserts every entry into a table and stops at the first failure. *)
Fixpoint load_all {A B} (decode : json → result A) (add : A → B → result B) (items : list json) (staged : B) : result B :=
  match items with
  | [] => Ok staged
  | item :: items =>
      let? a := decode item in
      let? staged := add a staged in
      load_all decode add items staged
  end.

(** An optional identity: empty, or one that parses. *)
Definition optional_slug (text : string) (err : error) : result string :=
  if bool_decide (text = "") then Ok "" else match slug_parse text with Some s => Ok s | None => Err err end.

(** ** The interface *)

Class Codec (A : Type) := {
  encode : A → json;
  decode : json → result A;
  storable : A → bool;
  recovered : A → A;
}.
#[global] Hint Mode Codec ! : typeclass_instances.

Class CodecLaws (A : Type) `{Codec A} : Prop :=
  decode_encode : ∀ a : A, storable a = true → decode (encode a) = Ok (recovered a).

(** Evaluates the lookups of a decoder on the fields of an encoder. *)
Ltac json_compute :=
  lazy [obj foldl json_set member_set as_object jobject json_find member_find fst snd app
        String.eqb Ascii.eqb Bool.eqb read_u64_or read_i64_or read_bool get_string get_uint get_int get_bool
        is_number is_bool is_string is_array is_object as_uint as_bool as_string as_array andb orb negb ns].

(** Times travel as unsigned counts; negative ones do not survive. *)
Definition time_ok (t : Z) : bool := (0 <=? t) && (t <=? int_max i64).
Definition u32_ok (z : Z) : bool := (0 <=? z) && (z <=? int_max u32).

Lemma wrap_time t : time_ok t = true → wrap u64 t = t ∧ (t <=? int_max i64) = true.
Proof.
  intros [H1%Z.leb_le H2]%andb_true_iff. split; [|done]. apply wrap_id; [apply it_wf_u64|].
  apply Z.leb_le in H2. split; [done|]. etrans; [exact H2|]. by vm_compute.
Qed.
Lemma wrap_u32 z : u32_ok z = true → wrap u32 z = z.
Proof. intros [H1%Z.leb_le H2%Z.leb_le]%andb_true_iff. apply wrap_id; [apply it_wf_u32|]. by split. Qed.

Definition slug_ok (s : string) : bool := bool_decide (s = "") || is_valid_slug s.
Lemma optional_slug_ok s err : slug_ok s = true → optional_slug s err = Ok s.
Proof.
  unfold slug_ok, optional_slug, slug_parse. case_bool_decide; [by subst|]. simpl. by intros ->.
Qed.

Lemma slug_parse_ok s : is_valid_slug s = true → slug_parse s = Some s.
Proof. unfold slug_parse. by intros ->. Qed.

(** The time a reader finds under a key. *)
Lemma as_int_time t fallback : time_ok t = true → as_int fallback (JUint (wrap u64 t)) = t.
Proof. intros [-> Hle]%wrap_time. simpl. by rewrite Hle. Qed.

Ltac read_times := rewrite ?as_int_time by assumption.

Lemma decode_all_map {A B} (f : json → result B) (g : A → json) (h : A → B) l :
  (∀ a, a ∈ l → f (g a) = Ok (h a)) → decode_all f (map g l) = Ok (map h l).
Proof.
  induction l as [|a l IH]; intros Hl; simpl; [done|]. rewrite (Hl a) by left. simpl.
  rewrite IH; [done|]. intros b Hb. apply Hl. by right.
Qed.

(** ** Drain targets *)

Definition target_to_json (t : DrainTarget) : json :=
  obj [("kind", JString (TargetKind.to_string (tg_kind t))); ("id", JString (tg_id t)); ("domain", JString (tg_domain t))].

Definition drain_target_from_json (value : json) : result DrainTarget :=
  if negb (is_object value) then fail ErrorCode.ProtocolError "drain target must be a json object"
  else
    match json_find "kind" value, json_find "id" value with
    | Some (JString kind), Some (JString id) =>
        let! kind := target_kind_from_string kind
          else fail ErrorCode.MalformedIdentity "unknown drain target kind" in
        let! id := slug_parse id
          else fail ErrorCode.MalformedIdentity "malformed drain target resource id" in
        let? domain := optional_slug (get_string "domain" "" value)
          (Error ErrorCode.MalformedIdentity "malformed drain target failure domain") in
        Ok (MkTarget kind id domain)
    | _, _ => fail ErrorCode.MalformedIdentity "drain target requires string kind and id"
    end.

#[export] Instance target_codec : Codec DrainTarget :=
  {| encode := target_to_json; decode := drain_target_from_json;
     storable t := is_valid_slug (tg_id t) && slug_ok (tg_domain t); recovered t := t |}.

#[export] Instance target_laws : CodecLaws DrainTarget.
Proof.
  intros t [Hid Hd]%andb_true_iff. simpl in *. unfold target_to_json, drain_target_from_json.
  json_compute. rewrite target_kind_roundtrip, slug_parse_ok, optional_slug_ok by done. by destruct t.
Qed.

Lemma target_roundtrip t : storable t = true → drain_target_from_json (target_to_json t) = Ok t.
Proof. intros H. exact (decode_encode t H). Qed.

(** ** Blockers and drain records *)

Definition blocker_codes : list BlockerCode.t :=
  [ BlockerCode.AdmissionFenceMissing; BlockerCode.ProtectedObligationActive; BlockerCode.ObligationGraceExpired;
    BlockerCode.ReleaseEvidenceMissing; BlockerCode.ReleaseEvidenceStale; BlockerCode.DomainLimitReached;
    BlockerCode.CorrelatedDrainConflict; BlockerCode.CapacityInsufficient; BlockerCode.RedundancyViolation;
    BlockerCode.PathDiversityViolation; BlockerCode.AlternatePathLost; BlockerCode.AuthorityInvalid;
    BlockerCode.GenerationSuperseded; BlockerCode.EvacuationAttemptsExhausted; BlockerCode.ObligationReappeared;
    BlockerCode.RestartRecoveryPending; BlockerCode.TopologyInconsistent; BlockerCode.PolicyRevisionMismatch;
    BlockerCode.SetPredecessorPending; BlockerCode.ObligationFailed; BlockerCode.QuiescenceEvidenceMissing ].

(** The loop over the enumerators in [Blocker::from_json]. *)
Definition blocker_code_from_string (text : string) : option BlockerCode.t :=
  List.find (λ c, bool_decide (text = BlockerCode.to_string c)) blocker_codes.

Definition blocker_to_json (b : Blocker) : json :=
  obj [("code", JString (BlockerCode.to_string (bk_code b))); ("subject", JString (bk_subject b));
       ("detail", JString (bk_detail b)); ("since_ns", ns (bk_since b)); ("deadline_ns", ns (bk_deadline b))].

Definition blocker_from_json (value : json) : result Blocker :=
  if negb (is_object value) then corrupt "blocker entry is not an object"
  else
    let! code := blocker_code_from_string (get_string "code" "" value)
      else corrupt "unknown blocker code in snapshot" in
    Ok (MkBlocker code (get_string "subject" "" value) (get_string "detail" "" value)
          (read_i64 "since_ns" value) (read_i64 "deadline_ns" value)).

#[export] Instance blocker_codec : Codec Blocker :=
  {| encode := blocker_to_json; decode := blocker_from_json;
     storable b := time_ok (bk_since b) && time_ok (bk_deadline b); recovered b := b |}.

Lemma blocker_code_roundtrip c : blocker_code_from_string (BlockerCode.to_string c) = Some c.
Proof. by destruct c; vm_compute. Qed.

#[export] Instance blocker_laws : CodecLaws Blocker.
Proof.
  intros b [H1 H2]%andb_true_iff. simpl in *. unfold blocker_to_json, blocker_from_json.
  json_compute. rewrite blocker_code_roundtrip. read_times. by destruct b.
Qed.

Definition drain_record_to_json (r : DrainRecord) : json :=
  obj ([("id", JUint (dr_id r)); ("set", JUint (dr_set r)); ("target", target_to_json (dr_target r));
        ("generation", JUint (dr_generation r)); ("restore_generation", JUint (dr_restore_generation r));
        ("attempt", JUint (dr_attempt r)); ("revision", JUint (dr_revision r));
        ("state", JString (DrainState.to_string (dr_state r)))]
    ++ match dr_blocked_from r with
       | Some from => [("blocked_from", JString (DrainState.to_string from))]
       | None => []
       end
    ++ [("authority", JUint (dr_authority r)); ("node", JString (dr_node r));
        ("requested_at_ns", ns (dr_requested_at r)); ("state_since_ns", ns (dr_state_since r));
        ("admission_closed_at_ns", ns (dr_admission_closed_at r)); ("completed_at_ns", ns (dr_completed_at r));
        ("restored_at_ns", ns (dr_restored_at r)); ("last_evacuation_at_ns", ns (dr_last_evacuation_at r));
        ("evacuation_requests", JUint (dr_evacuation_requests r));
        ("remaining_protected_at_completion", JUint (dr_remaining_protected r));
        ("completion_digest", JUint (dr_completion_digest r));
        ("completion_evidence", JUint (dr_completion_evidence r));
        ("reason", JString (dr_reason r)); ("terminal_detail", JString (dr_terminal_detail r));
        ("blockers", JArray (map blocker_to_json (dr_blockers r)))]).

(** [DrainRecord::from_json].  The revision is not read back: a record starts
    again at revision 1. *)
Definition drain_record_from_json (value : json) : result DrainRecord :=
  if negb (is_object value) then corrupt "drain record is not an object"
  else
    let? target := rejected "drain record target rejected: "
      (drain_target_from_json (default JNull (json_find "target" value))) in
    let! state := drain_state_from_string (get_string "state" "" value)
      else corrupt "drain record has an unknown state" in
    let record := new_drain_record (read_u64 "id" value) target (read_u64 "generation" value)
                    (read_u64 "authority" value) (read_i64 "requested_at_ns" value) in
    if dr_id record =? 0 then corrupt "drain record has a reserved zero id"
    else
      let record := record <| dr_set := read_u64 "set" value |> in
      let record := record <| dr_generation := read_u64 "generation" value |> in
      let record := record <| dr_restore_generation := read_u64 "restore_generation" value |> in
      let record := record <| dr_attempt := wrap u32 (read_u64 "attempt" value) |> in
      let? node := optional_slug (get_string "node" "" value)
        (Error ErrorCode.PersistenceCorrupt "drain record has a malformed node id") in
      let record := record <| dr_node := node |> in
      let record := record <| dr_reason := get_string "reason" "" value |> in
      let record := record <| dr_terminal_detail := get_string "terminal_detail" "" value |> in
      let record := record <| dr_state_since := read_i64 "state_since_ns" value |> in
      let record := record <| dr_admission_closed_at := read_i64 "admission_closed_at_ns" value |> in
      let record := record <| dr_completed_at := read_i64 "completed_at_ns" value |> in
      let record := record <| dr_restored_at := read_i64 "restored_at_ns" value |> in
      let record := record <| dr_last_evacuation_at := read_i64 "last_evacuation_at_ns" value |> in
      let evacuation_requests := read_u64 "evacuation_requests" value in
      if 1000000 <? evacuation_requests then
        fail ErrorCode.BoundsExceeded "drain record evacuation counter exceeds bound"
      else
        let record := record <| dr_evacuation_requests := wrap u32 evacuation_requests |> in
        let record := record <| dr_remaining_protected :=
                                  wrap u32 (read_u64 "remaining_protected_at_completion" value) |> in
        let record := record <| dr_completion_digest := read_u64 "completion_digest" value |> in
        let record := record <| dr_completion_evidence := read_u64 "completion_evidence" value |> in
        let? blocked_from :=
          match json_find "blocked_from" value with
          | Some (JString text) =>
              let! from := drain_state_from_string text
                else corrupt "drain record has an unknown blocked_from state" in
              Ok (Some from)
          | _ =>
              if bool_decide (state = DrainState.Blocked)
              then corrupt "blocked drain record lacks blocked_from" else Ok None
          end in
        let record := record <| dr_blocked_from := blocked_from |> in
        let? record :=
          match json_find "blockers" value with
          | Some (JArray items) =>
              let? blockers := decode_all blocker_from_json items in
              Ok (set_blockers blockers record)
          | _ => Ok record
          end in
        if bool_decide (state = DrainState.Drained) && negb (dr_remaining_protected record =? 0) then
          corrupt "drained record claims outstanding protected dependencies"
        else if bool_decide (state = DrainState.Drained) && (dr_completion_digest record =? 0) then
          corrupt "drained record lacks a completion digest"
        else Ok (record <| dr_state := state |>).

Definition drain_record_storable (r : DrainRecord) : bool :=
  storable (dr_target r) && negb (dr_id r =? 0) && u32_ok (dr_attempt r) && slug_ok (dr_node r)
  && forallb time_ok [dr_requested_at r; dr_state_since r; dr_admission_closed_at r; dr_completed_at r;
                      dr_restored_at r; dr_last_evacuation_at r]
  && (0 <=? dr_evacuation_requests r) && (dr_evacuation_requests r <=? 1000000)
  && u32_ok (dr_remaining_protected r)
  && (negb (bool_decide (dr_state r = DrainState.Blocked)) || bool_decide (is_Some (dr_blocked_from r)))
  && forallb storable (dr_blockers r)
  && bool_decide (normalise_blockers (dr_blockers r) = dr_blockers r)
  && (negb (bool_decide (dr_state r = DrainState.Drained))
      || ((dr_remaining_protected r =? 0) && negb (dr_completion_digest r =? 0))).

#[export] Instance drain_record_codec : Codec DrainRecord :=
  {| encode := drain_record_to_json; decode := drain_record_from_json;
     storable := drain_record_storable; recovered r := r <| dr_revision := 1 |> |}.

(** Splits a conjunction of storability tests. *)
Ltac split_storable :=
  repeat match goal with
  | H : (_ && _) = true |- _ => apply andb_true_iff in H as [? ?]
  | H : forallb _ (_ :: _) = true |- _ => simpl in H
  | H : forallb _ [] = true |- _ => clear H
  | H : negb _ = true |- _ => apply negb_true_iff in H
  end.

Lemma decode_all_stored `{CodecLaws A} (l : list A) :
  forallb storable l = true → decode_all decode (map encode l) = Ok (map recovered l).
Proof.
  intros Hl. apply decode_all_map. intros a Ha. apply decode_encode.
  rewrite forallb_forall in Hl. by apply Hl, list_elem_of_In.
Qed.

Lemma blockers_roundtrip l :
  forallb storable l = true → decode_all blocker_from_json (map blocker_to_json l) = Ok l.
Proof. intros Hl. etrans; [exact (decode_all_stored l Hl)|]. f_equal. apply map_id. Qed.

#[export] Instance drain_record_laws : CodecLaws DrainRecord.
Proof.
  intros r Hr. change (drain_record_storable r = true) in Hr. unfold drain_record_storable in Hr. split_storable.
  change (decode (encode r)) with (drain_record_from_json (drain_record_to_json r)).
  assert (drain_target_from_json (target_to_json (dr_target r)) = Ok (dr_target r)) as Ht by (by apply target_roundtrip).
  assert (decode_all blocker_from_json (map blocker_to_json (dr_blockers r)) = Ok (dr_blockers r)) as Hb
    by (by apply blockers_roundtrip).
  assert (u32_ok (dr_evacuation_requests r) = true) as He.
  { unfold u32_ok. change (int_max u32) with 4294967295. lia. }
  pose proof (proj1 (bool_decide_eq_true _) H1) as Hn.
  assert (dr_id r ≠ 0) as Hid by lia. assert (dr_evacuation_requests r ≤ 1000000) as Hev by lia.
  apply Z.eqb_neq in Hid. apply Z.ltb_ge in Hev.
  assert ((if bool_decide (dr_state r = DrainState.Drained) then negb (dr_remaining_protected r =? 0) else false) = false ∧
          (if bool_decide (dr_state r = DrainState.Drained) then dr_completion_digest r =? 0 else false) = false)
    as [Hc1 Hc2].
  { destruct (bool_decide (dr_state r = DrainState.Drained)); [|done]. simpl in H0. split_storable.
    split; [by apply negb_false_iff|done]. }
  clear H0 H1 H2 H5 H6 H10.
  destruct (dr_blocked_from r) as [from|] eqn:Hfrom; unfold drain_record_to_json, drain_record_from_json;
    rewrite Hfrom; json_compute; read_times; rewrite drain_state_roundtrip;
    cbn [from_option id]; rewrite Ht; cbn [rejected result_bind]; cbn [new_drain_record dr_id];
    rewrite Hid, optional_slug_ok by done; cbn [result_bind]; rewrite Hev, ?drain_state_roundtrip; cbn [result_bind];
    try (rewrite bool_decide_false by (intros E; rewrite E in *; by vm_compute in H3)); cbn [result_bind];
    rewrite Hb; cbn [result_bind]; unfold set_blockers; rewrite Hn, !wrap_u32 by done; simpl;
    unfold negb in Hc1; rewrite Hc1, Hc2; f_equal; rewrite <- Hfrom; by destruct r.
Qed.

(** ** Obligations *)

Definition obligation_to_json (o : Obligation) : json :=
  obj [("id", JUint (ob_id o)); ("kind", JString (ObligationKind.to_string (ob_kind o)));
       ("protection", JString (ProtectionClass.to_string (ob_protection o))); ("holder", JString (ob_holder o));
       ("service", JString (ob_service o)); ("group", JString (ob_group o));
       ("mode", JString (EvacuationMode.to_string (ob_mode o)));
       ("dependencies", JArray (map target_to_json (ob_dependencies o))); ("capacity", JUint (ob_capacity o));
       ("grace_ns", ns (ob_grace o)); ("attempt", JUint (ob_attempt o)); ("admitted_at_ns", ns (ob_admitted_at o));
       ("admission_generation", JUint (ob_admission_generation o));
       ("state", JString (ObligationState.to_string (ob_state o))); ("revision", JUint (ob_revision o));
       ("release_evidence", JUint (ob_release_evidence o)); ("cleared_at_ns", ns (ob_cleared_at o));
       ("reappearances", JUint (ob_reappearances o)); ("note", JString (ob_note o))].

Definition obligation_from_json (value : json) : result Obligation :=
  if negb (is_object value) then fail ErrorCode.ProtocolError "obligation must be a json object"
  else
    let! kind := obligation_kind_from_string (get_string "kind" "" value)
      else fail ErrorCode.ProtocolError "unknown obligation kind" in
    let! holder := slug_parse (get_string "holder" "" value)
      else fail ErrorCode.MalformedIdentity "malformed obligation holder" in
    match json_find "dependencies" value with
    | Some (JArray deps) =>
        if kMaxDependenciesPerObligation <? zlength deps then
          fail ErrorCode.BoundsExceeded "obligation dependency count exceeds bound"
        else if zlength deps =? 0 then
          fail ErrorCode.ProtocolError "obligation must depend on at least one target"
        else
          let? dependencies := decode_all drain_target_from_json deps in
          let o := new_obligation kind holder dependencies in
          let! protection := protection_class_from_string (get_string "protection" "protected" value)
            else fail ErrorCode.ProtocolError "unknown obligation protection class" in
          let o := o <| ob_protection := protection |> in
          let! mode := evacuation_mode_from_string (get_string "mode" "" value)
            else fail ErrorCode.ProtocolError "unknown obligation evacuation mode" in
          let o := o <| ob_mode := mode |> in
          let? service := optional_slug (get_string "service" "" value)
            (Error ErrorCode.MalformedIdentity "malformed obligation service id") in
          let o := o <| ob_service := service |> in
          let? group := optional_slug (get_string "group" "" value)
            (Error ErrorCode.MalformedIdentity "malformed obligation group id") in
          let o := o <| ob_group := group |> in
          let o := o <| ob_id := read_u64 "id" value |> in
          let o := o <| ob_capacity := read_u64 "capacity" value |> in
          let o := o <| ob_grace := read_i64 "grace_ns" value |> in
          let o := o <| ob_attempt := wrap u32 (read_u64 "attempt" value) |> in
          let o := o <| ob_admitted_at := read_i64 "admitted_at_ns" value |> in
          let o := o <| ob_admission_generation := read_u64 "admission_generation" value |> in
          let! state := obligation_state_from_string (get_string "state" "" value)
            else fail ErrorCode.ProtocolError "unknown obligation state" in
          let revision := read_u64_or "revision" 1 value in
          if revision =? 0 then fail ErrorCode.ProtocolError "obligation revision must be non-zero"
          else if negb (is_legal_obligation_transition ObligationState.Admitted_ state) then
            corrupt "obligation state is unreachable from admitted"
          else
            let reappearances := read_u64 "reappearances" value in
            if kMaxObligationReappearances <? reappearances then
              fail ErrorCode.BoundsExceeded "obligation reappearance counter exceeds bound"
            else
              let o := o <| ob_state := state |> in
              let o := o <| ob_revision := revision |> in
              let o := o <| ob_release_evidence := read_u64 "release_evidence" value |> in
              let o := o <| ob_cleared_at := read_i64 "cleared_at_ns" value |> in
              let o := o <| ob_reappearances := wrap u32 reappearances |> in
              Ok (o <| ob_note := get_string "note" "" value |>)
    | _ => fail ErrorCode.ProtocolError "obligation dependencies must be an array"
    end.

Definition obligation_storable (o : Obligation) : bool :=
  is_valid_slug (ob_holder o) && slug_ok (ob_service o) && slug_ok (ob_group o)
  && forallb storable (ob_dependencies o)
  && (zlength (ob_dependencies o) <=? kMaxDependenciesPerObligation) && negb (zlength (ob_dependencies o) =? 0)
  && bool_decide (normalize_dependencies (ob_dependencies o) = ob_dependencies o)
  && time_ok (ob_grace o) && u32_ok (ob_attempt o) && time_ok (ob_admitted_at o) && time_ok (ob_cleared_at o)
  && negb (ob_revision o =? 0)
  && is_legal_obligation_transition ObligationState.Admitted_ (ob_state o)
  && (0 <=? ob_reappearances o) && (ob_reappearances o <=? kMaxObligationReappearances).

#[export] Instance obligation_codec : Codec Obligation :=
  {| encode := obligation_to_json; decode := obligation_from_json; storable := obligation_storable; recovered o := o |}.

Lemma obligation_kind_roundtrip k : obligation_kind_from_string (ObligationKind.to_string k) = Some k.
Proof. by destruct k; vm_compute. Qed.
Lemma protection_class_roundtrip c : protection_class_from_string (ProtectionClass.to_string c) = Some c.
Proof. by destruct c; vm_compute. Qed.
Lemma evacuation_mode_roundtrip m : evacuation_mode_from_string (EvacuationMode.to_string m) = Some m.
Proof. by destruct m; vm_compute. Qed.
Lemma obligation_state_roundtrip s : obligation_state_from_string (ObligationState.to_string s) = Some s.
Proof. by destruct s; vm_compute. Qed.

Lemma targets_roundtrip l :
  forallb storable l = true → decode_all drain_target_from_json (map target_to_json l) = Ok l.
Proof. intros Hl. etrans; [exact (decode_all_stored l Hl)|]. f_equal. apply map_id. Qed.

#[export] Instance obligation_laws : CodecLaws Obligation.
Proof.
  intros o Ho. change (obligation_storable o = true) in Ho. unfold obligation_storable in Ho. split_storable.
  change (decode (encode o)) with (obligation_from_json (obligation_to_json o)).
  assert (decode_all drain_target_from_json (map target_to_json (ob_dependencies o)) = Ok (ob_dependencies o)) as Hd
    by (by apply targets_roundtrip).
  assert ((kMaxDependenciesPerObligation <? zlength (ob_dependencies o)) = false) as Hz by lia.
  assert (u32_ok (ob_reappearances o) = true) as Hu.
  { unfold u32_ok. change (int_max u32) with 4294967295. unfold kMaxObligationReappearances in *. lia. }
  assert ((kMaxObligationReappearances <? ob_reappearances o) = false) as Hk by lia.
  match goal with H : bool_decide (normalize_dependencies _ = _) = true |- _ => apply bool_decide_eq_true in H as Hn end.
  unfold obligation_to_json, obligation_from_json. json_compute. read_times.
  rewrite obligation_kind_roundtrip, slug_parse_ok, zlength_map, Hz by done.
  repeat match goal with H : (_ =? 0) = false |- _ => rewrite H; clear H end.
  rewrite Hd. cbn [result_bind].
  rewrite protection_class_roundtrip, evacuation_mode_roundtrip, !optional_slug_ok by done. cbn [result_bind].
  rewrite obligation_state_roundtrip.
  match goal with H : is_legal_obligation_transition _ _ = true |- _ => rewrite H end. rewrite Hk.
  unfold new_obligation. rewrite !wrap_u32, Hn by done. f_equal. by destruct o.
Qed.

(** ** Evidence *)

Definition evidence_to_json (e : Evidence) : json :=
  obj [("seq", JUint (ev_seq e)); ("kind", JString (EvidenceKind.to_string (ek_kind (ev_key e))));
       ("drain", JUint (ek_drain (ev_key e))); ("obligation", JUint (ek_obligation (ev_key e)));
       ("resource", JString (ek_resource (ev_key e))); ("generation", JUint (ev_generation e));
       ("epoch", JUint (ev_epoch e)); ("producer", JUint (ev_producer e)); ("authority", JUint (ev_authority e));
       ("observed_at_ns", ns (ev_observed_at e)); ("expires_at_ns", ns (ev_expires_at e));
       ("healthy", JBool (ev_healthy e)); ("quantity", JUint (ev_quantity e)); ("detail", JString (ev_detail e));
       ("attested", JBool (ev_attested e))].

(** [Evidence::from_json]: attestation is never restored. *)
Definition evidence_from_json (value : json) : result Evidence :=
  if negb (is_object value) then corrupt "evidence entry is not an object"
  else
    let! kind := evidence_kind_from_string (get_string "kind" "" value)
      else corrupt "evidence entry has an unknown kind" in
    let seq := read_u64 "seq" value in
    if seq =? 0 then corrupt "evidence entry has a reserved zero sequence"
    else
      let? resource := optional_slug (get_string "resource" "" value)
        (Error ErrorCode.MalformedIdentity "evidence entry has a malformed resource id") in
      Ok (MkEvidence seq (MkEvidenceKey kind (read_u64 "drain" value) (read_u64 "obligation" value) resource)
            (read_u64 "generation" value) (read_u64 "epoch" value) (read_u64 "producer" value)
            (read_u64 "authority" value) (read_i64 "observed_at_ns" value) (read_i64 "expires_at_ns" value)
            (get_bool "healthy" false value) (read_u64 "quantity" value) (get_string "detail" "" value) false).

#[export] Instance evidence_codec : Codec Evidence :=
  {| encode := evidence_to_json; decode := evidence_from_json;
     storable e := negb (ev_seq e =? 0) && slug_ok (ek_resource (ev_key e)) && time_ok (ev_observed_at e)
                   && time_ok (ev_expires_at e);
     recovered e := e <| ev_attested := false |> |}.

Lemma evidence_kind_roundtrip k : evidence_kind_from_string (EvidenceKind.to_string k) = Some k.
Proof. by destruct k; vm_compute. Qed.

#[export] Instance evidence_laws : CodecLaws Evidence.
Proof.
  intros e He. simpl in He. split_storable.
  change (decode (encode e)) with (evidence_from_json (evidence_to_json e)).
  unfold evidence_to_json, evidence_from_json. json_compute. read_times. rewrite evidence_kind_roundtrip.
  match goal with H : (_ =? 0) = false |- _ => rewrite H end. rewrite optional_slug_ok by done. cbn [result_bind].
  destruct e as [? [] ? ? ? ? ? ? ? ? ? ?]. reflexivity.
Qed.

(** ** Authority tokens *)

Definition token_to_json (t : AuthorityToken) : json :=
  obj [("id", JUint (at_id t)); ("scope", JString (at_scope t)); ("generation", JUint (at_generation t));
       ("epoch", JUint (at_epoch t)); ("incarnation", JUint (at_incarnation t)); ("issued_at_ns", ns (at_issued_at t));
       ("expires_at_ns", ns (at_expires_at t)); ("revoked", JBool (at_revoked t));
       ("revoked_at_ns", ns (at_revoked_at t)); ("revocation_reason", JString (at_revocation_reason t))].

Definition recovered_reason : string := "recovered from snapshot; authority does not survive restart".

(** [AuthorityToken::from_json]: a recovered token is revoked. *)
Definition token_from_json (value : json) : result AuthorityToken :=
  if negb (is_object value) then corrupt "authority token is not an object"
  else
    let id := read_u64 "id" value in
    if id =? 0 then corrupt "authority token has a reserved zero id"
    else
      let? scope := optional_slug (get_string "scope" "" value)
        (Error ErrorCode.MalformedIdentity "authority token has a malformed scope") in
      let reason := get_string "revocation_reason" "" value in
      Ok (MkAuthorityToken id scope (read_u64 "generation" value) (read_u64 "epoch" value)
            (read_u64 "incarnation" value) (read_i64 "issued_at_ns" value) (read_i64 "expires_at_ns" value)
            true (read_i64 "revoked_at_ns" value)
            (if bool_decide (reason = "") then recovered_reason else reason)).

(** [AuthorityToken::from_presentation_json]: what a client presents; the
    revocation fields are not the client's to set. *)
Definition token_from_presentation_json (value : json) : result AuthorityToken :=
  if negb (is_object value) then
    fail ErrorCode.InvalidArgument "a presented authority must be a token object, not a bare identifier"
  else
    let id := read_u64 "id" value in
    if id =? 0 then fail ErrorCode.AuthorityRequired "presented authority token has no identifier"
    else
      let? scope := optional_slug (get_string "scope" "" value)
        (Error ErrorCode.MalformedIdentity "presented authority token has a malformed scope") in
      Ok (MkAuthorityToken id scope (read_u64 "generation" value) (read_u64 "epoch" value)
            (read_u64 "incarnation" value) (read_i64 "issued_at_ns" value) (read_i64 "expires_at_ns" value)
            false 0 "").

Definition token_recovered (t : AuthorityToken) : AuthorityToken :=
  t <| at_revoked := true |>
    <| at_revocation_reason :=
         if bool_decide (at_revocation_reason t = "") then recovered_reason else at_revocation_reason t |>.

#[export] Instance token_codec : Codec AuthorityToken :=
  {| encode := token_to_json; decode := token_from_json;
     storable t := negb (at_id t =? 0) && slug_ok (at_scope t)
                   && forallb time_ok [at_issued_at t; at_expires_at t; at_revoked_at t];
     recovered := token_recovered |}.

#[export] Instance token_laws : CodecLaws AuthorityToken.
Proof.
  intros t Ht. simpl in Ht. split_storable.
  change (decode (encode t)) with (token_from_json (token_to_json t)).
  unfold token_to_json, token_from_json. json_compute. read_times.
  match goal with H : (_ =? 0) = false |- _ => rewrite H end. rewrite optional_slug_ok by done. cbn [result_bind].
  by destruct t.
Qed.

(** A token a client presents back is the one it was issued. *)
Lemma token_presentation t :
  storable t = true → at_revoked t = false → at_revoked_at t = 0 → at_revocation_reason t = "" →
  token_from_presentation_json (token_to_json t) = Ok t.
Proof.
  intros Ht H1 H2 H3. simpl in Ht. split_storable. unfold token_to_json, token_from_presentation_json. json_compute.
  read_times. match goal with H : (_ =? 0) = false |- _ => rewrite H end. rewrite optional_slug_ok by done.
  cbn [result_bind]. destruct t; simpl in *; by subst.
Qed.

(** ** Fence entries *)

Definition fence_entry_to_json (f : FenceEntry) : json :=
  obj [("closed", JBool (fe_closed f)); ("generation", JUint (fe_generation f)); ("drain", JUint (fe_drain f));
       ("closed_at_ns", ns (fe_closed_at f)); ("opened_at_ns", ns (fe_opened_at f)); ("reason", JString (fe_reason f))].

Definition fence_entry_from_json (value : json) : result FenceEntry :=
  if negb (is_object value) then corrupt "fence entry is not an object"
  else
    let entry := MkFenceEntry (get_bool "closed" false value) (read_u64 "generation" value) (read_u64 "drain" value)
                   (read_i64 "closed_at_ns" value) (read_i64 "opened_at_ns" value) (get_string "reason" "" value) in
    if fe_generation entry =? 0 then corrupt "fence entry has a reserved zero generation"
    else if fe_closed entry && (fe_drain entry =? 0) then corrupt "closed fence entry lacks a drain id"
    else Ok entry.

#[export] Instance fence_entry_codec : Codec FenceEntry :=
  {| encode := fence_entry_to_json; decode := fence_entry_from_json;
     storable f := negb (fe_generation f =? 0) && negb (fe_closed f && (fe_drain f =? 0))
                   && time_ok (fe_closed_at f) && time_ok (fe_opened_at f);
     recovered f := f |}.

#[export] Instance fence_entry_laws : CodecLaws FenceEntry.
Proof.
  intros f Hf. simpl in Hf. split_storable.
  change (decode (encode f)) with (fence_entry_from_json (fence_entry_to_json f)).
  unfold fence_entry_to_json, fence_entry_from_json. json_compute. read_times. simpl.
  match goal with H : (_ =? 0) = false |- _ => rewrite H end.
  match goal with H : _ && _ = false |- _ => unfold andb in H; rewrite H end. by destruct f.
Qed.

(** The laws, by name. *)
Lemma drain_record_roundtrip r :
  storable r = true → drain_record_from_json (drain_record_to_json r) = Ok (r <| dr_revision := 1 |>).
Proof. intros H. exact (decode_encode r H). Qed.
Lemma obligation_roundtrip o : storable o = true → obligation_from_json (obligation_to_json o) = Ok o.
Proof. intros H. exact (decode_encode o H). Qed.
Lemma evidence_roundtrip e :
  storable e = true → evidence_from_json (evidence_to_json e) = Ok (e <| ev_attested := false |>).
Proof. intros H. exact (decode_encode e H). Qed.
Lemma token_roundtrip t : storable t = true → token_from_json (token_to_json t) = Ok (token_recovered t).
Proof. intros H. exact (decode_encode t H). Qed.
Lemma fence_entry_roundtrip f : storable f = true → fence_entry_from_json (fence_entry_to_json f) = Ok f.
Proof. intros H. exact (decode_encode f H). Qed.
