(* ===== verification/CodecTables.v ===== *)
(** * Tables as JSON

    [to_json] and [load_from_json] of the tables the engine owns: obligations
    ([src/obligation.cpp]), evidence ([src/evidence.cpp]), authority
    ([src/authority.cpp]) and the admission fence ([src/admission.cpp]).  A load
    stages everything and replaces the table only when all of it was accepted,
    which the model shows as a [result] of the new table. *)

From S2P Require Import Prelude Containers Checked Result Text Json Codec.
From S2P Require Import Identity Lifecycle Obligation Evidence Authority Admission.
#[local] Open Scope Z_scope.

(** ** Definitions *)

(** The items of a member that must be an array. *)
Definition array_member (key : string) (value : json) : option (list json) :=
  match json_find key value with Some (JArray items) => Some items | _ => None end.

Definition table_to_json (t : ObligationTable) : json :=
  obj [("high_water", JUint (ot_high_water t));
       ("obligations", JArray (map obligation_to_json (om_values (ot_obligations t))))].

(** The loop of [ObligationTable::load_from_json]: the staged map and the largest
    id seen. *)
Definition load_obligation (o : Obligation) (staged : omap ObligationId Obligation * ObligationId)
  : result (omap ObligationId Obligation * ObligationId) :=
  let '(loaded, high_water) := staged in
  if ob_id o =? 0 then corrupt "obligation entry has a reserved zero id"
  else
    match emplace (ob_id o) o loaded with
    | (_, false) => corrupt "duplicate obligation id in snapshot"
    | (loaded, true) => Ok (loaded, if high_water <? ob_id o then ob_id o else high_water)
    end.

Definition table_load_from_json (value : json) (t : ObligationTable) : result ObligationTable :=
  if negb (is_object value) then corrupt "obligation table payload is not an object"
  else
    let! items := array_member "obligations" value
      else corrupt "obligation table payload lacks an obligations array" in
    if ot_max_obligations t <? zlength items then
      fail ErrorCode.BoundsExceeded "snapshot obligation count exceeds the configured bound"
    else
      let? staged :=
        load_all (λ item, rejected "obligation entry rejected: " (obligation_from_json item)) load_obligation items (∅, 0) in
      let '(loaded, high_water) := staged in
      let declared := read_u64 "high_water" value in
      if declared <? high_water then corrupt "obligation high-water mark is behind the stored ids"
      else Ok (t <| ot_obligations := loaded |> <| ot_high_water := declared |>).

Definition ledger_to_json (l : EvidenceLedger) : json :=
  obj [("global_high_water", JUint (el_global_high_water l));
       ("records", JArray (map evidence_to_json (om_values (el_records l))))].

(** The loop of [EvidenceLedger::load_from_json]. *)
Definition load_evidence (e : Evidence)
    (staged : omap EvidenceRecordKey Evidence * omap EvidenceKey EvidenceSeq * EvidenceSeq)
  : result (omap EvidenceRecordKey Evidence * omap EvidenceKey EvidenceSeq * EvidenceSeq) :=
  let '(loaded, latest, high_water) := staged in
  let key := ev_key e in
  let seq := ev_seq e in
  if match latest !! key with Some existing => seq <=? existing | None => false end then
    corrupt "evidence sequence is not monotonic within a stream"
  else
    match emplace (key, seq) e loaded with
    | (_, false) => corrupt "duplicate evidence record in snapshot"
    | (loaded, true) => Ok (loaded, <[key := seq]> latest, if high_water <? seq then seq else high_water)
    end.

Definition ledger_load_from_json (value : json) (l : EvidenceLedger) : result EvidenceLedger :=
  if negb (is_object value) then corrupt "evidence ledger payload is not an object"
  else
    let! items := array_member "records" value
      else corrupt "evidence ledger payload lacks a records array" in
    if el_max_records l <? zlength items then
      fail ErrorCode.BoundsExceeded "snapshot evidence count exceeds the configured bound"
    else
      let? staged :=
        load_all (λ item, rejected "evidence entry rejected: " (evidence_from_json item)) load_evidence items (∅, ∅, 0) in
      let '(loaded, latest, high_water) := staged in
      let declared := read_u64 "global_high_water" value in
      if declared <? high_water then corrupt "evidence high-water mark is behind the stored records"
      else Ok (MkEvidenceLedger loaded latest (el_max_records l) declared).

Definition scope_to_json (p : DomainId * Generation) : json :=
  obj [("scope", JString p.1); ("generation", JUint p.2)].

Definition registry_to_json (r : AuthorityRegistry) : json :=
  obj [("high_water", JUint (ar_high_water r)); ("incarnation", JUint (ar_incarnation r));
       ("epoch", JUint (ar_epoch r));
       ("scope_generations", JArray (map scope_to_json (om_list (ar_scope_generations r))));
       ("tokens", JArray (map token_to_json (om_values (ar_tokens r))))].

Definition scope_from_json (entry : json) : result (DomainId * Generation) :=
  let? domain := optional_slug (get_string "scope" "" entry)
    (Error ErrorCode.MalformedIdentity "authority scope entry is malformed") in
  Ok (domain, read_u64 "generation" entry).

(** [staged.tokens_.emplace]: a repeated id is ignored. *)
Definition load_token (t : AuthorityToken) (r : AuthorityRegistry) : result AuthorityRegistry :=
  let r := if ar_high_water r <? at_id t then r <| ar_high_water := at_id t |> else r in
  Ok (r <| ar_tokens := (emplace (at_id t) t (ar_tokens r)).1 |>).

Definition load_scope (p : DomainId * Generation) (r : AuthorityRegistry) : result AuthorityRegistry :=
  Ok (r <| ar_scope_generations := <[p.1 := p.2]> (ar_scope_generations r) |>).

Definition registry_load_from_json (value : json) : result AuthorityRegistry :=
  if negb (is_object value) then corrupt "authority payload is not an object"
  else
    let staged := MkAuthorityRegistry ∅ ∅ (read_u64 "high_water" value) (read_u64 "incarnation" value)
                    (read_u64_or "epoch" 1 value) in
    if ar_epoch staged =? 0 then corrupt "authority epoch must be non-zero"
    else
      let? staged :=
        match array_member "scope_generations" value with
        | Some scopes =>
            if kMaxAuthorityTokens <? zlength scopes then
              fail ErrorCode.BoundsExceeded "authority scope count exceeds bound"
            else load_all scope_from_json load_scope scopes staged
        | None => Ok staged
        end in
      match array_member "tokens" value with
      | Some tokens =>
          if kMaxAuthorityTokens <? zlength tokens then
            fail ErrorCode.BoundsExceeded "authority token count exceeds bound"
          else load_all (λ item, rejected "authority token rejected: " (token_from_json item)) load_token tokens staged
      | None => Ok staged
      end.

Definition fence_item_to_json (p : DrainTarget * FenceEntry) : json :=
  obj [("target", target_to_json p.1); ("entry", fence_entry_to_json p.2)].

Definition fence_to_json (f : AdmissionFence) : json :=
  obj [("entries", JArray (map fence_item_to_json (om_list f)))].

Definition fence_item_from_json (item : json) : result (DrainTarget * FenceEntry) :=
  match json_find "target" item, json_find "entry" item with
  | Some target_value, Some entry_value =>
      let? target := match drain_target_from_json target_value with
                     | Ok t => Ok t
                     | Err _ => corrupt "fence entry target rejected"
                     end in
      let? entry := rejected "fence entry rejected: " (fence_entry_from_json entry_value) in
      Ok (target, entry)
  | _, _ => corrupt "fence entry lacks target or entry payload"
  end.

Definition load_fence_item (p : DrainTarget * FenceEntry) (staged : AdmissionFence) : result AdmissionFence :=
  match emplace p.1 p.2 staged with
  | (_, false) => corrupt "duplicate fence entry for a target"
  | (staged, true) => Ok staged
  end.

Definition fence_load_from_json (value : json) : result AdmissionFence :=
  if negb (is_object value) then corrupt "admission fence payload is not an object"
  else
    let! items := array_member "entries" value
      else corrupt "admission fence payload lacks an entries array" in
    if kMaxFencedTargets <? zlength items then fail ErrorCode.BoundsExceeded "fence entry count exceeds bound"
    else load_all fence_item_from_json load_fence_item items ∅.

(** ** Loading what was written *)

Lemma map_values {K V} (f : V → json) (m : omap K V) : map f (om_values m) = map (λ p, f p.2) (om_list m).
Proof. unfold om_values. induction (om_list m) as [|p l IH]; simpl; [done|]. by rewrite <- IH. Qed.

(** A load whose steps each extend what was loaded by the entry read. *)
Lemma load_prefix {K V A S} (mk : list (K * V) → S) (decode : json → result A) (add : A → S → result S)
    (enc : K * V → json) (l : list (K * V)) :
  (∀ l1 p l2, l = l1 ++ p :: l2 → ∃ a, decode (enc p) = Ok a ∧ add a (mk l1) = Ok (mk (l1 ++ [p]))) →
  load_all decode add (map enc l) (mk []) = Ok (mk l).
Proof.
  intros Hstep. assert (∀ l2 l1, l = l1 ++ l2 → load_all decode add (map enc l2) (mk l1) = Ok (mk l)) as H; [|by apply H].
  induction l2 as [|p l2 IH]; intros l1 Hl; simpl; [by rewrite Hl, app_nil_r|].
  destruct (Hstep l1 p l2 Hl) as (a & Hd & Ha). rewrite Hd. simpl. rewrite Ha. simpl. apply IH.
  by rewrite <- app_assoc.
Qed.

Section Append.
Context {K V : Type} `{StrictOrd K}.
Implicit Types (l : list (K * V)).

Definition sorted_entries l : Prop := StronglySorted (λ p q, ltb p.1 q.1 = true) l.

Lemma sorted_before l1 p l2 q : sorted_entries (l1 ++ p :: l2) → q ∈ l1 → ltb q.1 p.1 = true.
Proof.
  induction l1 as [|r l1 IH]; simpl; [by intros _ ?%not_elem_of_nil|].
  intros [Hs Hall]%StronglySorted_inv [->|Hq]%elem_of_cons; [|by apply IH].
  rewrite Forall_forall in Hall. apply Hall. set_solver.
Qed.

Lemma list_put_last (k : K) (v : V) l : (∀ q, q ∈ l → ltb q.1 k = true) → list_put k v l = l ++ [(k, v)].
Proof.
  induction l as [|[k' v'] l IH]; intros Hl; simpl; [done|].
  pose proof (Hl (k', v') ltac:(left)) as L. simpl in L. rewrite (ltb_antisym _ _ L), L. f_equal.
  apply IH. intros q Hq. apply Hl. by right.
Qed.

Lemma list_find_last (k : K) l : (∀ q, q ∈ l → ltb q.1 k = true) → list_find_key k l = None.
Proof.
  induction l as [|[k' v'] l IH]; intros Hl; simpl; [done|].
  pose proof (Hl (k', v') ltac:(left)) as L. simpl in L. unfold eqvb. rewrite L, (ltb_antisym _ _ L). simpl.
  apply IH. intros q Hq. apply Hl. by right.
Qed.

(** What a load builds from the entries read so far. *)
Definition loaded (f : V → V) l : omap K V := OMap ((λ p, (p.1, f p.2)) <$> l).

Lemma loaded_om f (m : omap K V) : loaded f (om_list m) = om_map f m.
Proof. done. Qed.

Lemma loaded_below (f : V → V) l1 p l2 q :
  sorted_entries (l1 ++ p :: l2) → q ∈ om_list (loaded f l1) → ltb q.1 p.1 = true.
Proof.
  intros Hs. simpl. intros (r & -> & Hr)%list_elem_of_fmap. simpl. by eapply sorted_before.
Qed.

Lemma insert_next (f : V → V) l1 p l2 :
  sorted_entries (l1 ++ p :: l2) → <[p.1 := f p.2]> (loaded f l1) = loaded f (l1 ++ [p]).
Proof.
  intros Hs. unfold insert, omap_insert, loaded. rewrite list_put_last, fmap_app; [done|].
  intros q Hq. by apply (loaded_below f l1 p l2 q).
Qed.

Lemma emplace_next (f : V → V) l1 p l2 :
  sorted_entries (l1 ++ p :: l2) → emplace p.1 (f p.2) (loaded f l1) = (loaded f (l1 ++ [p]), true).
Proof.
  intros Hs. unfold emplace. assert (loaded f l1 !! p.1 = None) as ->; [|by rewrite (insert_next f l1 p l2)].
  unfold lookup, omap_lookup. apply list_find_last. intros q Hq. by apply (loaded_below f l1 p l2 q).
Qed.
End Append.

(** The largest id among the entries read so far. *)
Definition seen {V} (l : list (Z * V)) : Z := foldl (λ h p, if h <? p.1 then p.1 else h) 0 l.
Lemma seen_bound {V} (l : list (Z * V)) bound : 0 ≤ bound → (∀ p, p ∈ l → p.1 ≤ bound) → seen l ≤ bound.
Proof.
  intros Hb Hl. unfold seen. assert (∀ h, h ≤ bound → foldl (λ h (p : Z * V), if h <? p.1 then p.1 else h) h l ≤ bound) as H;
    [|by apply H]. induction l as [|p l IH]; intros h Hh; simpl; [done|].
  apply IH; [intros q Hq; apply Hl; by right|]. destruct (_ <? _); [apply Hl; left|done].
Qed.
Lemma seen_snoc {V} (l : list (Z * V)) p : seen (l ++ [p]) = if seen l <? p.1 then p.1 else seen l.
Proof. unfold seen. by rewrite foldl_app. Qed.

Lemma om_map_id {K V} (m : omap K V) : om_map (λ v, v) m = m.
Proof. destruct m as [l]. unfold om_map. f_equal. simpl. induction l as [|[] l IH]; simpl; [done|]. by f_equal. Qed.

Lemma in_split_elem {A} (l l1 l2 : list A) p : l = l1 ++ p :: l2 → p ∈ l.
Proof. intros ->. set_solver. Qed.

(** *** Obligations *)

Definition table_storable (t : ObligationTable) : bool := forallb storable (om_values (ot_obligations t)).

Lemma forallb_values {K V} (f : V → bool) (m : omap K V) p :
  forallb f (om_values m) = true → p ∈ om_list m → f p.2 = true.
Proof.
  rewrite forallb_forall. intros Hf Hp. apply Hf, list_elem_of_In, list_elem_of_fmap. eauto.
Qed.

Lemma table_roundtrip t n :
  table_wf t → table_storable t = true → om_size (ot_obligations t) ≤ n →
  table_load_from_json (table_to_json t) (new_obligation_table n) = Ok (t <| ot_max_obligations := n |>).
Proof.
  intros (Hwf & Hhw & Hob) Hst Hsz. unfold table_to_json, table_load_from_json, array_member.
  json_compute. rewrite map_values. cbn [ot_max_obligations new_obligation_table].
  rewrite (proj2 (Z.ltb_ge _ _)) by (rewrite zlength_map; unfold om_size in Hsz; lia).
  pose (mk := λ l : list (ObligationId * Obligation), (loaded (λ o, o) l, seen l)).
  change (∅, 0) with (mk []). rewrite (load_prefix mk).
  - unfold mk. cbn [result_bind]. rewrite loaded_om, om_map_id, (proj2 (Z.ltb_ge _ _)); [by destruct t|].
    apply seen_bound; [destruct Hhw as [Hhw _]; exact Hhw|]. intros [id o] Hp. apply om_elem_lookup in Hp; [|done].
    by destruct (Hob id o Hp) as (_ & [_ ?] & _).
  - intros l1 p l2 Hl. pose proof (in_split_elem _ _ _ _ Hl) as Hp. exists p.2.
    pose proof (forallb_values _ _ _ Hst Hp) as Hs. split.
    { by rewrite obligation_roundtrip. }
    destruct p as [id o]. apply om_elem_lookup in Hp; [|done]. destruct (Hob id o Hp) as (Hid & [Hpos _] & _).
    unfold load_obligation, mk. cbn [snd]. rewrite (proj2 (Z.eqb_neq _ _)) by lia. rewrite Hid.
    unfold om_wf in Hwf. rewrite Hl in Hwf. rewrite (emplace_next (λ o, o) l1 (id, o) l2 Hwf : emplace id o _ = _).
    by rewrite seen_snoc.
Qed.

(** *** Evidence *)

(** The newest sequence of each stream among the entries read so far. *)
Definition latest_of (l : list (EvidenceRecordKey * Evidence)) : omap EvidenceKey EvidenceSeq :=
  foldl (λ m p, <[p.1.1 := p.1.2]> m) ∅ l.
Definition seen_seq (l : list (EvidenceRecordKey * Evidence)) : EvidenceSeq :=
  foldl (λ h p, if h <? p.1.2 then p.1.2 else h) 0 l.

Lemma latest_of_snoc l p : latest_of (l ++ [p]) = <[p.1.1 := p.1.2]> (latest_of l).
Proof. unfold latest_of. by rewrite foldl_app. Qed.
Lemma latest_of_wf l : om_wf (latest_of l).
Proof.
  induction l as [|p l IH] using rev_ind; [apply om_wf_empty|]. rewrite latest_of_snoc. by apply om_wf_insert.
Qed.

Lemma latest_of_elem l k s : latest_of l !! k = Some s → ∃ p, p ∈ l ∧ p.1 = (k, s).
Proof.
  induction l as [|p l IH] using rev_ind; [done|]. rewrite latest_of_snoc, om_lookup_insert_Some.
  intros [[<- <-]|[_ (q & Hq & Eq)%IH]].
  - exists p. split; [set_solver|by destruct p.1].
  - exists q. split; [set_solver|done].
Qed.

(** In key order, a later entry of a stream is a newer one. *)
Lemma latest_of_max l k s e :
  sorted_entries l → ((k, s), e) ∈ l → ∃ s', latest_of l !! k = Some s' ∧ s ≤ s'.
Proof.
  induction l as [|[[k1 s1] e1] l IH] using rev_ind; [by intros _ ?%not_elem_of_nil|]. intros Hs.
  assert (sorted_entries l) as Hl.
  { clear -Hs. induction l as [|q l IH]; [constructor|]. apply StronglySorted_inv in Hs as [Hs Hall].
    constructor; [by apply IH|]. apply Forall_app in Hall as [Hall _]. done. }
  rewrite latest_of_snoc, elem_of_app, list_elem_of_singleton. intros [Hin|[= -> -> ->]].
  - destruct (IH Hl Hin) as (s' & Hs' & Hle). simpl. destruct (decide (k1 = k)) as [->|Hne].
    + exists s1. rewrite om_lookup_insert_eq. split; [done|].
      pose proof (sorted_before l ((k, s1), e1) [] _ Hs Hin) as L. simpl in L.
      rewrite pair_ltb_true in L. destruct L as [L|[_ L]]; [by rewrite ltb_irrefl in L|].
      simpl in L. apply Z.ltb_lt in L. lia.
    + exists s'. by rewrite om_lookup_insert_ne.
  - exists s1. simpl. by rewrite om_lookup_insert_eq.
Qed.

Lemma latest_of_ledger l : ledger_wf l → latest_of (om_list (el_records l)) = el_latest_seq l.
Proof.
  intros Hwf. apply om_ext; [apply latest_of_wf|apply Hwf|]. intros k.
  destruct (el_latest_seq l !! k) as [s|] eqn:Hk.
  - destruct (lw_present _ Hwf _ _ Hk) as [[e He] _]. apply om_lookup_elem in He as Hin.
    destruct (latest_of_max _ _ _ _ (lw_records _ Hwf) Hin) as (s' & Hs' & Hle). rewrite Hs'. f_equal.
    destruct (latest_of_elem _ _ _ Hs') as ([[k2 s2] e2] & Hin2 & [= -> ->]).
    apply om_elem_lookup in Hin2; [|apply Hwf]. destruct (lw_filed _ Hwf _ _ _ Hin2) as (_ & _ & s3 & Hs3 & Hle3).
    rewrite Hk in Hs3. injection Hs3 as <-. lia.
  - destruct (latest_of _ !! k) as [s|] eqn:Hs; [|done].
    destruct (latest_of_elem _ _ _ Hs) as ([[k2 s2] e2] & Hin2 & [= -> ->]).
    apply om_elem_lookup in Hin2; [|apply Hwf]. destruct (lw_filed _ Hwf _ _ _ Hin2) as (_ & _ & s3 & Hs3 & _). congruence.
Qed.

Lemma seen_seq_bound l bound : 0 ≤ bound → (∀ p, p ∈ l → p.1.2 ≤ bound) → seen_seq l ≤ bound.
Proof.
  intros Hb Hl. unfold seen_seq. induction l as [|p l IH] using rev_ind; [done|]. rewrite foldl_app. simpl.
  destruct (_ <? _); [apply Hl; set_solver|]. apply IH. intros q Hq. apply Hl. set_solver.
Qed.

Definition ledger_storable (l : EvidenceLedger) : bool :=
  forallb storable (om_values (el_records l)) && (0 <=? el_global_high_water l).

Definition unattested (e : Evidence) : Evidence := e <| ev_attested := false |>.

Lemma ledger_roundtrip l n :
  ledger_wf l → ledger_storable l = true → om_size (el_records l) ≤ n →
  ledger_load_from_json (ledger_to_json l) (new_evidence_ledger n) =
  Ok (MkEvidenceLedger (om_map unattested (el_records l)) (el_latest_seq l) n (el_global_high_water l)).
Proof.
  intros Hwf Hst Hsz. unfold ledger_storable in Hst. split_storable.
  match goal with H : (0 <=? _) = true |- _ => apply Z.leb_le in H as Hpos end.
  match goal with H : forallb _ _ = true |- _ => rename H into Hall end.
  unfold ledger_to_json, ledger_load_from_json, array_member. json_compute. rewrite map_values.
  cbn [el_max_records new_evidence_ledger].
  rewrite (proj2 (Z.ltb_ge _ _)) by (rewrite zlength_map; unfold om_size in Hsz; lia).
  pose (mk := λ l : list (EvidenceRecordKey * Evidence), (loaded unattested l, latest_of l, seen_seq l)).
  change (∅, ∅, 0) with (mk []). rewrite (load_prefix mk).
  - unfold mk. cbn [result_bind]. rewrite loaded_om, latest_of_ledger, (proj2 (Z.ltb_ge _ _)) by
      (done || (apply seen_seq_bound; [done|]; intros [[k s] e] Hp; apply om_elem_lookup in Hp; [|apply Hwf];
       destruct (lw_filed _ Hwf _ _ _ Hp) as (_ & _ & s' & Hs' & Hle);
       destruct (lw_present _ Hwf _ _ Hs') as [_ ?]; simpl; lia)). done.
  - intros l1 p l2 Hl. pose proof (in_split_elem _ _ _ _ Hl) as Hp. exists (unattested p.2).
    pose proof (forallb_values _ _ _ Hall Hp) as Hs. split; [by rewrite evidence_roundtrip|].
    destruct p as [[k s] e]. apply om_elem_lookup in Hp; [|apply Hwf].
    destruct (lw_filed _ Hwf _ _ _ Hp) as (Hk & Hseq & _). unfold load_evidence, mk. cbn [snd unattested].
    change (ev_key (unattested e)) with (ev_key e). change (ev_seq (unattested e)) with (ev_seq e). rewrite Hk, Hseq.
    pose proof (lw_records _ Hwf) as Hord. unfold om_wf in Hord. rewrite Hl in Hord.
    assert (match latest_of l1 !! k with Some existing => s <=? existing | None => false end = false) as ->.
    { destruct (latest_of l1 !! k) as [s'|] eqn:Hs'; [|done]. apply latest_of_elem in Hs' as ([k0 e0] & Hin & Ek).
      pose proof (sorted_before _ _ _ _ Hord Hin) as L. simpl in Ek. subst k0. simpl in L. rewrite pair_ltb_true in L.
      destruct L as [L|[_ L]]; [by rewrite ltb_irrefl in L|]. simpl in L. apply Z.ltb_lt in L. by apply Z.leb_gt. }
    rewrite (emplace_next unattested l1 ((k, s), e) l2 Hord : emplace (k, s) (unattested e) _ = _).
    rewrite latest_of_snoc. unfold seen_seq at 3. by rewrite foldl_app.
Qed.

(** *** Authority *)

Definition registry_storable (r : AuthorityRegistry) : bool :=
  forallb storable (om_values (ar_tokens r)) && (om_size (ar_tokens r) <=? kMaxAuthorityTokens)
  && forallb slug_ok (om_keys (ar_scope_generations r)) && (om_size (ar_scope_generations r) <=? kMaxAuthorityTokens)
  && negb (ar_epoch r =? 0).

Lemma registry_roundtrip r :
  registry_wf r → registry_storable r = true →
  registry_load_from_json (registry_to_json r) = Ok (r <| ar_tokens := om_map token_recovered (ar_tokens r) |>).
Proof.
  intros (Ht & Hg & _ & _ & _ & _ & Htok) Hst. unfold registry_storable in Hst. split_storable.
  match goal with H : forallb storable _ = true |- _ => rename H into Hall end.
  match goal with H : forallb slug_ok _ = true |- _ => rename H into Hslug end.
  match goal with H : (ar_epoch r =? 0) = false |- _ => rename H into He end.
  match goal with H : (om_size (ar_tokens r) <=? _) = true |- _ => apply Z.leb_le in H as Hts end.
  match goal with H : (om_size (ar_scope_generations r) <=? _) = true |- _ => apply Z.leb_le in H as Hgs end.
  unfold registry_to_json, registry_load_from_json, array_member. json_compute. rewrite map_values.
  cbn [ar_epoch]. rewrite He, !zlength_map. unfold om_size in *.
  rewrite !(proj2 (Z.ltb_ge _ _)) by lia.
  pose (mk1 := λ l : list (DomainId * Generation),
    MkAuthorityRegistry ∅ (loaded (λ g, g) l) (ar_high_water r) (ar_incarnation r) (ar_epoch r)).
  pose (mk2 := λ l : list (AuthorityId * AuthorityToken),
    MkAuthorityRegistry (loaded token_recovered l) (ar_scope_generations r) (ar_high_water r) (ar_incarnation r) (ar_epoch r)).
  change (MkAuthorityRegistry ∅ ∅ _ _ _) with (mk1 []). rewrite (load_prefix mk1).
  - cbn [result_bind]. unfold mk1. rewrite loaded_om, om_map_id. change (MkAuthorityRegistry ∅ _ _ _ _) with (mk2 []).
    rewrite (load_prefix mk2); [done|]. intros l1 p l2 Hl. pose proof (in_split_elem _ _ _ _ Hl) as Hp.
    exists (token_recovered p.2). pose proof (forallb_values _ _ _ Hall Hp) as Hs. split; [by rewrite token_roundtrip|].
    destruct p as [id tok]. apply om_elem_lookup in Hp; [|done]. destruct (Htok id tok Hp) as [Hid [_ Hle]].
    unfold load_token, mk2. cbn [snd]. change (at_id (token_recovered tok)) with (at_id tok). rewrite Hid.
    cbn [ar_high_water]. rewrite (proj2 (Z.ltb_ge _ _)) by done. unfold om_wf in Ht. rewrite Hl in Ht. cbn [ar_tokens].
    rewrite (emplace_next token_recovered l1 (id, tok) l2 Ht : emplace id (token_recovered tok) _ = _). done.
  - intros l1 p l2 Hl. pose proof (in_split_elem _ _ _ _ Hl) as Hp. exists p. split.
    + unfold scope_from_json, scope_to_json. json_compute. rewrite optional_slug_ok; [by destruct p|].
      rewrite forallb_forall in Hslug. apply Hslug, list_elem_of_In, list_elem_of_fmap. eauto.
    + unfold load_scope, mk1. simpl. unfold om_wf in Hg. rewrite Hl in Hg.
      by rewrite (insert_next (λ g, g) l1 p l2 Hg : <[p.1 := p.2]> _ = _).
Qed.

(** *** The fence *)

Definition fence_storable (f : AdmissionFence) : bool :=
  forallb (λ p, storable p.1 && storable p.2) (om_list f) && (om_size f <=? kMaxFencedTargets).

Lemma fence_roundtrip f : om_wf f → fence_storable f = true → fence_load_from_json (fence_to_json f) = Ok f.
Proof.
  intros Hwf [Hall Hsz%Z.leb_le]%andb_true_iff. unfold fence_to_json, fence_load_from_json, array_member. json_compute.
  rewrite zlength_map, (proj2 (Z.ltb_ge _ _)) by (unfold om_size in Hsz; lia).
  pose (mk := λ l : list (DrainTarget * FenceEntry), loaded (λ e, e) l). change ∅ with (mk []). rewrite (load_prefix mk).
  - unfold mk. by rewrite loaded_om, om_map_id.
  - intros l1 p l2 Hl. pose proof (in_split_elem _ _ _ _ Hl) as Hp. exists p.
    rewrite forallb_forall in Hall. specialize (Hall p (proj1 (list_elem_of_In _ _) Hp)).
    apply andb_true_iff in Hall as [H1 H2]. split.
    + unfold fence_item_from_json, fence_item_to_json. json_compute. rewrite target_roundtrip by done. simpl.
      rewrite fence_entry_roundtrip by done. by destruct p.
    + unfold load_fence_item, mk. unfold om_wf in Hwf. rewrite Hl in Hwf.
      by rewrite (emplace_next (λ e, e) l1 p l2 Hwf : emplace p.1 p.2 _ = _).
Qed.
