(* ===== verification/Topology.v ===== *)
(** * Topology

    [include/drain/topology.hpp] and [src/topology.cpp]: resources with their
    capacity ledger, adjacency, declared paths, and the redundancy, capacity and
    connectivity commitments that a removal must not violate. *)

From S2P Require Import Prelude Containers Checked Result Text Identity.

Definition kMaxResources : Z := 4096.
Definition kMaxPaths : Z := 16384.
Definition kMaxPathHops : Z := 64.
Definition kMaxGroups : Z := 1024.
Definition kMaxProtectedRoutes : Z := 1024.
Definition kMaxRoutesPerQuery : Z := 8.
Definition kMaxRouteDepth : Z := 16.
Definition kMaxRouteExpansions : Z := 20000.

(** [drain::ResourceStatus]. *)
Module ResourceStatus.
Inductive t : Set :=
  | InService | Unavailable | Failed.

#[export] Instance t_eq_dec : EqDecision t.
Proof. solve_decision. Defined.

(** [static_cast<std::uint8_t>]: the enumerator's value. *)
Definition rank (x : t) : Z :=
  match x with
  | InService => 0 | Unavailable => 1 | Failed => 2
  end.

Definition to_string (x : t) : string :=
  match x with
  | InService => "in-service"
  | Unavailable => "unavailable"
  | Failed => "failed"
  end.

End ResourceStatus.
Export (hints) ResourceStatus.

Definition resource_status_from_string (text : string) : option ResourceStatus.t :=
  if bool_decide (text = "in-service") then Some ResourceStatus.InService
  else if bool_decide (text = "unavailable") then Some ResourceStatus.Unavailable
  else if bool_decide (text = "failed") then Some ResourceStatus.Failed
  else None.

(** [drain::ResourceNode]. *)
Record ResourceNode := MkResourceNode {
  rn_target : DrainTarget;
  rn_capacity : Z;
  rn_reserved : Z;
  rn_status : ResourceStatus.t;
}.

#[export] Instance ResourceNode_eq_dec : EqDecision ResourceNode.
Proof. solve_decision. Defined.

#[export] Instance eta_ResourceNode : Eta ResourceNode := λ r,
  MkResourceNode
    (rn_target r) (rn_capacity r) (rn_reserved r) (rn_status r).
#[export] Instance upd_rn_capacity : Update rn_capacity := ltac:(solve_update rn_capacity).
#[export] Instance upd_rn_reserved : Update rn_reserved := ltac:(solve_update rn_reserved).
#[export] Instance upd_rn_status : Update rn_status := ltac:(solve_update rn_status).
Arguments upd_rn_capacity f r /.
Arguments upd_rn_reserved f r /.
Arguments upd_rn_status f r /.

Definition rn_id (n : ResourceNode) : ResourceId := tg_id (rn_target n).
Definition rn_domain (n : ResourceNode) : DomainId := tg_domain (rn_target n).

(** [ResourceNode::available]: saturates at zero. *)
Definition rn_available (n : ResourceNode) : Z :=
  if rn_reserved n <? rn_capacity n then rn_capacity n - rn_reserved n else 0.

Definition in_service (n : ResourceNode) : bool :=
  bool_decide (rn_status n = ResourceStatus.InService).

(** [drain::FabricPath]. *)
Record FabricPath := MkFabricPath {
  fp_id : ResourceId;
  fp_domain : DomainId;
  fp_hops : list ResourceId;
}.

#[export] Instance FabricPath_eq_dec : EqDecision FabricPath.
Proof. solve_decision. Defined.
(** [drain::DiversityGroup]. *)
Record DiversityGroup := MkDiversityGroup {
  dg_id : GroupId;
  dg_domain : DomainId;
  dg_required_available : Z;
  dg_paths : list ResourceId;
}.

#[export] Instance DiversityGroup_eq_dec : EqDecision DiversityGroup.
Proof. solve_decision. Defined.
(** [drain::CapacityPool]. *)
Record CapacityPool := MkCapacityPool {
  cp_id : GroupId;
  cp_domain : DomainId;
  cp_required : Z;
  cp_members : list ResourceId;
}.

#[export] Instance CapacityPool_eq_dec : EqDecision CapacityPool.
Proof. solve_decision. Defined.
(** [drain::ProtectedRoute]. *)
Record ProtectedRoute := MkProtectedRoute {
  pr_id : GroupId;
  pr_domain : DomainId;
  pr_origin : ResourceId;
  pr_terminus : ResourceId;
}.

#[export] Instance ProtectedRoute_eq_dec : EqDecision ProtectedRoute.
Proof. solve_decision. Defined.
(** [TopologyViolation::Kind]; [None_] is [Kind::None]. *)
Module ViolationKind.
Inductive t : Set :=
  | None_ | UnknownResource | CapacityPoolExhausted | DiversityLost | RouteSevered
  | ReservationOverCapacity.

#[export] Instance t_eq_dec : EqDecision t.
Proof. solve_decision. Defined.

(** [static_cast<std::uint8_t>]: the enumerator's value. *)
Definition rank (x : t) : Z :=
  match x with
  | None_ => 0 | UnknownResource => 1 | CapacityPoolExhausted => 2 | DiversityLost => 3
  | RouteSevered => 4 | ReservationOverCapacity => 5
  end.

End ViolationKind.
Export (hints) ViolationKind.

(** [drain::TopologyViolation]. *)
Record TopologyViolation := MkViolation {
  tv_kind : ViolationKind.t;
  tv_subject : string;
  tv_detail : string;
  tv_required : Z;
  tv_remaining : Z;
}.

#[export] Instance TopologyViolation_eq_dec : EqDecision TopologyViolation.
Proof. solve_decision. Defined.

Definition no_violation : TopologyViolation := MkViolation ViolationKind.None_ "" "" 0 0.
Definition tv_ok (v : TopologyViolation) : bool := bool_decide (tv_kind v = ViolationKind.None_).

(** [drain::Topology]. *)
Record Topology := MkTopology {
  to_resources : omap ResourceId ResourceNode;
  to_paths : omap ResourceId FabricPath;
  to_diversity_groups : omap GroupId DiversityGroup;
  to_capacity_pools : omap GroupId CapacityPool;
  to_protected_routes : list ProtectedRoute;
  to_adjacency : omap ResourceId (list ResourceId);
}.

#[export] Instance eta_Topology : Eta Topology := λ r,
  MkTopology
    (to_resources r) (to_paths r) (to_diversity_groups r) (to_capacity_pools r)
    (to_protected_routes r) (to_adjacency r).
#[export] Instance upd_to_resources : Update to_resources := ltac:(solve_update to_resources).
#[export] Instance upd_to_paths : Update to_paths := ltac:(solve_update to_paths).
#[export] Instance upd_to_diversity_groups : Update to_diversity_groups := ltac:(solve_update to_diversity_groups).
#[export] Instance upd_to_capacity_pools : Update to_capacity_pools := ltac:(solve_update to_capacity_pools).
#[export] Instance upd_to_protected_routes : Update to_protected_routes := ltac:(solve_update to_protected_routes).
#[export] Instance upd_to_adjacency : Update to_adjacency := ltac:(solve_update to_adjacency).
Arguments upd_to_resources f r /.
Arguments upd_to_paths f r /.
Arguments upd_to_diversity_groups f r /.
Arguments upd_to_capacity_pools f r /.
Arguments upd_to_protected_routes f r /.
Arguments upd_to_adjacency f r /.

Definition empty_topology : Topology := MkTopology ∅ ∅ ∅ ∅ [] ∅.

(** [std::set<ResourceId>]. *)
Notation id_set := (omap ResourceId unit).
Definition set_mem (x : ResourceId) (s : id_set) : bool :=
  match s !! x with Some _ => true | None => false end.
Definition set_add (x : ResourceId) (s : id_set) : id_set := <[x := tt]> s.
Definition set_of_list (l : list ResourceId) : id_set := foldl (λ s x, set_add x s) ∅ l.

(** [apply_headroom]: the ratio rounded up, in wrapping 64-bit arithmetic. *)
Definition apply_headroom (required numerator denominator : Z) : Z :=
  if denominator =? 0 then required
  else
    match mul_checked u64 required numerator with
    | None => int_max u64
    | Some product => wrap u64 (product + denominator - 1) / denominator
    end.

(** ** Building *)

Definition to_resource (id : ResourceId) (t : Topology) : option ResourceNode := to_resources t !! id.

Definition add_resource (node : ResourceNode) (t : Topology) : status * Topology :=
  if bool_decide (rn_id node = "") then
    (fail ErrorCode.MalformedIdentity "resource id must not be empty", t)
  else if kMaxResources <=? om_size (to_resources t) then
    (fail ErrorCode.BoundsExceeded "topology resource limit reached", t)
  else
    match emplace (rn_id node) node (to_resources t) with
    | (_, false) => (fail ErrorCode.AlreadyExists "resource already present in topology", t)
    | (m, true) => (ok_status, t <| to_resources := m |>)
    end.

Definition remove_resource (id : ResourceId) (t : Topology) : status * Topology :=
  match to_resource id t with
  | None => (fail ErrorCode.NotFound "resource is not present in topology", t)
  | Some _ =>
      let t := t <| to_resources := delete id (to_resources t) |> in
      let t := t <| to_adjacency := delete id (to_adjacency t) |> in
      (ok_status,
       t <| to_adjacency := om_map (List.filter (λ p, negb (bool_decide (p = id)))) (to_adjacency t) |>)
  end.

(** The [insert_sorted] lambda of [add_edge]. *)
Definition insert_peer (peers : list ResourceId) (peer : ResourceId) : list ResourceId :=
  let position := lower_bound peers peer in
  match peers !! position with
  | Some y => if bool_decide (y = peer) then peers
              else take position peers ++ peer :: drop position peers
  | None => take position peers ++ peer :: drop position peers
  end.

Definition neighbors (id : ResourceId) (t : Topology) : list ResourceId :=
  default [] (to_adjacency t !! id).

Definition add_edge (a b : ResourceId) (t : Topology) : status * Topology :=
  if bool_decide (a = b) then (fail ErrorCode.InvalidArgument "self edges are not permitted", t)
  else
    match to_resource a t, to_resource b t with
    | Some _, Some _ =>
        let adj := <[a := insert_peer (neighbors a t) b]> (to_adjacency t) in
        let adj := <[b := insert_peer (default [] (adj !! b)) a]> adj in
        (ok_status, t <| to_adjacency := adj |>)
    | _, _ => (fail ErrorCode.NotFound "both endpoints of an edge must exist", t)
    end.

Fixpoint has_repeat (seen l : list ResourceId) : bool :=
  match l with
  | [] => false
  | x :: l => bool_decide (x ∈ seen) || has_repeat (x :: seen) l
  end.

Definition add_path (path : FabricPath) (t : Topology) : status * Topology :=
  if bool_decide (fp_id path = "") then (fail ErrorCode.MalformedIdentity "path id must not be empty", t)
  else if is_nil (fp_hops path) then
    (fail ErrorCode.InvalidArgument "path must traverse at least one resource", t)
  else if kMaxPathHops <? zlength (fp_hops path) then
    (fail ErrorCode.BoundsExceeded "path hop count exceeds bound", t)
  else if kMaxPaths <=? om_size (to_paths t) then
    (fail ErrorCode.BoundsExceeded "topology path limit reached", t)
  else if has_repeat [] (fp_hops path) then (fail ErrorCode.InvalidArgument "path repeats a hop", t)
  else
    match emplace (fp_id path) path (to_paths t) with
    | (_, false) => (fail ErrorCode.AlreadyExists "path already present in topology", t)
    | (m, true) => (ok_status, t <| to_paths := m |>)
    end.

Definition add_diversity_group (group : DiversityGroup) (t : Topology) : status * Topology :=
  if bool_decide (dg_id group = "") then
    (fail ErrorCode.MalformedIdentity "diversity group id must not be empty", t)
  else if is_nil (dg_paths group) then
    (fail ErrorCode.InvalidArgument "diversity group must list at least one path", t)
  else if (dg_required_available group =? 0)
          || (zlength (dg_paths group) <? dg_required_available group) then
    (fail ErrorCode.InvalidArgument
       "diversity requirement must be between one and the number of member paths", t)
  else if kMaxGroups <=? om_size (to_diversity_groups t) then
    (fail ErrorCode.BoundsExceeded "diversity group limit reached", t)
  else
    match emplace (dg_id group) group (to_diversity_groups t) with
    | (_, false) => (fail ErrorCode.AlreadyExists "diversity group already present", t)
    | (m, true) => (ok_status, t <| to_diversity_groups := m |>)
    end.

Definition add_capacity_pool (pool : CapacityPool) (t : Topology) : status * Topology :=
  if bool_decide (cp_id pool = "") then
    (fail ErrorCode.MalformedIdentity "capacity pool id must not be empty", t)
  else if is_nil (cp_members pool) then
    (fail ErrorCode.InvalidArgument "capacity pool must list at least one member", t)
  else if kMaxGroups <=? om_size (to_capacity_pools t) then
    (fail ErrorCode.BoundsExceeded "capacity pool limit reached", t)
  else
    match emplace (cp_id pool) pool (to_capacity_pools t) with
    | (_, false) => (fail ErrorCode.AlreadyExists "capacity pool already present", t)
    | (m, true) => (ok_status, t <| to_capacity_pools := m |>)
    end.

Definition add_protected_route (route : ProtectedRoute) (t : Topology) : status * Topology :=
  if bool_decide (pr_id route = "") then
    (fail ErrorCode.MalformedIdentity "protected route id must not be empty", t)
  else if bool_decide (pr_origin route = pr_terminus route) then
    (fail ErrorCode.InvalidArgument "protected route endpoints must differ", t)
  else if kMaxProtectedRoutes <=? zlength (to_protected_routes t) then
    (fail ErrorCode.BoundsExceeded "protected route limit reached", t)
  else if existsb (λ existing, bool_decide (pr_id existing = pr_id route)) (to_protected_routes t) then
    (fail ErrorCode.AlreadyExists "protected route already present", t)
  else (ok_status, t <| to_protected_routes := to_protected_routes t ++ [route] |>).

(** [Topology::set_status]. *)
Definition to_set_status (id : ResourceId) (st : ResourceStatus.t) (t : Topology) : status * Topology :=
  match to_resource id t with
  | None => (fail ErrorCode.NotFound "resource is not present in topology", t)
  | Some node =>
      (ok_status, t <| to_resources := <[id := node <| rn_status := st |>]> (to_resources t) |>)
  end.

(** ** Queries *)

Definition path_available (path_id : ResourceId) (t : Topology) : bool :=
  match to_paths t !! path_id with
  | None => false
  | Some path =>
      forallb (λ hop, match to_resource hop t with Some node => in_service node | None => false end)
        (fp_hops path)
  end.

Definition available_group_paths (group : DiversityGroup) (t : Topology) : list ResourceId :=
  sort_by ltb (List.filter (λ p, path_available p t) (dg_paths group)).

(** [Topology::available_pool_capacity]: a saturating sum. *)
Definition available_pool_capacity (pool : CapacityPool) (exclude : id_set) (t : Topology) : Z :=
  foldl (λ total member,
    if set_mem member exclude then total
    else
      match to_resource member t with
      | None => total
      | Some node =>
          if negb (in_service node) then total
          else default (int_max u64) (add_checked u64 total (rn_available node))
      end) 0 (cp_members pool).

(** *** Route enumeration

    The explicit-stack depth-first search.  A frame is a node of the current
    path with its neighbour cursor; the top of the stack is the head. *)
Record route_state := RouteState {
  rt_routes : list (list ResourceId);
  rt_stack : list (ResourceId * nat);
  rt_on_path : id_set;
  rt_expansions : Z;
}.

Section Enumerate.
Context (t : Topology) (to : ResourceId) (exclude : id_set) (route_budget depth_budget : Z).

(** One iteration of the [while] loop; [None] when its condition or the
    [break] stops it. *)
Definition route_step (s : route_state) : option route_state :=
  match rt_stack s with
  | [] => None
  | (current, index) :: rest =>
      if (route_budget <=? zlength (rt_routes s)) || (kMaxRouteExpansions <=? rt_expansions s) then None
      else
        match neighbors current t !! index with
        | None =>
            Some (RouteState (rt_routes s) rest (delete current (rt_on_path s)) (rt_expansions s))
        | Some next =>
            let s := RouteState (rt_routes s) ((current, S index) :: rest) (rt_on_path s)
                       (rt_expansions s + 1) in
            if set_mem next (rt_on_path s) then Some s
            else if match to_resource next t with
                    | None => true
                    | Some node => negb (in_service node) || set_mem next exclude
                    end then Some s
            else if depth_budget <=? zlength (rt_stack s) then Some s
            else if bool_decide (next = to) then
              Some (RouteState (rt_routes s ++ [rev (next :: (rt_stack s).*1)]) (rt_stack s)
                      (delete next (set_add next (rt_on_path s))) (rt_expansions s))
            else
              Some (RouteState (rt_routes s) ((next, O) :: rt_stack s)
                      (set_add next (rt_on_path s)) (rt_expansions s))
        end
  end.

(** The loop; [None] would mean that the fuel ran out before the loop did. *)
Fixpoint route_loop (fuel : nat) (s : route_state) : option route_state :=
  match fuel with
  | O => None
  | S fuel =>
      match route_step s with
      | None => Some s
      | Some s' => route_loop fuel s'
      end
  end.
End Enumerate.

(** Each iteration spends an expansion or pops a frame. *)
Definition route_fuel : nat := Z.to_nat (2 * kMaxRouteExpansions + 2).

Definition route_init (from : ResourceId) : route_state :=
  RouteState [] [(from, O)] (set_add from ∅) 0.

(** Lexicographic [operator<] on vectors of ids. *)
Fixpoint route_ltb (a b : list ResourceId) : bool :=
  match a, b with
  | [], [] => false
  | [], _ :: _ => true
  | _ :: _, [] => false
  | x :: a, y :: b => ltb x y || (negb (ltb y x) && route_ltb a b)
  end.

(** [Topology::enumerate_routes]. *)
Definition enumerate_routes (from to : ResourceId) (exclude : id_set) (max_routes max_depth : Z)
    (t : Topology) : list (list ResourceId) :=
  if (max_routes =? 0) || (max_depth =? 0) then []
  else
    let route_budget := Z.min max_routes kMaxRoutesPerQuery in
    let depth_budget := Z.min max_depth kMaxRouteDepth in
    if set_mem from exclude || set_mem to exclude then []
    else
      match to_resource from t, to_resource to t with
      | Some origin, Some target_node =>
          if negb (in_service origin) || negb (in_service target_node) then []
          else
            match route_loop t to exclude route_budget depth_budget route_fuel (route_init from) with
            | None => []
            | Some s => unique_by (λ a b, bool_decide (a = b)) (sort_by route_ltb (rt_routes s))
            end
      | _, _ => []
      end.

(** ** Removal validation *)

(** The first violation of a range, in iteration order. *)
Fixpoint first_violation {A} (f : A → option TopologyViolation) (l : list A) : option TopologyViolation :=
  match l with
  | [] => None
  | x :: l => match f x with Some v => Some v | None => first_violation f l end
  end.

Definition check_removable (t : Topology) (id : ResourceId) : option TopologyViolation :=
  match to_resource id t with
  | None => Some (MkViolation ViolationKind.UnknownResource id "resource is not present in the topology" 0 0)
  | Some node =>
      if rn_capacity node <? rn_reserved node then
        Some (MkViolation ViolationKind.ReservationOverCapacity id
                "resource reservations exceed its recorded capacity" (rn_reserved node) (rn_capacity node))
      else None
  end.

(** Everything out of service, plus what is being removed. *)
Definition excluded_set (t : Topology) (removing : id_set) : id_set :=
  let out := foldl (λ s n, if negb (in_service n) then set_add (rn_id n) s else s) ∅
               (om_values (to_resources t)) in
  foldl (λ s x, set_add x s) out (om_keys removing).

Definition check_pool (t : Topology) (excluded : id_set) (label : string) (num den : Z)
    (p : GroupId * CapacityPool) : option TopologyViolation :=
  let '(pool_id, pool) := p in
  let remaining := available_pool_capacity pool excluded t in
  let required := apply_headroom (cp_required pool) num den in
  if remaining <? required then
    Some (MkViolation ViolationKind.CapacityPoolExhausted pool_id
            ("removing " ++s label ++s " would leave the pool below its commitment") required remaining)
  else None.

(** A declared path is usable when no hop is excluded. *)
Definition path_usable (t : Topology) (excluded : id_set) (path_id : ResourceId) : bool :=
  match to_paths t !! path_id with
  | None => false
  | Some path => negb (existsb (λ hop, set_mem hop excluded) (fp_hops path))
  end.

Definition check_group (t : Topology) (excluded : id_set) (label : string)
    (g : GroupId * DiversityGroup) : option TopologyViolation :=
  let '(group_id, group) := g in
  let available := zlength (List.filter (path_usable t excluded) (dg_paths group)) in
  if available <? dg_required_available group then
    Some (MkViolation ViolationKind.DiversityLost group_id
            ("removing " ++s label ++s " would drop available paths below the commitment")
            (dg_required_available group) available)
  else None.

Definition check_route (t : Topology) (excluded : id_set) (route : ProtectedRoute)
  : option TopologyViolation :=
  if is_nil (enumerate_routes (pr_origin route) (pr_terminus route) excluded 1 kMaxRouteDepth t) then
    Some (MkViolation ViolationKind.RouteSevered (pr_id route)
            ("no route remains between " ++s pr_origin route ++s " and " ++s pr_terminus route) 1 0)
  else None.

(** [Topology::validate_removal_many]. *)
Definition validate_removal_many (removing : id_set) (num den : Z) (t : Topology) : TopologyViolation :=
  if om_size removing =? 0 then
    MkViolation ViolationKind.UnknownResource "" "no resources were named for removal" 0 0
  else
    match first_violation (check_removable t) (om_keys removing) with
    | Some v => v
    | None =>
        let excluded := excluded_set t removing in
        let label := match om_keys removing with [x] => x | _ => "drain-set" end in
        match first_violation (check_pool t excluded label num den) (om_list (to_capacity_pools t)) with
        | Some v => v
        | None =>
            match first_violation (check_group t excluded label) (om_list (to_diversity_groups t)) with
            | Some v => v
            | None =>
                match first_violation (check_route t excluded) (to_protected_routes t) with
                | Some v => v
                | None => no_violation
                end
            end
        end
    end.

(** [Topology::validate_removal]. *)
Definition validate_removal (removing : ResourceId) (num den : Z) (t : Topology) : TopologyViolation :=
  validate_removal_many (set_add removing ∅) num den t.
