(* ===== verification/TopologyFacts.v ===== *)
(** * Topology: theorems

    Termination and soundness of the bounded route search, exactness of the
    saturating capacity sum and of the headroom ratio, what a passing removal
    validation guarantees, and the well-formedness invariant of the topology. *)

From S2P Require Import Prelude Containers Checked Result Text Identity Topology.

(** ** Sets *)

Lemma set_mem_true x s : set_mem x s = true ↔ is_Some (s !! x).
Proof. unfold set_mem. destruct (s !! x); split; done || eauto; by intros []. Qed.

Lemma set_mem_add x y s : set_mem x (set_add y s) = bool_decide (x = y) || set_mem x s.
Proof.
  unfold set_mem, set_add. case_bool_decide as D.
  - subst. by rewrite om_lookup_insert_eq.
  - by rewrite om_lookup_insert_ne by congruence.
Qed.

Lemma set_mem_delete x y s : set_mem x (delete y s) = negb (bool_decide (x = y)) && set_mem x s.
Proof.
  unfold set_mem. case_bool_decide as D; simpl.
  - subst. by rewrite om_lookup_delete_eq.
  - by rewrite om_lookup_delete_ne by congruence.
Qed.

Lemma set_mem_empty x : set_mem x ∅ = false.
Proof. done. Qed.

Lemma set_mem_keys x s : set_mem x s = true ↔ x ∈ om_keys s.
Proof. by rewrite set_mem_true, om_keys_elem. Qed.

Lemma set_mem_add_list x l s :
  set_mem x (foldl (λ s x, set_add x s) s l) = bool_decide (x ∈ l) || set_mem x s.
Proof.
  revert s. induction l as [|y l IH]; intros s; [done|]. cbn [foldl].
  rewrite IH, set_mem_add. apply eq_true_iff_eq.
  rewrite !orb_true_iff, !bool_decide_eq_true, elem_of_cons. naive_solver.
Qed.

(** ** The capacity sum *)

Definition member_available (t : Topology) (exclude : id_set) (member : ResourceId) : Z :=
  if set_mem member exclude then 0
  else match to_resource member t with
       | Some node => if in_service node then rn_available node else 0
       | None => 0
       end.

(** Capacities and reservations are 64-bit quantities. *)
Definition ledger_in_range (t : Topology) : Prop :=
  ∀ id n, to_resource id t = Some n → in_range u64 (rn_capacity n) ∧ in_range u64 (rn_reserved n).

Lemma rn_available_range n :
  in_range u64 (rn_capacity n) → in_range u64 (rn_reserved n) → in_range u64 (rn_available n).
Proof.
  unfold rn_available. intros [??] [??]. change (int_min u64) with 0 in *.
  destruct (Z.ltb_spec (rn_reserved n) (rn_capacity n)); split; change (int_min u64) with 0; lia || done.
Qed.

Lemma saturating_sum total v :
  in_range u64 total → in_range u64 v →
  default (int_max u64) (add_checked u64 total v) = Z.min (int_max u64) (total + v).
Proof.
  intros Ht Hv. rewrite add_checked_exact by (apply it_wf_u64 || done).
  destruct Ht, Hv. change (int_min u64) with 0 in *.
  case_decide as D; [destruct D; simpl; lia|]. simpl.
  assert (¬ total + v ≤ int_max u64); [|lia]. intros ?. apply D. split; [|done]. change (int_min u64) with 0. lia.
Qed.

(** The reported capacity is the exact sum over the in-service members that are
    not excluded, capped at the largest representable value. *)
Lemma available_pool_capacity_exact pool exclude t :
  ledger_in_range t →
  available_pool_capacity pool exclude t =
  Z.min (int_max u64) (foldr Z.add 0 (member_available t exclude <$> cp_members pool)).
Proof.
  intros Hr. unfold available_pool_capacity.
  assert (∀ m, in_range u64 (member_available t exclude m)) as Hm.
  { intros m. unfold member_available. destruct (set_mem m exclude); [done|].
    destruct (to_resource m t) as [n|] eqn:E; [|done]. destruct (in_service n); [|done].
    destruct (Hr _ _ E). by apply rn_available_range. }
  assert (∀ l total, in_range u64 total →
    foldl (λ total member,
      if set_mem member exclude then total
      else match to_resource member t with
           | None => total
           | Some node => if negb (in_service node) then total
                          else default (int_max u64) (add_checked u64 total (rn_available node))
           end) total l =
    Z.min (int_max u64) (total + foldr Z.add 0 (member_available t exclude <$> l))) as Hgen.
  { induction l as [|m l IH]; intros total Ht; cbn [foldl fmap list_fmap foldr].
    { destruct Ht. rewrite Z.add_0_r, Z.min_r; lia. }
    assert (0 ≤ foldr Z.add 0 (member_available t exclude <$> l)) as Hpos.
    { clear IH. induction l as [|x l IH]; [done|]. cbn [fmap list_fmap foldr]. destruct (Hm x). change (int_min u64) with 0 in *. lia. }
    assert (∀ v, v = member_available t exclude m → in_range u64 v →
      (if set_mem m exclude then total
       else match to_resource m t with
            | None => total
            | Some node => if negb (in_service node) then total
                           else default (int_max u64) (add_checked u64 total (rn_available node))
            end) = Z.min (int_max u64) (total + v)) as Hstep.
    { intros v -> Hv. unfold member_available in *. destruct Ht as [Ht1 Ht2].
      destruct (set_mem m exclude); [rewrite Z.add_0_r; lia|].
      destruct (to_resource m t) as [n|]; [|rewrite Z.add_0_r; lia].
      destruct (in_service n); simpl; [|rewrite Z.add_0_r; lia]. by apply saturating_sum. }
    rewrite (Hstep _ eq_refl (Hm m)), IH.
    - pose proof (Hm m) as [??]. destruct Ht. change (int_min u64) with 0 in *. lia.
    - pose proof (Hm m) as [??]. destruct Ht. change (int_min u64) with 0 in *. split; change (int_min u64) with 0; lia. }
  rewrite Hgen by done. done.
Qed.

(** ** Headroom *)

(** Without overflow the headroom is the least integer satisfying the ratio. *)
Lemma apply_headroom_exact required num den :
  in_range u64 required → in_range u64 num → 0 < den ≤ int_max u64 →
  required * num + den - 1 ≤ int_max u64 →
  ∀ v, apply_headroom required num den ≤ v ↔ required * num ≤ v * den.
Proof.
  intros Hreq Hnum Hden Hov v. unfold apply_headroom.
  destruct (Z.eqb_spec den 0); [lia|]. rewrite mul_checked_exact by (apply it_wf_u64 || done).
  destruct Hreq, Hnum. change (int_min u64) with 0 in *.
  rewrite decide_True by (split; change (int_min u64) with 0; nia).
  rewrite wrap_id by (apply it_wf_u64 || (split; change (int_min u64) with 0; nia)).
  pose proof (Z.mul_div_le (required * num + den - 1) den ltac:(lia)).
  pose proof (Z.mul_succ_div_gt (required * num + den - 1) den ltac:(lia)). nia.
Qed.

(** ** The route search *)

(** A simple route: [r] is a path through adjacent, in-service, non-excluded
    nodes (newest first, as on the stack). *)
Inductive walk (t : Topology) (exclude : id_set) (from : ResourceId) : list ResourceId → Prop :=
  | walk_start : walk t exclude from [from]
  | walk_step next current rest :
      walk t exclude from (current :: rest) →
      next ∈ neighbors current t →
      next ∉ current :: rest →
      (∃ n, to_resource next t = Some n ∧ in_service n = true) →
      set_mem next exclude = false →
      walk t exclude from (next :: current :: rest).

(** What a reported route is, in travel order. *)
Definition valid_route (t : Topology) (exclude : id_set) (depth : Z) (from to : ResourceId)
    (r : list ResourceId) : Prop :=
  ∃ rest, r = rev (to :: rest) ∧ walk t exclude from (to :: rest) ∧ zlength r ≤ depth.

Section RouteFacts.
Context (t : Topology) (from to : ResourceId) (exclude : id_set) (route_budget depth_budget : Z).

Record route_inv (s : route_state) : Prop := {
  ri_routes : Forall (valid_route t exclude depth_budget from to) (rt_routes s);
  ri_walk : rt_stack s = [] ∨ walk t exclude from (rt_stack s).*1;
  ri_depth : zlength (rt_stack s) ≤ depth_budget;
  ri_on_path : ∀ x, set_mem x (rt_on_path s) = true ↔ x ∈ (rt_stack s).*1;
}.

Lemma walk_nodup l : walk t exclude from l → NoDup l.
Proof. induction 1; [apply NoDup_singleton|]. by constructor. Qed.

Lemma walk_tail x y l : walk t exclude from (x :: y :: l) → walk t exclude from (y :: l).
Proof. by inversion 1. Qed.

Lemma route_inv_init : 1 ≤ depth_budget → route_inv (route_init from).
Proof.
  intros. split; simpl; [constructor|right; constructor|rewrite zlength_cons, zlength_nil; lia|].
  intros x. rewrite set_mem_add, set_mem_empty, orb_false_r, bool_decide_eq_true, list_elem_of_singleton. done.
Qed.

Lemma on_path_pop current index rest op :
  NoDup (((current, index) :: rest).*1) →
  (∀ x, set_mem x op = true ↔ x ∈ ((current, index) :: rest : list (ResourceId * nat)).*1) →
  ∀ x, set_mem x (delete current op) = true ↔ x ∈ rest.*1.
Proof.
  intros Hnd Hop x. rewrite set_mem_delete, andb_true_iff, negb_true_iff, bool_decide_eq_false, Hop.
  simpl in *. apply NoDup_cons in Hnd as [Hn _]. rewrite elem_of_cons. split; [naive_solver|].
  intros Hx. split; [|by right]. by intros ->.
Qed.

Lemma route_step_inv s s' :
  route_inv s → route_step t to exclude route_budget depth_budget s = Some s' → route_inv s'.
Proof.
  intros [Hr Hw Hd Hop]. unfold route_step. destruct (rt_stack s) as [|[current index] rest] eqn:Es; [done|].
  destruct Hw as [?|Hw]; [done|]. pose proof (walk_nodup _ Hw) as Hnd. simpl in Hw.
  destruct (_ || _); [done|].
  destruct (neighbors current t !! index) as [next|] eqn:Hn.
  - cbn zeta. cbn [rt_on_path rt_stack rt_routes rt_expansions].
    assert (route_inv (RouteState (rt_routes s) ((current, S index) :: rest) (rt_on_path s)
                         (rt_expansions s + 1))) as Hstay.
    { split; simpl; [done|by right|by rewrite zlength_cons in *|done]. }
    destruct (set_mem next (rt_on_path s)) eqn:Hmem; [by intros [= <-]|].
    assert (next ∉ current :: rest.*1) as Hfresh by (intros Hin; apply Hop in Hin; congruence).
    destruct (to_resource next t) as [node|] eqn:Hres; [|by intros [= <-]].
    destruct (negb (in_service node) || set_mem next exclude) eqn:Hbad; [by intros [= <-]|].
    apply orb_false_iff in Hbad as [Hsv%negb_false_iff Hex].
    destruct (Z.leb_spec depth_budget (zlength ((current, S index) :: rest))) as [|Hroom]; [by intros [= <-]|].
    assert (walk t exclude from (next :: current :: rest.*1)) as Hw'.
    { constructor; eauto. by eapply list_elem_of_lookup_2. }
    case_bool_decide as Hto; intros [= <-].
    + subst next. split; simpl; [|by right|by rewrite zlength_cons in *|].
      * apply Forall_app. split; [done|]. constructor; [|constructor]. exists (current :: rest.*1). split_and!; [done|done|].
        unfold zlength in *. rewrite length_app, length_app, length_rev, length_fmap in *. simpl in *. lia.
      * intros x. rewrite set_mem_delete, set_mem_add, andb_true_iff, orb_true_iff, negb_true_iff,
          bool_decide_eq_false, bool_decide_eq_true, Hop. simpl. split; [naive_solver|].
        intros Hx. split; [|by right]. by intros ->.
    + split; simpl; [done|by right|rewrite zlength_cons; lia|].
      intros x. rewrite set_mem_add, orb_true_iff, bool_decide_eq_true, Hop. simpl. by rewrite (elem_of_cons (current :: _)).
  - intros [= <-]. split; simpl; [done| |rewrite zlength_cons in Hd; lia|].
    + destruct rest as [|[y j] rest]; [by left|right]. by eapply walk_tail.
    + by eapply on_path_pop.
Qed.

Lemma route_loop_inv fuel s s' :
  route_inv s → route_loop t to exclude route_budget depth_budget fuel s = Some s' → route_inv s'.
Proof.
  revert s. induction fuel as [|fuel IH]; intros s Hi; simpl; [done|].
  destruct (route_step _ _ _ _ _ s) as [s1|] eqn:E; [|by intros [= <-]].
  apply IH. by eapply route_step_inv.
Qed.

(** Every iteration decreases this measure. *)
Definition route_measure (s : route_state) : Z :=
  2 * (kMaxRouteExpansions - rt_expansions s) + zlength (rt_stack s).

Lemma route_step_measure s s' :
  route_step t to exclude route_budget depth_budget s = Some s' →
  0 ≤ route_measure s' < route_measure s.
Proof.
  unfold route_step, route_measure. destruct (rt_stack s) as [|[current index] rest]; [done|].
  destruct (Z.leb_spec route_budget (zlength (rt_routes s))); simpl; [done|].
  destruct (Z.leb_spec kMaxRouteExpansions (rt_expansions s)); simpl; [done|].
  pose proof (zlength_nonneg rest). intros Hs.
  repeat case_in Hs; simplify_eq; simpl; rewrite ?zlength_cons; lia.
Qed.

(** With fuel above the measure the loop stops by itself. *)
Lemma route_loop_stops fuel s :
  0 ≤ route_measure s < Z.of_nat fuel →
  ∃ s', route_loop t to exclude route_budget depth_budget fuel s = Some s' ∧
        route_step t to exclude route_budget depth_budget s' = None.
Proof.
  revert s. induction fuel as [|fuel IH]; intros s Hm; [lia|]. cbn [route_loop].
  destruct (route_step _ _ _ _ _ s) as [s1|] eqn:E; [|eauto].
  apply IH. pose proof (route_step_measure _ _ E). lia.
Qed.

Lemma route_loop_terminates :
  ∃ s', route_loop t to exclude route_budget depth_budget route_fuel (route_init from) = Some s' ∧
        route_step t to exclude route_budget depth_budget s' = None.
Proof.
  apply route_loop_stops. unfold route_measure, route_init, route_fuel, kMaxRouteExpansions.
  cbn [rt_stack rt_expansions]. change (zlength [(from, 0%nat)]) with 1. lia.
Qed.
End RouteFacts.

Lemma unique_from_elem {A} (eqb : A → A → bool) p l x : x ∈ unique_from eqb p l → x ∈ l.
Proof.
  revert p. induction l as [|y l IH]; intros p; simpl; [done|].
  destruct (eqb p y); rewrite ?elem_of_cons; naive_solver.
Qed.

Lemma unique_by_elem {A} (eqb : A → A → bool) l x : x ∈ unique_by eqb l → x ∈ l.
Proof.
  destruct l as [|y l]; simpl; [done|]. rewrite !elem_of_cons.
  intros [->|?%unique_from_elem]; auto.
Qed.

(** Every enumerated route is a simple path of live, permitted nodes between
    the endpoints, no longer than the depth bound. *)
Lemma enumerate_routes_sound from to exclude max_routes max_depth t r :
  from ≠ to → 0 ≤ max_depth →
  r ∈ enumerate_routes from to exclude max_routes max_depth t →
  valid_route t exclude (Z.min max_depth kMaxRouteDepth) from to r ∧
  set_mem from exclude = false ∧ (∃ n, to_resource from t = Some n ∧ in_service n = true).
Proof.
  intros Hne Hd. unfold enumerate_routes.
  destruct ((max_routes =? 0) || (max_depth =? 0)) eqn:E0; [by intros ?%not_elem_of_nil|].
  apply orb_false_iff in E0 as [_ Ed%Z.eqb_neq]. cbn zeta.
  destruct (set_mem from exclude || set_mem to exclude) eqn:E1; [by intros ?%not_elem_of_nil|].
  apply orb_false_iff in E1 as [Ef _].
  destruct (to_resource from t) as [nf|] eqn:Hf; [|by intros ?%not_elem_of_nil].
  destruct (to_resource to t) as [nt|]; [|by intros ?%not_elem_of_nil].
  destruct (in_service nf) eqn:Hs; cbn [negb orb]; [|by intros ?%not_elem_of_nil].
  destruct (in_service nt); cbn [negb]; [|by intros ?%not_elem_of_nil].
  destruct (route_loop _ _ _ _ _ _ _) as [s|] eqn:El; [|by intros ?%not_elem_of_nil].
  intros Hr%unique_by_elem. rewrite sort_by_perm in Hr. split; [|eauto].
  assert (route_inv t from to exclude (Z.min max_depth kMaxRouteDepth) s) as Hinv.
  { eapply route_loop_inv; [|exact El]. apply route_inv_init. unfold kMaxRouteDepth. lia. }
  pose proof (ri_routes _ _ _ _ _ _ Hinv) as Hall. rewrite Forall_forall in Hall. by apply Hall.
Qed.

(** ** The topology invariant *)

(** What [add_path], [add_diversity_group], [add_capacity_pool] and
    [add_protected_route] require of what they store. *)
Definition path_ok (p : FabricPath) : Prop :=
  fp_id p ≠ "" ∧ is_nil (fp_hops p) = false ∧ zlength (fp_hops p) ≤ kMaxPathHops ∧ has_repeat [] (fp_hops p) = false.
Definition group_ok (g : DiversityGroup) : Prop :=
  dg_id g ≠ "" ∧ is_nil (dg_paths g) = false ∧ dg_required_available g ≠ 0 ∧
  dg_required_available g ≤ zlength (dg_paths g).
Definition pool_ok (c : CapacityPool) : Prop := cp_id c ≠ "" ∧ is_nil (cp_members c) = false.
Definition route_ok (r : ProtectedRoute) : Prop := pr_id r ≠ "" ∧ pr_origin r ≠ pr_terminus r.

(** A bounded table whose entries are filed under their own ids and are in order. *)
Definition filed {V} (key : V → string) (ok : V → Prop) (bound : Z) (m : omap string V) : Prop :=
  om_wf m ∧ om_size m ≤ bound ∧ ∀ id v, m !! id = Some v → key v = id ∧ ok v.

Definition routes_ok (l : list ProtectedRoute) : Prop :=
  zlength l ≤ kMaxProtectedRoutes ∧ NoDup (map pr_id l) ∧ Forall route_ok l.

Lemma filed_emplace {V} (key : V → string) (ok : V → Prop) bound (m m' : omap string V) v :
  filed key ok bound m → om_size m < bound → ok v → emplace (key v) v m = (m', true) → filed key ok bound m'.
Proof.
  intros (Hw & Hz & Hf) Hb Hok [Hn ->]%emplace_true. split_and!.
  - by apply om_wf_insert.
  - rewrite om_size_insert_None by done. lia.
  - intros id w Hl. om_cases Hl; [done|by apply Hf].
Qed.

(** Nodes, paths and groups are filed under their own ids; adjacency is a
    symmetric, irreflexive relation on known resources with sorted lists. *)
Record topology_wf (t : Topology) : Prop := {
  tw_resources : om_wf (to_resources t);
  tw_adjacency : om_wf (to_adjacency t);
  tw_pools : om_wf (to_capacity_pools t);
  tw_groups : om_wf (to_diversity_groups t);
  tw_keyed : ∀ id n, to_resource id t = Some n → rn_id n = id;
  tw_sorted : ∀ a, strictly_sorted (neighbors a t);
  tw_symmetric : ∀ a b, b ∈ neighbors a t → a ∈ neighbors b t;
  tw_irreflexive : ∀ a, a ∉ neighbors a t;
  tw_known : ∀ a b, b ∈ neighbors a t → is_Some (to_resource b t);
  tw_room : om_size (to_resources t) ≤ kMaxResources ∧ ∀ id, is_Some (to_resource id t) → id ≠ "";
  tw_path : filed fp_id path_ok kMaxPaths (to_paths t);
  tw_group : filed dg_id group_ok kMaxGroups (to_diversity_groups t);
  tw_pool : filed cp_id pool_ok kMaxGroups (to_capacity_pools t);
  tw_route : routes_ok (to_protected_routes t);
}.

Lemma empty_topology_wf : topology_wf empty_topology.
Proof.
  split; try apply om_wf_empty; try done.
  - intros a. constructor.
  - by intros a b ?%not_elem_of_nil.
  - by intros a ?%not_elem_of_nil.
  - by intros a b ?%not_elem_of_nil.
  - split; [by vm_compute|]. by intros id [].
  - split_and!; [apply om_wf_empty|by vm_compute|done].
  - split_and!; [apply om_wf_empty|by vm_compute|done].
  - split_and!; [apply om_wf_empty|by vm_compute|done].
  - split_and!; [by vm_compute|constructor|constructor].
Qed.

(** Changing or adding nodes under their own ids keeps the invariant. *)
Lemma insert_resource_wf id n t :
  topology_wf t → rn_id n = id → id ≠ "" → om_size (<[id := n]> (to_resources t)) ≤ kMaxResources →
  topology_wf (t <| to_resources := <[id := n]> (to_resources t) |>).
Proof.
  intros [H1 H2 H3 H4 H5 H6 H7 H8 H9 [_ H10] H11 H12 H13 H14] Hid Hne Hroom. split; try done.
  - by apply om_wf_insert.
  - intros id' n' Hn. unfold to_resource in Hn; simpl in Hn. om_cases Hn; [done|by apply H5].
  - intros a b Hb. destruct (H9 a b Hb) as [nb Hnb]. unfold to_resource; simpl.
    destruct (decide (id = b)) as [->|]; [rewrite om_lookup_insert_eq; eauto|].
    rewrite om_lookup_insert_ne by done. eauto.
  - split; [done|]. intros id' [n' Hn]. unfold to_resource in Hn; simpl in Hn. om_cases Hn; [done|eauto].
Qed.

Lemma add_resource_wf node t st t' :
  topology_wf t → add_resource node t = (st, t') → topology_wf t'.
Proof.
  intros Hwf. unfold add_resource. case_bool_decide; [by intros [= _ <-]|].
  destruct (Z.leb_spec kMaxResources (om_size (to_resources t))); [by intros [= _ <-]|].
  destruct (emplace _ _ _) as [m []] eqn:He; intros [= _ <-]; [|done].
  apply emplace_true in He as [Hn ->]. apply insert_resource_wf; [done..|]. rewrite om_size_insert_None by done. lia.
Qed.

Lemma to_set_status_wf id s t st t' :
  topology_wf t → to_set_status id s t = (st, t') → topology_wf t'.
Proof.
  intros Hwf. unfold to_set_status. destruct (to_resource id t) as [n|] eqn:Hn; intros [= _ <-]; [|done].
  apply insert_resource_wf; [done|change (rn_id n = id); by apply (tw_keyed _ Hwf)|apply (proj2 (tw_room _ Hwf)); eauto|].
  rewrite (om_size_insert_Some id _ n); [apply Hwf|apply Hwf|done].
Qed.

Lemma lower_bound_spec (l : list ResourceId) x i y :
  strictly_sorted l → l !! i = Some y → ltb y x = true ↔ (i < lower_bound l x)%nat.
Proof.
  intros Hs Hi. apply lower_bound_loop_spec; [done|lia|lia| | |done].
  - intros. lia.
  - intros j z Hj Hge. apply lookup_lt_Some in Hj. lia.
Qed.

(** Inserting at the lower bound keeps the list sorted and adds one member. *)
Lemma insert_peer_spec (l : list ResourceId) x :
  strictly_sorted l →
  strictly_sorted (insert_peer l x) ∧ ∀ y, y ∈ insert_peer l x ↔ y = x ∨ y ∈ l.
Proof.
  intros Hs. pose proof (λ i y, lower_bound_spec l x i y Hs) as Hlb. unfold insert_peer.
  set (p := lower_bound l x) in *.
  assert (∀ y, y ∈ take p l ++ x :: drop p l ↔ y = x ∨ y ∈ l) as Hel.
  { intros y. rewrite <-(take_drop p l) at 3. rewrite !elem_of_app, elem_of_cons. naive_solver. }
  assert (l !! p ≠ Some x → strictly_sorted (take p l ++ x :: drop p l)) as Hsort.
  { intros Hne. rewrite <-(take_drop p l) in Hs. apply StronglySorted_app in Hs as (Hall & Hs1 & Hs2).
    assert (∀ y, y ∈ take p l → ltb y x = true) as Hlo.
    { intros y (i & Hi)%list_elem_of_lookup. apply lookup_take_Some in Hi as [Hi ?]. by apply (Hlb i). }
    assert (∀ y, y ∈ drop p l → ltb x y = true) as Hhi.
    { intros y (i & Hi)%list_elem_of_lookup. rewrite lookup_drop in Hi.
      destruct (ltb_cases x y) as [[?| ->]|L]; [done| |].
      - exfalso. destruct i as [|i]; [by rewrite Nat.add_0_r in Hi|].
        destruct (l !! p) as [z|] eqn:Hz; [|apply lookup_ge_None in Hz; apply lookup_lt_Some in Hi; lia].
        assert (ltb z y = true) as L by (eapply (strictly_sorted_lookup l p (p + S i)); eauto; [|lia];
          rewrite <-(take_drop p l); by apply StronglySorted_app).
        apply (Hlb p z Hz) in L. lia.
      - apply (Hlb _ _ Hi) in L. lia. }
    apply StronglySorted_app. split_and!; [|done|].
    - intros a b Ha [->|Hb]%elem_of_cons; [by apply Hlo|by apply Hall].
    - constructor; [done|]. by apply Forall_forall. }
  destruct (l !! p) as [y|] eqn:Hy; [|by split; [apply Hsort|]].
  case_bool_decide as D; [|split; [apply Hsort; congruence|done]]. subst y.
  split; [done|]. intros y. split; [by right|]. intros [->|]; [|done]. by eapply list_elem_of_lookup_2.
Qed.

Lemma neighbors_add_edge a b t t' c :
  topology_wf t → add_edge a b t = (ok_status, t') →
  strictly_sorted (neighbors c t') ∧
  ∀ x, x ∈ neighbors c t' ↔ (c = a ∧ x = b) ∨ (c = b ∧ x = a) ∨ x ∈ neighbors c t.
Proof.
  intros Hwf. unfold add_edge. case_bool_decide as Hab; [done|].
  destruct (to_resource a t) as [na|]; [|done]. destruct (to_resource b t) as [nb|]; [|done].
  intros [= <-].
  pose proof (insert_peer_spec _ b (tw_sorted _ Hwf a)) as [Sa Ea].
  pose proof (insert_peer_spec _ a (tw_sorted _ Hwf b)) as [Sb Eb].
  match goal with |- strictly_sorted (neighbors c ?T) ∧ _ =>
    change (neighbors c T) with (default [] (to_adjacency T !! c)) end.
  cbn [to_adjacency update upd_to_adjacency].
  rewrite (om_lookup_insert_ne a b) by done. fold (neighbors b t).
  destruct (decide (b = c)) as [<-|Hbc].
  - rewrite om_lookup_insert_eq. cbn [default from_option]. split; [done|]. intros x.
    unfold id. rewrite Eb. naive_solver.
  - rewrite om_lookup_insert_ne by done. destruct (decide (a = c)) as [<-|Hac].
    + rewrite om_lookup_insert_eq. cbn [default from_option]. split; [done|]. intros x.
      unfold id. rewrite Ea. naive_solver.
    + rewrite om_lookup_insert_ne by done. split; [apply (tw_sorted _ Hwf)|]. intros x. unfold neighbors. naive_solver.
Qed.

Lemma add_edge_wf a b t st t' : topology_wf t → add_edge a b t = (st, t') → topology_wf t'.
Proof.
  intros Hwf Ha. pose proof (λ c, neighbors_add_edge a b t t' c Hwf) as Hn.
  unfold add_edge in *. case_bool_decide as Hab; [by simplify_eq|].
  destruct (to_resource a t) as [na|] eqn:Hna; [|by simplify_eq].
  destruct (to_resource b t) as [nb|] eqn:Hnb; [|by simplify_eq]. injection Ha as <- <-.
  pose proof Hwf as [H1 H2 H3 H4 H5 H6 H7 H8 H9 H10 H11 H12 H13 H14]. split; try done.
  - simpl. by apply om_wf_insert, om_wf_insert.
  - intros c. by apply Hn.
  - intros c d. rewrite !(proj2 (Hn _ eq_refl)). intros [[-> ->]|[[-> ->]|Hd]]; auto.
  - intros c. rewrite (proj2 (Hn _ eq_refl)). intros [[-> ?]|[[-> ?]|Hd]]; [done|done|by apply H8 in Hd].
  - intros c d. rewrite (proj2 (Hn _ eq_refl)). change (to_resource d _) with (to_resource d t).
    intros [[-> ->]|[[-> ->]|Hd]]; [by rewrite Hnb; eauto|by rewrite Hna; eauto|by apply H9 in Hd].
Qed.

Lemma neighbors_remove id t n t' c x :
  to_resource id t = Some n → remove_resource id t = (ok_status, t') →
  x ∈ neighbors c t' ↔ c ≠ id ∧ x ≠ id ∧ x ∈ neighbors c t.
Proof.
  intros Hn. unfold remove_resource. rewrite Hn. intros [= <-]. unfold neighbors; simpl.
  rewrite om_lookup_map. destruct (decide (id = c)) as [<-|Hne].
  - rewrite om_lookup_delete_eq; simpl. split; [by intros ?%not_elem_of_nil|naive_solver].
  - rewrite om_lookup_delete_ne by done. destruct (to_adjacency t !! c) as [l|]; simpl.
    + rewrite list_elem_of_In, filter_In, <-list_elem_of_In, negb_true_iff, bool_decide_eq_false. naive_solver.
    + split; [by intros ?%not_elem_of_nil|]. by intros (_ & _ & ?%not_elem_of_nil).
Qed.

Lemma filter_strictly_sorted (f : ResourceId → bool) l : strictly_sorted l → strictly_sorted (List.filter f l).
Proof.
  induction 1 as [|x l Hs IH Hall]; simpl; [constructor|]. destruct (f x); [|done]. constructor; [done|].
  rewrite Forall_forall in *. intros y [? _]%list_elem_of_In%filter_In. by apply Hall, list_elem_of_In.
Qed.

Lemma remove_resource_wf id t st t' : topology_wf t → remove_resource id t = (st, t') → topology_wf t'.
Proof.
  intros Hwf Hr. destruct (to_resource id t) as [n|] eqn:Hn.
  2: { unfold remove_resource in Hr. rewrite Hn in Hr. by simplify_eq. }
  pose proof (neighbors_remove id t n t') as Hnb. pose proof Hr as Hr0.
  unfold remove_resource in Hr. rewrite Hn in Hr. injection Hr as <- <-.
  pose proof Hwf as [H1 H2 H3 H4 H5 H6 H7 H8 H9 [H10 H10'] H11 H12 H13 H14]. split; try done.
  - simpl. by apply om_wf_delete.
  - simpl. by apply om_wf_map, om_wf_delete.
  - intros id' n'. unfold to_resource; simpl. intros Hl. destruct (decide (id = id')) as [->|].
    + by rewrite om_lookup_delete_eq in Hl.
    + rewrite om_lookup_delete_ne in Hl by done. by apply H5.
  - intros a. unfold neighbors; simpl. rewrite om_lookup_map. destruct (decide (id = a)) as [->|].
    + rewrite om_lookup_delete_eq. constructor.
    + rewrite om_lookup_delete_ne by done. specialize (H6 a). unfold neighbors in H6.
      destruct (to_adjacency t !! a); simpl; [by apply filter_strictly_sorted|constructor].
  - intros a b. rewrite !Hnb by done. naive_solver.
  - intros a. rewrite Hnb by done. intros (_ & _ & ?). by eapply H8.
  - intros a b. rewrite Hnb by done. intros (_ & ? & Hb). apply H9 in Hb as [nb ?].
    unfold to_resource; simpl. rewrite om_lookup_delete_ne by done. eauto.
  - split; [simpl; pose proof (om_size_delete_le id (to_resources t)); lia|].
    intros x [m Hm]. unfold to_resource in Hm. simpl in Hm. destruct (decide (id = x)) as [->|].
    + by rewrite om_lookup_delete_eq in Hm.
    + rewrite om_lookup_delete_ne in Hm by done. by apply H10'; eauto.
Qed.

(** ** What a passing validation guarantees *)

(** The other additions touch neither nodes nor edges. *)
Lemma add_path_wf path t st t' : topology_wf t → add_path path t = (st, t') → topology_wf t'.
Proof.
  intros Hwf. unfold add_path. intros H. repeat case_in H; injection H as _ <-; try done. breflect.
  destruct Hwf. split; try done. eapply (filed_emplace fp_id); [done|done| |done].
  split_and!; done.
Qed.
Lemma add_diversity_group_wf group t st t' :
  topology_wf t → add_diversity_group group t = (st, t') → topology_wf t'.
Proof.
  intros Hwf. unfold add_diversity_group. intros H. repeat case_in H; injection H as _ <-; try done.
  apply orb_false_iff in E1 as [Ez Er]. breflect.
  assert (filed dg_id group_ok kMaxGroups o) as Hf.
  { eapply (filed_emplace dg_id); [apply Hwf|done| |done]. split_and!; done. }
  destruct Hwf. split; try done. apply Hf.
Qed.
Lemma add_capacity_pool_wf pool t st t' :
  topology_wf t → add_capacity_pool pool t = (st, t') → topology_wf t'.
Proof.
  intros Hwf. unfold add_capacity_pool. intros H. repeat case_in H; injection H as _ <-; try done. breflect.
  assert (filed cp_id pool_ok kMaxGroups o) as Hf.
  { eapply (filed_emplace cp_id); [apply Hwf|done| |done]. split_and!; done. }
  destruct Hwf. split; try done. apply Hf.
Qed.
Lemma add_protected_route_wf route t st t' :
  topology_wf t → add_protected_route route t = (st, t') → topology_wf t'.
Proof.
  intros Hwf. unfold add_protected_route. intros H. repeat case_in H; injection H as _ <-; try done. breflect.
  pose proof (tw_route _ Hwf) as (Hz & Hnd & Hall). rewrite existsb_false_elem in E2.
  destruct Hwf. split; try done. split_and!; simpl.
  - rewrite zlength_app, zlength_cons, zlength_nil. lia.
  - rewrite map_app. apply NoDup_app. split_and!; [done| |apply NoDup_singleton].
    intros x Hx ->%list_elem_of_singleton. apply list_elem_of_In, in_map_iff in Hx as (r & Hr & Hin%list_elem_of_In).
    specialize (E2 r Hin). by apply bool_decide_eq_false in E2.
  - apply Forall_app. split; [done|]. constructor; [|constructor]. by split.
Qed.

Lemma first_violation_None {A} (f : A → option TopologyViolation) l :
  first_violation f l = None ↔ ∀ x, x ∈ l → f x = None.
Proof.
  induction l as [|y l IH]; simpl; [split; [by intros _ x ?%not_elem_of_nil|done]|].
  destruct (f y) eqn:E.
  - split; [done|]. intros H. rewrite (H y) in E by left. done.
  - rewrite IH. split; [intros H x [->|?]%elem_of_cons; auto|intros H x ?; apply H; by right].
Qed.

Lemma excluded_set_mem t removing x :
  topology_wf t →
  set_mem x (excluded_set t removing) = true ↔
  set_mem x removing = true ∨ ∃ n, to_resource x t = Some n ∧ in_service n = false.
Proof.
  intros Hwf. unfold excluded_set. rewrite set_mem_add_list, orb_true_iff, bool_decide_eq_true, <-set_mem_keys.
  assert (∀ l s, set_mem x (foldl (λ s n, if negb (in_service n) then set_add (rn_id n) s else s) s l) = true ↔
            set_mem x s = true ∨ ∃ n, n ∈ l ∧ in_service n = false ∧ rn_id n = x) as Hgen.
  { induction l as [|n l IH]; intros s; simpl.
    - split; [by left|]. by intros [?|(n & ?%not_elem_of_nil & _)].
    - rewrite IH. destruct (in_service n) eqn:E; simpl;
        rewrite ?set_mem_add, ?orb_true_iff, ?bool_decide_eq_true; split.
      + intros [?|(n' & ? & ?)]; [by left|right]. exists n'. split; [by right|done].
      + intros [?|(n' & [->|?]%elem_of_cons & ? & ?)]; [by left|congruence|right; eauto].
      + intros [[->|?]|(n' & ? & ?)]; [right|by left|right].
        * exists n. split; [by left|done].
        * exists n'. split; [by right|done].
      + intros [?|(n' & [->|?]%elem_of_cons & ? & ?)]; [by left; right|by left; left|right; eauto]. }
  rewrite Hgen, set_mem_empty. split.
  - intros [?|[?|(n & Hn & Hs & <-)]]; [by left|done|right].
    apply om_values_lookup in Hn as [k Hk]; [|apply Hwf]. pose proof (tw_keyed _ Hwf _ _ Hk) as <-. eauto.
  - intros [?|(n & Hn & Hs)]; [by left|right; right]. exists n. split_and!; [|done|by apply (tw_keyed _ Hwf)].
    by eapply om_lookup_values.
Qed.

(** What the commitments still have after removing [removing]. *)
Definition path_remains (t : Topology) (removing : id_set) (path_id : ResourceId) : Prop :=
  ∃ path, to_paths t !! path_id = Some path ∧
    ∀ hop, hop ∈ fp_hops path → set_mem hop removing = false ∧
      (∀ n, to_resource hop t = Some n → in_service n = true).

Record removal_safe (t : Topology) (removing : id_set) (num den : Z) : Prop := {
  rs_known : ∀ id, set_mem id removing = true →
    ∃ n, to_resource id t = Some n ∧ rn_reserved n ≤ rn_capacity n;
  rs_capacity : ∀ gid pool, to_capacity_pools t !! gid = Some pool →
    apply_headroom (cp_required pool) num den ≤ available_pool_capacity pool removing t;
  rs_diversity : ∀ gid group, to_diversity_groups t !! gid = Some group →
    ∃ kept, sublist kept (dg_paths group) ∧ Forall (path_remains t removing) kept ∧
            dg_required_available group ≤ zlength kept;
  rs_routes : ∀ route, route ∈ to_protected_routes t → pr_origin route ≠ pr_terminus route →
    ∃ r, valid_route t removing kMaxRouteDepth (pr_origin route) (pr_terminus route) r;
}.

Lemma capacity_excluded t removing pool :
  topology_wf t →
  available_pool_capacity pool (excluded_set t removing) t = available_pool_capacity pool removing t.
Proof.
  intros Hwf. unfold available_pool_capacity. generalize 0. 
  induction (cp_members pool) as [|m l IH]; intros total; cbn [foldl]; [done|]. rewrite IH. f_equal.
  destruct (set_mem m (excluded_set t removing)) eqn:E.
  - apply (excluded_set_mem _ _ _ Hwf) in E as [->|(n & -> & ->)]; [done|]. by destruct (set_mem m removing).
  - destruct (set_mem m removing) eqn:E'; [|done].
    assert (set_mem m (excluded_set t removing) = true) by (apply excluded_set_mem; auto). congruence.
Qed.

Lemma walk_weaken t ex1 ex2 from l :
  (∀ x, set_mem x ex2 = true → set_mem x ex1 = true) → walk t ex1 from l → walk t ex2 from l.
Proof.
  intros Hsub. induction 1 as [|next current rest Hw IH Hn Hf Hs He]; [constructor|].
  constructor; try done. destruct (set_mem next ex2) eqn:E; [|done]. apply Hsub in E. congruence.
Qed.

Lemma path_usable_remains t removing p :
  topology_wf t → path_usable t (excluded_set t removing) p = true → path_remains t removing p.
Proof.
  intros Hwf. unfold path_usable, path_remains. destruct (to_paths t !! p) as [path|]; [|done].
  intros Hu%negb_true_iff. rewrite existsb_false_elem in Hu. exists path. split; [done|].
  intros hop Hhop. specialize (Hu hop Hhop). split.
  - destruct (set_mem hop removing) eqn:E; [|done].
    assert (set_mem hop (excluded_set t removing) = true) as Hc; [|congruence].
    apply excluded_set_mem; auto.
  - intros n Hn. destruct (in_service n) eqn:E; [done|].
    assert (set_mem hop (excluded_set t removing) = true) as Hc; [|congruence].
    apply excluded_set_mem; [done|]. right. eauto.
Qed.

Lemma filter_sublist {A} (f : A → bool) l : sublist (List.filter f l) l.
Proof. induction l as [|x l IH]; simpl; [constructor|]. destruct (f x); by constructor. Qed.

Lemma first_violation_kind {A} (f : A → option TopologyViolation) l v :
  (∀ x v, f x = Some v → tv_kind v ≠ ViolationKind.None_) →
  first_violation f l = Some v → tv_kind v ≠ ViolationKind.None_.
Proof.
  intros Hf. induction l as [|x l IH]; cbn [first_violation]; [done|].
  destruct (f x) eqn:E; [|done]. intros [= <-]. eauto.
Qed.

Lemma check_removable_kind t x v : check_removable t x = Some v → tv_kind v ≠ ViolationKind.None_.
Proof. unfold check_removable. intros H. repeat case_in H; by simplify_eq. Qed.
Lemma check_pool_kind t ex label num den p v :
  check_pool t ex label num den p = Some v → tv_kind v ≠ ViolationKind.None_.
Proof. unfold check_pool. intros H. repeat case_in H; by simplify_eq. Qed.
Lemma check_group_kind t ex label g v : check_group t ex label g = Some v → tv_kind v ≠ ViolationKind.None_.
Proof. unfold check_group. intros H. repeat case_in H; by simplify_eq. Qed.
Lemma check_route_kind t ex r v : check_route t ex r = Some v → tv_kind v ≠ ViolationKind.None_.
Proof. unfold check_route. intros H. repeat case_in H; by simplify_eq. Qed.

(** A report without a violation means that every check passed. *)
Lemma validate_removal_many_checks removing num den t :
  tv_ok (validate_removal_many removing num den t) = true →
  ∃ label, (∀ id, id ∈ om_keys removing → check_removable t id = None) ∧
    (∀ p, p ∈ om_list (to_capacity_pools t) → check_pool t (excluded_set t removing) label num den p = None) ∧
    (∀ g, g ∈ om_list (to_diversity_groups t) → check_group t (excluded_set t removing) label g = None) ∧
    (∀ r, r ∈ to_protected_routes t → check_route t (excluded_set t removing) r = None).
Proof.
  unfold validate_removal_many, tv_ok. rewrite bool_decide_eq_true.
  destruct (om_size removing =? 0); [done|].
  destruct (first_violation (check_removable t) _) eqn:F1.
  { intros Hk. by apply first_violation_kind in F1; [|apply check_removable_kind]. }
  set (label := match om_keys removing with [x] => x | _ => "drain-set" end).
  destruct (first_violation (check_pool _ _ _ _ _) _) eqn:F2.
  { intros Hk. by apply first_violation_kind in F2; [|apply check_pool_kind]. }
  destruct (first_violation (check_group _ _ _) _) eqn:F3.
  { intros Hk. by apply first_violation_kind in F3; [|apply check_group_kind]. }
  destruct (first_violation (check_route _ _) _) eqn:F4.
  { intros Hk. by apply first_violation_kind in F4; [|apply check_route_kind]. }
  intros _. exists label. split_and!; by apply first_violation_None.
Qed.

Lemma validate_removal_many_safe removing num den t :
  topology_wf t → tv_ok (validate_removal_many removing num den t) = true →
  removal_safe t removing num den.
Proof.
  intros Hwf (label & F1 & F2 & F3 & F4)%validate_removal_many_checks. split.
  - intros id Hid%set_mem_keys. specialize (F1 id Hid). unfold check_removable in F1.
    destruct (to_resource id t) as [n|]; [|done]. exists n. split; [done|].
    by destruct (Z.ltb_spec (rn_capacity n) (rn_reserved n)).
  - intros gid pool Hp. specialize (F2 _ (om_lookup_elem _ _ _ Hp)). unfold check_pool in F2.
    rewrite capacity_excluded in F2 by done.
    by destruct (Z.ltb_spec (available_pool_capacity pool removing t) (apply_headroom (cp_required pool) num den)).
  - intros gid group Hg. specialize (F3 _ (om_lookup_elem _ _ _ Hg)). unfold check_group in F3.
    eexists. split_and!; [apply (filter_sublist (path_usable t (excluded_set t removing)))| |].
    + apply Forall_forall. intros p [_ Hp]%list_elem_of_In%filter_In. by apply path_usable_remains.
    + by case_match eqn:E; [|apply Z.ltb_ge in E].
  - intros route Hr Hne. specialize (F4 _ Hr). unfold check_route in F4.
    destruct (enumerate_routes _ _ _ _ _ _) as [|r rs] eqn:E; [done|].
    destruct (enumerate_routes_sound (pr_origin route) (pr_terminus route) (excluded_set t removing) 1
                kMaxRouteDepth t r) as [(rest & -> & Hw & Hd) _]; [done|done|rewrite E; left|].
    exists (rev (pr_terminus route :: rest)), rest. split_and!; [done| |done].
    eapply walk_weaken; [|exact Hw]. intros x Hx. apply excluded_set_mem; auto.
Qed.
