(* ===== verification/RouteSearch.v ===== *)
(** * The route search is exhaustive

    [Topology::enumerate_routes] ([src/topology.cpp]) is a depth-first search
    with an explicit stack of neighbour cursors.  TopologyFacts shows that it
    stops and that what it reports are routes; here: until one of its budgets is
    spent it misses none and reports none twice. *)

From S2P Require Import Prelude Containers Checked Result Text Identity Topology TopologyFacts.

Section Search.
Context (t : Topology) (from to : ResourceId) (exclude : id_set) (route_budget depth_budget : Z).
Context (Hsorted : ∀ a, NoDup (neighbors a t)) (Hne : from ≠ to).

(** A route to be found, newest node first. *)
Definition goal (w : list ResourceId) : Prop :=
  walk t exclude from w ∧ head w = Some to ∧ zlength w ≤ depth_budget.

(** The route [w] leaves the stack at the frame [(c, i)] through a neighbour the
    cursor has not passed. *)
Definition pending (w : list ResourceId) (stack : list (ResourceId * nat)) : Prop :=
  ∃ above c i below pre x m,
    stack = above ++ (c, i) :: below ∧ w = pre ++ x :: c :: below.*1 ∧
    neighbors c t !! m = Some x ∧ (i ≤ m)%nat.

(** Each frame was entered through the neighbour its parent's cursor passed last. *)
Fixpoint linked (stack : list (ResourceId * nat)) : Prop :=
  match stack with
  | (y, _) :: (((c, j) :: _) as rest) =>
      (∃ j', j = S j' ∧ neighbors c t !! j' = Some y) ∧ linked rest
  | _ => True
  end.

Record search_inv (s : route_state) : Prop := {
  si_route : route_inv t from to exclude depth_budget s;
  si_linked : linked (rt_stack s);
  si_nodup : NoDup (rt_routes s);
  si_found : ∀ w, goal w → rev w ∈ rt_routes s ∨ pending w (rt_stack s);
  si_once : ∀ w, goal w → rev w ∈ rt_routes s → ¬ pending w (rt_stack s);
}.

Lemma neighbors_inj c m m' x : neighbors c t !! m = Some x → neighbors c t !! m' = Some x → m = m'.
Proof. intros H1 H2. eapply NoDup_lookup; eauto. Qed.

(** Pending is pending at the top frame or below it. *)
Lemma pending_cons w c i rest :
  pending w ((c, i) :: rest) ↔
  (∃ pre x m, w = pre ++ x :: c :: rest.*1 ∧ neighbors c t !! m = Some x ∧ (i ≤ m)%nat) ∨ pending w rest.
Proof.
  split.
  - intros (above & c' & i' & below & pre & x & m & Hst & Hw & Hx & Hm). destruct above as [|f above].
    + simplify_eq/=. left. eauto 10.
    + simplify_eq/=. right. by exists above, c', i', below, pre, x, m.
  - intros [(pre & x & m & Hw & Hx & Hm)|(above & c' & i' & below & pre & x & m & -> & Hw & Hx & Hm)].
    + by exists [], c, i, rest, pre, x, m.
    + by exists ((c, i) :: above), c', i', below, pre, x, m.
Qed.

Lemma walk_from w : walk t exclude from w → ∃ l, w = l ++ [from].
Proof. induction 1 as [|next c rest _ [l E]]; [by exists []|]. exists (next :: l). by rewrite E. Qed.

Lemma walk_suffix pre w : w ≠ [] → walk t exclude from (pre ++ w) → walk t exclude from w.
Proof.
  intros Hw. induction pre as [|x pre IH]; [done|]. simpl. intros Hx. apply IH.
  inversion Hx as [E|]; subst; [|done]. destruct pre, w; done.
Qed.

(** A route that runs along the whole stack is not pending below its top. *)
Lemma along_not_pending w pre y i rest :
  NoDup w → w = pre ++ y :: rest.*1 → linked ((y, i) :: rest) → ¬ pending w rest.
Proof.
  revert pre y i. induction rest as [|[c j] rest IH]; intros pre y i Hnd Hw Hl.
  { intros (above & ? & ? & ? & ? & ? & ? & Hst & _). by destruct above. }
  destruct Hl as [(j' & -> & Hy) Hl]. rewrite pending_cons. intros [(pre' & x & m & Hw' & Hx & Hm)|Hp].
  - simpl in Hw. assert (pre ++ [y] = pre' ++ [x]) as Heq.
    { apply (app_inv_tail (c :: rest.*1)). rewrite <- !app_assoc. exact (eq_trans (eq_sym Hw) Hw'). }
    apply app_inj_tail in Heq as [_ ->]. pose proof (neighbors_inj _ _ _ _ Hx Hy). lia.
  - revert Hp. eapply (IH (pre ++ [y]) c); [done| |exact Hl]. by rewrite <- app_assoc.
Qed.

Lemma goal_nodup w : goal w → NoDup w.
Proof. intros [H _]. by eapply walk_nodup. Qed.

Lemma walk_step_inv x c rest :
  walk t exclude from (x :: c :: rest) →
  x ∈ neighbors c t ∧ x ∉ c :: rest ∧ (∃ n, to_resource x t = Some n ∧ in_service n = true) ∧ set_mem x exclude = false.
Proof. by inversion 1. Qed.

(** The routes that pass through [next] from the top of the stack. *)
Lemma through_next w pre next c rest :
  goal w → w = pre ++ next :: c :: rest →
  next ∉ c :: rest ∧ (∃ n, to_resource next t = Some n ∧ in_service n = true) ∧ set_mem next exclude = false ∧
  zlength (c :: rest) < depth_budget ∧ (next = to → pre = []) ∧
  (next ≠ to → ∃ pre' x m, pre = pre' ++ [x] ∧ neighbors next t !! m = Some x).
Proof.
  intros Hg ->. pose proof (goal_nodup _ Hg) as Hnd. destruct Hg as (Hw & Hh & Hz).
  assert (Hw' := walk_suffix pre (next :: c :: rest) ltac:(done) Hw).
  apply walk_step_inv in Hw' as (_ & H2 & H3 & H4). split_and!; [done|done|done| | |].
  - rewrite zlength_app, zlength_cons in Hz. pose proof (zlength_nonneg pre). lia.
  - intros ->. destruct pre as [|p pre]; [done|]. simpl in *. injection Hh as ->.
    apply NoDup_cons in Hnd as [Hnd _]. set_solver.
  - intros Hto. destruct (exists_last (l := pre)) as (pre' & x & ->).
    { intros ->. simpl in Hh. congruence. }
    rewrite <- app_assoc in Hw. apply walk_suffix in Hw; [|done]. apply walk_step_inv in Hw as (Hin & _).
    apply list_elem_of_lookup in Hin as [m Hm]. eauto.
Qed.

Lemma pending_pop w c i rest : neighbors c t !! i = None → pending w ((c, i) :: rest) ↔ pending w rest.
Proof.
  intros Hn. rewrite pending_cons. split; [|by right]. intros [(pre & x & m & _ & Hx & Hm)|?]; [|done].
  apply lookup_ge_None in Hn. apply lookup_lt_Some in Hx. lia.
Qed.

(** Moving the cursor past [next] drops exactly the routes through it. *)
Lemma pending_bump w c i rest next :
  neighbors c t !! i = Some next →
  pending w ((c, i) :: rest) ↔ (∃ pre, w = pre ++ next :: c :: rest.*1) ∨ pending w ((c, S i) :: rest).
Proof.
  intros Hn. rewrite !pending_cons. split.
  - intros [(pre & x & m & -> & Hx & Hm)|?]; [|by right; right]. destruct (decide (m = i)) as [->|].
    + simplify_eq. left. eauto.
    + right. left. exists pre, x, m. split_and!; [done|done|lia].
  - intros [[pre ->]|[(pre & x & m & -> & Hx & Hm)|?]]; [..|by right]; left; eauto 10.
    exists pre, x, m. split_and!; [done|done|lia].
Qed.

Lemma through_not_pending w pre c i rest next :
  goal w → neighbors c t !! i = Some next → linked ((c, S i) :: rest) →
  w = pre ++ next :: c :: rest.*1 → ¬ pending w ((c, S i) :: rest).
Proof.
  intros Hg Hn Hl Hw. rewrite pending_cons. intros [(pre' & x & m & Hw' & Hx & Hm)|Hp].
  - assert (pre ++ [next] = pre' ++ [x]) as Heq.
    { apply (app_inv_tail (c :: rest.*1)). rewrite <- !app_assoc. exact (eq_trans (eq_sym Hw) Hw'). }
    apply app_inj_tail in Heq as [_ ->]. pose proof (neighbors_inj _ _ _ _ Hx Hn). lia.
  - revert Hp. eapply (along_not_pending w (pre ++ [next]) c); [by apply goal_nodup| |exact Hl].
    by rewrite <- app_assoc.
Qed.

(** Where no route goes through [next] the cursor moves on. *)
Lemma search_skip s c i rest next op ex :
  search_inv s → rt_stack s = (c, i) :: rest → neighbors c t !! i = Some next →
  (∀ w pre, goal w → w = pre ++ next :: c :: rest.*1 → False) →
  route_inv t from to exclude depth_budget (RouteState (rt_routes s) ((c, S i) :: rest) op ex) →
  search_inv (RouteState (rt_routes s) ((c, S i) :: rest) op ex).
Proof.
  intros [_ Hlk Hnd Hf Ho] Es Hn Hno Hi. rewrite Es in *. split; simpl; [done|by destruct rest as [|[]]|done|..].
  - intros w Hw. destruct (Hf w Hw) as [?|Hp]; [by left|]. right. rewrite (pending_bump _ _ _ _ _ Hn) in Hp.
    destruct Hp as [[pre Hp]|?]; [by destruct (Hno w pre)|done].
  - intros w Hw Hr Hp. apply (Ho w Hw Hr). rewrite (pending_bump _ _ _ _ _ Hn). by right.
Qed.

(** A step into [to] reports the one route through it. *)
Lemma search_report s c i rest op ex :
  search_inv s → rt_stack s = (c, i) :: rest → neighbors c t !! i = Some to →
  route_inv t from to exclude depth_budget
    (RouteState (rt_routes s ++ [rev (to :: c :: rest.*1)]) ((c, S i) :: rest) op ex) →
  search_inv (RouteState (rt_routes s ++ [rev (to :: c :: rest.*1)]) ((c, S i) :: rest) op ex).
Proof.
  intros [_ Hlk Hnd Hf Ho] Es Hn Hi. rewrite Es in *.
  assert (linked ((c, S i) :: rest)) as Hlk' by (by destruct rest as [|[]]).
  assert (∀ w pre, goal w → w = pre ++ to :: c :: rest.*1 → pre = []) as Hpre.
  { intros w pre Hw Ew. by apply (through_next _ _ _ _ _ Hw Ew). }
  pose proof (Forall_inv (proj2 (proj1 (Forall_app _ _ _) (ri_routes _ _ _ _ _ _ Hi)))) as (r0 & Er0 & Hw0 & Hz0).
  assert (goal (to :: c :: rest.*1)) as Hg.
  { apply rev_inj in Er0 as [= <-]. split_and!; [done|done|]. revert Hz0. unfold zlength. by rewrite length_rev. }
  pose proof (through_not_pending _ [] _ _ _ _ Hg Hn Hlk' eq_refl) as Hnp.
  split; cbn [rt_routes rt_stack]; [done|done| | |].
  - apply NoDup_app. split_and!; [done| |apply NoDup_singleton]. intros r Hr ->%list_elem_of_singleton.
    apply (Ho (to :: c :: rest.*1) Hg Hr). rewrite (pending_bump _ _ _ _ _ Hn). left. by exists [].
  - intros w Hw. rewrite elem_of_app, list_elem_of_singleton. destruct (Hf w Hw) as [?|Hp]; [by left; left|].
    rewrite (pending_bump _ _ _ _ _ Hn) in Hp. destruct Hp as [[pre Hp]|?]; [|by right].
    rewrite (Hpre w pre Hw Hp) in Hp. subst w. left; by right.
  - intros w Hw. rewrite elem_of_app, list_elem_of_singleton. intros [Hr|Hr] Hp.
    + apply (Ho w Hw Hr). rewrite (pending_bump _ _ _ _ _ Hn). by right.
    + assert (w = to :: c :: rest.*1) as -> by (by apply rev_inj). done.
Qed.

(** A step into another node makes the routes through it pending at its frame. *)
Lemma search_push s c i rest next op ex :
  search_inv s → rt_stack s = (c, i) :: rest → neighbors c t !! i = Some next → next ≠ to →
  route_inv t from to exclude depth_budget (RouteState (rt_routes s) ((next, O) :: (c, S i) :: rest) op ex) →
  search_inv (RouteState (rt_routes s) ((next, O) :: (c, S i) :: rest) op ex).
Proof.
  intros [_ Hlk Hnd Hf Ho] Es Hn Hto Hi. rewrite Es in *. split; simpl; [done| |done|..].
  - split; [eauto|by destruct rest as [|[]]].
  - intros w Hw. destruct (Hf w Hw) as [?|Hp]; [by left|]. right. rewrite (pending_bump _ _ _ _ _ Hn) in Hp.
    rewrite pending_cons. destruct Hp as [[pre Hp]|?]; [|by right]. left.
    destruct (through_next _ _ _ _ _ Hw Hp) as (_ & _ & _ & _ & _ & Hx).
    destruct (Hx Hto) as (pre' & x & m & -> & Hm). exists pre', x, m. rewrite <- app_assoc in Hp. split_and!; [done|done|lia].
  - intros w Hw Hr Hp. apply (Ho w Hw Hr). rewrite (pending_bump _ _ _ _ _ Hn). rewrite pending_cons in Hp.
    destruct Hp as [(pre & x & m & -> & _)|?]; [|by right]. left. exists (pre ++ [x]). by rewrite <- app_assoc.
Qed.

Lemma search_step_inv s s' :
  search_inv s → route_step t to exclude route_budget depth_budget s = Some s' → search_inv s'.
Proof.
  intros Hsi Hstep. pose proof Hsi as [Hri Hlk Hnd Hf Ho]. pose proof (route_step_inv _ _ _ _ _ _ _ _ Hri Hstep) as Hri'.
  pose proof (ri_on_path _ _ _ _ _ _ Hri) as Hop.
  unfold route_step in Hstep. destruct (rt_stack s) as [|[c i] rest] eqn:Es; [done|].
  destruct (_ || _); [done|]. destruct (neighbors c t !! i) as [next|] eqn:Hn; cbn zeta in Hstep;
    cbn [rt_on_path rt_stack rt_routes rt_expansions] in Hstep.
  2: { injection Hstep as <-. split; [done| |done|..]; simpl.
    - destruct rest as [|[]]; [done|]. by apply Hlk.
    - intros w Hw. specialize (Hf w Hw). by rewrite pending_pop in Hf.
    - intros w Hw Hr. specialize (Ho w Hw Hr). by rewrite pending_pop in Ho. }
  assert (linked ((c, S i) :: rest)) as Hlk' by (by destruct rest as [|[]]).
  assert (∀ op ex, (∀ w pre, goal w → w = pre ++ next :: c :: rest.*1 → False) →
    route_inv t from to exclude depth_budget (RouteState (rt_routes s) ((c, S i) :: rest) op ex) →
    search_inv (RouteState (rt_routes s) ((c, S i) :: rest) op ex)) as Hskip.
  { intros. by apply (search_skip s c i rest next). }
  destruct (set_mem next (rt_on_path s)) eqn:Hmem.
  { injection Hstep as <-. apply Hskip; try done. intros w pre Hw Ew.
    destruct (through_next _ _ _ _ _ Hw Ew) as [Hfr _]. apply Hfr, (Hop next), Hmem. }
  destruct (match to_resource next t with Some _ => _ | None => true end) eqn:Hbad.
  { injection Hstep as <-. apply Hskip; try done. intros w pre Hw Ew.
    destruct (through_next _ _ _ _ _ Hw Ew) as (_ & (n & Hn1 & Hn2) & Hx & _). rewrite Hn1, Hn2, Hx in Hbad. done. }
  destruct (_ <=? _) eqn:Hdep.
  { injection Hstep as <-. apply Hskip; try done. intros w pre Hw Ew.
    destruct (through_next _ _ _ _ _ Hw Ew) as (_ & _ & _ & Hz & _). apply Z.leb_le in Hdep.
    revert Hz Hdep. rewrite !zlength_cons. unfold zlength. rewrite length_fmap. intros ? ?. lia. }
  case_bool_decide as Hto; injection Hstep as <-; [subst next; by apply (search_report s c i)|by apply (search_push s c i)].
Qed.

Lemma search_init_inv : 1 ≤ depth_budget → search_inv (route_init from).
Proof.
  intros Hd. split; simpl; [by apply route_inv_init|done|apply NoDup_nil_2| |by intros ? ? ?%not_elem_of_nil].
  intros w (Hw & Hh & _). right. destruct (walk_from w Hw) as [l ->].
  destruct (exists_last (l := l)) as (pre & x & ->); [intros ->; simpl in Hh; congruence|].
  rewrite <- app_assoc in Hw. apply walk_suffix in Hw; [|done]. apply walk_step_inv in Hw as [Hin _].
  apply list_elem_of_lookup in Hin as [m Hm]. exists [], from, 0%nat, [], pre, x, m.
  rewrite <- app_assoc. split_and!; [done|done|done|lia].
Qed.

Lemma search_loop_inv fuel s s' :
  search_inv s → route_loop t to exclude route_budget depth_budget fuel s = Some s' → search_inv s'.
Proof.
  revert s. induction fuel as [|fuel IH]; intros s Hi; simpl; [done|].
  destruct (route_step _ _ _ _ _ s) as [s1|] eqn:E; [|by intros [= <-]]. apply IH. by eapply search_step_inv.
Qed.

Lemma route_step_budget s s' :
  route_step t to exclude route_budget depth_budget s = Some s' → zlength (rt_routes s') ≤ route_budget.
Proof using Type.
  clear Hne Hsorted.
  unfold route_step. destruct (rt_stack s) as [|[c i] rest]; [done|].
  destruct (Z.leb_spec route_budget (zlength (rt_routes s))); simpl; [done|]. intros Hs.
  repeat case_in Hs; simplify_eq; simpl; rewrite ?zlength_app, ?zlength_cons, ?zlength_nil; lia.
Qed.

Lemma route_loop_budget fuel s s' :
  zlength (rt_routes s) ≤ route_budget →
  route_loop t to exclude route_budget depth_budget fuel s = Some s' → zlength (rt_routes s') ≤ route_budget.
Proof using Type.
  clear Hne Hsorted.
  revert s. induction fuel as [|fuel IH]; intros s Hi; simpl; [done|].
  destruct (route_step _ _ _ _ _ s) as [s1|] eqn:E; [|by intros [= <-]]. apply IH. by eapply route_step_budget.
Qed.

Lemma search_finished s :
  search_inv s → route_step t to exclude route_budget depth_budget s = None →
  zlength (rt_routes s) < route_budget → rt_expansions s < kMaxRouteExpansions →
  ∀ w, goal w → rev w ∈ rt_routes s.
Proof.
  intros Hi Hstop Hb He w Hw. unfold route_step in Hstop. destruct (rt_stack s) as [|[c i] rest] eqn:Es.
  - destruct (si_found _ Hi w Hw) as [?|(above & ? & ? & ? & ? & ? & ? & Hst & _)]; [done|].
    rewrite Es in Hst. by destruct above.
  - rewrite (proj2 (Z.leb_gt _ _) Hb), (proj2 (Z.leb_gt _ _) He) in Hstop. simpl in Hstop.
    repeat case_in Hstop; done.
Qed.
End Search.

Lemma unique_by_nodup {A} `{EqDecision A} (l : list A) : NoDup l → unique_by (λ a b, bool_decide (a = b)) l = l.
Proof.
  destruct l as [|x l]; [done|]. simpl. intros Hnd. f_equal. revert x Hnd.
  induction l as [|y l IH]; intros x Hnd; simpl; [done|].
  apply NoDup_cons in Hnd as [Hx Hl]. rewrite bool_decide_false; [by rewrite IH|]. intros ->. apply Hx. by left.
Qed.

#[local] Instance zlength_perm {A} : Proper (Permutation ==> (=)) (@zlength A).
Proof. intros l k H. unfold zlength. by rewrite H. Qed.

(** How many neighbours the search of [enumerate_routes] looked at. *)
Definition route_expansions (from to : ResourceId) (exclude : id_set) (max_routes max_depth : Z) (t : Topology) : Z :=
  match route_loop t to exclude (Z.min max_routes kMaxRoutesPerQuery) (Z.min max_depth kMaxRouteDepth) route_fuel
          (route_init from) with
  | Some s => rt_expansions s
  | None => kMaxRouteExpansions
  end.

(** A resource a route may use. *)
Definition usable_node (t : Topology) (exclude : id_set) (x : ResourceId) : bool :=
  match to_resource x t with Some n => in_service n && negb (set_mem x exclude) | None => false end.

(** What [enumerate_routes] computes, when its endpoints are usable. *)
Lemma enumerate_routes_search from to exclude max_routes max_depth t :
  topology_wf t → from ≠ to → 0 < max_routes → 0 < max_depth →
  usable_node t exclude from = true → usable_node t exclude to = true →
  ∃ s, search_inv t from to exclude (Z.min max_depth kMaxRouteDepth) s ∧
       route_step t to exclude (Z.min max_routes kMaxRoutesPerQuery) (Z.min max_depth kMaxRouteDepth) s = None ∧
       zlength (rt_routes s) ≤ Z.min max_routes kMaxRoutesPerQuery ∧
       rt_expansions s = route_expansions from to exclude max_routes max_depth t ∧
       enumerate_routes from to exclude max_routes max_depth t ≡ₚ rt_routes s.
Proof.
  intros Hwf Hne Hr Hd Hf Ht. unfold enumerate_routes, route_expansions, usable_node in *.
  destruct (route_loop_terminates t from to exclude (Z.min max_routes kMaxRoutesPerQuery) (Z.min max_depth kMaxRouteDepth))
    as (s & Hl & Hstop). rewrite Hl. exists s.
  assert (search_inv t from to exclude (Z.min max_depth kMaxRouteDepth) s) as Hi.
  { eapply search_loop_inv; [|done| |exact Hl].
    - intros a. apply strictly_sorted_NoDup, Hwf.
    - apply search_init_inv; [done|]. unfold kMaxRouteDepth. lia. }
  split_and!; [done|done| |done|].
  - eapply route_loop_budget; [|exact Hl]. change (zlength (rt_routes (route_init from))) with 0.
    unfold kMaxRoutesPerQuery. lia.
  - rewrite (proj2 (Z.eqb_neq max_routes 0)), (proj2 (Z.eqb_neq max_depth 0)) by lia. cbn [orb].
    destruct (to_resource from t) as [nf|]; [|done]. destruct (to_resource to t) as [nt|]; [|done].
    apply andb_true_iff in Hf as [-> ->%negb_true_iff], Ht as [-> ->%negb_true_iff]. cbn [orb negb].
    rewrite unique_by_nodup; [by rewrite sort_by_perm|]. rewrite sort_by_perm. apply Hi.
Qed.

(** The depth-first search computes the set of routes: each once, and all of them
    unless it ran out of its route or expansion budget. *)
Lemma enumerate_routes_complete from to exclude max_routes max_depth t :
  topology_wf t → from ≠ to → 0 ≤ max_routes → 0 ≤ max_depth →
  let routes := enumerate_routes from to exclude max_routes max_depth t in
  NoDup routes ∧ zlength routes ≤ Z.min max_routes kMaxRoutesPerQuery ∧
  (zlength routes < Z.min max_routes kMaxRoutesPerQuery →
   route_expansions from to exclude max_routes max_depth t < kMaxRouteExpansions →
   ∀ r, r ∈ routes ↔
     valid_route t exclude (Z.min max_depth kMaxRouteDepth) from to r ∧ usable_node t exclude from = true).
Proof.
  intros Hwf Hne Hr Hd routes.
  assert (∀ r, r ∈ routes → valid_route t exclude (Z.min max_depth kMaxRouteDepth) from to r ∧ usable_node t exclude from = true) as Hsound.
  { intros r (H1 & H2 & n & H3 & H4)%enumerate_routes_sound; [|done|done]. unfold usable_node. by rewrite H3, H4, H2. }
  destruct (decide (0 < max_routes ∧ 0 < max_depth ∧ usable_node t exclude from = true ∧ usable_node t exclude to = true))
    as [(Hr' & Hd' & Hf & Ht)|Hno].
  - destruct (enumerate_routes_search from to exclude max_routes max_depth t) as (s & Hi & Hstop & Hz & He & Hp); try done.
    assert (zlength routes = zlength (rt_routes s)) as -> by (by subst routes; rewrite Hp).
    split_and!; [subst routes; rewrite Hp; apply Hi|done|].
    intros Hb Hx r. split; [apply Hsound|]. intros [(rest & -> & Hw & Hrz) _]. subst routes. rewrite Hp.
    change (rev (to :: rest) ∈ rt_routes s). apply (search_finished _ _ _ _ _ _ s Hi Hstop Hb); [lia|].
    split_and!; [done|done|]. unfold zlength in *. by rewrite length_rev in Hrz.
  - assert (routes = []) as ->.
    { subst routes. unfold enumerate_routes, usable_node in *.
      destruct (Z.eqb_spec max_routes 0); [done|]. destruct (Z.eqb_spec max_depth 0); [done|]. cbn [orb].
      destruct (set_mem from exclude) eqn:E1; [done|]. destruct (set_mem to exclude) eqn:E2; [done|]. cbn [orb].
      destruct (to_resource from t) as [nf|]; [|done]. destruct (to_resource to t) as [nt|]; [|done].
      destruct (in_service nf) eqn:E3; [|done]. destruct (in_service nt) eqn:E4; [|done].
      destruct Hno. split_and!; lia || done. }
    split_and!; [apply NoDup_nil_2|unfold kMaxRoutesPerQuery; change (zlength []) with 0; lia|].
    intros Hb _ r. split; [by intros ?%not_elem_of_nil|]. intros [(rest & -> & Hw & Hz) Hf]. destruct Hno.
    assert (usable_node t exclude to = true) as Ht.
    { unfold usable_node. inversion Hw as [E|? c l Hw' _ _ (n & Hn & Hs) Hx]; subst; [done|]. by rewrite Hn, Hs, Hx. }
    change (zlength (@nil (list ResourceId))) with 0 in Hb.
    assert (0 < zlength (rev (to :: rest))) by (unfold zlength; rewrite length_rev; simpl; lia). split_and!; lia || done.
Qed.
