(* ===== verification/Policy.v ===== *)
(** * Policy

    [include/drain/policy.hpp] and [src/policy.cpp]: the operator's limits, their
    hard caps, the grace windows and the content fingerprint. *)

From S2P Require Import Prelude Containers Checked Result Text Identity Obligation.

Definition kHardMaxTargetsPerRequest : Z := 256.
Definition kHardMaxDrainsInSet : Z := 256.
Definition kHardMaxConcurrentDrainsPerDomain : Z := 64.
Definition kHardMaxObligations : Z := 1000000.
Definition kHardMaxEvidenceRecords : Z := 1000000.
Definition kHardMaxDecisionsRetained : Z := 100000.
Definition kHardMaxBlockersPerDrain : Z := 256.
Definition kHardMaxEvacuationAttempts : Z := 1000.
Definition kHardMaxExceptionExtensions : Z := 64.
Definition kHardMaxSnapshotBytes : Z := 256 * 1024 * 1024.
Definition kHardMaxFrameBytes : Z := 16 * 1024 * 1024.
Definition kHardMaxConnections : Z := 4096.
Definition kHardMaxWorkerThreads : Z := 256.

(** [drain::DrainPolicy]; [p_grace_by_kind] is the array indexed by obligation kind. *)
Record DrainPolicy := MkDrainPolicy {
  p_name : string;
  p_revision : Revision;
  p_max_targets_per_request : Z;
  p_max_drains_in_set : Z;
  p_max_concurrent_drains_per_domain : Z;
  p_serialize_same_domain_in_set : bool;
  p_max_obligations : Z;
  p_max_evidence_records : Z;
  p_max_decisions_retained : Z;
  p_max_blockers_per_drain : Z;
  p_max_evacuation_attempts : Z;
  p_max_exception_extensions : Z;
  p_admission_fence_settle : Duration;
  p_evidence_freshness : Duration;
  p_evacuation_retry_interval : Duration;
  p_evidence_clock_skew : Duration;
  p_default_grace : Duration;
  p_grace_by_kind : list Duration;
  p_capacity_headroom_numerator : Z;
  p_capacity_headroom_denominator : Z;
  p_required_path_diversity : Z;
  p_require_release_evidence : bool;
  p_require_quiescence_evidence : bool;
  p_evidence_requires_live_incarnation : bool;
  p_reobserve_removal_evidence : bool;
  p_max_snapshot_bytes : Z;
  p_max_frame_bytes : Z;
  p_max_connections : Z;
  p_max_worker_threads : Z;
  p_max_pending_work : Z;
}.

#[export] Instance eta_DrainPolicy : Eta DrainPolicy := λ r,
  MkDrainPolicy
    (p_name r) (p_revision r) (p_max_targets_per_request r) (p_max_drains_in_set r)
    (p_max_concurrent_drains_per_domain r) (p_serialize_same_domain_in_set r)
    (p_max_obligations r) (p_max_evidence_records r) (p_max_decisions_retained r)
    (p_max_blockers_per_drain r) (p_max_evacuation_attempts r) (p_max_exception_extensions r)
    (p_admission_fence_settle r) (p_evidence_freshness r) (p_evacuation_retry_interval r)
    (p_evidence_clock_skew r) (p_default_grace r) (p_grace_by_kind r)
    (p_capacity_headroom_numerator r) (p_capacity_headroom_denominator r)
    (p_required_path_diversity r) (p_require_release_evidence r)
    (p_require_quiescence_evidence r) (p_evidence_requires_live_incarnation r)
    (p_reobserve_removal_evidence r) (p_max_snapshot_bytes r) (p_max_frame_bytes r)
    (p_max_connections r) (p_max_worker_threads r) (p_max_pending_work r).
#[export] Instance upd_p_name : Update p_name := ltac:(solve_update p_name).
#[export] Instance upd_p_revision : Update p_revision := ltac:(solve_update p_revision).
#[export] Instance upd_p_max_targets_per_request : Update p_max_targets_per_request := ltac:(solve_update p_max_targets_per_request).
#[export] Instance upd_p_max_drains_in_set : Update p_max_drains_in_set := ltac:(solve_update p_max_drains_in_set).
#[export] Instance upd_p_max_concurrent_drains_per_domain : Update p_max_concurrent_drains_per_domain := ltac:(solve_update p_max_concurrent_drains_per_domain).
#[export] Instance upd_p_serialize_same_domain_in_set : Update p_serialize_same_domain_in_set := ltac:(solve_update p_serialize_same_domain_in_set).
#[export] Instance upd_p_max_obligations : Update p_max_obligations := ltac:(solve_update p_max_obligations).
#[export] Instance upd_p_max_evidence_records : Update p_max_evidence_records := ltac:(solve_update p_max_evidence_records).
#[export] Instance upd_p_max_decisions_retained : Update p_max_decisions_retained := ltac:(solve_update p_max_decisions_retained).
#[export] Instance upd_p_max_blockers_per_drain : Update p_max_blockers_per_drain := ltac:(solve_update p_max_blockers_per_drain).
#[export] Instance upd_p_max_evacuation_attempts : Update p_max_evacuation_attempts := ltac:(solve_update p_max_evacuation_attempts).
#[export] Instance upd_p_max_exception_extensions : Update p_max_exception_extensions := ltac:(solve_update p_max_exception_extensions).
#[export] Instance upd_p_admission_fence_settle : Update p_admission_fence_settle := ltac:(solve_update p_admission_fence_settle).
#[export] Instance upd_p_evidence_freshness : Update p_evidence_freshness := ltac:(solve_update p_evidence_freshness).
#[export] Instance upd_p_evacuation_retry_interval : Update p_evacuation_retry_interval := ltac:(solve_update p_evacuation_retry_interval).
#[export] Instance upd_p_evidence_clock_skew : Update p_evidence_clock_skew := ltac:(solve_update p_evidence_clock_skew).
#[export] Instance upd_p_default_grace : Update p_default_grace := ltac:(solve_update p_default_grace).
#[export] Instance upd_p_grace_by_kind : Update p_grace_by_kind := ltac:(solve_update p_grace_by_kind).
#[export] Instance upd_p_capacity_headroom_numerator : Update p_capacity_headroom_numerator := ltac:(solve_update p_capacity_headroom_numerator).
#[export] Instance upd_p_capacity_headroom_denominator : Update p_capacity_headroom_denominator := ltac:(solve_update p_capacity_headroom_denominator).
#[export] Instance upd_p_required_path_diversity : Update p_required_path_diversity := ltac:(solve_update p_required_path_diversity).
#[export] Instance upd_p_require_release_evidence : Update p_require_release_evidence := ltac:(solve_update p_require_release_evidence).
#[export] Instance upd_p_require_quiescence_evidence : Update p_require_quiescence_evidence := ltac:(solve_update p_require_quiescence_evidence).
#[export] Instance upd_p_evidence_requires_live_incarnation : Update p_evidence_requires_live_incarnation := ltac:(solve_update p_evidence_requires_live_incarnation).
#[export] Instance upd_p_reobserve_removal_evidence : Update p_reobserve_removal_evidence := ltac:(solve_update p_reobserve_removal_evidence).
#[export] Instance upd_p_max_snapshot_bytes : Update p_max_snapshot_bytes := ltac:(solve_update p_max_snapshot_bytes).
#[export] Instance upd_p_max_frame_bytes : Update p_max_frame_bytes := ltac:(solve_update p_max_frame_bytes).
#[export] Instance upd_p_max_connections : Update p_max_connections := ltac:(solve_update p_max_connections).
#[export] Instance upd_p_max_worker_threads : Update p_max_worker_threads := ltac:(solve_update p_max_worker_threads).
#[export] Instance upd_p_max_pending_work : Update p_max_pending_work := ltac:(solve_update p_max_pending_work).
Arguments upd_p_name f r /.
Arguments upd_p_revision f r /.
Arguments upd_p_max_targets_per_request f r /.
Arguments upd_p_max_drains_in_set f r /.
Arguments upd_p_max_concurrent_drains_per_domain f r /.
Arguments upd_p_serialize_same_domain_in_set f r /.
Arguments upd_p_max_obligations f r /.
Arguments upd_p_max_evidence_records f r /.
Arguments upd_p_max_decisions_retained f r /.
Arguments upd_p_max_blockers_per_drain f r /.
Arguments upd_p_max_evacuation_attempts f r /.
Arguments upd_p_max_exception_extensions f r /.
Arguments upd_p_admission_fence_settle f r /.
Arguments upd_p_evidence_freshness f r /.
Arguments upd_p_evacuation_retry_interval f r /.
Arguments upd_p_evidence_clock_skew f r /.
Arguments upd_p_default_grace f r /.
Arguments upd_p_grace_by_kind f r /.
Arguments upd_p_capacity_headroom_numerator f r /.
Arguments upd_p_capacity_headroom_denominator f r /.
Arguments upd_p_required_path_diversity f r /.
Arguments upd_p_require_release_evidence f r /.
Arguments upd_p_require_quiescence_evidence f r /.
Arguments upd_p_evidence_requires_live_incarnation f r /.
Arguments upd_p_reobserve_removal_evidence f r /.
Arguments upd_p_max_snapshot_bytes f r /.
Arguments upd_p_max_frame_bytes f r /.
Arguments upd_p_max_connections f r /.
Arguments upd_p_max_worker_threads f r /.
Arguments upd_p_max_pending_work f r /.

(** [DrainPolicy::defaults]; a second is 10^9 ns. *)
Definition default_policy : DrainPolicy :=
  MkDrainPolicy "default" 1 64 32 1 true 100000 200000 4096 64 8 4
    0 (300 * 10 ^ 9) (5 * 10 ^ 9) (5 * 10 ^ 9) (3600 * 10 ^ 9) [0; 0; 0; 0; 0; 0]
    1 1 1 true true true true (32 * 1024 * 1024) (1024 * 1024) 64 8 1024.

(** [DrainPolicy::grace_for_kind]. *)
Definition grace_for_kind (p : DrainPolicy) (kind : ObligationKind.t) : Duration :=
  let configured := default 0 (p_grace_by_kind p !! Z.to_nat (ObligationKind.rank kind)) in
  if configured =? 0 then p_default_grace p else configured.

(** [DrainPolicy::set_grace_for_kind]. *)
Definition set_grace_for_kind (kind : ObligationKind.t) (value : Duration) (p : DrainPolicy) : DrainPolicy :=
  p <| p_grace_by_kind := <[Z.to_nat (ObligationKind.rank kind) := value]> (p_grace_by_kind p) |>.

(** [DrainPolicy::grace_for]. *)
Definition grace_for (p : DrainPolicy) (ob : Obligation) : Duration :=
  if ob_grace ob =? 0 then grace_for_kind p (ob_kind ob) else ob_grace ob.

(** [DrainPolicy::validate]. *)
Definition policy_validate (p : DrainPolicy) : status :=
  if bool_decide (p_name p = "") || (128 <? Z.of_nat (String.length (p_name p))) then
    fail ErrorCode.PolicyViolation "policy name must be non-empty and at most 128 bytes"
  else if (p_max_targets_per_request p =? 0) || (kHardMaxTargetsPerRequest <? p_max_targets_per_request p) then
    fail ErrorCode.PolicyViolation "max_targets_per_request is outside the supported range"
  else if (p_max_drains_in_set p =? 0) || (kHardMaxDrainsInSet <? p_max_drains_in_set p) then
    fail ErrorCode.PolicyViolation "max_drains_in_set is outside the supported range"
  else if (p_max_concurrent_drains_per_domain p =? 0)
          || (kHardMaxConcurrentDrainsPerDomain <? p_max_concurrent_drains_per_domain p) then
    fail ErrorCode.PolicyViolation "max_concurrent_drains_per_domain is outside the supported range"
  else if (p_max_obligations p =? 0) || (kHardMaxObligations <? p_max_obligations p) then
    fail ErrorCode.PolicyViolation "max_obligations is outside the supported range"
  else if (p_max_evidence_records p =? 0) || (kHardMaxEvidenceRecords <? p_max_evidence_records p) then
    fail ErrorCode.PolicyViolation "max_evidence_records is outside the supported range"
  else if (p_max_decisions_retained p =? 0) || (kHardMaxDecisionsRetained <? p_max_decisions_retained p) then
    fail ErrorCode.PolicyViolation "max_decisions_retained is outside the supported range"
  else if (p_max_blockers_per_drain p =? 0) || (kHardMaxBlockersPerDrain <? p_max_blockers_per_drain p) then
    fail ErrorCode.PolicyViolation "max_blockers_per_drain is outside the supported range"
  else if (p_max_evacuation_attempts p =? 0) || (kHardMaxEvacuationAttempts <? p_max_evacuation_attempts p) then
    fail ErrorCode.PolicyViolation "max_evacuation_attempts is outside the supported range"
  else if kHardMaxExceptionExtensions <? p_max_exception_extensions p then
    fail ErrorCode.PolicyViolation "max_exception_extensions is outside the supported range"
  else if p_admission_fence_settle p <? 0 then
    fail ErrorCode.PolicyViolation "admission_fence_settle must not be negative"
  else if p_evidence_freshness p <=? 0 then
    fail ErrorCode.PolicyViolation "evidence_freshness must be positive"
  else if p_evacuation_retry_interval p <? 0 then
    fail ErrorCode.PolicyViolation "evacuation_retry_interval must not be negative"
  else if p_evidence_clock_skew p <? 0 then
    fail ErrorCode.PolicyViolation "evidence_clock_skew must not be negative"
  else if p_default_grace p <=? 0 then
    fail ErrorCode.PolicyViolation "default_grace must be positive"
  else if existsb (λ g, g <? 0) (p_grace_by_kind p) then
    fail ErrorCode.PolicyViolation "per-kind grace must not be negative"
  else if p_capacity_headroom_denominator p =? 0 then
    fail ErrorCode.PolicyViolation "capacity headroom denominator must be non-zero"
  else if p_capacity_headroom_numerator p =? 0 then
    fail ErrorCode.PolicyViolation "capacity headroom numerator must be non-zero"
  else if p_required_path_diversity p =? 0 then
    fail ErrorCode.PolicyViolation "required_path_diversity must be at least one"
  else if (p_max_snapshot_bytes p =? 0) || (kHardMaxSnapshotBytes <? p_max_snapshot_bytes p) then
    fail ErrorCode.PolicyViolation "max_snapshot_bytes is outside the supported range"
  else if (p_max_frame_bytes p =? 0) || (kHardMaxFrameBytes <? p_max_frame_bytes p) then
    fail ErrorCode.PolicyViolation "max_frame_bytes is outside the supported range"
  else if (p_max_connections p =? 0) || (kHardMaxConnections <? p_max_connections p) then
    fail ErrorCode.PolicyViolation "max_connections is outside the supported range"
  else if (p_max_worker_threads p =? 0) || (kHardMaxWorkerThreads <? p_max_worker_threads p) then
    fail ErrorCode.PolicyViolation "max_worker_threads is outside the supported range"
  else if (p_max_pending_work p =? 0) || (1000000 <? p_max_pending_work p) then
    fail ErrorCode.PolicyViolation "max_pending_work is outside the supported range"
  else ok_status.

(** [DrainPolicy::fingerprint]. *)
Definition policy_fingerprint (p : DrainPolicy) : string :=
  let d := kOffset in
  let d := digest_update_tagged d "name" (p_name p) in
  let d := digest_update_u64 d (p_revision p) in
  let d := digest_update_u64 d (p_max_targets_per_request p) in
  let d := digest_update_u64 d (p_max_drains_in_set p) in
  let d := digest_update_u64 d (p_max_concurrent_drains_per_domain p) in
  let d := digest_update_bool d (p_serialize_same_domain_in_set p) in
  let d := digest_update_u64 d (p_max_obligations p) in
  let d := digest_update_u64 d (p_max_evidence_records p) in
  let d := digest_update_u64 d (p_max_decisions_retained p) in
  let d := digest_update_u64 d (p_max_blockers_per_drain p) in
  let d := digest_update_u64 d (p_max_evacuation_attempts p) in
  let d := digest_update_u64 d (p_max_exception_extensions p) in
  let d := digest_update_u64 d (wrap u64 (p_admission_fence_settle p)) in
  let d := digest_update_u64 d (wrap u64 (p_evidence_freshness p)) in
  let d := digest_update_u64 d (wrap u64 (p_evacuation_retry_interval p)) in
  let d := digest_update_u64 d (wrap u64 (p_evidence_clock_skew p)) in
  let d := digest_update_u64 d (wrap u64 (p_default_grace p)) in
  let d := foldl (λ d g, digest_update_u64 d (wrap u64 g)) d (p_grace_by_kind p) in
  let d := digest_update_u64 d (p_capacity_headroom_numerator p) in
  let d := digest_update_u64 d (p_capacity_headroom_denominator p) in
  let d := digest_update_u64 d (p_required_path_diversity p) in
  let d := digest_update_bool d (p_require_release_evidence p) in
  let d := digest_update_bool d (p_require_quiescence_evidence p) in
  let d := digest_update_bool d (p_evidence_requires_live_incarnation p) in
  let d := digest_update_bool d (p_reobserve_removal_evidence p) in
  let d := digest_update_u64 d (p_max_snapshot_bytes p) in
  let d := digest_update_u64 d (p_max_frame_bytes p) in
  let d := digest_update_u64 d (p_max_connections p) in
  let d := digest_update_u64 d (p_max_worker_threads p) in
  let d := digest_update_u64 d (p_max_pending_work p) in
  hex_u64 d.

(** ** Facts *)

(** The bounds a validated policy respects. *)
Record policy_bounded (p : DrainPolicy) : Prop := {
  pb_targets : p_max_targets_per_request p ≠ 0 ∧ p_max_targets_per_request p ≤ kHardMaxTargetsPerRequest;
  pb_set : p_max_drains_in_set p ≠ 0 ∧ p_max_drains_in_set p ≤ kHardMaxDrainsInSet;
  pb_domain : p_max_concurrent_drains_per_domain p ≠ 0 ∧
    p_max_concurrent_drains_per_domain p ≤ kHardMaxConcurrentDrainsPerDomain;
  pb_obligations : p_max_obligations p ≠ 0 ∧ p_max_obligations p ≤ kHardMaxObligations;
  pb_evidence : p_max_evidence_records p ≠ 0 ∧ p_max_evidence_records p ≤ kHardMaxEvidenceRecords;
  pb_decisions : p_max_decisions_retained p ≠ 0 ∧ p_max_decisions_retained p ≤ kHardMaxDecisionsRetained;
  pb_blockers : p_max_blockers_per_drain p ≠ 0 ∧ p_max_blockers_per_drain p ≤ kHardMaxBlockersPerDrain;
  pb_attempts : p_max_evacuation_attempts p ≠ 0 ∧ p_max_evacuation_attempts p ≤ kHardMaxEvacuationAttempts;
  pb_extensions : p_max_exception_extensions p ≤ kHardMaxExceptionExtensions;
  pb_durations : 0 ≤ p_admission_fence_settle p ∧ 0 < p_evidence_freshness p ∧
    0 ≤ p_evacuation_retry_interval p ∧ 0 ≤ p_evidence_clock_skew p ∧ 0 < p_default_grace p;
  pb_graces : ∀ g, g ∈ p_grace_by_kind p → 0 ≤ g;
  pb_headroom : p_capacity_headroom_numerator p ≠ 0 ∧ p_capacity_headroom_denominator p ≠ 0;
}.

Lemma policy_validate_bounded p : policy_validate p = ok_status → policy_bounded p.
Proof.
  intros H. unfold policy_validate, fail in H.
  repeat match type of H with
  | (if ?c then _ else _) = _ => destruct c eqn:?; [discriminate H|]
  end.
  breflect. split; try (split_and?; assumption).
  intros g Hg. match goal with E : existsb _ _ = false |- _ => rewrite existsb_false_elem in E; specialize (E g Hg) end.
  by breflect.
Qed.

Lemma default_policy_valid : policy_validate default_policy = ok_status.
Proof. reflexivity. Qed.

(** Grace windows of a validated policy are positive unless an obligation
    carries its own. *)
Lemma grace_for_positive p ob :
  policy_validate p = ok_status → 0 ≤ ob_grace ob → 0 < grace_for p ob.
Proof.
  intros Hv%policy_validate_bounded Hg. unfold grace_for, grace_for_kind.
  destruct (Z.eqb_spec (ob_grace ob) 0); [|lia]. destruct (pb_durations _ Hv) as (_ & _ & _ & _ & ?).
  destruct (p_grace_by_kind p !! Z.to_nat (ObligationKind.rank (ob_kind ob))) as [g|] eqn:E; simpl; [|done].
  apply list_elem_of_lookup_2, (pb_graces _ Hv) in E. destruct (Z.eqb_spec g 0); lia.
Qed.

(** The hard caps a valid policy stays under. *)
Lemma policy_validate_caps p :
  policy_validate p = ok_status →
  p_max_obligations p ≤ kHardMaxObligations ∧ p_max_evidence_records p ≤ kHardMaxEvidenceRecords ∧
  p_max_exception_extensions p ≤ kHardMaxExceptionExtensions.
Proof.
  unfold policy_validate. intros H.
  repeat match type of H with
  | (if ?b then _ else _) = _ => let E := fresh "E" in destruct b eqn:E; [discriminate H|]
  end.
  repeat match goal with E : (_ || _) = false |- _ => apply orb_false_iff in E as [? E] end.
  repeat match goal with E : (_ <? _) = false |- _ => apply Z.ltb_ge in E end. by split_and!.
Qed.
