(* ===== verification/Decision.v ===== *)
(** * Decisions, drain sets, exceptions and counters

    The passive records the engine produces: [include/drain/decision.hpp],
    [include/drain/drain_set.hpp], [include/drain/explain.hpp] with
    [src/decision.cpp] and [src/drain_set.cpp]. *)

From S2P Require Import Prelude Containers Checked Result Text Identity Lifecycle.

(** [drain::DecisionOutcome]. *)
Module DecisionOutcome.
Inductive t : Set :=
  | Applied | Blocked | Rejected | NoOp.

#[export] Instance t_eq_dec : EqDecision t.
Proof. solve_decision. Defined.

(** [static_cast<std::uint8_t>]: the enumerator's value. *)
Definition rank (x : t) : Z :=
  match x with
  | Applied => 0 | Blocked => 1 | Rejected => 2 | NoOp => 3
  end.

Definition to_string (x : t) : string :=
  match x with
  | Applied => "applied"
  | Blocked => "blocked"
  | Rejected => "rejected"
  | NoOp => "no-op"
  end.

End DecisionOutcome.
Export (hints) DecisionOutcome.

Definition decision_outcome_from_string (text : string) : option DecisionOutcome.t :=
  if bool_decide (text = "applied") then Some DecisionOutcome.Applied
  else if bool_decide (text = "blocked") then Some DecisionOutcome.Blocked
  else if bool_decide (text = "rejected") then Some DecisionOutcome.Rejected
  else if bool_decide (text = "no-op") then Some DecisionOutcome.NoOp
  else None.

(** [drain::Decision]. *)
Record Decision := MkDecision {
  de_action : string;
  de_outcome : DecisionOutcome.t;
  de_drain : DrainId;
  de_set : DrainSetId;
  de_generation : Generation;
  de_epoch : Epoch;
  de_incarnation : IncarnationId;
  de_authority : AuthorityId;
  de_policy_revision : Revision;
  de_policy_fingerprint : string;
  de_at : TimePoint;
  de_inputs : list string;
  de_evidence : list string;
  de_rejected : list string;
  de_blockers : list Blocker;
}.

#[export] Instance Decision_eq_dec : EqDecision Decision.
Proof. solve_decision. Defined.

#[export] Instance eta_Decision : Eta Decision := λ r,
  MkDecision
    (de_action r) (de_outcome r) (de_drain r) (de_set r) (de_generation r) (de_epoch r)
    (de_incarnation r) (de_authority r) (de_policy_revision r) (de_policy_fingerprint r)
    (de_at r) (de_inputs r) (de_evidence r) (de_rejected r) (de_blockers r).
#[export] Instance upd_de_authority : Update de_authority := ltac:(solve_update de_authority).
#[export] Instance upd_de_inputs : Update de_inputs := ltac:(solve_update de_inputs).
#[export] Instance upd_de_evidence : Update de_evidence := ltac:(solve_update de_evidence).
#[export] Instance upd_de_rejected : Update de_rejected := ltac:(solve_update de_rejected).
#[export] Instance upd_de_blockers : Update de_blockers := ltac:(solve_update de_blockers).
Arguments upd_de_authority f r /.
Arguments upd_de_inputs f r /.
Arguments upd_de_evidence f r /.
Arguments upd_de_rejected f r /.
Arguments upd_de_blockers f r /.

(** [Decision::render]. *)
Definition decision_render (d : Decision) : string :=
  let nl := String (Ascii.ascii_of_nat 10) "" in
  let lines := λ label, foldl (λ out entry, out ++s nl ++s "  " ++s label ++s ": " ++s entry) in
  let out := "action=" ++s de_action d ++s " outcome=" ++s DecisionOutcome.to_string (de_outcome d)
    ++s " drain=" ++s decimal (de_drain d) ++s " generation=" ++s decimal (de_generation d)
    ++s " epoch=" ++s decimal (de_epoch d) ++s " policy=" ++s decimal (de_policy_revision d)
    ++s "/" ++s de_policy_fingerprint d ++s " at=" ++s describe_time (de_at d) in
  let out := lines "input" out (de_inputs d) in
  let out := lines "evidence" out (de_evidence d) in
  let out := lines "rejected" out (de_rejected d) in
  lines "blocker" out (blocker_render <$> de_blockers d).

(** [drain::DrainSet]. *)
Record DrainSet := MkDrainSet {
  ds_id : DrainSetId;
  ds_reason : string;
  ds_requested_at : TimePoint;
  ds_revision : Revision;
  ds_authority : AuthorityId;
  ds_nonce : RequestNonce;
  ds_targets : list DrainTarget;
  ds_members : list DrainId;
}.

#[export] Instance DrainSet_eq_dec : EqDecision DrainSet.
Proof. solve_decision. Defined.

#[export] Instance eta_DrainSet : Eta DrainSet := λ r,
  MkDrainSet
    (ds_id r) (ds_reason r) (ds_requested_at r) (ds_revision r) (ds_authority r) (ds_nonce r)
    (ds_targets r) (ds_members r).
#[export] Instance upd_ds_members : Update ds_members := ltac:(solve_update ds_members).
Arguments upd_ds_members f r /.
(** [drain::ExceptionGrant]. *)
Record ExceptionGrant := MkExceptionGrant {
  eg_drain : DrainId;
  eg_obligation : ObligationId;
  eg_extension : Duration;
  eg_authority : AuthorityId;
  eg_granted_at : TimePoint;
  eg_sequence : Z;
}.

#[export] Instance ExceptionGrant_eq_dec : EqDecision ExceptionGrant.
Proof. solve_decision. Defined.
(** [drain::EngineStats]: 64-bit counters. *)
Record EngineStats := MkEngineStats {
  st_advances : Z;
  st_transitions : Z;
  st_evacuation_requests : Z;
  st_restoration_requests : Z;
  st_reopen_requests : Z;
  st_rejected_reports : Z;
  st_rejected_admissions : Z;
  st_rejected_evidence : Z;
  st_blocked_evaluations : Z;
  st_sink_failures : Z;
  st_completion_proofs : Z;
}.

#[export] Instance EngineStats_eq_dec : EqDecision EngineStats.
Proof. solve_decision. Defined.

#[export] Instance eta_EngineStats : Eta EngineStats := λ r,
  MkEngineStats
    (st_advances r) (st_transitions r) (st_evacuation_requests r) (st_restoration_requests r)
    (st_reopen_requests r) (st_rejected_reports r) (st_rejected_admissions r)
    (st_rejected_evidence r) (st_blocked_evaluations r) (st_sink_failures r)
    (st_completion_proofs r).
#[export] Instance upd_st_advances : Update st_advances := ltac:(solve_update st_advances).
#[export] Instance upd_st_transitions : Update st_transitions := ltac:(solve_update st_transitions).
#[export] Instance upd_st_evacuation_requests : Update st_evacuation_requests := ltac:(solve_update st_evacuation_requests).
#[export] Instance upd_st_restoration_requests : Update st_restoration_requests := ltac:(solve_update st_restoration_requests).
#[export] Instance upd_st_reopen_requests : Update st_reopen_requests := ltac:(solve_update st_reopen_requests).
#[export] Instance upd_st_rejected_reports : Update st_rejected_reports := ltac:(solve_update st_rejected_reports).
#[export] Instance upd_st_rejected_admissions : Update st_rejected_admissions := ltac:(solve_update st_rejected_admissions).
#[export] Instance upd_st_rejected_evidence : Update st_rejected_evidence := ltac:(solve_update st_rejected_evidence).
#[export] Instance upd_st_blocked_evaluations : Update st_blocked_evaluations := ltac:(solve_update st_blocked_evaluations).
#[export] Instance upd_st_sink_failures : Update st_sink_failures := ltac:(solve_update st_sink_failures).
#[export] Instance upd_st_completion_proofs : Update st_completion_proofs := ltac:(solve_update st_completion_proofs).
Arguments upd_st_advances f r /.
Arguments upd_st_transitions f r /.
Arguments upd_st_evacuation_requests f r /.
Arguments upd_st_restoration_requests f r /.
Arguments upd_st_reopen_requests f r /.
Arguments upd_st_rejected_reports f r /.
Arguments upd_st_rejected_admissions f r /.
Arguments upd_st_rejected_evidence f r /.
Arguments upd_st_blocked_evaluations f r /.
Arguments upd_st_sink_failures f r /.
Arguments upd_st_completion_proofs f r /.

Definition zero_stats : EngineStats := MkEngineStats 0 0 0 0 0 0 0 0 0 0 0.

(** [drain::normalize_targets]. *)
Definition normalize_targets (targets : list DrainTarget) (max_targets : Z) : result (list DrainTarget) :=
  if is_nil targets then
    fail ErrorCode.InvalidArgument "a drain request must name at least one target"
  else if max_targets <? zlength targets then
    fail ErrorCode.BoundsExceeded "a drain request exceeds the policy target limit"
  else if existsb (λ t, bool_decide (tg_id t = "")) targets then
    fail ErrorCode.MalformedIdentity "drain target resource id must not be empty"
  else Ok (unique_by (λ a b, bool_decide (a = b)) (sort_by target_order_less targets)).

(** ** Facts *)

Lemma normalize_targets_Ok targets n ts :
  normalize_targets targets n = Ok ts →
  targets ≠ [] ∧ zlength targets ≤ n ∧ (∀ t, t ∈ targets → tg_id t ≠ "") ∧
  ts = @sort_unique _ order_less_ord targets.
Proof.
  unfold normalize_targets. destruct (is_nil targets) eqn:E1; [done|]. apply is_nil_false in E1.
  destruct (Z.ltb_spec n (zlength targets)); [done|].
  destruct (existsb _ targets) eqn:E3; [done|]. rewrite existsb_false_elem in E3. intros [= <-].
  split_and!; [done|done| |].
  - intros t Ht. specialize (E3 t Ht). by apply bool_decide_eq_false in E3.
  - unfold sort_unique. apply unique_by_ext. intros a b. pose proof order_less_strict.
    apply eq_true_iff_eq. by rewrite bool_decide_eq_true, eqvb_true.
Qed.

Lemma sort_unique_length `{StrictOrd A} (l : list A) : zlength (sort_unique l) ≤ zlength l.
Proof.
  unfold zlength. destruct (sort_unique_spec l) as [Hs He].
  apply inj_le, submseteq_length, NoDup_submseteq; [by apply strictly_sorted_NoDup|]. intros x. by rewrite He.
Qed.

(** The canonical order: sorted without duplicates, the same set of targets,
    never empty, and independent of the order in which they were named. *)
Lemma normalize_targets_spec targets n ts :
  normalize_targets targets n = Ok ts →
  @strictly_sorted _ order_less_ord ts ∧ (∀ t, t ∈ ts ↔ t ∈ targets) ∧ ts ≠ [] ∧ zlength ts ≤ n ∧
  (∀ t, t ∈ ts → tg_id t ≠ "").
Proof.
  pose proof order_less_strict as Hord.
  intros (Hne & Hlen & Hid & ->)%normalize_targets_Ok. destruct (@sort_unique_spec _ order_less_ord Hord targets) as [Hs He].
  split_and!; [done|done| | |].
  - destruct targets as [|t l]; [done|]. intros E. pose proof (proj2 (He t)) as Hin. rewrite E in Hin.
    apply (not_elem_of_nil t), Hin. left.
  - etrans; [by apply (@sort_unique_length _ order_less_ord)|done].
  - intros t Ht. apply Hid. by apply He.
Qed.
