(* ===== verification/CodecFabric.v ===== *)
(** * The fabric as JSON

    [to_json] and [from_json] of the parts of the topology, and [to_json] and
    [load_from_json] of the whole ([src/topology.cpp]).  Loading replays the
    additions, so a topology reads back because it satisfies its invariant. *)

From S2P Require Import Prelude Containers Checked Result Text Json Codec CodecTables.
From S2P Require Import Identity Topology TopologyFacts.
#[local] Open Scope Z_scope.

(** ** Parts of the topology *)

Definition resource_to_json (n : ResourceNode) : json :=
  obj [("target", target_to_json (rn_target n)); ("capacity", JUint (rn_capacity n)); ("reserved", JUint (rn_reserved n));
       ("status", JString (ResourceStatus.to_string (rn_status n)))].

Definition resource_from_json (value : json) : result ResourceNode :=
  if negb (is_object value) then corrupt "resource entry is not an object"
  else
    let! target := json_find "target" value else corrupt "resource entry lacks a target" in
    let? parsed_target := rejected "resource target rejected: " (drain_target_from_json target) in
    let! status := resource_status_from_string (get_string "status" "in-service" value)
      else corrupt "resource entry has an unknown status" in
    Ok (MkResourceNode parsed_target (read_u64 "capacity" value) (read_u64 "reserved" value) status).

(** [read_resource_id], [read_domain_id] and [read_group_id]. *)
Definition read_resource_id (key : string) (value : json) : result ResourceId :=
  match json_find key value with
  | Some (JString text) =>
      let! id := slug_parse text else fail ErrorCode.MalformedIdentity "malformed resource id field" in Ok id
  | _ => corrupt "missing resource id field"
  end.
Definition read_domain_id (key : string) (value : json) : result DomainId :=
  optional_slug (get_string key "" value) (Error ErrorCode.MalformedIdentity "malformed failure domain field").
Definition read_group_id (key : string) (value : json) : result GroupId :=
  let text := get_string key "" value in
  if bool_decide (text = "") then corrupt "missing group id field"
  else let! id := slug_parse text else fail ErrorCode.MalformedIdentity "malformed group id field" in Ok id.

(** An entry of an array of resource ids. *)
Definition id_from_json (what : string) (malformed : string) (entry : json) : result ResourceId :=
  match entry with
  | JString text => let! id := slug_parse text else fail ErrorCode.MalformedIdentity malformed in Ok id
  | _ => corrupt (what ++s " is not a string")
  end.

Definition path_to_json (p : FabricPath) : json :=
  obj [("id", JString (fp_id p)); ("domain", JString (fp_domain p)); ("hops", JArray (map JString (fp_hops p)))].

(** The loop over the hops, which also refuses a repeated one. *)
Fixpoint hops_from_json (hops : list ResourceId) (items : list json) : result (list ResourceId) :=
  match items with
  | [] => Ok hops
  | item :: items =>
      let? hop := id_from_json "path hop" "malformed path hop id" item in
      if bool_decide (hop ∈ hops) then corrupt "path repeats a hop" else hops_from_json (hops ++ [hop]) items
  end.

Definition path_from_json (value : json) : result FabricPath :=
  if negb (is_object value) then corrupt "path entry is not an object"
  else
    let? id := match read_resource_id "id" value with Ok id => Ok id | Err _ => corrupt "path entry id rejected" end in
    let? domain := read_domain_id "domain" value in
    let! hops := array_member "hops" value else corrupt "path entry lacks hops" in
    if zlength hops =? 0 then corrupt "path entry lacks hops"
    else if kMaxPathHops <? zlength hops then fail ErrorCode.BoundsExceeded "path hop count exceeds bound"
    else let? hops := hops_from_json [] hops in Ok (MkFabricPath id domain hops).

Definition group_to_json (g : DiversityGroup) : json :=
  obj [("id", JString (dg_id g)); ("domain", JString (dg_domain g));
       ("required_available", JUint (dg_required_available g)); ("paths", JArray (map JString (dg_paths g)))].

Definition group_from_json (value : json) : result DiversityGroup :=
  if negb (is_object value) then corrupt "diversity group entry is not an object"
  else
    let? id := read_group_id "id" value in
    let? domain := read_domain_id "domain" value in
    let required := read_u64 "required_available" value in
    if required =? 0 then corrupt "diversity group requires at least one available member"
    else
      let! members := array_member "paths" value else corrupt "diversity group lacks member paths" in
      if zlength members =? 0 then corrupt "diversity group lacks member paths"
      else if kMaxPaths <? zlength members then
        fail ErrorCode.BoundsExceeded "diversity group member count exceeds bound"
      else
        let? paths := decode_all (id_from_json "diversity group member" "malformed diversity group member id") members in
        Ok (MkDiversityGroup id domain required paths).

Definition pool_to_json (c : CapacityPool) : json :=
  obj [("id", JString (cp_id c)); ("domain", JString (cp_domain c)); ("required", JUint (cp_required c));
       ("members", JArray (map JString (cp_members c)))].

Definition pool_from_json (value : json) : result CapacityPool :=
  if negb (is_object value) then corrupt "capacity pool entry is not an object"
  else
    let? id := read_group_id "id" value in
    let? domain := read_domain_id "domain" value in
    let! members := array_member "members" value else corrupt "capacity pool lacks members" in
    if zlength members =? 0 then corrupt "capacity pool lacks members"
    else if kMaxResources <? zlength members then
      fail ErrorCode.BoundsExceeded "capacity pool member count exceeds bound"
    else
      let? members := decode_all (id_from_json "capacity pool member" "malformed capacity pool member id") members in
      Ok (MkCapacityPool id domain (read_u64 "required" value) members).

Definition route_to_json (r : ProtectedRoute) : json :=
  obj [("id", JString (pr_id r)); ("domain", JString (pr_domain r)); ("origin", JString (pr_origin r));
       ("terminus", JString (pr_terminus r))].

Definition route_from_json (value : json) : result ProtectedRoute :=
  if negb (is_object value) then corrupt "protected route entry is not an object"
  else
    let? id := read_group_id "id" value in
    let? domain := read_domain_id "domain" value in
    let? origin := match read_resource_id "origin" value with
                   | Ok o => Ok o | Err _ => corrupt "protected route origin rejected" end in
    let? terminus := match read_resource_id "terminus" value with
                     | Ok o => Ok o | Err _ => corrupt "protected route terminus rejected" end in
    Ok (MkProtectedRoute id domain origin terminus).

(** ** The topology *)

Definition edge_to_json (e : ResourceId * ResourceId) : json := obj [("from", JString e.1); ("to", JString e.2)].

(** Each undirected edge is emitted once, from its smaller end. *)
Definition edge_list (t : Topology) : list (ResourceId * ResourceId) :=
  flat_map (λ p, map (λ peer, (p.1, peer)) (List.filter (λ peer, negb (ltb peer p.1)) p.2)) (om_list (to_adjacency t)).

Definition topology_to_json (t : Topology) : json :=
  obj [("resources", JArray (map resource_to_json (om_values (to_resources t))));
       ("edges", JArray (map edge_to_json (edge_list t)));
       ("paths", JArray (map path_to_json (om_values (to_paths t))));
       ("diversity_groups", JArray (map group_to_json (om_values (to_diversity_groups t))));
       ("capacity_pools", JArray (map pool_to_json (om_values (to_capacity_pools t))));
       ("protected_routes", JArray (map route_to_json (to_protected_routes t)))].

(** [if (!added.ok()) return fail(PersistenceCorrupt, prefix + added.error().message());] *)
Definition added (prefix : string) (r : status * Topology) : result Topology :=
  match r with (Ok _, t) => Ok t | (Err err, _) => corrupt (prefix ++s err_message err) end.

Definition edge_from_json (entry : json) : result (ResourceId * ResourceId) :=
  match read_resource_id "from" entry, read_resource_id "to" entry with
  | Ok from, Ok to => Ok (from, to)
  | _, _ => corrupt "edge entry rejected"
  end.

(** An optional array whose entries are decoded and added one by one. *)
Definition load_section {A} (key : string) (bound : Z) (too_many prefix : string) (decode : json → result A)
    (add : A → Topology → status * Topology) (value : json) (staged : Topology) : result Topology :=
  match array_member key value with
  | None => Ok staged
  | Some items =>
      if bound <? zlength items then fail ErrorCode.BoundsExceeded too_many
      else load_all (λ item, rejected prefix (decode item)) (λ a t, added prefix (add a t)) items staged
  end.

Definition topology_load_from_json (value : json) : result Topology :=
  if negb (is_object value) then corrupt "topology payload is not an object"
  else
    let! resources := array_member "resources" value else corrupt "topology payload lacks a resources array" in
    if kMaxResources <? zlength resources then
      fail ErrorCode.BoundsExceeded "topology resource count exceeds bound"
    else
      let? staged := load_all (λ item, rejected "resource entry rejected: " (resource_from_json item))
                       (λ n t, added "resource entry rejected: " (add_resource n t)) resources empty_topology in
      let? staged := load_section "paths" kMaxPaths "topology path count exceeds bound" "path entry rejected: "
                       path_from_json add_path value staged in
      let? staged :=
        match array_member "edges" value with
        | None => Ok staged
        | Some edges =>
            if kMaxResources * kMaxResources <? zlength edges then
              fail ErrorCode.BoundsExceeded "topology edge count exceeds bound"
            else load_all edge_from_json (λ e t, added "edge entry rejected: " (add_edge e.1 e.2 t)) edges staged
        end in
      let? staged := load_section "diversity_groups" kMaxGroups "diversity group count exceeds bound"
                       "diversity group rejected: " group_from_json add_diversity_group value staged in
      let? staged := load_section "capacity_pools" kMaxGroups "capacity pool count exceeds bound"
                       "capacity pool rejected: " pool_from_json add_capacity_pool value staged in
      load_section "protected_routes" kMaxProtectedRoutes "protected route count exceeds bound"
        "protected route rejected: " route_from_json add_protected_route value staged.

(** ** What was written is read back *)

Definition resource_storable (n : ResourceNode) : bool := storable (rn_target n).
Definition path_storable (p : FabricPath) : bool :=
  is_valid_slug (fp_id p) && slug_ok (fp_domain p) && forallb is_valid_slug (fp_hops p).
Definition group_storable (g : DiversityGroup) : bool :=
  is_valid_slug (dg_id g) && slug_ok (dg_domain g) && forallb is_valid_slug (dg_paths g)
  && (zlength (dg_paths g) <=? kMaxPaths).
Definition pool_storable (c : CapacityPool) : bool :=
  is_valid_slug (cp_id c) && slug_ok (cp_domain c) && forallb is_valid_slug (cp_members c)
  && (zlength (cp_members c) <=? kMaxResources).
Definition route_storable (r : ProtectedRoute) : bool :=
  is_valid_slug (pr_id r) && slug_ok (pr_domain r) && is_valid_slug (pr_origin r) && is_valid_slug (pr_terminus r).

Lemma resource_status_roundtrip s : resource_status_from_string (ResourceStatus.to_string s) = Some s.
Proof. by destruct s; vm_compute. Qed.

Lemma resource_roundtrip n : resource_storable n = true → resource_from_json (resource_to_json n) = Ok n.
Proof.
  intros Hn. unfold resource_to_json, resource_from_json. json_compute. rewrite target_roundtrip by done.
  cbn [rejected result_bind]. rewrite resource_status_roundtrip. by destruct n.
Qed.

Lemma valid_slug_nonempty s : is_valid_slug s = true → s ≠ "".
Proof. by intros H ->. Qed.

(** Reading a group id that was written. *)
Lemma group_id_ok s :
  is_valid_slug s = true →
  (if bool_decide (s = "") then corrupt "missing group id field"
   else let! id := slug_parse s else fail ErrorCode.MalformedIdentity "malformed group id field" in Ok id) = Ok s.
Proof. intros H. rewrite bool_decide_false by by apply valid_slug_nonempty. by rewrite slug_parse_ok. Qed.

Lemma ids_roundtrip what malformed l :
  forallb is_valid_slug l = true → decode_all (id_from_json what malformed) (map JString l) = Ok l.
Proof.
  intros Hl. rewrite (decode_all_map _ _ (λ x, x)); [by rewrite map_id|]. intros x Hx. simpl.
  rewrite forallb_forall in Hl. by rewrite slug_parse_ok by by apply Hl, list_elem_of_In.
Qed.

Lemma zlength_is_nil {A} (l : list A) : is_nil l = false → (zlength l =? 0) = false.
Proof. destruct l; [done|]. intros _. rewrite zlength_cons. pose proof (zlength_nonneg l). lia. Qed.

Lemma hops_roundtrip l acc :
  forallb is_valid_slug l = true → has_repeat (rev acc) l = false → hops_from_json acc (map JString l) = Ok (acc ++ l).
Proof.
  revert acc. induction l as [|x l IH]; intros acc; simpl; [by rewrite app_nil_r|].
  intros [Hx Hl]%andb_true_iff [Hn Hr]%orb_false_iff. rewrite slug_parse_ok by done. simpl.
  apply bool_decide_eq_false in Hn. rewrite bool_decide_false.
  - rewrite IH; [by rewrite <- app_assoc|done|]. by rewrite rev_app_distr.
  - intros Hin. apply Hn. by rewrite list_elem_of_In, <- in_rev, <- list_elem_of_In.
Qed.

Lemma path_roundtrip p : path_ok p → path_storable p = true → path_from_json (path_to_json p) = Ok p.
Proof.
  intros (_ & Hnil & Hz & Hr) Hs. unfold path_storable in Hs. split_storable.
  unfold path_to_json, path_from_json, read_resource_id, read_domain_id, array_member. json_compute.
  rewrite slug_parse_ok, optional_slug_ok by done. cbn [result_bind].
  rewrite zlength_map, zlength_is_nil, (proj2 (Z.ltb_ge _ _)) by done.
  rewrite hops_roundtrip by done. by destruct p.
Qed.

Lemma group_roundtrip g : group_ok g → group_storable g = true → group_from_json (group_to_json g) = Ok g.
Proof.
  intros (_ & Hnil & Hreq%Z.eqb_neq & _) Hs. unfold group_storable in Hs. split_storable.
  unfold group_to_json, group_from_json, read_group_id, read_domain_id, array_member. json_compute.
  rewrite group_id_ok, optional_slug_ok by done. cbn [result_bind].
  rewrite Hreq, zlength_map, zlength_is_nil, (proj2 (Z.ltb_ge _ _)) by (done || lia).
  rewrite ids_roundtrip by done. by destruct g.
Qed.

Lemma pool_roundtrip c : pool_ok c → pool_storable c = true → pool_from_json (pool_to_json c) = Ok c.
Proof.
  intros (_ & Hnil) Hs. unfold pool_storable in Hs. split_storable.
  unfold pool_to_json, pool_from_json, read_group_id, read_domain_id, array_member. json_compute.
  rewrite group_id_ok, optional_slug_ok by done. cbn [result_bind].
  rewrite zlength_map, zlength_is_nil, (proj2 (Z.ltb_ge _ _)) by (done || lia).
  rewrite ids_roundtrip by done. by destruct c.
Qed.

Lemma route_roundtrip r : route_storable r = true → route_from_json (route_to_json r) = Ok r.
Proof.
  intros Hs. unfold route_storable in Hs. split_storable.
  unfold route_to_json, route_from_json, read_group_id, read_domain_id, read_resource_id. json_compute.
  rewrite group_id_ok, optional_slug_ok by done. cbn [result_bind]. rewrite !slug_parse_ok by done. by destruct r.
Qed.

(** *** Edges *)

Lemma edge_list_elem t a b :
  topology_wf t → (a, b) ∈ edge_list t ↔ b ∈ neighbors a t ∧ ltb a b = true.
Proof.
  intros Hwf. unfold edge_list, neighbors. rewrite list_elem_of_In, in_flat_map. split.
  - intros ([a' l] & Hin%list_elem_of_In & Hp). apply in_map_iff in Hp as (peer & [= -> ->] & [Hp Hl]%filter_In).
    apply om_elem_lookup in Hin; [|apply Hwf]. rewrite Hin. simpl in *. apply list_elem_of_In in Hp as Hb. split; [done|].
    destruct (ltb_cases a b) as [[L| ->]|L]; [done| |].
    + destruct (tw_irreflexive _ Hwf b). unfold neighbors. by rewrite Hin.
    + by rewrite L in Hl.
  - intros [Hb L]. destruct (to_adjacency t !! a) as [l|] eqn:Ha; simpl in Hb; [|by apply not_elem_of_nil in Hb].
    exists (a, l). split; [by apply list_elem_of_In, om_lookup_elem|]. apply in_map_iff. exists b. split; [done|].
    apply filter_In. simpl. rewrite (ltb_antisym _ _ L). split; [by apply list_elem_of_In|done].
Qed.

Lemma edge_list_nodup t : topology_wf t → NoDup (edge_list t).
Proof.
  intros Hwf. unfold edge_list. pose proof (tw_adjacency _ Hwf) as Hs. unfold om_wf in Hs.
  assert (∀ a l, (a, l) ∈ om_list (to_adjacency t) → NoDup l) as Hnd.
  { intros a l Hin. apply om_elem_lookup in Hin; [|apply Hwf]. pose proof (tw_sorted _ Hwf a) as Ha.
    unfold neighbors in Ha. rewrite Hin in Ha. by apply strictly_sorted_NoDup. }
  induction (om_list (to_adjacency t)) as [|[a l] rest IH]; simpl; [constructor|].
  apply StronglySorted_inv in Hs as [Hs Hall]. apply NoDup_app. split_and!.
  - apply NoDup_ListNoDup, Finite.Injective_map_NoDup; [by intros x y [= ->]|].
    apply List.NoDup_filter, NoDup_ListNoDup, (Hnd a). left.
  - intros [x y] Hx%list_elem_of_In Hy%list_elem_of_In. apply in_map_iff in Hx as (peer & [= -> ->] & _).
    apply in_flat_map in Hy as ([a' l'] & Hin%list_elem_of_In & Hm). apply in_map_iff in Hm as (? & [= -> _] & _).
    rewrite Forall_forall in Hall. specialize (Hall _ Hin). simpl in Hall. by rewrite ltb_irrefl in Hall.
  - apply IH; [done|]. intros b k Hin. apply (Hnd b). by right.
Qed.

(** There are no more edges than pairs of resources. *)
Lemma edge_list_bound t : topology_wf t → zlength (edge_list t) ≤ kMaxResources * kMaxResources.
Proof.
  intros Hwf. pose (keys := om_keys (to_resources t)).
  assert (length (edge_list t) ≤ length (list_prod keys keys))%nat as Hle.
  { apply NoDup_incl_length; [by apply NoDup_ListNoDup, edge_list_nodup|]. intros [a b] Hin%list_elem_of_In.
    apply edge_list_elem in Hin as [Hb _]; [|done]. apply in_prod; apply list_elem_of_In, om_keys_elem.
    - by apply (tw_known _ Hwf b), (tw_symmetric _ Hwf).
    - by apply (tw_known _ Hwf a). }
  rewrite length_prod in Hle. pose proof (proj1 (tw_room _ Hwf)) as Hroom.
  assert (Z.of_nat (length keys) ≤ kMaxResources) as Hk.
  { unfold keys, om_keys. rewrite length_fmap. exact Hroom. }
  unfold zlength. nia.
Qed.

(** A table of lists that was written and read entry by entry: without the empty
    lists that removals can leave. *)
Section Trim.
Context {K V : Type} `{StrictOrd K}.
Implicit Types adj : omap K (list V).

Definition trim (adj : omap K (list V)) : omap K (list V) :=
  OMap (List.filter (λ p, negb (is_nil p.2)) (om_list adj)).

Lemma trim_wf adj : om_wf adj → om_wf (trim adj).
Proof.
  unfold om_wf, trim. simpl. induction 1 as [|p l Hs IH Hall]; simpl; [constructor|]. destruct (negb _); [|done].
  constructor; [done|]. rewrite Forall_forall in *. intros q [Hq _]%list_elem_of_In%filter_In.
  by apply Hall, list_elem_of_In.
Qed.

Lemma trim_lookup adj a :
  om_wf adj → trim adj !! a = match adj !! a with Some [] | None => None | l => l end.
Proof.
  intros Hwf. destruct (adj !! a) as [l|] eqn:Ha.
  - apply om_lookup_elem in Ha as Hin. destruct l as [|x l].
    + destruct (trim adj !! a) as [l'|] eqn:Ht; [|done]. apply om_lookup_elem in Ht. unfold trim in Ht. simpl in Ht.
      apply list_elem_of_In, filter_In in Ht as [Hi Hn]. apply list_elem_of_In, om_elem_lookup in Hi; [|done].
      rewrite Ha in Hi. by injection Hi as <-.
    + apply om_elem_lookup; [by apply trim_wf|]. unfold trim. simpl.
      apply list_elem_of_In, filter_In. by split; [apply list_elem_of_In|].
  - destruct (trim adj !! a) as [l'|] eqn:Ht; [|done]. apply om_lookup_elem in Ht. unfold trim in Ht. simpl in Ht.
    apply list_elem_of_In, filter_In in Ht as [Hi Hn]. apply list_elem_of_In, om_elem_lookup in Hi; [|done]. congruence.
Qed.
End Trim.

(** A load as a walk through states related to the entries read so far. *)
Lemma load_inv {A B S} (I : list B → S → Prop) (decode : json → result A) (add : A → S → result S)
    (enc : B → json) (l : list B) (s0 : S) :
  I [] s0 →
  (∀ l1 p l2 s, l = l1 ++ p :: l2 → I l1 s → ∃ a s', decode (enc p) = Ok a ∧ add a s = Ok s' ∧ I (l1 ++ [p]) s') →
  ∃ s, load_all decode add (map enc l) s0 = Ok s ∧ I l s.
Proof.
  intros H0 Hstep. assert (∀ l2 l1 s, l = l1 ++ l2 → I l1 s → ∃ s', load_all decode add (map enc l2) s = Ok s' ∧ I l s') as H;
    [|by apply (H l [])].
  induction l2 as [|p l2 IH]; intros l1 s Hl Hi; simpl; [exists s; by rewrite Hl, app_nil_r|].
  destruct (Hstep l1 p l2 s Hl Hi) as (a & s' & Hd & Ha & Hi'). rewrite Hd. simpl. rewrite Ha. simpl.
  apply (IH (l1 ++ [p])); [by rewrite <- app_assoc|done].
Qed.

(** What holds of the staged topology once the edges [l] were added. *)
Record edges_loaded (base : Topology) (l : list (ResourceId * ResourceId)) (s : Topology) : Prop := {
  lo_wf : topology_wf s;
  lo_same : s = base <| to_adjacency := to_adjacency s |>;
  lo_edges : ∀ a x, x ∈ neighbors a s ↔ (a, x) ∈ l ∨ (x, a) ∈ l;
  lo_nonempty : ∀ a, to_adjacency s !! a ≠ Some [];
}.

Lemma add_edge_loaded base l s a b :
  edges_loaded base l s → a ≠ b → is_Some (to_resource a base) → is_Some (to_resource b base) →
  ∃ s', add_edge a b s = (ok_status, s') ∧ edges_loaded base (l ++ [(a, b)]) s'.
Proof.
  intros [Hwf Hsame Hed Hne] Hab [na Ha] [nb Hb]. 
  assert (to_resource a s = Some na ∧ to_resource b s = Some nb) as [Ha' Hb'].
  { rewrite Hsame. done. }
  destruct (add_edge a b s) as [st s'] eqn:He. pose proof (add_edge_wf _ _ _ _ _ Hwf He) as Hwf'.
  assert (st = ok_status ∧ s' = s <| to_adjacency := to_adjacency s' |> ∧ (∀ c, to_adjacency s' !! c ≠ Some []))
    as (-> & Hs' & Hne').
  { unfold add_edge in He. rewrite bool_decide_false, Ha', Hb' in He by done. injection He as <- <-.
    split_and!; [done|done|]. intros c Hc. cbn [to_adjacency update upd_to_adjacency] in Hc.
    assert (∀ l x, insert_peer l x ≠ []) as Hins.
    { intros l0 x. unfold insert_peer. destruct (l0 !! lower_bound l0 x) as [y|] eqn:Hy; [case_bool_decide|].
      - intros ->. done.
      - by destruct (take _ _).
      - by destruct (take _ _). }
    om_cases Hc; [by eapply Hins|]. om_cases Hc; [by eapply Hins|]. by eapply Hne. }
  exists s'. split; [done|]. split; [done| | |done].
  - rewrite Hs' at 1. rewrite Hsame at 1. done.
  - intros c x. rewrite (proj2 (neighbors_add_edge a b s s' c Hwf He)), Hed, !elem_of_app, !list_elem_of_singleton.
    naive_solver.
Qed.

(** *** The whole topology *)

(** One entry of a bounded table, when the entries before it were loaded. *)
Lemma filed_step {V} (key : V → string) (ok : V → Prop) bound (m : omap string V) l1 p l2 :
  filed key ok bound m → om_list m = l1 ++ p :: l2 →
  ok p.2 ∧ (bound <=? om_size (loaded (λ v, v) l1)) = false ∧
  emplace (key p.2) p.2 (loaded (λ v, v) l1) = (loaded (λ v, v) (l1 ++ [p]), true).
Proof.
  intros (Hw & Hz & Hf) Hl. destruct (Hf p.1 p.2) as [Hk Hok].
  { apply om_elem_lookup; [done|]. rewrite Hl. destruct p. set_solver. }
  split_and!; [done| |].
  - apply Z.leb_gt. revert Hz. unfold om_size, loaded, zlength. rewrite Hl. cbn [om_list].
    rewrite length_fmap, length_app. simpl. lia.
  - rewrite Hk. unfold om_wf in Hw. rewrite Hl in Hw. exact (emplace_next (λ v, v) l1 p l2 Hw).
Qed.

Definition topology_storable (t : Topology) : bool :=
  forallb resource_storable (om_values (to_resources t)) && forallb path_storable (om_values (to_paths t))
  && forallb group_storable (om_values (to_diversity_groups t))
  && forallb pool_storable (om_values (to_capacity_pools t)) && forallb route_storable (to_protected_routes t).

Section TopologyRoundtrip.
Context (t : Topology) (Hwf : topology_wf t) (Hst : topology_storable t = true).

(** The stages of the load. *)
Definition with_resources (m : omap ResourceId ResourceNode) : Topology := MkTopology m ∅ ∅ ∅ [] ∅.
Definition with_paths (m : omap ResourceId FabricPath) : Topology := MkTopology (to_resources t) m ∅ ∅ [] ∅.
Definition with_groups (m : omap GroupId DiversityGroup) : Topology :=
  MkTopology (to_resources t) (to_paths t) m ∅ [] (trim (to_adjacency t)).
Definition with_pools (m : omap GroupId CapacityPool) : Topology :=
  MkTopology (to_resources t) (to_paths t) (to_diversity_groups t) m [] (trim (to_adjacency t)).
Definition with_routes (l : list ProtectedRoute) : Topology :=
  MkTopology (to_resources t) (to_paths t) (to_diversity_groups t) (to_capacity_pools t) l (trim (to_adjacency t)).

Lemma load_resources_back :
  load_all (λ item, rejected "resource entry rejected: " (resource_from_json item))
    (λ n t, added "resource entry rejected: " (add_resource n t))
    (map resource_to_json (om_values (to_resources t))) empty_topology = Ok (with_resources (to_resources t)).
Proof.
  unfold topology_storable in Hst. apply andb_true_iff in Hst as [[[[Hall _]%andb_true_iff _]%andb_true_iff _]%andb_true_iff _].
  rewrite map_values. pose (mk := λ l, with_resources (loaded (λ n, n) l)).
  change empty_topology with (mk []). rewrite (load_prefix mk); [unfold mk; by rewrite loaded_om, om_map_id|].
  intros l1 p l2 Hl. exists p.2. pose proof (in_split_elem _ _ _ _ Hl) as Hp.
  rewrite resource_roundtrip by by apply (forallb_values _ (to_resources t)). split; [done|].
  assert (filed rn_id (λ n, rn_id n ≠ "") kMaxResources (to_resources t)) as Hf.
  { split_and!; [apply Hwf|apply Hwf|]. intros id n Hn. pose proof (tw_keyed _ Hwf id n Hn) as Hk. split; [done|].
    rewrite Hk. apply (proj2 (tw_room _ Hwf)). unfold to_resource. eauto. }
  destruct (filed_step _ _ _ _ _ _ _ Hf Hl) as (Hne & Hz & He). unfold add_resource, mk. cbn [to_resources with_resources].
  rewrite bool_decide_false, Hz, He by done. done.
Qed.

Lemma load_paths_back :
  load_all (λ item, rejected "path entry rejected: " (path_from_json item))
    (λ p t, added "path entry rejected: " (add_path p t))
    (map path_to_json (om_values (to_paths t))) (with_resources (to_resources t)) = Ok (with_paths (to_paths t)).
Proof.
  unfold topology_storable in Hst. apply andb_true_iff in Hst as [[[[_ Hall]%andb_true_iff _]%andb_true_iff _]%andb_true_iff _].
  rewrite map_values. pose (mk := λ l, with_paths (loaded (λ n, n) l)).
  change (with_resources _) with (mk []). rewrite (load_prefix mk); [unfold mk; by rewrite loaded_om, om_map_id|].
  intros l1 p l2 Hl. exists p.2. pose proof (in_split_elem _ _ _ _ Hl) as Hp.
  destruct (filed_step _ _ _ _ _ _ _ (tw_path _ Hwf) Hl) as (Hok & Hz & He).
  rewrite path_roundtrip by (done || by apply (forallb_values _ (to_paths t))). split; [done|].
  destruct Hok as (Hne & Hnil & Hh%Z.ltb_ge & Hr). unfold add_path, mk. cbn [to_paths with_paths].
  rewrite bool_decide_false, Hnil, Hh, Hz, Hr, He by done. done.
Qed.

Lemma load_edges_back :
  load_all edge_from_json (λ e t, added "edge entry rejected: " (add_edge e.1 e.2 t))
    (map edge_to_json (edge_list t)) (with_paths (to_paths t)) = Ok (with_groups ∅).
Proof.
  assert (∀ a, is_Some (to_resource a t) → is_valid_slug a = true) as Hslug.
  { intros a [n Hn]. pose proof (tw_keyed _ Hwf a n Hn) as <-. unfold topology_storable in Hst.
    apply andb_true_iff in Hst as [[[[Hall _]%andb_true_iff _]%andb_true_iff _]%andb_true_iff _].
    apply om_lookup_elem in Hn. apply (forallb_values _ _ _ Hall) in Hn. by apply andb_true_iff in Hn as [? _]. }
  destruct (load_inv (edges_loaded (with_paths (to_paths t))) edge_from_json
    (λ e t, added "edge entry rejected: " (add_edge e.1 e.2 t)) edge_to_json (edge_list t) (with_paths (to_paths t)))
    as (s & Hs & [Hw Hsame Hed Hne]).
  - split; [|done| |done].
    + pose proof Hwf. destruct Hwf. split; try done; try apply om_wf_empty; cbn [to_paths with_paths].
      * by intros a; constructor.
      * by intros a b ?%not_elem_of_nil.
      * by intros a ?%not_elem_of_nil.
      * by intros a b ?%not_elem_of_nil.
      * split_and!; [apply om_wf_empty|by vm_compute|done].
      * split_and!; [apply om_wf_empty|by vm_compute|done].
      * split_and!; [by vm_compute|constructor|constructor].
    + intros a x. split; [by intros ?%not_elem_of_nil|]. by intros [?%not_elem_of_nil|?%not_elem_of_nil].
  - intros l1 [a b] l2 s Hl Hi. pose proof (in_split_elem _ _ _ _ Hl) as [Hb L]%edge_list_elem; [|done].
    assert (is_Some (to_resource b t)) as Hkb by by apply (tw_known _ Hwf a).
    assert (is_Some (to_resource a t)) as Hka by by apply (tw_known _ Hwf b), (tw_symmetric _ Hwf).
    destruct (add_edge_loaded _ l1 s a b Hi) as (s' & Ha & Hi'); [by apply ltb_ne|done|done|].
    exists (a, b), s'. split_and!; [|simpl; by rewrite Ha|done].
    unfold edge_from_json, edge_to_json, read_resource_id. json_compute. by rewrite !slug_parse_ok by by apply Hslug.
  - rewrite Hs, Hsame. f_equal. unfold with_groups. simpl. f_equal.
    apply om_ext; [apply Hw|apply trim_wf, Hwf|]. intros a. rewrite trim_lookup by apply Hwf.
    assert (neighbors a s = neighbors a t) as Hn.
    { apply strictly_sorted_unique; [apply Hw|apply Hwf|]. intros x.
      rewrite Hed, !(edge_list_elem t) by done. split.
      - intros [[? _]|[? _]]; [done|by apply (tw_symmetric _ Hwf)].
      - intros Hx. destruct (ltb_cases a x) as [[L| ->]|L]; [by left| |right; by split; [apply (tw_symmetric _ Hwf)|]].
        by apply (tw_irreflexive _ Hwf) in Hx. }
    unfold neighbors in Hn. specialize (Hne a).
    destruct (to_adjacency s !! a) as [[|y l]|], (to_adjacency t !! a) as [[|z k]|]; simpl in Hn; congruence.
Qed.

Lemma load_groups_back :
  load_all (λ item, rejected "diversity group rejected: " (group_from_json item))
    (λ g t, added "diversity group rejected: " (add_diversity_group g t))
    (map group_to_json (om_values (to_diversity_groups t))) (with_groups ∅) = Ok (with_groups (to_diversity_groups t)).
Proof.
  unfold topology_storable in Hst. apply andb_true_iff in Hst as [[[_ Hall]%andb_true_iff _]%andb_true_iff _].
  rewrite map_values. pose (mk := λ l, with_groups (loaded (λ n, n) l)).
  change (with_groups ∅) with (mk []). rewrite (load_prefix mk); [unfold mk; by rewrite loaded_om, om_map_id|].
  intros l1 p l2 Hl. exists p.2. pose proof (in_split_elem _ _ _ _ Hl) as Hp.
  destruct (filed_step _ _ _ _ _ _ _ (tw_group _ Hwf) Hl) as (Hok & Hz & He).
  rewrite group_roundtrip by (done || by apply (forallb_values _ (to_diversity_groups t))). split; [done|].
  destruct Hok as (Hne & Hnil & Hr%Z.eqb_neq & Hle%Z.ltb_ge). unfold add_diversity_group, mk.
  cbn [to_diversity_groups with_groups]. rewrite bool_decide_false, Hnil, Hr, Hle, Hz, He by done. done.
Qed.

Lemma load_pools_back :
  load_all (λ item, rejected "capacity pool rejected: " (pool_from_json item))
    (λ c t, added "capacity pool rejected: " (add_capacity_pool c t))
    (map pool_to_json (om_values (to_capacity_pools t))) (with_pools ∅) = Ok (with_pools (to_capacity_pools t)).
Proof.
  unfold topology_storable in Hst. apply andb_true_iff in Hst as [[_ Hall]%andb_true_iff _].
  rewrite map_values. pose (mk := λ l, with_pools (loaded (λ n, n) l)).
  change (with_pools ∅) with (mk []). rewrite (load_prefix mk); [unfold mk; by rewrite loaded_om, om_map_id|].
  intros l1 p l2 Hl. exists p.2. pose proof (in_split_elem _ _ _ _ Hl) as Hp.
  destruct (filed_step _ _ _ _ _ _ _ (tw_pool _ Hwf) Hl) as (Hok & Hz & He).
  rewrite pool_roundtrip by (done || by apply (forallb_values _ (to_capacity_pools t))). split; [done|].
  destruct Hok as (Hne & Hnil). unfold add_capacity_pool, mk.
  cbn [to_capacity_pools with_pools]. rewrite bool_decide_false, Hnil, Hz, He by done. done.
Qed.

Lemma load_routes_back :
  load_all (λ item, rejected "protected route rejected: " (route_from_json item))
    (λ r t, added "protected route rejected: " (add_protected_route r t))
    (map route_to_json (to_protected_routes t)) (with_routes []) = Ok (with_routes (to_protected_routes t)).
Proof.
  unfold topology_storable in Hst. apply andb_true_iff in Hst as [_ Hall]. rewrite forallb_forall in Hall.
  destruct (tw_route _ Hwf) as (Hz & Hnd & Hok).
  destruct (load_inv (λ l s, s = with_routes l) (λ item, rejected "protected route rejected: " (route_from_json item))
    (λ r t, added "protected route rejected: " (add_protected_route r t)) route_to_json (to_protected_routes t)
    (with_routes [])) as (s & Hs & ->); [done| |done].
  intros l1 r l2 s Hl ->. exists r, (with_routes (l1 ++ [r])). pose proof (in_split_elem _ _ _ _ Hl) as Hr.
  rewrite route_roundtrip by by apply Hall, list_elem_of_In. split_and!; [done| |done].
  rewrite Forall_forall in Hok. destruct (Hok r Hr) as [H1 H2]. rewrite Hl in Hz, Hnd.
  rewrite zlength_app, zlength_cons in Hz. pose proof (zlength_nonneg l2).
  rewrite map_app in Hnd. apply NoDup_app in Hnd as (_ & Hnd & _).
  unfold add_protected_route. cbn [to_protected_routes with_routes].
  rewrite !bool_decide_false, (proj2 (Z.leb_gt _ _)) by (done || lia).
  assert (existsb (λ existing, bool_decide (pr_id existing = pr_id r)) l1 = false) as ->; [|done].
  apply existsb_false_elem. intros x Hx. apply bool_decide_eq_false. intros E. apply (Hnd (pr_id x)).
  - by apply list_elem_of_In, in_map, list_elem_of_In.
  - rewrite E. simpl. left.
Qed.

Lemma section_back {A V} key bound too_many prefix (dec : json → result A) add value (l : list V) (enc : V → json) s s' :
  array_member key value = Some (map enc l) → zlength l ≤ bound →
  load_all (λ item, rejected prefix (dec item)) (λ a t, added prefix (add a t)) (map enc l) s = Ok s' →
  load_section key bound too_many prefix dec add value s = Ok s'.
Proof. intros Ha Hz Hl. unfold load_section. by rewrite Ha, zlength_map, (proj2 (Z.ltb_ge _ _)). Qed.

Lemma values_zlength {V} (m : omap string V) : zlength (om_values m) = om_size m.
Proof. unfold om_values, om_size, zlength. by rewrite length_fmap. Qed.

Lemma topology_roundtrip :
  topology_load_from_json (topology_to_json t) = Ok (t <| to_adjacency := trim (to_adjacency t) |>).
Proof.
  unfold topology_load_from_json.
  assert (array_member "resources" (topology_to_json t) = Some (map resource_to_json (om_values (to_resources t)))) as E1
    by (unfold topology_to_json, array_member; by json_compute).
  assert (array_member "edges" (topology_to_json t) = Some (map edge_to_json (edge_list t))) as E2
    by (unfold topology_to_json, array_member; by json_compute).
  rewrite E1, E2, !zlength_map, values_zlength. rewrite (proj2 (Z.ltb_ge _ _) (proj1 (tw_room _ Hwf))).
  change (negb (is_object (topology_to_json t))) with false. cbv iota.
  rewrite load_resources_back. cbn [result_bind].
  erewrite (section_back "paths"); [..|apply load_paths_back]; [|by unfold topology_to_json, array_member; json_compute
    |rewrite values_zlength; apply (tw_path _ Hwf)]. cbn [result_bind].
  rewrite (proj2 (Z.ltb_ge _ _) (edge_list_bound t Hwf)), load_edges_back. cbn [result_bind].
  erewrite (section_back "diversity_groups"); [..|apply load_groups_back]; [|by unfold topology_to_json, array_member; json_compute
    |rewrite values_zlength; apply (tw_group _ Hwf)]. cbn [result_bind].
  erewrite (section_back "capacity_pools"); [..|apply load_pools_back]; [|by unfold topology_to_json, array_member; json_compute
    |rewrite values_zlength; apply (tw_pool _ Hwf)]. cbn [result_bind].
  erewrite (section_back "protected_routes"); [..|apply load_routes_back]; [|by unfold topology_to_json, array_member; json_compute
    |apply (tw_route _ Hwf)]. done.
Qed.
End TopologyRoundtrip.
