(* ===== verification/CodecPolicy.v ===== *)
(** * The policy and the log as JSON

    [to_json] and [from_json] of the policy ([src/policy.cpp]), decisions
    ([src/decision.cpp]), drain sets ([src/drain_set.cpp]) and exception grants
    ([src/explain.cpp]). *)

From S2P Require Import Prelude Containers Checked Result Text Json Codec CodecTables.
From S2P Require Import Identity Lifecycle Obligation Policy Decision.
#[local] Open Scope Z_scope.

(** ** Policies *)

Definition obligation_kinds : list ObligationKind.t :=
  [ ObligationKind.ActiveFlow; ObligationKind.Reservation; ObligationKind.WorkloadNetworkContract;
    ObligationKind.PathDiversityCommitment; ObligationKind.CapacityGuarantee; ObligationKind.Supplied ].

Definition grace_of (p : DrainPolicy) (kind : ObligationKind.t) : Duration :=
  default 0 (p_grace_by_kind p !! Z.to_nat (ObligationKind.rank kind)).

Definition policy_to_json (p : DrainPolicy) : json :=
  obj [("name", JString (p_name p)); ("revision", JUint (p_revision p));
       ("max_targets_per_request", JUint (p_max_targets_per_request p));
       ("max_drains_in_set", JUint (p_max_drains_in_set p));
       ("max_concurrent_drains_per_domain", JUint (p_max_concurrent_drains_per_domain p));
       ("serialize_same_domain_in_set", JBool (p_serialize_same_domain_in_set p));
       ("max_obligations", JUint (p_max_obligations p)); ("max_evidence_records", JUint (p_max_evidence_records p));
       ("max_decisions_retained", JUint (p_max_decisions_retained p));
       ("max_blockers_per_drain", JUint (p_max_blockers_per_drain p));
       ("max_evacuation_attempts", JUint (p_max_evacuation_attempts p));
       ("max_exception_extensions", JUint (p_max_exception_extensions p));
       ("admission_fence_settle_ns", ns (p_admission_fence_settle p));
       ("evidence_freshness_ns", ns (p_evidence_freshness p));
       ("evacuation_retry_interval_ns", ns (p_evacuation_retry_interval p));
       ("evidence_clock_skew_ns", ns (p_evidence_clock_skew p)); ("default_grace_ns", ns (p_default_grace p));
       ("grace_by_kind_ns", obj (map (λ k, (ObligationKind.to_string k, ns (grace_of p k))) obligation_kinds));
       ("capacity_headroom_numerator", JUint (p_capacity_headroom_numerator p));
       ("capacity_headroom_denominator", JUint (p_capacity_headroom_denominator p));
       ("required_path_diversity", JUint (p_required_path_diversity p));
       ("require_release_evidence", JBool (p_require_release_evidence p));
       ("require_quiescence_evidence", JBool (p_require_quiescence_evidence p));
       ("evidence_requires_live_incarnation", JBool (p_evidence_requires_live_incarnation p));
       ("reobserve_removal_evidence", JBool (p_reobserve_removal_evidence p));
       ("max_snapshot_bytes", JUint (p_max_snapshot_bytes p)); ("max_frame_bytes", JUint (p_max_frame_bytes p));
       ("max_connections", JUint (p_max_connections p)); ("max_worker_threads", JUint (p_max_worker_threads p));
       ("max_pending_work", JUint (p_max_pending_work p)); ("fingerprint", JString (policy_fingerprint p))].

(** The [sized] lambda of [DrainPolicy::from_json]. *)
Definition sized (key : string) (fallback : Z) (value : json) : result Z :=
  match narrow_checked size_t u64 (read_u64_or key fallback value) with
  | Some n => Ok n
  | None => fail ErrorCode.PolicyViolation ("policy field " ++s key ++s " does not fit the platform size type")
  end.

(** The loop over the per-kind graces. *)
Fixpoint read_graces (kinds : list ObligationKind.t) (graces : json) (p : DrainPolicy) : result DrainPolicy :=
  match kinds with
  | [] => Ok p
  | kind :: kinds =>
      match json_find (ObligationKind.to_string kind) graces with
      | Some entry =>
          if negb (is_number entry) then read_graces kinds graces p
          else
            let raw := as_int (-1) entry in
            if raw <? 0 then fail ErrorCode.PolicyViolation "per-kind grace must not be negative"
            else read_graces kinds graces (set_grace_for_kind kind raw p)
      | None => read_graces kinds graces p
      end
  end.

(** [DrainPolicy::from_json]: each field is assigned once, so its fallback is the
    default; [d] with the graces read is the policy the other fields go into. *)
Definition policy_from_json (value : json) : result DrainPolicy :=
  if negb (is_object value) then fail ErrorCode.PolicyViolation "policy document must be a json object"
  else
    let d := default_policy in
    let revision := read_u64_or "revision" 1 value in
    if revision =? 0 then fail ErrorCode.PolicyViolation "policy revision must be non-zero"
    else
      let? targets := sized "max_targets_per_request" (p_max_targets_per_request d) value in
      let? set_size := sized "max_drains_in_set" (p_max_drains_in_set d) value in
      let? per_domain := sized "max_concurrent_drains_per_domain" (p_max_concurrent_drains_per_domain d) value in
      let? obligations := sized "max_obligations" (p_max_obligations d) value in
      let? evidence := sized "max_evidence_records" (p_max_evidence_records d) value in
      let? decisions := sized "max_decisions_retained" (p_max_decisions_retained d) value in
      let? blockers := sized "max_blockers_per_drain" (p_max_blockers_per_drain d) value in
      let! attempts := narrow_checked u32 u64 (read_u64_or "max_evacuation_attempts" (p_max_evacuation_attempts d) value)
        else fail ErrorCode.PolicyViolation "max_evacuation_attempts does not fit a 32-bit counter" in
      let! extensions := narrow_checked u32 u64 (read_u64_or "max_exception_extensions" (p_max_exception_extensions d) value)
        else fail ErrorCode.PolicyViolation "max_exception_extensions does not fit a 32-bit counter" in
      let? graced := match json_find "grace_by_kind_ns" value with
                     | Some (JObject members) => read_graces obligation_kinds (JObject members) d
                     | _ => Ok d
                     end in
      let? connections := sized "max_connections" (p_max_connections d) value in
      let? workers := sized "max_worker_threads" (p_max_worker_threads d) value in
      let? pending := sized "max_pending_work" (p_max_pending_work d) value in
      let policy :=
        MkDrainPolicy (get_string "name" "default" value) revision targets set_size per_domain
          (read_bool "serialize_same_domain_in_set" (p_serialize_same_domain_in_set d) value)
          obligations evidence decisions blockers attempts extensions
          (read_i64_or "admission_fence_settle_ns" (p_admission_fence_settle d) value)
          (read_i64_or "evidence_freshness_ns" (p_evidence_freshness d) value)
          (read_i64_or "evacuation_retry_interval_ns" (p_evacuation_retry_interval d) value)
          (read_i64_or "evidence_clock_skew_ns" (p_evidence_clock_skew d) value)
          (read_i64_or "default_grace_ns" (p_default_grace d) value)
          (p_grace_by_kind graced)
          (read_u64_or "capacity_headroom_numerator" (p_capacity_headroom_numerator d) value)
          (read_u64_or "capacity_headroom_denominator" (p_capacity_headroom_denominator d) value)
          (read_u64_or "required_path_diversity" (p_required_path_diversity d) value)
          (read_bool "require_release_evidence" (p_require_release_evidence d) value)
          (read_bool "require_quiescence_evidence" (p_require_quiescence_evidence d) value)
          (read_bool "evidence_requires_live_incarnation" (p_evidence_requires_live_incarnation d) value)
          (read_bool "reobserve_removal_evidence" (p_reobserve_removal_evidence d) value)
          (read_u64_or "max_snapshot_bytes" (p_max_snapshot_bytes d) value)
          (read_u64_or "max_frame_bytes" (p_max_frame_bytes d) value) connections workers pending in
      let? _ := policy_validate policy in
      Ok policy.

(** ** Decisions *)

Definition decision_to_json (d : Decision) : json :=
  obj [("action", JString (de_action d)); ("outcome", JString (DecisionOutcome.to_string (de_outcome d)));
       ("drain", JUint (de_drain d)); ("set", JUint (de_set d)); ("generation", JUint (de_generation d));
       ("epoch", JUint (de_epoch d)); ("incarnation", JUint (de_incarnation d)); ("authority", JUint (de_authority d));
       ("policy_revision", JUint (de_policy_revision d)); ("policy_fingerprint", JString (de_policy_fingerprint d));
       ("at_ns", ns (de_at d)); ("inputs", JArray (map JString (de_inputs d)));
       ("evidence", JArray (map JString (de_evidence d))); ("rejected", JArray (map JString (de_rejected d)));
       ("blockers", JArray (map blocker_to_json (de_blockers d)))].

Definition string_from_json (entry : json) : result string :=
  match entry with JString s => Ok s | _ => corrupt "decision string array entry is not a string" end.

Definition read_string_array (key : string) (value : json) : result (list string) :=
  match json_find key value with
  | None => Ok []
  | Some (JArray items) =>
      if 4096 <? zlength items then fail ErrorCode.BoundsExceeded "decision string array exceeds bound"
      else decode_all string_from_json items
  | Some _ => corrupt "expected a string array in the decision record"
  end.

Definition decision_from_json (value : json) : result Decision :=
  if negb (is_object value) then corrupt "decision record is not an object"
  else
    let action := get_string "action" "" value in
    if bool_decide (action = "") then corrupt "decision record lacks an action"
    else
      let! outcome := decision_outcome_from_string (get_string "outcome" "" value)
        else corrupt "decision record has an unknown outcome" in
      let? inputs := read_string_array "inputs" value in
      let? evidence := read_string_array "evidence" value in
      let? rejected := read_string_array "rejected" value in
      let? blockers :=
        match json_find "blockers" value with
        | Some (JArray items) =>
            if 4096 <? zlength items then fail ErrorCode.BoundsExceeded "decision blocker array exceeds bound"
            else decode_all blocker_from_json items
        | _ => Ok []
        end in
      Ok (MkDecision action outcome (read_u64 "drain" value) (read_u64 "set" value) (read_u64 "generation" value)
            (read_u64 "epoch" value) (read_u64 "incarnation" value) (read_u64 "authority" value)
            (read_u64 "policy_revision" value) (get_string "policy_fingerprint" "" value) (read_i64 "at_ns" value)
            inputs evidence rejected (sort_by blocker_ltb blockers)).

(** ** Drain sets *)

(** [kMaxTargetsPerRequest] of [identity.hpp]. *)
Definition kMaxTargetsPerRequest : Z := 256.

Definition drain_set_to_json (s : DrainSet) : json :=
  obj [("id", JUint (ds_id s)); ("reason", JString (ds_reason s)); ("requested_at_ns", ns (ds_requested_at s));
       ("revision", JUint (ds_revision s)); ("authority", JUint (ds_authority s)); ("nonce", JUint (ds_nonce s));
       ("targets", JArray (map target_to_json (ds_targets s))); ("members", JArray (map JUint (ds_members s)))].

Definition drain_set_from_json (value : json) : result DrainSet :=
  if negb (is_object value) then corrupt "drain set is not an object"
  else
    let id := read_u64 "id" value in
    if id =? 0 then corrupt "drain set has a reserved zero id"
    else
      let! targets := array_member "targets" value else corrupt "drain set lacks targets" in
      if zlength targets =? 0 then corrupt "drain set lacks targets"
      else if kMaxTargetsPerRequest <? zlength targets then
        fail ErrorCode.BoundsExceeded "drain set target count exceeds bound"
      else
        let? targets := decode_all drain_target_from_json targets in
        let? members :=
          match array_member "members" value with
          | Some members =>
              if kMaxTargetsPerRequest <? zlength members then
                fail ErrorCode.BoundsExceeded "drain set member count exceeds bound"
              else Ok (map (as_uint 0) members)
          | None => Ok []
          end in
        Ok (MkDrainSet id (get_string "reason" "" value) (read_i64 "requested_at_ns" value)
              (read_u64_or "revision" 1 value) (read_u64 "authority" value) (read_u64 "nonce" value) targets members).

(** ** Exception grants *)

Definition grant_to_json (g : ExceptionGrant) : json :=
  obj [("drain", JUint (eg_drain g)); ("obligation", JUint (eg_obligation g)); ("extension_ns", ns (eg_extension g));
       ("authority", JUint (eg_authority g)); ("granted_at_ns", ns (eg_granted_at g)); ("sequence", JUint (eg_sequence g))].

Definition grant_from_json (value : json) : result ExceptionGrant :=
  if negb (is_object value) then corrupt "exception grant is not an object"
  else
    let! sequence := narrow_checked u32 u64 (get_uint "sequence" 0 value)
      else fail ErrorCode.BoundsExceeded "exception grant sequence does not fit a 32-bit counter" in
    let extension := get_int "extension_ns" 0 value in
    if extension <=? 0 then corrupt "exception grant extension must be positive"
    else Ok (MkExceptionGrant (get_uint "drain" 0 value) (get_uint "obligation" 0 value) extension
               (get_uint "authority" 0 value) (get_int "granted_at_ns" 0 value) sequence).

(** ** What was written is read back *)

Definition u64_ok (z : Z) : bool := (0 <=? z) && (z <=? int_max u64).

Lemma narrow_size z : u64_ok z = true → narrow_checked size_t u64 z = Some z.
Proof.
  intros [H1%Z.leb_le H2%Z.leb_le]%andb_true_iff. unfold narrow_checked. cbn [it_signed u64 size_t andb negb].
  change (common_type u64 size_t) with u64. rewrite !wrap_id by (apply it_wf_u64 || by split || (split; by vm_compute)).
  change (int_max size_t) with (int_max u64). rewrite (proj2 (Z.ltb_ge _ _)) by done. done.
Qed.

Lemma narrow_u32 z : u32_ok z = true → narrow_checked u32 u64 z = Some z.
Proof.
  intros H. pose proof (wrap_u32 z H) as Hw. apply andb_true_iff in H as [H1%Z.leb_le H2%Z.leb_le].
  unfold narrow_checked. cbn [it_signed u64 u32 andb negb]. change (common_type u64 u32) with u64.
  assert (wrap u64 z = z) as ->.
  { apply wrap_id; [apply it_wf_u64|]. split; [done|]. etrans; [exact H2|by vm_compute]. }
  change (wrap u64 (int_max u32)) with (int_max u32).
  rewrite (proj2 (Z.ltb_ge _ _)) by done. by rewrite Hw.
Qed.

Definition policy_storable (p : DrainPolicy) : bool :=
  negb (p_revision p =? 0)
  && forallb u64_ok [p_max_targets_per_request p; p_max_drains_in_set p; p_max_concurrent_drains_per_domain p;
                     p_max_obligations p; p_max_evidence_records p; p_max_decisions_retained p;
                     p_max_blockers_per_drain p; p_max_connections p; p_max_worker_threads p; p_max_pending_work p]
  && u32_ok (p_max_evacuation_attempts p) && u32_ok (p_max_exception_extensions p)
  && forallb time_ok [p_admission_fence_settle p; p_evidence_freshness p; p_evacuation_retry_interval p;
                      p_evidence_clock_skew p; p_default_grace p]
  && (zlength (p_grace_by_kind p) =? 6) && forallb time_ok (p_grace_by_kind p)
  && is_ok (policy_validate p).

#[export] Instance policy_codec : Codec DrainPolicy :=
  {| encode := policy_to_json; decode := policy_from_json; storable := policy_storable; recovered p := p |}.

Lemma time_ok_nonneg t : time_ok t = true → (t <? 0) = false.
Proof. unfold time_ok. lia. Qed.

Lemma graces_roundtrip a b c d e f :
  forallb time_ok [a; b; c; d; e; f] = true →
  read_graces obligation_kinds
    (JObject [("active-flow", JUint (wrap u64 a)); ("reservation", JUint (wrap u64 b));
              ("workload-network-contract", JUint (wrap u64 c)); ("path-diversity-commitment", JUint (wrap u64 d));
              ("capacity-guarantee", JUint (wrap u64 e)); ("supplied", JUint (wrap u64 f))]) default_policy
  = Ok (default_policy <| p_grace_by_kind := [a; b; c; d; e; f] |>).
Proof.
  intros Hall. cbn [forallb] in Hall. split_storable.
  cbn [read_graces obligation_kinds ObligationKind.to_string]. json_compute. read_times.
  rewrite !time_ok_nonneg by assumption. reflexivity.
Qed.

Lemma policy_roundtrip p : policy_storable p = true → policy_from_json (policy_to_json p) = Ok p.
Proof.
  unfold policy_storable. intros Hp. split_storable.
  assert (∃ a b c d e f, p_grace_by_kind p = [a; b; c; d; e; f]) as (a & b & c & d & e & f & Hg).
  { destruct (p_grace_by_kind p) as [|a [|b [|c [|d [|e [|f [|g l]]]]]]]; rewrite ?zlength_cons, ?zlength_nil in *; try lia.
    - eauto 10.
    - pose proof (zlength_nonneg l). lia. }
  assert (policy_validate p = ok_status) as Hv by (by apply is_ok_status).
  match goal with H : forallb time_ok (p_grace_by_kind p) = true |- _ => rewrite Hg in H; rename H into Hgs end.
  assert (map (λ k, (ObligationKind.to_string k, ns (grace_of p k))) obligation_kinds =
    combine (map ObligationKind.to_string obligation_kinds) (map ns [a; b; c; d; e; f])) as Hgr
    by (unfold grace_of; by rewrite Hg).
  unfold policy_to_json, policy_from_json, sized. rewrite Hgr.
  cbn [combine map obligation_kinds ObligationKind.rank ObligationKind.to_string]. json_compute. read_times.
  match goal with H : (p_revision p =? 0) = false |- _ => rewrite H end.
  rewrite !narrow_size by assumption. cbn [result_bind]. rewrite !narrow_u32 by assumption.
  rewrite graces_roundtrip by assumption.
  cbn [result_bind]. cbn [p_grace_by_kind update upd_p_grace_by_kind]. rewrite <- Hg.
  replace (MkDrainPolicy _ _ _ _ _ _ _ _ _ _ _ _ _ _ _ _ _ _ _ _ _ _ _ _ _ _ _ _ _ _) with p by by destruct p.
  by rewrite Hv.
Qed.
#[export] Instance policy_laws : CodecLaws DrainPolicy := policy_roundtrip.

(** A decision whose blockers are in order. *)
Definition decision_storable (d : Decision) : bool :=
  negb (bool_decide (de_action d = "")) && time_ok (de_at d)
  && forallb (λ l : list string, zlength l <=? 4096) [de_inputs d; de_evidence d; de_rejected d]
  && (zlength (de_blockers d) <=? 4096) && forallb storable (de_blockers d)
  && bool_decide (sort_by blocker_ltb (de_blockers d) = de_blockers d).

#[export] Instance decision_codec : Codec Decision :=
  {| encode := decision_to_json; decode := decision_from_json; storable := decision_storable; recovered d := d |}.

Lemma decision_outcome_roundtrip o : decision_outcome_from_string (DecisionOutcome.to_string o) = Some o.
Proof. by destruct o; vm_compute. Qed.

Lemma strings_roundtrip l : decode_all string_from_json (map JString l) = Ok l.
Proof. rewrite (decode_all_map _ _ (λ x, x)); [by rewrite map_id|done]. Qed.

Lemma decision_roundtrip d : decision_storable d = true → decision_from_json (decision_to_json d) = Ok d.
Proof.
  unfold decision_storable. intros Hd. cbn [forallb] in Hd. split_storable.
  repeat match goal with H : (zlength _ <=? 4096) = true |- _ => apply Z.leb_le, Z.ltb_ge in H end.
  match goal with H : bool_decide (de_action d = "") = false |- _ => rename H into Ha end.
  match goal with H : bool_decide (sort_by _ _ = _) = true |- _ => apply bool_decide_eq_true in H as Hsort end.
  unfold decision_to_json, decision_from_json, read_string_array. json_compute. read_times.
  rewrite Ha, decision_outcome_roundtrip, !zlength_map, !strings_roundtrip.
  repeat match goal with H : (4096 <? _) = false |- _ => rewrite H; clear H end. cbn [result_bind].
  rewrite blockers_roundtrip by assumption. cbn [result_bind]. rewrite Hsort. by destruct d.
Qed.
#[export] Instance decision_laws : CodecLaws Decision := decision_roundtrip.

Definition drain_set_storable (s : DrainSet) : bool :=
  negb (ds_id s =? 0) && time_ok (ds_requested_at s) && forallb storable (ds_targets s)
  && negb (zlength (ds_targets s) =? 0) && (zlength (ds_targets s) <=? kMaxTargetsPerRequest)
  && (zlength (ds_members s) <=? kMaxTargetsPerRequest).

#[export] Instance drain_set_codec : Codec DrainSet :=
  {| encode := drain_set_to_json; decode := drain_set_from_json; storable := drain_set_storable; recovered s := s |}.

Lemma drain_set_roundtrip s : drain_set_storable s = true → drain_set_from_json (drain_set_to_json s) = Ok s.
Proof.
  unfold drain_set_storable. intros Hs. split_storable.
  repeat match goal with H : (zlength _ <=? kMaxTargetsPerRequest) = true |- _ => apply Z.leb_le, Z.ltb_ge in H end.
  unfold drain_set_to_json, drain_set_from_json, array_member. json_compute. read_times. rewrite !zlength_map.
  repeat match goal with H : (_ =? 0) = false |- _ => rewrite H; clear H end.
  repeat match goal with H : (_ <? _) = false |- _ => rewrite H; clear H end.
  rewrite targets_roundtrip by assumption. cbn [result_bind]. rewrite map_map.
  change (map (λ x : Z, as_uint 0 (JUint x)) (ds_members s)) with (map (λ x : Z, x) (ds_members s)).
  rewrite map_id. by destruct s.
Qed.
#[export] Instance drain_set_laws : CodecLaws DrainSet := drain_set_roundtrip.

Definition grant_storable (g : ExceptionGrant) : bool :=
  (0 <? eg_extension g) && time_ok (eg_extension g) && time_ok (eg_granted_at g) && u32_ok (eg_sequence g).

#[export] Instance grant_codec : Codec ExceptionGrant :=
  {| encode := grant_to_json; decode := grant_from_json; storable := grant_storable; recovered g := g |}.

Lemma grant_roundtrip g : grant_storable g = true → grant_from_json (grant_to_json g) = Ok g.
Proof.
  unfold grant_storable. intros Hg. split_storable.
  match goal with H : (0 <? _) = true |- _ => apply Z.ltb_lt, Z.leb_gt in H as Hpos end.
  unfold grant_to_json, grant_from_json. json_compute. read_times. rewrite narrow_u32, Hpos by assumption. by destruct g.
Qed.
#[export] Instance grant_laws : CodecLaws ExceptionGrant := grant_roundtrip.
