(* ===== verification/Crc.v ===== *)
(** * CRC-32C

    [src/crc32c.cpp]: the table, built bit by bit, and the byte-wise loop that uses
    it.  The loop computes the bit-serial checksum; and because every step is
    reversible, a message with one byte changed never keeps its checksum. *)

From S2P Require Import Prelude Checked Text.
#[local] Open Scope Z_scope.

Definition kPolynomial : Z := 0x82f63b78.

(** One bit: [(crc & 1u) != 0u ? (crc >> 1) ^ kPolynomial : (crc >> 1)]. *)
Definition crc_bit (crc : Z) : Z :=
  if negb (Z.land crc 1 =? 0) then Z.lxor (Z.shiftr crc 1) kPolynomial else Z.shiftr crc 1.

(** [Table::Table]. *)
Definition table_entry (i : Z) : Z := Nat.iter 8 crc_bit i.
Definition kTable : list Z := table_entry <$> seqZ 0 256.

(** [~x] on [std::uint32_t]. *)
Definition not_u32 (x : Z) : Z := Z.lxor x (int_max u32).

Definition crc_byte (crc byte : Z) : Z :=
  Z.lxor (nth (Z.to_nat (Z.land (Z.lxor crc byte) 255)) kTable 0) (Z.shiftr crc 8).

(** [crc32c]; bytes are numbers below 256. *)
Definition crc32c (data : list Z) (seed : Z) : Z := not_u32 (foldl crc_byte (not_u32 seed) data).

(** The published check value. *)
Example crc32c_check : crc32c [49; 50; 51; 52; 53; 54; 55; 56; 57] 0 = 0xe3069283.
Proof. vm_compute. reflexivity. Qed.

(** ** Bit arithmetic *)

Definition u32_word (x : Z) : Prop := 0 ≤ x < 2 ^ 32.
Definition byte_ok (b : Z) : Prop := 0 ≤ b < 256.

Lemma lxor_word n x y : 0 ≤ n → 0 ≤ x < 2 ^ n → 0 ≤ y < 2 ^ n → 0 ≤ Z.lxor x y < 2 ^ n.
Proof.
  intros Hn Hx Hy. split; [apply Z.lxor_nonneg; lia|].
  destruct (decide (Z.lxor x y = 0)) as [->|Hne]; [lia|]. apply Z.log2_lt_pow2; [|].
  - pose proof (proj2 (Z.lxor_nonneg x y)) as H. specialize (H ltac:(lia)). lia.
  - eapply Z.le_lt_trans; [apply Z.log2_lxor; lia|].
    assert (∀ z, 0 ≤ z < 2 ^ n → z ≠ 0 → Z.log2 z < n) as Hl by (intros z Hz Hz0; apply Z.log2_lt_pow2; lia).
    destruct (decide (x = 0)) as [->|], (decide (y = 0)) as [->|]; rewrite ?Z.lxor_0_l in Hne; simpl Z.log2.
    + done.
    + apply Z.max_lub_lt; [|by apply Hl]. pose proof (Z.log2_nonneg y). specialize (Hl y Hy ltac:(done)). lia.
    + apply Z.max_lub_lt; [by apply Hl|]. pose proof (Z.log2_nonneg x). specialize (Hl x Hx ltac:(done)). lia.
    + apply Z.max_lub_lt; by apply Hl.
Qed.

Lemma crc_bit_xor x : crc_bit x = Z.lxor (Z.shiftr x 1) (if Z.odd x then kPolynomial else 0).
Proof.
  unfold crc_bit. assert (Z.land x 1 = if Z.odd x then 1 else 0) as ->.
  { change 1 with (Z.ones 1) at 1. rewrite Z.land_ones by lia. apply Zmod_odd. }
  destruct (Z.odd x); simpl; [done|by rewrite Z.lxor_0_r].
Qed.

(** A step of the register is linear. *)
Lemma crc_bit_lxor x y : crc_bit (Z.lxor x y) = Z.lxor (crc_bit x) (crc_bit y).
Proof.
  rewrite !crc_bit_xor, Z.shiftr_lxor.
  assert (Z.odd (Z.lxor x y) = xorb (Z.odd x) (Z.odd y)) as ->.
  { rewrite <-!Z.bit0_odd. apply Z.lxor_spec. }
  destruct (Z.odd x), (Z.odd y); simpl xorb; cbv iota; rewrite ?Z.lxor_0_r; try done.
  - rewrite (Z.lxor_assoc (Z.shiftr x 1)), (Z.lxor_comm kPolynomial), !Z.lxor_assoc, Z.lxor_nilpotent, Z.lxor_0_r. done.
  - rewrite !Z.lxor_assoc. f_equal. apply Z.lxor_comm.
  - by rewrite !Z.lxor_assoc.
Qed.

Lemma crc_bits_lxor n x y : Nat.iter n crc_bit (Z.lxor x y) = Z.lxor (Nat.iter n crc_bit x) (Nat.iter n crc_bit y).
Proof. induction n as [|n IH]; simpl; [done|]. by rewrite IH, crc_bit_lxor. Qed.

Lemma crc_bit_even y : crc_bit (2 * y) = y.
Proof.
  rewrite crc_bit_xor, Z.odd_mul. simpl. rewrite Z.lxor_0_r, Z.shiftr_div_pow2, Z.mul_comm by lia.
  change (2 ^ 1) with 2. apply Z.div_mul. lia.
Qed.

Lemma crc_bits_shifted n y : Nat.iter n crc_bit (Z.shiftl y (Z.of_nat n)) = y.
Proof.
  rewrite Z.shiftl_mul_pow2 by lia. induction n as [|n IH]; [simpl; lia|]. rewrite Nat.iter_succ_r.
  rewrite Nat2Z.inj_succ, Z.pow_succ_r by lia.
  replace (y * (2 * 2 ^ Z.of_nat n)) with (2 * (y * 2 ^ Z.of_nat n)) by lia. by rewrite crc_bit_even.
Qed.

Lemma split_byte x : x = Z.lxor (Z.land x 255) (Z.shiftl (Z.shiftr x 8) 8).
Proof.
  apply Z.bits_inj'. intros i Hi. rewrite Z.lxor_spec, Z.land_spec. change 255 with (Z.ones 8).
  rewrite Z.shiftl_spec by done. destruct (decide (i < 8)).
  - rewrite Z.ones_spec_low, (Z.testbit_neg_r _ (i - 8)) by lia. by rewrite andb_true_r, xorb_false_r.
  - rewrite Z.ones_spec_high by lia. rewrite Z.shiftr_spec by lia. rewrite andb_false_r. simpl. f_equal. lia.
Qed.

(** Eight bits at once: the table holds what the low byte turns into. *)
Lemma crc_bits_byte x : Nat.iter 8 crc_bit x = Z.lxor (table_entry (Z.land x 255)) (Z.shiftr x 8).
Proof. rewrite (split_byte x) at 1. rewrite crc_bits_lxor. f_equal. apply (crc_bits_shifted 8). Qed.

Lemma table_lookup i : byte_ok i → nth (Z.to_nat i) kTable 0 = table_entry i.
Proof.
  intros Hi. unfold kTable. apply nth_lookup_Some. rewrite list_lookup_fmap, lookup_seqZ_lt by (unfold byte_ok in *; lia).
  simpl. f_equal. f_equal. unfold byte_ok in *. lia.
Qed.

Lemma land_byte x : byte_ok (Z.land x 255).
Proof. change 255 with (Z.ones 8). rewrite Z.land_ones by lia. apply Z.mod_pos_bound. lia. Qed.

Lemma shiftr_byte b : byte_ok b → Z.shiftr b 8 = 0.
Proof. intros Hb. rewrite Z.shiftr_div_pow2 by lia. apply Z.div_small. exact Hb. Qed.

(** The table-driven step is eight steps of the bit-serial register. *)
Lemma crc_byte_serial crc b : byte_ok b → crc_byte crc b = Nat.iter 8 crc_bit (Z.lxor crc b).
Proof.
  intros Hb. rewrite crc_bits_byte. unfold crc_byte. rewrite table_lookup by apply land_byte.
  by rewrite Z.shiftr_lxor, (shiftr_byte b), Z.lxor_0_r.
Qed.

(** ** Every step is reversible *)

Lemma crc_bit_word x : u32_word x → u32_word (crc_bit x).
Proof.
  intros Hx. unfold u32_word in *. rewrite crc_bit_xor. apply lxor_word; [lia| |by destruct (Z.odd x)].
  rewrite Z.shiftr_div_pow2 by lia. split; [apply Z.div_pos; lia|]. apply Z.div_lt_upper_bound; lia.
Qed.

Lemma crc_bit_zero z : u32_word z → crc_bit z = 0 → z = 0.
Proof.
  intros Hz. rewrite crc_bit_xor. intros E%Z.lxor_eq.
  rewrite Z.shiftr_div_pow2 in E by lia. change (2 ^ 1) with 2 in E. unfold u32_word in Hz.
  pose proof (Z.div_mod z 2 ltac:(lia)) as Hd. rewrite Zmod_odd in Hd. destruct (Z.odd z).
  - unfold kPolynomial in E. change (2 ^ 32) with 4294967296 in Hz. lia.
  - lia.
Qed.

Lemma crc_bits_word n x : u32_word x → u32_word (Nat.iter n crc_bit x).
Proof. intros Hx. induction n; simpl; [done|by apply crc_bit_word]. Qed.

Lemma crc_bits_inj n x y : u32_word x → u32_word y → Nat.iter n crc_bit x = Nat.iter n crc_bit y → x = y.
Proof.
  intros Hx Hy. induction n as [|n IH]; simpl; [done|]. intros E. apply IH. apply Z.lxor_eq.
  apply crc_bit_zero; [apply lxor_word; [lia|by apply crc_bits_word..]|]. by rewrite crc_bit_lxor, E, Z.lxor_nilpotent.
Qed.

Lemma byte_word b : byte_ok b → u32_word b.
Proof. unfold byte_ok, u32_word. lia. Qed.

Lemma crc_byte_word crc b : u32_word crc → byte_ok b → u32_word (crc_byte crc b).
Proof.
  intros Hc Hb. rewrite crc_byte_serial by done. apply crc_bits_word, lxor_word; [lia|done|by apply byte_word].
Qed.

Lemma crc_byte_inj crc1 crc2 b1 b2 :
  u32_word crc1 → u32_word crc2 → byte_ok b1 → byte_ok b2 → crc_byte crc1 b1 = crc_byte crc2 b2 →
  Z.lxor crc1 b1 = Z.lxor crc2 b2.
Proof.
  intros H1 H2 B1 B2. rewrite !crc_byte_serial by done. apply crc_bits_inj; apply lxor_word; try lia; done || by apply byte_word.
Qed.

Lemma lxor_cancel_l a b c : Z.lxor a b = Z.lxor a c → b = c.
Proof.
  intros E. apply (f_equal (Z.lxor a)) in E. by rewrite <-!Z.lxor_assoc, Z.lxor_nilpotent, !Z.lxor_0_l in E.
Qed.

Lemma crc_fold_word l crc : u32_word crc → Forall byte_ok l → u32_word (foldl crc_byte crc l).
Proof. intros Hc Hl. revert crc Hc. induction Hl; intros crc Hc; simpl; [done|]. auto using crc_byte_word. Qed.

Lemma crc_fold_inj l crc1 crc2 :
  u32_word crc1 → u32_word crc2 → Forall byte_ok l → foldl crc_byte crc1 l = foldl crc_byte crc2 l → crc1 = crc2.
Proof.
  intros H1 H2 Hl. revert crc1 crc2 H1 H2. induction Hl as [|b l Hb _ IH]; intros crc1 crc2 H1 H2; simpl; [done|].
  intros E. apply IH in E; [|by apply crc_byte_word..]. apply crc_byte_inj in E; [|done..].
  rewrite !(Z.lxor_comm _ b) in E. by eapply lxor_cancel_l.
Qed.

Lemma not_u32_word x : u32_word x → u32_word (not_u32 x).
Proof. intros Hx. apply lxor_word; [lia|done|]. by vm_compute. Qed.

(** One changed byte always changes the checksum. *)
Lemma crc32c_detects l1 b b' l2 seed :
  u32_word seed → Forall byte_ok (l1 ++ b :: l2) → byte_ok b' → b ≠ b' →
  crc32c (l1 ++ b :: l2) seed ≠ crc32c (l1 ++ b' :: l2) seed.
Proof.
  intros Hs Hl Hb' Hne. apply Forall_app in Hl as [Hl1 [Hb Hl2]%Forall_cons]. unfold crc32c, not_u32 at 1 3.
  rewrite !foldl_app. simpl. intros E. rewrite !(Z.lxor_comm _ (int_max u32)) in E. apply lxor_cancel_l in E.
  pose proof (crc_fold_word l1 _ (not_u32_word _ Hs) Hl1) as Hw.
  apply crc_fold_inj in E; [|by apply crc_byte_word..|done]. apply crc_byte_inj in E; [|done..].
  by apply lxor_cancel_l in E.
Qed.

Lemma crc32c_word l seed : u32_word seed → Forall byte_ok l → u32_word (crc32c l seed).
Proof. intros Hs Hl. by apply not_u32_word, crc_fold_word; [apply not_u32_word|]. Qed.
