(* ===== verification/Bytes.v ===== *)
(** * Byte images

    The little-endian writers and readers [src/wire.cpp] and [src/persistence.cpp]
    both define ([put_u16], [put_u32], [put_u64], [get_u16], [get_u32], [get_u64]),
    and text as bytes.  A byte is a number below 256. *)

From S2P Require Import Prelude Containers Checked Text Json Crc.
#[local] Open Scope Z_scope.

(** [out.push_back((value >> shift) & 0xff)] for the first [n] shifts. *)
Fixpoint put_le (n : nat) (value : Z) : list Z :=
  match n with
  | O => []
  | S n => Z.land value 255 :: put_le n (Z.shiftr value 8)
  end.
Definition put_u16 (value : Z) : list Z := put_le 2 value.
Definition put_u32 (value : Z) : list Z := put_le 4 value.
Definition put_u64 (value : Z) : list Z := put_le 8 value.

(** [value = (value << 8) | data[index]] from the last index down. *)
Fixpoint get_le (data : list Z) : Z :=
  match data with
  | [] => 0
  | b :: data => Z.lor (Z.shiftl (get_le data) 8) b
  end.

(** The [n] bytes at an offset. *)
Definition slice (from n : Z) (data : list Z) : list Z := take (Z.to_nat n) (drop (Z.to_nat from) data).
Definition get_u16 (from : Z) (data : list Z) : Z := get_le (slice from 2 data).
Definition get_u32 (from : Z) (data : list Z) : Z := get_le (slice from 4 data).
Definition get_u64 (from : Z) (data : list Z) : Z := get_le (slice from 8 data).

Fixpoint bytes_of (text : string) : list Z :=
  match text with
  | EmptyString => []
  | String c text => char_code c :: bytes_of text
  end.
Fixpoint text_of (data : list Z) : string :=
  match data with
  | [] => EmptyString
  | b :: data => String (Ascii.ascii_of_N (Z.to_N b)) (text_of data)
  end.

(** ** Facts *)

Lemma put_le_length n v : length (put_le n v) = n.
Proof. revert v. induction n; intros v; simpl; [done|]. by f_equal. Qed.

Lemma put_le_bytes n v : Forall byte_ok (put_le n v).
Proof. revert v. induction n; intros v; simpl; constructor; [apply land_byte|done]. Qed.

Lemma lor_byte x b : byte_ok b → Z.lor (Z.shiftl x 8) b = 256 * x + b.
Proof.
  intros Hb. assert (Z.land (Z.shiftl x 8) b = 0) as H0.
  { apply Z.bits_inj'. intros i Hi. rewrite Z.land_spec, Z.shiftl_spec, Z.bits_0 by done.
    destruct (decide (i < 8)); [by rewrite Z.testbit_neg_r by lia|].
    rewrite (Z.bits_above_log2 b), andb_false_r; [done|apply Hb|].
    unfold byte_ok in Hb. destruct (decide (b = 0)) as [->|]; [simpl; lia|]. apply Z.log2_lt_pow2; [lia|].
    change 256 with (2 ^ 8) in Hb. pose proof (Z.pow_le_mono_r 2 8 i ltac:(lia) ltac:(lia)). lia. }
  rewrite <- Z.lxor_lor, <- Z.add_nocarry_lxor by done. rewrite Z.shiftl_mul_pow2 by lia. lia.
Qed.

Lemma get_put_le n v : 0 ≤ v < 256 ^ Z.of_nat n → get_le (put_le n v) = v.
Proof.
  revert v. induction n as [|n IH]; intros v Hv; [simpl in *; lia|]. cbn [put_le get_le].
  rewrite Nat2Z.inj_succ, Z.pow_succ_r in Hv by lia.
  rewrite lor_byte by apply land_byte. rewrite IH.
  - rewrite Z.shiftr_div_pow2 by lia. change 255 with (Z.ones 8). rewrite Z.land_ones by lia.
    change (2 ^ 8) with 256. pose proof (Z.div_mod v 256). lia.
  - rewrite Z.shiftr_div_pow2 by lia. change (2 ^ 8) with 256. split; [apply Z.div_pos; lia|].
    apply Z.div_lt_upper_bound; lia.
Qed.

(** A reader determines its bytes. *)
Lemma get_le_inj l1 l2 :
  length l1 = length l2 → Forall byte_ok l1 → Forall byte_ok l2 → get_le l1 = get_le l2 → l1 = l2.
Proof.
  revert l2. induction l1 as [|b1 l1 IH]; intros [|b2 l2] Hlen H1 H2; try done.
  apply Forall_cons in H1 as [B1 H1]. apply Forall_cons in H2 as [B2 H2]. cbn [get_le].
  rewrite !lor_byte by done. intros E. unfold byte_ok in *. assert (get_le l1 = get_le l2) as E' by lia.
  f_equal; [lia|]. apply IH; try done. by injection Hlen.
Qed.

Lemma char_code_byte c : byte_ok (char_code c).
Proof. unfold byte_ok, char_code. pose proof (Ascii.N_ascii_bounded c). lia. Qed.

Lemma bytes_of_ok s : Forall byte_ok (bytes_of s).
Proof. induction s; simpl; constructor; [apply char_code_byte|done]. Qed.

Lemma text_bytes s : text_of (bytes_of s) = s.
Proof. induction s as [|c s IH]; simpl; [done|]. f_equal; [|done]. unfold char_code. by rewrite N2Z.id, Ascii.ascii_N_embedding. Qed.

Lemma bytes_of_length s : zlength (bytes_of s) = string_length s.
Proof. unfold zlength, string_length. f_equal. induction s; simpl; congruence. Qed.
