(* ===== verification/Wire.v ===== *)
(** * The wire protocol

    [src/wire.cpp]: message types, the frame codec with its two checksums, and the
    stream that reassembles frames from whatever pieces a socket delivers.  The
    socket is a parameter ([src/socket.cpp] wraps operating-system calls); what the
    theorems use of it is the class [Delivers]. *)

From S2P Require Import Prelude Containers Checked Result Text Json JsonFacts JsonText JsonBounds Codec Crc Bytes.
#[local] Open Scope Z_scope.

(** ** Message types *)

(** [enum class MessageType : std::uint16_t]: any 16-bit number can be received. *)
Definition MessageType : Type := Z.

(** The enumerators, with their text. *)
Definition message_types : list (MessageType * string) :=
  [(1, "hello"); (2, "welcome"); (3, "failure"); (10, "drain-request"); (11, "drain-response");
   (12, "status-request"); (13, "status-response"); (14, "cancel-request"); (15, "cancel-response");
   (16, "restore-request"); (17, "restore-response"); (18, "explain-request"); (19, "explain-response");
   (20, "obligation-query"); (21, "obligation-query-response"); (26, "obligation-admit");
   (27, "obligation-admit-response"); (22, "obligation-report"); (23, "obligation-report-response");
   (24, "evidence-report"); (25, "evidence-response"); (30, "evacuation-request"); (31, "evacuation-response");
   (32, "admission-reopen"); (33, "admission-reopen-response"); (34, "audit-request"); (35, "audit-response");
   (40, "shutdown"); (41, "shutdown-response")].

Definition message_type_to_string (type : MessageType) : string :=
  match List.find (λ p, p.1 =? type) message_types with Some p => p.2 | None => "unknown" end.

Definition message_type_from_string (text : string) : option MessageType :=
  List.find (λ raw, negb ((25 <? raw) && (raw <? 30)) && String.eqb text (message_type_to_string raw)) (seqZ 1 41).

(** The loop skips two enumerators, and finds an unnamed one. *)
Example obligation_admit_not_found : message_type_from_string (message_type_to_string 26) = None.
Proof. vm_compute. reflexivity. Qed.
Example unknown_found : message_type_from_string "unknown" = Some 4.
Proof. vm_compute. reflexivity. Qed.

(** ** Frames *)

Definition kFrameMagic : Z := 0x44524652.
Definition kFrameHeaderBytes : Z := 24.
Definition kMaxFramePayloadBytes : Z := 4 * 1024 * 1024.
Definition kWireProtocolVersion : Z := 1.

Record Frame := MkFrame { fr_type : MessageType; fr_sequence : Z; fr_payload : json }.

Definition frame_to_json (f : Frame) : json :=
  obj [("type", JString (message_type_to_string (fr_type f))); ("sequence", JUint (fr_sequence f));
       ("payload", fr_payload f)].

(** The header up to its own checksum. *)
Definition header_prefix (type sequence size payload_crc : Z) : list Z :=
  put_u32 kFrameMagic ++ put_u16 kWireProtocolVersion ++ put_u16 type ++ put_u32 sequence ++ put_u32 size
  ++ put_u32 payload_crc.

Definition encode_frame (frame : Frame) (max_payload_bytes : Z) : result (list Z) :=
  let payload := bytes_of (dump 0 (fr_payload frame)) in
  if max_payload_bytes <? zlength payload then
    fail ErrorCode.BoundsExceeded "frame payload exceeds the configured bound"
  else
    let! sized := narrow_checked u32 size_t (zlength payload)
      else fail ErrorCode.BoundsExceeded "frame payload does not fit a 32-bit length field" in
    let out := header_prefix (fr_type frame) (fr_sequence frame) sized (crc32c payload 0) in
    Ok (out ++ put_u32 (crc32c out 0) ++ payload).

(** The parser's fuel always suffices ([json_parse_returns]). *)
Definition json_parsed (limits : JsonLimits) (text : string) : result json :=
  default (fail ErrorCode.Internal "json parser out of fuel") (json_parse limits text).

Definition payload_limits (max_payload_bytes : Z) : JsonLimits :=
  MkJsonLimits (jl_max_depth default_limits) (jl_max_string_bytes default_limits)
    (jl_max_container_entries default_limits) (jl_max_nodes default_limits) max_payload_bytes.

Definition decode_frame (data : list Z) (max_payload_bytes : Z) : result Frame :=
  let length := zlength data in
  if length <? kFrameHeaderBytes then fail ErrorCode.ProtocolError "frame image is shorter than the header"
  else if negb (get_u32 0 data =? kFrameMagic) then fail ErrorCode.ProtocolError "frame magic does not match"
  else if negb (crc32c (slice 0 20 data) 0 =? get_u32 20 data) then
    fail ErrorCode.ProtocolError "frame header checksum does not match"
  else if negb (get_u16 4 data =? kWireProtocolVersion) then
    fail ErrorCode.ProtocolError "wire protocol version mismatch"
  else
    let payload_length := get_u32 12 data in
    if max_payload_bytes <? payload_length then
      fail ErrorCode.BoundsExceeded "frame payload exceeds the configured bound"
    else if negb (bool_decide (add_checked size_t kFrameHeaderBytes payload_length = Some length)) then
      fail ErrorCode.ProtocolError "frame length field does not match the image size"
    else
      let payload := slice kFrameHeaderBytes payload_length data in
      if negb (crc32c payload 0 =? get_u32 16 data) then
        fail ErrorCode.ProtocolError "frame payload checksum does not match"
      else
        match json_parsed (payload_limits max_payload_bytes) (text_of payload) with
        | Err err => fail ErrorCode.ProtocolError ("frame payload is not valid json: " ++s err_message err)
        | Ok parsed => Ok (MkFrame (get_u16 6 data) (get_u32 8 data) parsed)
        end.

(** ** Sockets *)

Module AcceptOutcome.
Inductive t : Set := Accepted | TimedOut | Closed | Failed.
End AcceptOutcome.

(** What [FrameStream] calls: [wait_readable] with its error text, and
    [receive_some] bounded by the space left. *)
Record SocketOps (S : Type) := {
  so_valid : S → bool;
  so_wait_readable : Z → S → AcceptOutcome.t * string * S;
  so_receive_some : Z → S → result (list Z) * S;
  so_send_all : list Z → S → status * S;
  so_close : S → status * S;
}.
Arguments so_valid {S}.
Arguments so_wait_readable {S}.
Arguments so_receive_some {S}.
Arguments so_send_all {S}.
Arguments so_close {S}.

(** ** The stream *)

Module StreamOutcome.
Inductive t : Set := Frame_ | TimedOut | Closed | Failed | ProtocolError.
Definition to_string (o : t) : string :=
  match o with
  | Frame_ => "frame"
  | TimedOut => "timed-out"
  | Closed => "closed"
  | Failed => "failed"
  | ProtocolError => "protocol-error"
  end.
End StreamOutcome.

(** [FrameStream]: [fs_buffered] is the part of the buffer in use, [fs_capacity]
    the size of the buffer. *)
Record FrameStream (S : Type) := MkFrameStream {
  fs_socket : S;
  fs_max_payload_bytes : Z;
  fs_buffered : list Z;
  fs_capacity : Z;
  fs_closed : bool;
}.
Arguments MkFrameStream {S}.
Arguments fs_socket {S}.
Arguments fs_max_payload_bytes {S}.
Arguments fs_buffered {S}.
Arguments fs_capacity {S}.
Arguments fs_closed {S}.

Section Stream.
Context {S : Type} (sock : SocketOps S).

Definition new_stream (socket : S) (max_payload_bytes : Z) : FrameStream S :=
  MkFrameStream socket max_payload_bytes [] 0 false.

Definition send_frame (frame : Frame) (st : FrameStream S) : status * FrameStream S :=
  match encode_frame frame (fs_max_payload_bytes st) with
  | Err err => (Err err, st)
  | Ok encoded =>
      let '(sent, socket) := so_send_all sock encoded (fs_socket st) in
      (sent, MkFrameStream socket (fs_max_payload_bytes st) (fs_buffered st) (fs_capacity st) (fs_closed st))
  end.

(** [FrameStream::close]. *)
Definition close_stream (st : FrameStream S) : status * FrameStream S :=
  let '(closed, socket) := so_close sock (fs_socket st) in
  (closed, MkFrameStream socket (fs_max_payload_bytes st) (fs_buffered st) (fs_capacity st) true).

(** What [receive_frame] answers: the outcome, the frame it stored if any, the
    error text. *)
Definition answer : Type := StreamOutcome.t * option Frame * string.

(** [closed_ = true; return outcome] with the error. *)
Definition close_with (outcome : StreamOutcome.t) (error : string) (st : FrameStream S) : answer * FrameStream S :=
  ((outcome, None, error), MkFrameStream (fs_socket st) (fs_max_payload_bytes st) (fs_buffered st) (fs_capacity st) true).

(** The attempt to decode what is buffered; [None] when a frame is incomplete. *)
Definition try_decode (st : FrameStream S) : option (answer * FrameStream S) :=
  if zlength (fs_buffered st) <? kFrameHeaderBytes then None
  else
    let payload_length := get_u32 12 (fs_buffered st) in
    if fs_max_payload_bytes st <? payload_length then
      Some (close_with StreamOutcome.ProtocolError "peer announced an oversized frame" st)
    else
      let total := kFrameHeaderBytes + payload_length in
      if zlength (fs_buffered st) <? total then None
      else
        match decode_frame (slice 0 total (fs_buffered st)) (fs_max_payload_bytes st) with
        | Err err => Some (close_with StreamOutcome.ProtocolError (err_message err) st)
        | Ok frame =>
            Some ((StreamOutcome.Frame_, Some frame, ""),
                  MkFrameStream (fs_socket st) (fs_max_payload_bytes st) (drop (Z.to_nat total) (fs_buffered st))
                    (fs_capacity st) (fs_closed st))
        end.

(** What one turn of the loop does after the attempt to decode: it answers, or the
    loop goes on with the remaining budget. *)
Inductive turn : Type :=
  | Answer (a : answer) (st : FrameStream S)
  | Continue (remaining : Z) (st : FrameStream S).

Definition wait_and_read (wait_ms wait_slice remaining : Z) (st : FrameStream S) : turn :=
  let done_with (r : answer * FrameStream S) : turn := Answer r.1 r.2 in
  if (0 <=? wait_ms) && (remaining <=? 0) then
    Answer (StreamOutcome.TimedOut, None, "no complete frame within the wait budget") st
  else
    let with_socket (socket : S) : FrameStream S :=
      MkFrameStream socket (fs_max_payload_bytes st) (fs_buffered st) (fs_capacity st) (fs_closed st) in
    match so_wait_readable sock wait_slice (fs_socket st) with
    | (AcceptOutcome.TimedOut, _, socket) =>
        Continue (if 0 <=? wait_ms then remaining - wait_slice else remaining) (with_socket socket)
    | (AcceptOutcome.Accepted, _, socket) =>
        let space := fs_capacity st - zlength (fs_buffered st) in
        if space =? 0 then
          done_with (close_with StreamOutcome.ProtocolError "frame buffer exhausted" (with_socket socket))
        else
          match so_receive_some sock space socket with
          | (Err err, socket) => done_with (close_with StreamOutcome.Failed (err_message err) (with_socket socket))
          | (Ok [], socket) =>
              done_with (close_with StreamOutcome.Closed "peer closed the connection" (with_socket socket))
          | (Ok received, socket) =>
              Continue remaining
                (MkFrameStream socket (fs_max_payload_bytes st) (fs_buffered st ++ received) (fs_capacity st) (fs_closed st))
          end
    | (_, wait_error, socket) =>
        let error := if String.eqb wait_error "" then "socket closed while waiting for a frame" else wait_error in
        done_with (close_with StreamOutcome.Closed error (with_socket socket))
    end.

(** The loop of [receive_frame]; [None] when the fuel runs out. *)
Fixpoint receive_loop (fuel : nat) (wait_ms wait_slice remaining : Z) (st : FrameStream S)
  : option (answer * FrameStream S) :=
  match fuel with
  | O => None
  | Datatypes.S fuel =>
      match try_decode st with
      | Some r => Some r
      | None =>
          match wait_and_read wait_ms wait_slice remaining st with
          | Answer a st => Some (a, st)
          | Continue remaining st => receive_loop fuel wait_ms wait_slice remaining st
          end
      end
  end.

Definition slice_of (wait_ms : Z) : Z := if wait_ms <=? 0 then 1 else if 50 <? wait_ms then 50 else wait_ms.

(** Makes room for one frame. *)
Definition grown (st : FrameStream S) : FrameStream S :=
  let wanted := kFrameHeaderBytes + fs_max_payload_bytes st in
  MkFrameStream (fs_socket st) (fs_max_payload_bytes st) (fs_buffered st)
    (if fs_capacity st <? wanted then wanted else fs_capacity st) (fs_closed st).

(** [FrameStream::receive_frame]. *)
Definition receive_frame (fuel : nat) (wait_ms : Z) (st : FrameStream S) : option (answer * FrameStream S) :=
  if fs_closed st then Some ((StreamOutcome.Closed, None, "stream is closed"), st)
  else if negb (so_valid sock (fs_socket st)) then Some ((StreamOutcome.Closed, None, "stream has no socket"), st)
  else receive_loop fuel wait_ms (slice_of wait_ms) wait_ms (grown st).

(** Turns of the loop that suffice when the wait is not indefinite: one per byte of
    the buffer, one per millisecond ([receive_now_returns]). *)
Definition receive_fuel (wait_ms : Z) (st : FrameStream S) : nat :=
  Z.to_nat (fs_capacity (grown st) + wait_ms + 1).

Definition receive_now (wait_ms : Z) (st : FrameStream S) : answer * FrameStream S :=
  default ((StreamOutcome.Failed, None, "receive loop out of fuel"), st) (receive_frame (receive_fuel wait_ms st) wait_ms st).
End Stream.
