(* ===== verification/WireFacts.v ===== *)
(** * Frames survive the wire, corrupted frames do not

    Decoding inverts encoding; an image with one byte changed is refused; the
    stream hands out exactly the frames that were sent, whatever the pieces the
    socket delivers them in, and loses nothing when it runs out of time. *)

From S2P Require Import Prelude Containers Checked Result Text Json JsonFacts JsonText JsonBounds Codec CodecPolicy Crc Bytes Wire.
#[local] Open Scope Z_scope.

(** ** Frame images *)

(** What can be sent and read back: the fields in range, the payload within the
    parser's limits and without reals. *)
Definition frame_sendable (max_payload_bytes : Z) (f : Frame) : bool :=
  (0 <=? fr_type f) && (fr_type f <? 256 ^ 2) && (0 <=? fr_sequence f) && (fr_sequence f <? 256 ^ 4)
  && json_fits (payload_limits max_payload_bytes) 0 (fr_payload f)
  && (json_nodes (fr_payload f) <=? jl_max_nodes default_limits).

(** The image of a payload under a header. *)
Definition image (type sequence : Z) (payload : list Z) : list Z :=
  let out := header_prefix type sequence (zlength payload) (crc32c payload 0) in
  out ++ put_u32 (crc32c out 0) ++ payload.

Lemma header_fields type sequence size crc rest :
  let data := header_prefix type sequence size crc ++ rest in
  get_u32 0 data = get_le (put_u32 kFrameMagic) ∧ get_u16 4 data = get_le (put_u16 kWireProtocolVersion) ∧
  get_u16 6 data = get_le (put_u16 type) ∧ get_u32 8 data = get_le (put_u32 sequence) ∧
  get_u32 12 data = get_le (put_u32 size) ∧ get_u32 16 data = get_le (put_u32 crc) ∧
  slice 0 20 data = header_prefix type sequence size crc.
Proof. split_and!; reflexivity. Qed.

Lemma narrow_length z s : 0 ≤ z ≤ int_max u64 → narrow_checked u32 size_t z = Some s → s = z ∧ 0 ≤ z < 256 ^ 4.
Proof.
  intros Hz. unfold narrow_checked. cbn [it_signed u32 size_t andb negb]. change (common_type size_t u32) with u64.
  assert (wrap u64 z = z) as -> by (apply wrap_id; [apply it_wf_u64|exact Hz]).
  change (wrap u64 (int_max u32)) with (int_max u32). destruct (Z.ltb_spec (int_max u32) z) as [|Hle]; [done|].
  intros [= <-]. assert (0 ≤ z < 256 ^ 4) as Hr by (change (int_max u32) with 4294967295 in Hle; lia).
  split; [|done]. apply wrap_u32. unfold u32_ok. apply andb_true_iff. split; apply Z.leb_le; lia.
Qed.

Lemma in_range_size z : 0 ≤ z < 2 ^ 64 → in_range size_t z.
Proof. intros Hz. split; [exact (proj1 Hz)|]. change (int_max size_t) with (2 ^ 64 - 1). lia. Qed.

Section Frames.
Context (max : Z) (Hmax : 0 ≤ max ≤ int_max u64).

Lemma encode_frame_image f data :
  encode_frame f max = Ok data →
  data = image (fr_type f) (fr_sequence f) (bytes_of (dump 0 (fr_payload f))) ∧
  zlength (bytes_of (dump 0 (fr_payload f))) ≤ max ∧ zlength (bytes_of (dump 0 (fr_payload f))) < 256 ^ 4.
Proof.
  unfold encode_frame. destruct (Z.ltb_spec max (zlength (bytes_of (dump 0 (fr_payload f))))) as [|Hle]; [done|].
  destruct (narrow_checked _ _ _) as [sized|] eqn:Hn; [|done]. intros [= <-].
  apply narrow_length in Hn as [-> Hs]; [|split; [apply zlength_nonneg|lia]]. by split_and!; [..|apply Hs].
Qed.

Lemma json_parsed_dump limits v :
  json_fits limits 0 v = true → json_nodes v ≤ jl_max_nodes limits →
  string_length (dump 0 v) ≤ jl_max_total_bytes limits → json_parsed limits (dump 0 v) = Ok v.
Proof. intros H1 H2 H3. unfold json_parsed. by rewrite json_dump_parse. Qed.

Lemma image_length type sequence payload : zlength (image type sequence payload) = kFrameHeaderBytes + zlength payload.
Proof. unfold image, zlength, kFrameHeaderBytes. cbv zeta. rewrite !length_app. unfold header_prefix, put_u16, put_u32. rewrite !length_app, !put_le_length. lia. Qed.

Lemma image_payload type sequence payload : slice kFrameHeaderBytes (zlength payload) (image type sequence payload) = payload.
Proof.
  unfold slice, image, zlength. rewrite Nat2Z.id. cbv zeta.
  match goal with |- take _ (drop _ (?a ++ ?b ++ payload)) = _ => change (take (length payload) (drop 24 (a ++ b ++ payload)) = payload);
    change (drop 24 (a ++ b ++ payload)) with payload end.
  apply firstn_all.
Qed.

(** Reading back the words of an image. *)
Lemma image_words type sequence payload :
  0 ≤ type < 256 ^ 2 → 0 ≤ sequence < 256 ^ 4 → 0 ≤ zlength payload < 256 ^ 4 → Forall byte_ok payload →
  let data := image type sequence payload in
  get_u32 0 data = kFrameMagic ∧ crc32c (slice 0 20 data) 0 = get_u32 20 data ∧ get_u16 4 data = kWireProtocolVersion ∧
  get_u16 6 data = type ∧ get_u32 8 data = sequence ∧ get_u32 12 data = zlength payload ∧ get_u32 16 data = crc32c payload 0.
Proof.
  intros Ht Hs Hl Hb data. unfold data, image. cbv zeta.
  set (out := header_prefix type sequence (zlength payload) (crc32c payload 0)).
  pose proof (header_fields type sequence (zlength payload) (crc32c payload 0)) as Hf. cbv zeta in Hf. fold out in Hf.
  destruct (Hf (put_u32 (crc32c out 0) ++ payload)) as (-> & -> & -> & -> & -> & -> & ->).
  assert (∀ l, Forall byte_ok l → 0 ≤ crc32c l 0 < 256 ^ 4) as Hc by (intros l; apply (crc32c_word l 0); by split).
  assert (Forall byte_ok out) as Ho by (unfold out, header_prefix; repeat apply Forall_app_2; apply put_le_bytes).
  change (get_u32 20 (out ++ put_u32 (crc32c out 0) ++ payload)) with (get_le (put_u32 (crc32c out 0))).
  assert (0 ≤ kFrameMagic < 256 ^ 4) as Hm by (unfold kFrameMagic; lia).
  assert (0 ≤ kWireProtocolVersion < 256 ^ 2) as Hv by (unfold kWireProtocolVersion; lia).
  unfold put_u32, put_u16. rewrite !get_put_le by (assumption || (apply Hc; assumption)). by split_and!.
Qed.

(** What a decoded image satisfies. *)
Record decoded (data : list Z) (f : Frame) : Prop := {
  dd_length : zlength data = kFrameHeaderBytes + get_u32 12 data;
  dd_header : crc32c (slice 0 20 data) 0 = get_u32 20 data;
  dd_payload : crc32c (slice kFrameHeaderBytes (get_u32 12 data) data) 0 = get_u32 16 data;
}.

Lemma decode_frame_Ok data f : 0 ≤ get_u32 12 data < 256 ^ 4 → decode_frame data max = Ok f → decoded data f.
Proof.
  intros Hl. unfold decode_frame. destruct (zlength data <? _); [done|]. destruct (negb (get_u32 0 data =? _)); [done|].
  destruct (negb (crc32c (slice 0 20 data) 0 =? _)) eqn:Hh; [done|]. destruct (negb (get_u16 4 data =? _)); [done|].
  destruct (max <? _); [done|]. destruct (negb (bool_decide _)) eqn:Ha; [done|].
  destruct (negb (crc32c _ 0 =? get_u32 16 data)) eqn:Hp; [done|]. intros _.
  apply negb_false_iff, Z.eqb_eq in Hh. apply negb_false_iff, Z.eqb_eq in Hp.
  apply negb_false_iff, bool_decide_eq_true in Ha. rewrite add_checked_exact in Ha.
  - case_decide; [|done]. injection Ha as Ha. split; [by rewrite <- Ha|done|done].
  - apply it_wf_u64.
  - apply in_range_size. unfold kFrameHeaderBytes. lia.
  - apply in_range_size. lia.
Qed.

Lemma decode_image f :
  frame_sendable max f = true → zlength (bytes_of (dump 0 (fr_payload f))) ≤ max →
  zlength (bytes_of (dump 0 (fr_payload f))) < 256 ^ 4 →
  decode_frame (image (fr_type f) (fr_sequence f) (bytes_of (dump 0 (fr_payload f)))) max = Ok f.
Proof.
  intros Hs Hle Hlt. unfold frame_sendable in Hs. split_storable. set (payload := bytes_of (dump 0 (fr_payload f))) in *.
  pose proof (zlength_nonneg payload) as Hnn. pose proof (image_length (fr_type f) (fr_sequence f) payload) as Hlen.
  pose proof (image_payload (fr_type f) (fr_sequence f) payload) as Hpay.
  destruct (image_words (fr_type f) (fr_sequence f) payload) as (E1 & E2 & E3 & E4 & E5 & E6 & E7);
    [lia|lia|lia|apply bytes_of_ok|].
  set (data := image _ _ _) in *. clearbody data. unfold decode_frame.
  rewrite Hlen, E1, E2, E3, E4, E5, E6, E7, Hpay, !Z.eqb_refl. cbn [negb]. rewrite (proj2 (Z.ltb_ge _ kFrameHeaderBytes)) by lia.
  rewrite (proj2 (Z.ltb_ge max _)) by lia. unfold kFrameHeaderBytes.
  rewrite add_checked_exact, decide_True by (apply it_wf_u64 || (apply in_range_size; lia)).
  rewrite bool_decide_true by done. cbn [negb]. unfold payload. rewrite text_bytes.
  rewrite json_parsed_dump; [by destruct f|done|by apply Z.leb_le|].
  rewrite <- bytes_of_length. exact Hle.
Qed.

(** *** One corrupted byte *)

Lemma crc32c_insert l k b b' :
  Forall byte_ok l → l !! k = Some b → byte_ok b' → b ≠ b' → crc32c (<[k := b']> l) 0 ≠ crc32c l 0.
Proof.
  intros Hl Hk Hb' Hne. rewrite insert_take_drop by by eapply lookup_lt_Some.
  rewrite <- (take_drop_middle l k b Hk) at 3.
  intros E. eapply (crc32c_detects (take k l) b b' (drop (S k) l) 0); [by split| |done|done|].
  - by rewrite take_drop_middle.
  - congruence.
Qed.

(** A slice that does not cover the changed byte is unchanged. *)
Lemma slice_insert_out from n k b (l : list Z) :
  0 ≤ from → 0 ≤ n → Z.of_nat k < from ∨ from + n ≤ Z.of_nat k → slice from n (<[k := b]> l) = slice from n l.
Proof.
  intros Hf Hn [Hk|Hk]; unfold slice.
  - by rewrite drop_insert_lt by lia.
  - destruct (decide (Z.to_nat from ≤ k)%nat); [|lia]. rewrite drop_insert_ge by done. by rewrite take_insert_ge by lia.
Qed.

(** One that covers it is changed in one place. *)
Lemma slice_insert_in from n k b (l : list Z) :
  0 ≤ from → from ≤ Z.of_nat k < from + n →
  slice from n (<[k := b]> l) = <[(k - Z.to_nat from)%nat := b]> (slice from n l).
Proof. intros Hf Hk. unfold slice. rewrite drop_insert_ge, take_insert_lt by lia. done. Qed.

Lemma slice_lookup from n k (l : list Z) :
  0 ≤ from → from ≤ Z.of_nat k < from + n → slice from n l !! (k - Z.to_nat from)%nat = l !! k.
Proof. intros Hf Hk. unfold slice. rewrite lookup_take_lt, lookup_drop by lia. f_equal. lia. Qed.

Lemma slice_bytes from n l : Forall byte_ok l → Forall byte_ok (slice from n l).
Proof. intros Hl. unfold slice. by apply Forall_take, Forall_drop. Qed.

Lemma get_le_word l : Forall byte_ok l → (length l ≤ 4)%nat → 0 ≤ get_le l < 256 ^ 4.
Proof.
  intros Hl Hn. assert (0 ≤ get_le l < 256 ^ Z.of_nat (length l)) as Hr.
  { clear Hn. induction Hl as [|b l Hb _ IH]; [simpl; lia|]. cbn [get_le length]. rewrite lor_byte by done.
    rewrite Nat2Z.inj_succ, Z.pow_succ_r by lia. unfold byte_ok in Hb. lia. }
  pose proof (Z.pow_le_mono_r 256 (Z.of_nat (length l)) 4 ltac:(lia) ltac:(lia)). lia.
Qed.

Lemma get_u32_range from data : Forall byte_ok data → 0 ≤ get_u32 from data < 256 ^ 4.
Proof. intros Hd. apply get_le_word; [by apply slice_bytes|]. unfold slice. rewrite length_take. lia. Qed.

(** A word that covers the changed byte reads differently. *)
Lemma get_u32_insert from k b b' data :
  0 ≤ from → from ≤ Z.of_nat k < from + 4 → Forall byte_ok data → data !! k = Some b → byte_ok b' → b ≠ b' →
  get_u32 from (<[k := b']> data) ≠ get_u32 from data.
Proof.
  intros Hf Hk Hd Hb Hb' Hne E. unfold get_u32 in E. rewrite slice_insert_in in E by done.
  pose proof (slice_lookup from 4 k data Hf Hk) as Hs. rewrite Hb in Hs.
  apply get_le_inj in E; [|by rewrite length_insert|by apply Forall_insert; [apply slice_bytes|]|by apply slice_bytes].
  rewrite <- E, list_lookup_insert_eq in Hs by (eapply lookup_lt_Some; rewrite slice_lookup; eauto). congruence.
Qed.

(** An accepted image with one byte changed is refused. *)
Lemma corrupted_image data f k b b' :
  Forall byte_ok data → decode_frame data max = Ok f → data !! k = Some b → byte_ok b' → b ≠ b' →
  ∃ err, decode_frame (<[k := b']> data) max = Err err.
Proof.
  intros Hd Hf Hk Hb' Hne. destruct (decode_frame (<[k := b']> data) max) as [f'|err] eqn:Hf'; [exfalso|eauto].
  assert (Forall byte_ok (<[k := b']> data)) as Hd' by by apply Forall_insert.
  apply decode_frame_Ok in Hf as [Hlen Hh Hp]; [|by apply get_u32_range].
  apply decode_frame_Ok in Hf' as [_ Hh' Hp']; [|by apply get_u32_range].
  destruct (decide (Z.of_nat k < 24)) as [Hhead|Hbody].
  - destruct (decide (Z.of_nat k < 20)) as [H20|H20].
    + unfold get_u32 in Hh, Hh'. rewrite (slice_insert_out 20 4) in Hh' by lia. rewrite <- Hh in Hh'.
      rewrite slice_insert_in in Hh' by lia. revert Hh'. apply (crc32c_insert _ _ b);
        [by apply slice_bytes|by rewrite slice_lookup by lia|done|done].
    + rewrite slice_insert_out, Hh in Hh' by lia. symmetry in Hh'. revert Hh'. apply (get_u32_insert 20 k b); done || lia.
  - assert (Z.of_nat k < zlength data) as Hlt by (apply lookup_lt_Some in Hk; unfold zlength; lia).
    pose proof (get_u32_range 12 data Hd) as Hr. unfold kFrameHeaderBytes in *.
    assert (∀ from, 0 ≤ from → from + 4 ≤ 24 → get_u32 from (<[k := b']> data) = get_u32 from data) as Hw.
    { intros from H1 H2. unfold get_u32. by rewrite slice_insert_out by lia. }
    rewrite (Hw 12), (Hw 16), <- Hp in Hp' by lia. rewrite slice_insert_in in Hp' by lia. revert Hp'.
    apply (crc32c_insert _ _ b); [by apply slice_bytes|by rewrite slice_lookup by lia|done|done].
Qed.
End Frames.

(** ** The stream *)

(** What the stream relies on of a socket whose unread bytes are [inflight]: waiting
    consumes nothing, and receiving hands out the next bytes, at most as many as
    asked for. *)
Class Delivers {S} (sock : SocketOps S) (inflight : S → list Z) : Prop := {
  dl_wait n s o err s' : so_wait_readable sock n s = (o, err, s') → inflight s' = inflight s ∧ so_valid sock s' = so_valid sock s;
  dl_receive n s bs s' : so_receive_some sock n s = (Ok bs, s') →
    inflight s = bs ++ inflight s' ∧ (0 ≤ n → zlength bs ≤ n) ∧ so_valid sock s' = so_valid sock s;
}.

(** A peer that has sent something is seen to be readable, and something is read. *)
Class Live {S} (sock : SocketOps S) (inflight : S → list Z) : Prop := {
  lv_ready n s : inflight s ≠ [] → ∃ err s', so_wait_readable sock n s = (AcceptOutcome.Accepted, err, s');
  lv_reads n s : inflight s ≠ [] → 0 < n → ∃ bs s', so_receive_some sock n s = (Ok bs, s') ∧ bs ≠ [];
}.

Section Reassembly.
Context {S} (sock : SocketOps S) (inflight : S → list Z) `{!Delivers sock inflight}.

(** Everything received and not yet handed out. *)
Definition outstanding_bytes (st : FrameStream S) : list Z := fs_buffered st ++ inflight (fs_socket st).

(** One turn of the loop moves bytes from the socket to the buffer, or answers
    without a frame; running out of time loses nothing. *)
Lemma wait_and_read_keeps wait_ms sl rem st :
  match wait_and_read sock wait_ms sl rem st with
  | Continue _ st' => outstanding_bytes st' = outstanding_bytes st ∧ fs_max_payload_bytes st' = fs_max_payload_bytes st
  | Answer (o, f, _) st' => f = None ∧ (o = StreamOutcome.TimedOut → st' = st)
  end.
Proof.
  unfold wait_and_read. destruct (_ && _); [done|].
  destruct (so_wait_readable sock sl (fs_socket st)) as [[o err] s1] eqn:Hw. apply dl_wait in Hw as [Hw _].
  destruct o; try done.
  - destruct (_ =? 0); [done|]. destruct (so_receive_some sock _ s1) as [[bs|e] s2] eqn:Hr; [|done].
    destruct bs as [|b bs]; [done|]. apply dl_receive in Hr as [Hr _]. unfold outstanding_bytes; cbn.
    split; [|done]. rewrite <- Hw, Hr. by rewrite <- app_assoc.
  - unfold outstanding_bytes; cbn. by rewrite Hw.
Qed.

Lemma try_decode_spec (st st' : FrameStream S) a :
  try_decode st = Some (a, st') →
  match a with
  | (o, Some f, _) => ∃ img, decode_frame img (fs_max_payload_bytes st) = Ok f ∧ fs_buffered st = img ++ fs_buffered st' ∧
                             fs_socket st' = fs_socket st ∧ o = StreamOutcome.Frame_
  | (o, None, _) => o = StreamOutcome.ProtocolError
  end.
Proof.
  unfold try_decode. destruct (zlength _ <? _); [done|]. destruct (fs_max_payload_bytes st <? _); [by intros [= <- <-]|].
  destruct (zlength _ <? _); [done|]. set (total := kFrameHeaderBytes + _).
  destruct (decode_frame _ _) as [f|] eqn:Hd; intros [= <- <-]; [|done].
  exists (slice 0 total (fs_buffered st)). split_and!; try done. unfold slice; cbn. by rewrite take_drop.
Qed.

(** Nothing is lost or invented: a frame handed out is the decoding of the next
    bytes, and a timed-out call keeps every byte. *)
Lemma receive_loop_keeps fuel wait_ms sl rem st o f err st' :
  receive_loop sock fuel wait_ms sl rem st = Some ((o, f, err), st') →
  match f with
  | Some f => ∃ img, decode_frame img (fs_max_payload_bytes st) = Ok f ∧
                     outstanding_bytes st = img ++ outstanding_bytes st'
  | None => o = StreamOutcome.TimedOut → outstanding_bytes st' = outstanding_bytes st
  end.
Proof.
  revert rem st. induction fuel as [|fuel IH]; intros rem st; cbn [receive_loop]; [done|].
  destruct (try_decode st) as [[a st1]|] eqn:Ht.
  - intros [= -> ->]. apply try_decode_spec in Ht. destruct f as [f|]; [|by rewrite Ht].
    destruct Ht as (img & Hd & Hb & Hs & _). exists img. split; [done|]. unfold outstanding_bytes.
    by rewrite Hb, Hs, <- app_assoc.
  - pose proof (wait_and_read_keeps wait_ms sl rem st) as Hk.
    destruct (wait_and_read sock wait_ms sl rem st) as [[[o1 f1] e1] st1|rem1 st1].
    + intros [= -> -> -> ->]. destruct Hk as [-> Hk]. intros ->. by rewrite Hk.
    + destruct Hk as [Hk Hm]. intros Hl. apply IH in Hl. by rewrite Hk, Hm in Hl.
Qed.

(** ** A finite wait ends *)

Lemma wait_and_read_decreases wait_ms sl rem rem' st st' :
  0 ≤ wait_ms → 1 ≤ sl → zlength (fs_buffered st) ≤ fs_capacity st →
  wait_and_read sock wait_ms sl rem st = Continue rem' st' →
  zlength (fs_buffered st') ≤ fs_capacity st' ∧
  fs_capacity st' - zlength (fs_buffered st') + Z.max 0 rem' < fs_capacity st - zlength (fs_buffered st) + Z.max 0 rem.
Proof.
  intros Hw Hsl Hcap. unfold wait_and_read. rewrite (proj2 (Z.leb_le 0 wait_ms) Hw). cbn [andb].
  destruct (Z.leb_spec rem 0) as [|Hrem]; [done|].
  destruct (so_wait_readable sock sl (fs_socket st)) as [[o err] s1]. destruct o; try done.
  - destruct (Z.eqb_spec (fs_capacity st - zlength (fs_buffered st)) 0) as [|Hne]; [done|].
    destruct (so_receive_some sock _ s1) as [[bs|e] s2] eqn:Hr; [|done]. destruct bs as [|b bs]; [done|].
    apply dl_receive in Hr as (_ & Hlen & _). specialize (Hlen ltac:(lia)). intros [= <- <-]. cbn [fs_buffered fs_capacity].
    unfold zlength in *. rewrite length_app. cbn [length] in *. lia.
  - intros [= <- <-]. cbn [fs_buffered fs_capacity]. lia.
Qed.

Lemma receive_loop_returns fuel wait_ms sl rem st :
  0 ≤ wait_ms → 1 ≤ sl → zlength (fs_buffered st) ≤ fs_capacity st →
  fs_capacity st - zlength (fs_buffered st) + Z.max 0 rem < Z.of_nat fuel →
  ∃ r, receive_loop sock fuel wait_ms sl rem st = Some r.
Proof.
  intros Hw Hsl. revert rem st. induction fuel as [|fuel IH]; intros rem st Hcap Hf; [lia|]. cbn [receive_loop].
  destruct (try_decode st) as [r|]; [by eexists|].
  destruct (wait_and_read sock wait_ms sl rem st) as [a st1|rem1 st1] eqn:Hwr; [by eexists|].
  apply wait_and_read_decreases in Hwr as [Hcap1 Hdec]; [|done..]. apply IH; [done|lia].
Qed.

(** The answer of a call with a finite wait does not depend on the fuel. *)
Lemma receive_now_returns wait_ms st :
  0 ≤ wait_ms → zlength (fs_buffered st) ≤ fs_capacity (grown st) →
  receive_frame sock (receive_fuel wait_ms st) wait_ms st = Some (receive_now sock wait_ms st).
Proof.
  intros Hw Hcap. unfold receive_now, receive_frame. destruct (fs_closed st); [done|]. destruct (negb _); [done|].
  destruct (receive_loop_returns (receive_fuel wait_ms st) wait_ms (slice_of wait_ms) wait_ms (grown st)) as [r ->]; try done.
  - unfold slice_of. destruct (Z.leb_spec wait_ms 0); [lia|]. destruct (Z.ltb_spec 50 wait_ms); lia.
  - pose proof (zlength_nonneg (fs_buffered st)). unfold receive_fuel. cbn [grown fs_buffered] in *.
    rewrite Z2Nat.id by lia. lia.
Qed.
End Reassembly.

(** Reading inside a prefix. *)
Lemma slice_app_l from n (l l' : list Z) :
  0 ≤ from → 0 ≤ n → from + n ≤ zlength l → slice from n (l ++ l') = slice from n l.
Proof.
  intros Hf Hn Hl. unfold slice, zlength in *. rewrite drop_app_le by lia. rewrite take_app_le; [done|].
  rewrite length_drop. lia.
Qed.

Section Progress.
Context {S} (sock : SocketOps S) (inflight : S → list Z) `{!Delivers sock inflight, !Live sock inflight}.
Context (max : Z) (Hmax : 0 ≤ max ≤ int_max u64) (f : Frame) (data : list Z).
Context (Hsend : frame_sendable max f = true) (Henc : encode_frame f max = Ok data).

(** What the stream needs to know of the image of the frame. *)
Lemma encoded_facts :
  zlength data = kFrameHeaderBytes + get_u32 12 data ∧ 0 ≤ get_u32 12 data ≤ max ∧ decode_frame data max = Ok f.
Proof.
  apply (encode_frame_image max Hmax) in Henc as (-> & Hle & Hlt). set (payload := bytes_of _) in *.
  pose proof (zlength_nonneg payload). pose proof Hsend as Hs. unfold frame_sendable in Hs. split_storable.
  destruct (image_words (fr_type f) (fr_sequence f) payload) as (_ & _ & _ & _ & _ & E & _);
    [lia|lia|lia|apply bytes_of_ok|]. rewrite E, image_length.
  split; [done|]. split; [lia|]. by apply decode_image.
Qed.

Lemma try_decode_partial (st : FrameStream S) more :
  fs_max_payload_bytes st = max → data = fs_buffered st ++ more → more ≠ [] → try_decode st = None.
Proof.
  intros Hm Hd Hne. destruct encoded_facts as (Hlen & Hp & _). unfold try_decode.
  destruct (Z.ltb_spec (zlength (fs_buffered st)) kFrameHeaderBytes) as [|Hge]; [done|]. unfold kFrameHeaderBytes in *.
  assert (get_u32 12 (fs_buffered st) = get_u32 12 data) as ->.
  { rewrite Hd. unfold get_u32. by rewrite slice_app_l by lia. }
  rewrite Hm, (proj2 (Z.ltb_ge _ _)) by lia. rewrite (proj2 (Z.ltb_lt _ _)); [done|]. rewrite <- Hlen, Hd, zlength_app.
  destruct more; [done|]. rewrite zlength_cons. pose proof (zlength_nonneg more). lia.
Qed.

Lemma try_decode_complete (st : FrameStream S) rest :
  fs_max_payload_bytes st = max → fs_buffered st = data ++ rest →
  try_decode st = Some ((StreamOutcome.Frame_, Some f, ""),
    MkFrameStream (fs_socket st) max rest (fs_capacity st) (fs_closed st)).
Proof.
  intros Hm Hb. destruct encoded_facts as (Hlen & Hp & Hdec). unfold try_decode. rewrite Hb, Hm, zlength_app.
  pose proof (zlength_nonneg rest). unfold kFrameHeaderBytes in *. rewrite (proj2 (Z.ltb_ge _ 24)) by lia.
  assert (get_u32 12 (data ++ rest) = get_u32 12 data) as -> by (unfold get_u32; by rewrite slice_app_l by lia).
  rewrite !(proj2 (Z.ltb_ge _ _)) by lia. rewrite <- Hlen. rewrite slice_app_l by lia.
  assert (slice 0 (zlength data) data = data) as ->.
  { unfold slice, zlength. rewrite Nat2Z.id, drop_0. apply firstn_all. }
  rewrite Hdec. unfold zlength. by rewrite Nat2Z.id, drop_app_length.
Qed.

Lemma receive_loop_gets fuel wait_ms sl rem st rest :
  fs_max_payload_bytes st = max → kFrameHeaderBytes + max ≤ fs_capacity st → wait_ms < 0 ∨ 0 < rem →
  outstanding_bytes inflight st = data ++ rest → (length data - length (fs_buffered st) < fuel)%nat →
  ∃ st', receive_loop sock fuel wait_ms sl rem st = Some ((StreamOutcome.Frame_, Some f, ""), st') ∧
    outstanding_bytes inflight st' = rest ∧ fs_max_payload_bytes st' = max ∧ fs_closed st' = fs_closed st ∧
    so_valid sock (fs_socket st') = so_valid sock (fs_socket st).
Proof.
  intros Hm Hcap Hwait. revert st Hm Hcap. induction fuel as [|fuel IH]; intros st Hm Hcap Hout Hfuel; [lia|].
  cbn [receive_loop]. unfold outstanding_bytes in Hout.
  destruct (decide (length data ≤ length (fs_buffered st))%nat) as [Hfull|Hpart].
  - assert (∃ r0, fs_buffered st = data ++ r0) as [r0 Hb].
    { apply app_eq_app in Hout as (k & [[E _]|[E _]]); [by exists k|]. exists [].
      rewrite E, length_app in Hfull. assert (k = []) as -> by (apply length_zero_iff_nil; lia). by rewrite !app_nil_r in *. }
    rewrite (try_decode_complete st r0 Hm Hb). eexists. split; [done|]. split_and!; try done.
    unfold outstanding_bytes; cbn. rewrite Hb, <- app_assoc in Hout. by apply app_inv_head in Hout.
  - assert (∃ more, data = fs_buffered st ++ more ∧ more ≠ [] ∧ inflight (fs_socket st) = more ++ rest) as (more & Hd & Hne & Hin).
    { apply app_eq_app in Hout as (k & [[E1 E2]|[E1 E2]]); [rewrite E1, length_app in Hpart; lia|]. exists k.
      split_and!; [done| |done]. intros ->. rewrite app_nil_r in E1. subst. lia. }
    rewrite (try_decode_partial st more Hm Hd Hne). unfold wait_and_read.
    assert ((0 <=? wait_ms) && (rem <=? 0) = false) as -> by lia.
    assert (inflight (fs_socket st) ≠ []) as Hinf by (rewrite Hin; by destruct more).
    destruct (lv_ready sl _ Hinf) as (err & s1 & Hw). rewrite Hw. apply dl_wait in Hw as [Hw1 Hv1].
    destruct encoded_facts as (Hlen & Hp & _).
    assert (0 < fs_capacity st - zlength (fs_buffered st)) as Hspace by (unfold zlength in *; lia).
    rewrite (proj2 (Z.eqb_neq _ _)) by lia. rewrite <- Hw1 in Hinf.
    destruct (lv_reads _ s1 Hinf Hspace) as (bs & s2 & Hr & Hbs). rewrite Hr. apply dl_receive in Hr as (Hr1 & _ & Hv2).
    destruct bs as [|b bs]; [done|].
    set (st1 := MkFrameStream s2 (fs_max_payload_bytes st) (fs_buffered st ++ b :: bs) (fs_capacity st) (fs_closed st)).
    destruct (IH st1) as (st' & H1 & H2 & H3 & H4 & H5); [done|done|..].
    3: { exists st'. cbn in *. split_and!; try done. congruence. }
    + unfold outstanding_bytes; cbn. rewrite <- app_assoc, <- Hr1, Hw1. exact Hout.
    + cbn. rewrite length_app. simpl. lia.
Qed.

(** A call that is given time returns the frame. *)
Lemma receive_now_gets wait_ms st rest :
  fs_max_payload_bytes st = max → fs_closed st = false → so_valid sock (fs_socket st) = true → 0 < wait_ms →
  outstanding_bytes inflight st = data ++ rest →
  ∃ st', receive_now sock wait_ms st = ((StreamOutcome.Frame_, Some f, ""), st') ∧
    outstanding_bytes inflight st' = rest ∧ fs_max_payload_bytes st' = max ∧ fs_closed st' = false ∧
    so_valid sock (fs_socket st') = true.
Proof.
  intros Hm Hc Hv Hw Ho. destruct encoded_facts as (Hlen & Hp & _).
  assert (kFrameHeaderBytes + max ≤ fs_capacity (grown st)) as Hcap.
  { cbn. rewrite Hm. destruct (Z.ltb_spec (fs_capacity st) (kFrameHeaderBytes + max)); lia. }
  destruct (receive_loop_gets (receive_fuel wait_ms st) wait_ms (slice_of wait_ms) wait_ms (grown st) rest)
    as (st' & H1 & H2 & H3 & H4 & H5); try done; [by right| |].
  - unfold receive_fuel, zlength, kFrameHeaderBytes in *. lia.
  - exists st'. unfold receive_now, receive_frame. rewrite Hc, Hv. cbn [negb]. rewrite H1. cbn in H4, H5.
    rewrite Hc in H4. rewrite Hv in H5. done.
Qed.
End Progress.
