(* ===== verification/Protocol.v ===== *)
(** * The drain protocol, abstractly

    What the engine promises about fences, drains and obligations, without the
    evaluators, the evidence or the log: a labelled transition system over a
    [view] that keeps, per drain, its target, phase and closed generation; per
    target, the fence; per obligation, what it is bound to.  [EngineRefine.v]
    proves that every operation of the engine is a run of this system, so the
    invariants proved here by rule induction hold of the engine. *)

From S2P Require Import Prelude Containers Checked Identity.

(** The phases of a drain as its fence sees them. *)
Inductive phase : Set :=
  | Waiting   (** has not closed admission *)
  | Holding   (** admission closed, work in progress *)
  | Done      (** completed; admission stays closed *)
  | Leaving   (** admission reopened, restoration settling *)
  | Gone      (** cancelled or failed before any restoration *)
  | Abandoned (** cancelled or failed after a restoration was begun *)
  | Released. (** restored: the target may be drained again *)

#[export] Instance phase_eq_dec : EqDecision phase.
Proof. solve_decision. Defined.

Record view := MkView {
  v_drain : DrainId → option (DrainTarget * phase * Generation);
  v_fence : DrainTarget → Generation * option DrainId;
  v_obligation : ObligationId → option (Generation * list DrainTarget * bool);
}.

(** Views are compared pointwise. *)
#[export] Instance view_equiv : Equiv view := λ s s',
  (∀ id, v_drain s id = v_drain s' id) ∧ (∀ t, v_fence s t = v_fence s' t) ∧
  (∀ o, v_obligation s o = v_obligation s' o).

#[export] Instance view_equivalence : Equivalence (≡@{view}).
Proof.
  split.
  - done.
  - intros s s' (Hd & Hf & Ho). split_and!; intros; by rewrite ?Hd, ?Hf, ?Ho.
  - intros s1 s2 s3 (Hd & Hf & Ho) (Hd' & Hf' & Ho').
    split_and!; intros; by rewrite ?Hd, ?Hf, ?Ho.
Qed.

(** The pointwise update of a function. *)
Definition at_key {K V} `{EqDecision K} (f : K → V) (k : K) (v : V) : K → V :=
  λ x, if decide (x = k) then v else f x.

Lemma at_key_eq {K V} `{EqDecision K} (f : K → V) k v : at_key f k v k = v.
Proof. unfold at_key. by rewrite decide_True. Qed.
Lemma at_key_ne {K V} `{EqDecision K} (f : K → V) k v x : x ≠ k → at_key f k v x = f x.
Proof. intros. unfold at_key. by rewrite decide_False. Qed.

Definition set_drain (id : DrainId) (t : DrainTarget) (p : phase) (g : Generation) (s : view) : view :=
  MkView (at_key (v_drain s) id (Some (t, p, g))) (v_fence s) (v_obligation s).
Definition set_fence (t : DrainTarget) (g : Generation) (h : option DrainId) (s : view) : view :=
  MkView (v_drain s) (at_key (v_fence s) t (g, h)) (v_obligation s).
Definition set_obligation (o : ObligationId) (g : Generation) (deps : list DrainTarget) (live : bool)
    (s : view) : view :=
  MkView (v_drain s) (v_fence s) (at_key (v_obligation s) o (Some (g, deps, live))).

#[export] Instance set_drain_proper id t p g : Proper ((≡) ==> (≡)) (set_drain id t p g).
Proof. intros s s' (Hd & Hf & Ho). split_and!; simpl; intros; unfold at_key; [case_decide|..]; eauto. Qed.
#[export] Instance set_fence_proper t g h : Proper ((≡) ==> (≡)) (set_fence t g h).
Proof. intros s s' (Hd & Hf & Ho). split_and!; simpl; intros; unfold at_key; [|case_decide|]; eauto. Qed.
#[export] Instance set_obligation_proper o g deps live : Proper ((≡) ==> (≡)) (set_obligation o g deps live).
Proof. intros s s' (Hd & Hf & Ho). split_and!; simpl; intros; unfold at_key; [..|case_decide]; eauto. Qed.

(** Phase changes that do not touch a fence. *)
Definition phase_move (p p' : phase) : bool :=
  match p, p' with
  | Waiting, (Waiting | Gone | Abandoned) => true
  | Holding, (Holding | Gone | Abandoned) => true
  | Leaving, (Leaving | Abandoned | Released) => true
  | Done, Done | Gone, Gone | Abandoned, Abandoned | Released, Released => true
  | _, _ => false
  end.

Inductive action : Set :=
  | ASkip | AMove (id : DrainId) | ARequest (id : DrainId) | AClose (id : DrainId)
  | AComplete (id : DrainId) | AReopen (id : DrainId)
  | AAdmit (o : ObligationId) | AReport (o : ObligationId) | AReappear (o : ObligationId).

(** One step of the protocol. *)
Inductive astep : action → view → view → Prop :=
  | as_skip s s' : s' ≡ s → astep ASkip s s'
  | as_move s s' id t p p' g :
      v_drain s id = Some (t, p, g) → phase_move p p' = true →
      s' ≡ set_drain id t p' g s → astep (AMove id) s s'
  | as_request s s' id t :
      v_drain s id = None → (∀ id' p g, v_drain s id' = Some (t, p, g) → p = Released) →
      s' ≡ set_drain id t Waiting 0 s → astep (ARequest id) s s'
      (** closing: the fence must be open or already this drain's; the record
          fails to leave [Waiting] only when its revision space is exhausted *)
  | as_close s s' id t p' g0 g h :
      v_drain s id = Some (t, Waiting, g0) → v_fence s t = (g, h) → h = None ∨ h = Some id →
      p' = Holding ∨ p' = Waiting →
      s' ≡ set_drain id t p' (g + 1) (set_fence t (g + 1) (Some id) s) → astep (AClose id) s s'
  | as_complete s s' id t g :
      v_drain s id = Some (t, Holding, g) →
      (∀ o g' deps, v_obligation s o = Some (g', deps, true) → t ∉ deps) →
      s' ≡ set_drain id t Done g s → astep (AComplete id) s s'
      (** reopening: by the drain that holds the fence, or of an open fence, and
          always under a generation newer than the one the drain closed *)
  | as_reopen s s' id t p gd g h g' :
      v_drain s id = Some (t, p, gd) → p = Done ∨ p = Gone ∨ p = Abandoned →
      v_fence s t = (g, h) → h = None ∨ h = Some id →
      gd < g' → g ≤ g' → (h = Some id → g < g') →
      s' ≡ set_drain id t Leaving gd (set_fence t g' None s) → astep (AReopen id) s s'
  | as_admit s s' o g deps live :
      v_obligation s o = None → (∀ t, t ∈ deps → v_fence s t = (g, None)) →
      s' ≡ set_obligation o g deps live s → astep (AAdmit o) s s'
  | as_report s s' o g deps live live' :
      v_obligation s o = Some (g, deps, live) → (live' = true → live = true) →
      s' ≡ set_obligation o g deps live' s → astep (AReport o) s s'
  | as_reappear s s' o g deps :
      v_obligation s o = Some (g, deps, false) →
      s' ≡ set_obligation o g deps true s → astep (AReappear o) s s'.

(** Runs. *)
Inductive arun : list action → view → view → Prop :=
  | run_nil s s' : s' ≡ s → arun [] s s'
  | run_cons a tr s s1 s' : astep a s s1 → arun tr s1 s' → arun (a :: tr) s s'.

Lemma astep_proper_l a s1 s2 s' : s1 ≡ s2 → astep a s1 s' → astep a s2 s'.
Proof.
  intros He Hs. pose proof He as (Hd & Hf & Ho). symmetry in He.
  destruct Hs; simplify_eq;
    [eapply as_skip|eapply as_move|eapply as_request|eapply as_close|eapply as_complete
    |eapply as_reopen|eapply as_admit|eapply as_report|eapply as_reappear];
    rewrite <-?Hd, <-?Hf, <-?Ho, ?He; try done; intros *; rewrite <-?Hd, <-?Hf, <-?Ho; eauto.
Qed.

Lemma arun_proper_l tr s1 s2 s' : s1 ≡ s2 → arun tr s1 s' → arun tr s2 s'.
Proof.
  intros He Hr. destruct Hr; [apply run_nil; by rewrite <-He|].
  eapply run_cons; [by eapply astep_proper_l|done].
Qed.

Lemma arun_app tr1 tr2 s1 s2 s3 : arun tr1 s1 s2 → arun tr2 s2 s3 → arun (tr1 ++ tr2) s1 s3.
Proof.
  intros Hr. revert s3. induction Hr as [s s' He|]; intros s3 H2; simpl; [by eapply arun_proper_l|].
  eapply run_cons; eauto.
Qed.

Lemma arun_one a s s' : astep a s s' → arun [a] s s'.
Proof. intros. eapply run_cons; [done|]. by apply run_nil. Qed.

(** A property of views that every step keeps is kept by runs. *)
Lemma arun_ind_inv (P : view → Prop) (Q : action → Prop) tr s s' :
  (∀ s s', s ≡ s' → P s → P s') → (∀ a s s', Q a → astep a s s' → P s → P s') →
  Forall Q tr → arun tr s s' → P s → P s'.
Proof.
  intros Hp Hq HQ Hr. induction Hr as [s s' He|]; [by apply Hp|].
  inversion HQ; subst. eauto.
Qed.

(** ** Invariants *)

(** A drain that holds admission, or completed behind it, owns the closed fence
    of its target at the generation it recorded. *)
Definition fence_owned (s : view) : Prop :=
  ∀ id t p g, v_drain s id = Some (t, p, g) → p = Holding ∨ p = Done → v_fence s t = (g, Some id).

(** No obligation is bound at a generation the fence has closed. *)
Definition bound_before_closure (s : view) : Prop :=
  ∀ o g deps live t, v_obligation s o = Some (g, deps, live) → t ∈ deps →
    g ≤ (v_fence s t).1 ∧ ((v_fence s t).2 ≠ None → g < (v_fence s t).1).

(** A drain never records a generation its target has not reached. *)
Definition generation_reached (s : view) : Prop :=
  ∀ id t p g, v_drain s id = Some (t, p, g) → 0 ≤ g ≤ (v_fence s t).1.

(** A drain that gave up before any restoration keeps the closure it made: its
    fence stays closed in its name until its own restoration. *)
Definition gone_closed (s : view) : Prop :=
  ∀ id t p g, v_drain s id = Some (t, p, g) → p = Waiting ∨ p = Gone → g ≠ 0 → v_fence s t = (g, Some id).

(** At most one drain owns a target. *)
Definition unique_owner (s : view) : Prop :=
  ∀ id1 id2 t p1 p2 g1 g2, v_drain s id1 = Some (t, p1, g1) → v_drain s id2 = Some (t, p2, g2) →
    p1 ≠ Released → p2 ≠ Released → id1 = id2.

(** A closed fence names a drain of its target, which recorded its generation. *)
Definition fence_has_drain (s : view) : Prop :=
  ∀ t g id, v_fence s t = (g, Some id) → ∃ p, v_drain s id = Some (t, p, g).

(** A drain that reopened admission does not hold its fence any more, and the
    fence has moved past the generation it recorded. *)
Definition left_open (s : view) : Prop :=
  ∀ id t p g, v_drain s id = Some (t, p, g) → p = Leaving ∨ p = Released →
    (v_fence s t).2 ≠ Some id ∧ g < (v_fence s t).1.

(** No live protected obligation depends on a completed target. *)
Definition done_is_clear (s : view) : Prop :=
  ∀ id t g o g' deps, v_drain s id = Some (t, Done, g) → v_obligation s o = Some (g', deps, true) →
    t ∉ deps.

Record protocol_inv (s : view) : Prop := {
  pi_owned : fence_owned s;
  pi_bound : bound_before_closure s;
  pi_reached : generation_reached s;
  pi_unique : unique_owner s;
  pi_named : fence_has_drain s;
  pi_left : left_open s;
  pi_nonneg : ∀ t, 0 ≤ (v_fence s t).1;
  pi_gone : gone_closed s;
}.

Lemma protocol_inv_proper s s' : s ≡ s' → protocol_inv s → protocol_inv s'.
Proof.
  intros (Hd & Hf & Ho) [H1 H2 H3 H4 H5 H7 H6 H8].
  split; red; repeat setoid_rewrite <-Hd; repeat setoid_rewrite <-Hf; repeat setoid_rewrite <-Ho; done.
Qed.

(** Case analysis on whether a key is the updated one. *)
Ltac at_key_cases :=
  repeat match goal with
  | H : context [at_key _ ?k _ ?k] |- _ => rewrite at_key_eq in H; simplify_eq/=
  | |- context [at_key _ ?k _ ?k] => rewrite at_key_eq; simplify_eq/=
  | H : at_key _ ?k _ ?x = _ |- _ =>
      unfold at_key in H; destruct (decide (x = k)); [subst x|]; simplify_eq/=
  | H : context [at_key _ ?k _ ?x] |- _ =>
      unfold at_key in H; destruct (decide (x = k)); [subst x|]; simplify_eq/=
  | |- context [at_key _ ?k _ ?x] =>
      unfold at_key; destruct (decide (x = k)); [subst x|]; simplify_eq/=
  end.

(** A drain that changes phase without touching its fence. *)
Lemma move_inv id t p p' g s :
  protocol_inv s → v_drain s id = Some (t, p, g) → phase_move p p' = true →
  protocol_inv (set_drain id t p' g s).
Proof.
  intros [H1 H2 H3 H4 H5 H7 H6 H8] Hd Hm.
  assert (p' ≠ Released → p ≠ Released) as Hnr by (by destruct p, p').
  split; simpl; [| done | | | | | done |].
  - intros id' t' q g' Hq Hp. simpl in *. at_key_cases; [|by eapply H1].
    eapply H1; [done|]. destruct Hp; subst q; destruct p; auto; done.
  - intros id' t' q g' Hq. simpl in *. at_key_cases; eauto.
  - intros i1 i2 t' p1 p2 g1 g2 E1 E2 N1 N2. simpl in *. at_key_cases; try done.
    all: eapply H4; eauto.
  - intros t' g' id' Hf. simpl in *. destruct (H5 _ _ _ Hf) as (q & Hq). at_key_cases; eauto.
  - intros id' t' q g' Hq Hp. simpl in *. at_key_cases; [|by eapply H7].
    eapply H7; [done|]. destruct Hp; subst q; destruct p; auto; done.
  - intros id' t' q g' Hq Hp Hg. simpl in *. at_key_cases; [|by eapply H8].
    destruct p; first [by eapply H8; [exact Hd|auto|done]|by eapply H1; [exact Hd|auto]|by destruct Hp; subst].
Qed.

Lemma request_inv id t s :
  protocol_inv s → v_drain s id = None →
  (∀ id' p g, v_drain s id' = Some (t, p, g) → p = Released) →
  protocol_inv (set_drain id t Waiting 0 s).
Proof.
  intros [H1 H2 H3 H4 H5 H7 H6 H8] Hd Hr. split; simpl; [| done | | | | | done |].
  - intros id' t' q g' Hq Hp. simpl in *. at_key_cases; [by destruct Hp|by eapply H1].
  - intros id' t' q g' Hq. simpl in *. at_key_cases; [done|eauto].
  - intros i1 i2 t' p1 p2 g1 g2 E1 E2 N1 N2. simpl in *. at_key_cases; try done.
    + destruct N1. eapply Hr; eauto.
    + destruct N2. eapply Hr; eauto.
    + by eapply H4.
  - intros t' g' id' Hf. simpl in *. destruct (H5 _ _ _ Hf) as (q & Hq). at_key_cases; eauto.
  - intros id' t' q g' Hq Hp. simpl in *. at_key_cases; [by destruct Hp|by eapply H7].
  - intros id' t' q g' Hq Hp Hg. simpl in *. at_key_cases. by eapply H8.
Qed.

(** A fence moved to a generation no older, by its holder or while open. *)
Lemma refence_inv id t p q gd gd' g h g' h' s :
  protocol_inv s → v_drain s id = Some (t, p, gd) → v_fence s t = (g, h) →
  h = None ∨ h = Some id → g ≤ g' → 0 ≤ gd' ≤ g' → p ≠ Released →
  (h ≠ None → g < g') → (h' ≠ None → g < g') → h' = None ∨ h' = Some id →
  (h' = Some id → gd' = g') → (q ≠ Leaving → h' = Some id) → q ≠ Released →
  (q = Leaving → h' = None ∧ gd' < g') →
  protocol_inv (set_drain id t q gd' (set_fence t g' h' s)).
Proof.
  intros [H1 H2 H3 H4 H5 H7 H6 H8] Hd Hf Hh Hle Hgd Hp Hlt Hlt' Hh' Heq Hq Hnr Hlv. split; simpl.
  - intros i t' q' k Hk Hp'. simpl in *. at_key_cases.
    + assert (h' = Some id) as Eh by (apply Hq; by intros ->; destruct Hp'). by rewrite Eh, Heq.
    + destruct Hh as [-> | ->]; pose proof (H1 _ _ _ _ Hk Hp') as E; congruence.
    + by eapply H1.
  - intros o k deps live t' Ho Ht. simpl in *. destruct (H2 _ _ _ _ _ Ho Ht) as [? Hc]. at_key_cases; [|done].
    rewrite Hf in *. simpl in *. split; [lia|]. intros Hn. specialize (Hlt' Hn). lia.
  - intros i t' q' k Hk. simpl in *. at_key_cases; [done| |eauto].
    pose proof (H3 _ _ _ _ Hk) as Hr. rewrite Hf in Hr. simpl in *. lia.
  - intros i1 i2 t' p1 p2 g1 g2 E1 E2 N1 N2. simpl in *. at_key_cases; try done; [| |by eapply H4]; eapply H4; eauto.
  - intros t' k i Hk. simpl in *. at_key_cases; eauto.
    + destruct Hh' as [|Hh']; [congruence|]. simplify_eq. by rewrite (Heq eq_refl) in *; eauto.
    + destruct Hh' as [|]; congruence.
    + destruct (H5 _ _ _ Hk) as (? & ?). congruence.
  - intros i t' q' k Hk Hp'. simpl in *. at_key_cases.
    + destruct Hp' as [Hp'|Hp']; [|done]. by destruct (Hlv Hp') as [-> ?].
    + destruct (H7 _ _ _ _ Hk Hp') as [_ Hn]. rewrite Hf in Hn. simpl in Hn.
      split; [destruct Hh' as [-> | ->]; congruence|lia].
    + by eapply H7.
  - intros t'. simpl. at_key_cases; [|done]. specialize (H6 t). rewrite Hf in H6. simpl in *. lia.
  - intros i t' q' k Hk Hp' Hg'. simpl in *. at_key_cases.
    + assert (h' = Some id) as Eh by (apply Hq; by intros ->; destruct Hp'). by rewrite Eh, Heq.
    + pose proof (H8 _ _ _ _ Hk Hp' Hg') as E. destruct Hh as [-> | ->]; congruence.
    + by eapply H8.
Qed.

Lemma obligation_inv o g deps live s :
  protocol_inv s →
  (∀ t, t ∈ deps → g ≤ (v_fence s t).1 ∧ ((v_fence s t).2 ≠ None → g < (v_fence s t).1)) →
  protocol_inv (set_obligation o g deps live s).
Proof.
  intros [H1 H2 H3 H4 H5 H7 H6 H8] Ho. split; simpl; try done.
  intros o' k ds l t Hk Ht. simpl in *. at_key_cases; eauto.
Qed.

(** Every step of the protocol keeps the invariant. *)
Lemma astep_inv a s s' : astep a s s' → protocol_inv s → protocol_inv s'.
Proof.
  intros Hs HI. destruct Hs as [s s' He|s s' id t p p' g Hd Hm He|s s' id t Hd Hr He
    |s s' id t p' g0 g h Hd Hf Hh Hp He|s s' id t g Hd _ He|s s' id t p gd g h g' Hd Hp Hf Hh Hg Hg' Hlt He
    |s s' o g deps live Ho Hf He|s s' o g deps live live' Ho _ He|s s' o g deps Ho He];
    (eapply protocol_inv_proper; [symmetry; exact He|]); clear He s'.
  - done.
  - by eapply move_inv.
  - by apply request_inv.
  - pose proof (pi_nonneg _ HI t) as Hn. rewrite Hf in Hn. simpl in Hn.
    eapply refence_inv; eauto; try lia; try done; by destruct Hp; subst.
  - pose proof HI as [H1 H2 H3 H4 H5 H7 H6 H8]. split; simpl; [| done | | | | | done |].
    + intros id' t' q g' Hq Hp. simpl in *. at_key_cases; eauto.
    + intros id' t' q g' Hq. simpl in *. at_key_cases; eauto.
    + intros i1 i2 t' p1 p2 g1 g2 E1 E2 N1 N2. simpl in *. at_key_cases; try done; [| |by eapply H4]; eapply H4; eauto.
    + intros t' g' id' Hf. simpl in *. destruct (H5 _ _ _ Hf) as (q & Hq). at_key_cases; eauto.
    + intros id' t' q g' Hq Hp. simpl in *. at_key_cases; [by destruct Hp|by eapply H7].
    + intros id' t' q g' Hq Hp Hg. simpl in *. at_key_cases; [by destruct Hp|by eapply H8].
  - pose proof (pi_reached _ HI _ _ _ _ Hd) as [Hn _].
    eapply refence_inv; eauto; try lia; try done;
      first [by destruct Hp as [|[]]; subst|naive_solver].
  - apply obligation_inv; [done|]. intros t Ht. rewrite (Hf t Ht). simpl. split; [lia|done].
  - apply obligation_inv; [done|]. intros. by eapply pi_bound.
  - apply obligation_inv; [done|]. intros. by eapply pi_bound.
Qed.

(** A completed target stays clear of live protected obligations unless one is
    reported to have come back. *)
Lemma astep_clear a s s' :
  astep a s s' → (∀ o, a ≠ AReappear o) → protocol_inv s → done_is_clear s → done_is_clear s'.
Proof.
  intros Hs Hna HI HC. assert (∀ u v, u ≡ v → done_is_clear u → done_is_clear v) as Hpr.
  { intros u v (Hd & _ & Ho). unfold done_is_clear. by setoid_rewrite Hd; setoid_rewrite Ho. }
  destruct Hs as [s s' He|s s' id t p p' g Hd Hm He|s s' id t Hd Hr He
    |s s' id t p' g0 g h Hd Hf Hh Hp He|s s' id t g Hd Hall He|s s' id t p gd g h g' Hd Hp Hf Hh Hg Hg' Hlt He
    |s s' o g deps live Ho Hf He|s s' o g deps live live' Ho Hl He|s s' o g deps Ho He];
    try (eapply Hpr; [symmetry; exact He|]); clear He;
    try (intros i t1 k1 o1 k2 ds E1 E2; simpl in *).
  - by eapply HC.
  - at_key_cases; [|by eapply HC]. eapply HC; [|done]. by destruct p.
  - at_key_cases. by eapply HC.
  - at_key_cases; [by destruct Hp|by eapply HC].
  - at_key_cases; [by eapply Hall|by eapply HC].
  - at_key_cases. by eapply HC.
  - at_key_cases; [|by eapply HC]. intros Hin.
    pose proof (pi_owned _ HI _ _ _ _ E1 (or_intror eq_refl)) as E. by rewrite (Hf _ Hin) in E.
  - at_key_cases; [|by eapply HC]. specialize (Hl eq_refl). subst. by eapply HC.
  - by destruct (Hna o).
Qed.

Lemma arun_inv tr s s' : arun tr s s' → protocol_inv s → protocol_inv s'.
Proof.
  intros Hr. eapply (arun_ind_inv protocol_inv (λ _, True) tr);
    [apply protocol_inv_proper|by eauto using astep_inv|by apply Forall_true|done].
Qed.

Definition is_reappear (a : action) : bool := match a with AReappear _ => true | _ => false end.

Lemma arun_clear tr s s' :
  arun tr s s' → existsb is_reappear tr = false → protocol_inv s → done_is_clear s → done_is_clear s'.
Proof.
  intros Hr Hn HI HC. pose proof (proj1 (existsb_false_elem is_reappear tr) Hn) as Hn'. clear Hn.
  assert (protocol_inv s' ∧ done_is_clear s') as [_ ?]; [|done].
  eapply (arun_ind_inv (λ u, protocol_inv u ∧ done_is_clear u) (λ a, is_reappear a = false) tr); [| | |done|done].
  - intros u v He [? HC']. split; [by eapply protocol_inv_proper|]. destruct He as (Hd & _ & Ho).
    unfold done_is_clear. by setoid_rewrite <-Hd; setoid_rewrite <-Ho.
  - intros a u v Ha Hs [??]. split; [by eapply astep_inv|]. eapply astep_clear; eauto. by intros o ->.
  - by apply Forall_forall.
Qed.

(** Fence generations never go back. *)
Lemma arun_fence_monotone tr s s' t : arun tr s s' → (v_fence s t).1 ≤ (v_fence s' t).1.
Proof.
  intros Hr. induction Hr as [s s' (_ & Hf & _)|a tr s s1 s' Hs Hr IH]; [by rewrite Hf|].
  etrans; [|exact IH]. clear IH Hr.
  destruct Hs as [? ? He|? ? ? ? ? ? ? _ _ He|? ? ? ? _ _ He|? ? ? ? ? ? ? ? _ Hf _ _ He|? ? ? ? ? _ _ He
    |? ? ? ? ? ? ? ? ? _ _ Hf _ _ ? _ He|? ? ? ? ? ? _ _ He|? ? ? ? ? ? ? _ _ He|? ? ? ? ? _ He];
    destruct He as (_ & He & _); rewrite He; simpl; try lia;
    unfold at_key; case_decide; subst; rewrite ?Hf; simpl; lia.
Qed.

Definition initial_view : view := MkView (λ _, None) (λ _, (0, None)) (λ _, None).

Lemma initial_inv : protocol_inv initial_view.
Proof. by split. Qed.
Lemma initial_clear : done_is_clear initial_view.
Proof. done. Qed.
