(* ===== verification/Engine.v ===== *)
(** * The drain engine: state, bookkeeping and evaluators

    [include/drain/engine.hpp] and the helpers of [src/engine.cpp] that run with
    the engine mutex held: decisions, blockers, the record transition, and the
    evaluators that decide whether a drain may take its next step.

    Every public mutator of the C++ class takes the mutex for its whole critical
    section, so a mutator is one atomic function on [engine].  A [DrainRecord&]
    bound to an element of [drains_] is modelled by storing the record back into
    [en_drains] at every assignment, so that code which iterates over [drains_]
    sees the current value, as it does through the reference. *)

From S2P Require Import Prelude Containers Checked Result Text Identity Lifecycle Obligation Evidence.
From S2P Require Import Authority Admission Topology Policy Decision.

Definition kMaxDrains : Z := 65536.
Definition kMaxDrainSets : Z := 16384.

(** The members of [drain::DrainEngine]; the mutex, the clock and the sink are the environment's. *)
Record engine := MkEngine {
  en_policy : DrainPolicy;
  en_topology : Topology;
  en_obligations : ObligationTable;
  en_evidence : EvidenceLedger;
  en_authority : AuthorityRegistry;
  en_fence : AdmissionFence;
  en_drains : omap DrainId DrainRecord;
  en_sets : omap DrainSetId DrainSet;
  en_exceptions : omap DrainId (list ExceptionGrant);
  en_nonce_sets : omap RequestNonce DrainSetId;
  en_decisions : list Decision;
  en_drain_high_water : DrainId;
  en_set_high_water : DrainSetId;
  en_exception_high_water : Z;
  en_stats : EngineStats;
}.

#[export] Instance eta_engine : Eta engine := λ r,
  MkEngine
    (en_policy r) (en_topology r) (en_obligations r) (en_evidence r) (en_authority r)
    (en_fence r) (en_drains r) (en_sets r) (en_exceptions r) (en_nonce_sets r) (en_decisions r)
    (en_drain_high_water r) (en_set_high_water r) (en_exception_high_water r) (en_stats r).
#[export] Instance upd_en_policy : Update en_policy := ltac:(solve_update en_policy).
#[export] Instance upd_en_topology : Update en_topology := ltac:(solve_update en_topology).
#[export] Instance upd_en_obligations : Update en_obligations := ltac:(solve_update en_obligations).
#[export] Instance upd_en_evidence : Update en_evidence := ltac:(solve_update en_evidence).
#[export] Instance upd_en_authority : Update en_authority := ltac:(solve_update en_authority).
#[export] Instance upd_en_fence : Update en_fence := ltac:(solve_update en_fence).
#[export] Instance upd_en_drains : Update en_drains := ltac:(solve_update en_drains).
#[export] Instance upd_en_sets : Update en_sets := ltac:(solve_update en_sets).
#[export] Instance upd_en_exceptions : Update en_exceptions := ltac:(solve_update en_exceptions).
#[export] Instance upd_en_nonce_sets : Update en_nonce_sets := ltac:(solve_update en_nonce_sets).
#[export] Instance upd_en_decisions : Update en_decisions := ltac:(solve_update en_decisions).
#[export] Instance upd_en_drain_high_water : Update en_drain_high_water := ltac:(solve_update en_drain_high_water).
#[export] Instance upd_en_set_high_water : Update en_set_high_water := ltac:(solve_update en_set_high_water).
#[export] Instance upd_en_exception_high_water : Update en_exception_high_water := ltac:(solve_update en_exception_high_water).
#[export] Instance upd_en_stats : Update en_stats := ltac:(solve_update en_stats).
Arguments upd_en_policy f r /.
Arguments upd_en_topology f r /.
Arguments upd_en_obligations f r /.
Arguments upd_en_evidence f r /.
Arguments upd_en_authority f r /.
Arguments upd_en_fence f r /.
Arguments upd_en_drains f r /.
Arguments upd_en_sets f r /.
Arguments upd_en_exceptions f r /.
Arguments upd_en_nonce_sets f r /.
Arguments upd_en_decisions f r /.
Arguments upd_en_drain_high_water f r /.
Arguments upd_en_set_high_water f r /.
Arguments upd_en_exception_high_water f r /.
Arguments upd_en_stats f r /.

(** The constructor. *)
Definition new_engine (policy : DrainPolicy) : engine :=
  MkEngine policy empty_topology (new_obligation_table (p_max_obligations policy))
    (new_evidence_ledger (p_max_evidence_records policy)) new_authority_registry ∅ ∅ ∅ ∅ ∅ [] 0 0 0
    zero_stats.

(** [truncate]. *)
Definition truncate_to (limit : nat) (text : string) : string :=
  if (String.length text <=? limit)%nat then text
  else String.substring 0 limit text ++s "...".
Definition truncate (text : string) : string := truncate_to 256 text.

Definition is_fence_holding_state (state : DrainState.t) : bool :=
  match state with
  | DrainState.AdmissionClosed | DrainState.Evacuating | DrainState.Quiescing
  | DrainState.Verifying => true
  | _ => false
  end.

Definition holds_fence (record : DrainRecord) : bool :=
  if is_fence_holding_state (dr_state record) then true
  else
    match dr_state record, dr_blocked_from record with
    | DrainState.Blocked, Some from => is_fence_holding_state from
    | _, _ => false
    end.

Definition transition_action (next : DrainState.t) : string := "enter-" ++s DrainState.to_string next.

(** Writing through a reference into [drains_]. *)
Definition put_drain (r : DrainRecord) (e : engine) : engine :=
  e <| en_drains := <[dr_id r := r]> (en_drains e) |>.

Definition bump (f : EngineStats → EngineStats) (e : engine) : engine := e <| en_stats := f (en_stats e) |>.

(** ** Decisions and blockers *)

Definition make_decision (action : string) (outcome : DecisionOutcome.t) (drain : DrainId)
    (set : DrainSetId) (generation : Generation) (now : TimePoint) (e : engine) : Decision :=
  MkDecision action outcome drain set generation (ar_epoch (en_authority e))
    (ar_incarnation (en_authority e)) 0 (p_revision (en_policy e)) (policy_fingerprint (en_policy e))
    now [] [] [] [].

(** [record_decision]: append, then drop from the front while over the limit. *)
Definition record_decision (decision : Decision) (e : engine) : engine :=
  let all := en_decisions e ++ [decision] in
  e <| en_decisions := drop (Z.to_nat (zlength all - p_max_decisions_retained (en_policy e))) all |>.

Definition make_blocker (code : BlockerCode.t) (subject detail : string) (since deadline : TimePoint)
  : Blocker :=
  MkBlocker code (truncate_to 192 subject) (truncate detail) since deadline.

Definition blocker_from_violation (record : DrainRecord) (v : TopologyViolation) (now : TimePoint)
  : Blocker :=
  let code :=
    match tv_kind v with
    | ViolationKind.None_ | ViolationKind.UnknownResource => BlockerCode.TopologyInconsistent
    | ViolationKind.CapacityPoolExhausted | ViolationKind.ReservationOverCapacity =>
        BlockerCode.CapacityInsufficient
    | ViolationKind.DiversityLost => BlockerCode.PathDiversityViolation
    | ViolationKind.RouteSevered => BlockerCode.AlternatePathLost
    end in
  let detail := tv_detail v ++s " required=" ++s decimal (tv_required v) ++s " remaining="
                ++s decimal (tv_remaining v) in
  let subject := if bool_decide (tv_subject v = "") then target_to_string (dr_target record)
                 else tv_subject v in
  make_blocker code subject detail now 0.

(** ** Reading authoritative state *)

Definition require_authority (authority : AuthorityId) (now : TimePoint) (e : engine) : status :=
  if authority =? 0 then
    fail ErrorCode.AuthorityRequired "this operation requires an authority token"
  else
    match ar_find authority (en_authority e) with
    | None =>
        fail ErrorCode.AuthorityRequired
          ("authority " ++s decimal authority ++s " is not known to this incarnation")
    | Some token => ar_validate token now (en_authority e)
    end.

(** [removal_owned_by]: out of service as [Unavailable] behind a fence this
    drain closed. *)
Definition removal_owned_by (record : DrainRecord) (e : engine) : bool :=
  match to_resource (tg_id (dr_target record)) (en_topology e) with
  | None => false
  | Some node =>
      if negb (bool_decide (rn_status node = ResourceStatus.Unavailable)) then false
      else
        match fence_entry (dr_target record) (en_fence e) with
        | None => false
        | Some entry => fe_closed entry && (fe_drain entry =? dr_id record)
        end
  end.

Definition evidence_fence (now : TimePoint) (e : engine) : EvidenceFence :=
  MkEvidenceFence (ar_incarnation (en_authority e)) (ar_epoch (en_authority e)) now
    (p_evidence_clock_skew (en_policy e)).

Definition outstanding_for (target : DrainTarget) (e : engine) : list Obligation :=
  outstanding_protected_dependents_of (en_obligations e) target.

Definition removal_is_reobservable (record : DrainRecord) (e : engine) : bool :=
  if negb (is_nil (outstanding_for (dr_target record) e)) then false
  else
    match fence_entry (dr_target record) (en_fence e) with
    | None => false
    | Some entry =>
        if negb (fe_closed entry) || negb (fe_generation entry =? dr_generation record) then false
        else
          match to_resource (tg_id (dr_target record)) (en_topology e) with
          | None => false
          | Some node => bool_decide (rn_status node = ResourceStatus.Unavailable)
          end
    end.

Definition removal_key (record : DrainRecord) : EvidenceKey :=
  MkEvidenceKey EvidenceKind.ResourceRemoved (dr_id record) 0 (tg_id (dr_target record)).

(** [record_removal_evidence]. *)
Definition record_removal_evidence (record : DrainRecord) (now : TimePoint) (e : engine)
  : status * engine :=
  let key := removal_key record in
  match increment_checked u64 (el_high_water key (en_evidence e)) with
  | None => (fail ErrorCode.BoundsExceeded "the evidence sequence space is exhausted", e)
  | Some next_seq =>
      let draft :=
        MkEvidence next_seq key (dr_generation record) (ar_epoch (en_authority e))
          (ar_incarnation (en_authority e)) (dr_authority record) now
          (saturating_add now (p_evidence_freshness (en_policy e))) true 0
          ("removal observation taken by drain " ++s decimal (dr_id record)) false in
      match el_record draft (evidence_fence now e)
              (p_evidence_requires_live_incarnation (en_policy e)) (en_evidence e) with
      | (Err err, l) => (Err err, e <| en_evidence := l |>)
      | (Ok _, l) => (ok_status, e <| en_evidence := l |>)
      end
  end.

(** [grace_deadline_for]. *)
Definition grace_deadline_for (record : DrainRecord) (ob : Obligation) (e : engine) : TimePoint :=
  let deadline := saturating_add (ob_admitted_at ob) (grace_for (en_policy e) ob) in
  foldl (λ deadline grant,
    if (eg_obligation grant =? 0) || (eg_obligation grant =? ob_id ob)
    then saturating_add deadline (eg_extension grant) else deadline)
    deadline (default [] (en_exceptions e !! dr_id record)).

(** [active_drains_in_domain]. *)
Definition active_drains_in_domain (domain : DomainId) (exclude : DrainId) (e : engine) : Z :=
  zlength (List.filter (λ p : DrainId * DrainRecord,
    if p.1 =? exclude then false
    else if negb (bool_decide (tg_domain (dr_target p.2) = domain)) then false
    else holds_fence p.2) (om_list (en_drains e))).

(** ** Applying a transition *)

(** [apply_transition]; the decision is logged whether or not the record moved. *)
Definition apply_transition (record : DrainRecord) (next : DrainState.t) (now : TimePoint)
    (detail : string) (outcome : DecisionOutcome.t) (inputs evidence_notes rejected : list string)
    (e : engine) : bool * engine :=
  let previous := dr_state record in
  match transition next now detail record with
  | (Err err, record) =>
      let d := make_decision "transition-rejected" DecisionOutcome.Rejected (dr_id record)
                 (dr_set record) (dr_generation record) now e in
      let d := d <| de_inputs := ["from=" ++s DrainState.to_string previous;
                                  "to=" ++s DrainState.to_string next] |> in
      let d := d <| de_rejected := [error_to_string err] |> in
      (false, record_decision d (put_drain record e))
  | (Ok _, record) =>
      let e := bump (λ s, s <| st_transitions := u64_inc (st_transitions s) |>) e in
      let d := make_decision (transition_action next) outcome (dr_id record) (dr_set record)
                 (dr_generation record) now e in
      let d := d <| de_inputs := ["from=" ++s DrainState.to_string previous;
                                  "detail=" ++s truncate detail] ++ inputs |> in
      let d := d <| de_evidence := evidence_notes |> in
      let d := d <| de_rejected := rejected |> in
      let d := if bool_decide (next = DrainState.Blocked) then d <| de_blockers := dr_blockers record |>
               else d in
      (true, record_decision d (put_drain record e))
  end.

(** [enter_blocked]. *)
Definition enter_blocked (record : DrainRecord) (blockers : list Blocker) (now : TimePoint)
    (action : string) (e : engine) : bool * engine :=
  let blockers := unique_by blocker_eqb (sort_by blocker_ltb blockers) in
  let blockers :=
    if p_max_blockers_per_drain (en_policy e) <? zlength blockers
    then take (Z.to_nat (p_max_blockers_per_drain (en_policy e))) blockers else blockers in
  let record := set_blockers blockers record in
  let e := bump (λ s, s <| st_blocked_evaluations := u64_inc (st_blocked_evaluations s) |>)
             (put_drain record e) in
  if bool_decide (dr_state record = DrainState.Blocked) then
    let d := make_decision action DecisionOutcome.Blocked (dr_id record) (dr_set record)
               (dr_generation record) now e in
    let d := d <| de_blockers := dr_blockers record |> in
    (false, record_decision d e)
  else
    apply_transition record DrainState.Blocked now action DecisionOutcome.Blocked [] []
      ["ignore-the-blocker"] e.

(** ** Evaluators *)

(** A drain that has not yet closed admission. *)
Definition is_waiting (other : DrainRecord) : bool :=
  match dr_state other, dr_blocked_from other with
  | DrainState.Requested, _ | DrainState.Validating, _ => true
  | DrainState.Blocked, Some DrainState.Requested | DrainState.Blocked, Some DrainState.Validating => true
  | _, _ => false
  end.

(** The lowest waiting id of the domain, other than the drain itself. *)
Definition frontmost_waiting (record : DrainRecord) (e : engine) : option DrainId :=
  foldl (λ front p,
    let '(id, other) := p in
    if (id =? dr_id record) || negb (bool_decide (tg_domain (dr_target other) = tg_domain (dr_target record)))
    then front
    else if negb (is_waiting other) then front
    else match front with
         | None => Some id
         | Some f => if id <? f then Some id else Some f
         end) None (om_list (en_drains e)).

(** The first unsettled predecessor of the record in its own set, same domain. *)
Fixpoint set_predecessor (record : DrainRecord) (members : list DrainId) (e : engine) : option DrainId :=
  match members with
  | [] => None
  | member :: members =>
      if member =? dr_id record then None
      else
        match en_drains e !! member with
        | None => set_predecessor record members e
        | Some other =>
            if negb (bool_decide (tg_domain (dr_target other) = tg_domain (dr_target record)))
            then set_predecessor record members e
            else if negb (is_settled (dr_state other)) then Some member
            else set_predecessor record members e
        end
  end.

(** The authority blocker of [evaluate_start]. *)
Definition start_authority_blockers (record : DrainRecord) (now : TimePoint) (e : engine) : list Blocker :=
  if dr_authority record =? 0 then
    [make_blocker BlockerCode.AuthorityInvalid "authority:none"
       "the drain was requested without an authority token" now 0]
  else
    let issued_by_live_incarnation :=
      match ar_find (dr_authority record) (en_authority e) with
      | Some token => at_incarnation token =? ar_incarnation (en_authority e)
      | None => false
      end in
    if issued_by_live_incarnation then
      match require_authority (dr_authority record) now e with
      | Ok _ => []
      | Err err => [make_blocker BlockerCode.AuthorityInvalid ("authority:" ++s decimal (dr_authority record))
                      (err_message err) now 0]
      end
    else [].

(** [evaluate_start]. *)
Definition evaluate_start (record : DrainRecord) (now : TimePoint) (e : engine) : list Blocker :=
  let target := dr_target record in
  let b_authority := start_authority_blockers record now e in
  let b_fence :=
    match fence_entry target (en_fence e) with
    | Some entry =>
        if fe_closed entry && negb (fe_drain entry =? dr_id record) then
          [make_blocker BlockerCode.GenerationSuperseded (target_to_string target)
             "another drain holds the admission fence for this target" now 0]
        else []
    | None => []
    end in
  let node := to_resource (tg_id target) (en_topology e) in
  let b_node :=
    match node with
    | None => [make_blocker BlockerCode.TopologyInconsistent (target_to_string target)
                 "the target is not present in the topology" now 0]
    | Some n =>
        if negb (in_service n) then
          [make_blocker BlockerCode.TopologyInconsistent (target_to_string target)
             "the target is already out of service" now 0]
        else []
    end in
  let holding := active_drains_in_domain (tg_domain target) (dr_id record) e in
  let b_domain :=
    if p_max_concurrent_drains_per_domain (en_policy e) <=? holding then
      [make_blocker BlockerCode.DomainLimitReached
         ("domain:" ++s (if bool_decide (tg_domain target = "") then "<none>" else tg_domain target))
         ("failure domain already hosts " ++s decimal holding ++s " drain(s) holding an admission fence")
         now 0]
    else [] in
  let b_front :=
    match frontmost_waiting record e with
    | Some front =>
        if front <? dr_id record then
          [make_blocker BlockerCode.SetPredecessorPending ("drain:" ++s decimal front)
             "an earlier drain in the same failure domain has not closed admission yet" now 0]
        else []
    | None => []
    end in
  let b_set :=
    if negb (dr_set record =? 0) && p_serialize_same_domain_in_set (en_policy e) then
      match en_sets e !! dr_set record with
      | Some set =>
          match set_predecessor record (ds_members set) e with
          | Some member =>
              [make_blocker BlockerCode.SetPredecessorPending ("drain:" ++s decimal member)
                 "predecessor in the same failure domain has not settled" now 0]
          | None => []
          end
      | None => []
      end
    else [] in
  let b_topology :=
    match node with
    | Some n =>
        if in_service n then
          let v := validate_removal (tg_id target) (p_capacity_headroom_numerator (en_policy e))
                     (p_capacity_headroom_denominator (en_policy e)) (en_topology e) in
          if negb (tv_ok v) then [blocker_from_violation record v now] else []
        else []
    | None => []
    end in
  b_authority ++ b_fence ++ b_node ++ b_domain ++ b_front ++ b_set ++ b_topology.

(** Still to be moved by the adjacent runtime. *)
Definition is_movable (ob : Obligation) : bool :=
  match ob_state ob with ObligationState.Admitted_ | ObligationState.Evacuating => true | _ => false end.

(** [evaluate_evacuation]. *)
Definition evaluate_evacuation (record : DrainRecord) (now : TimePoint) (e : engine) : list Blocker :=
  let outstanding := outstanding_for (dr_target record) e in
  let blockers := mjoin ((λ ob,
    if bool_decide (ob_state ob = ObligationState.Failed) then
      [make_blocker BlockerCode.ObligationFailed (obligation_label ob)
         "the adjacent runtime reported that evacuation failed" now 0]
    else
      let deadline := grace_deadline_for record ob e in
      if deadline <? now then
        [make_blocker BlockerCode.ObligationGraceExpired (obligation_label ob)
           "the policy grace window expired without a release report" now deadline]
      else []) <$> outstanding) in
  let movable := existsb is_movable outstanding in
  if movable && (p_max_evacuation_attempts (en_policy e) <=? dr_evacuation_requests record) then
    blockers ++ [make_blocker BlockerCode.EvacuationAttemptsExhausted ("drain:" ++s decimal (dr_id record))
                   ("automatic evacuation retries are exhausted; an exception grant or a "
                    ++s "manual release report is required") now 0]
  else blockers.

(** The verdict of [evaluate_quiescence] on one outstanding obligation: a
    blocker, or the right to retire it. *)
Definition quiescence_verdict (record : DrainRecord) (now : TimePoint) (e : engine) (ob : Obligation)
  : option Blocker * option ObligationId :=
  let blocked := λ code detail deadline,
    (Some (make_blocker code (obligation_label ob) detail now deadline), None) in
  match ob_state ob with
  | ObligationState.Admitted_ | ObligationState.Evacuating =>
      blocked BlockerCode.ProtectedObligationActive "the obligation has not been evacuated yet"
        (grace_deadline_for record ob e)
  | ObligationState.Quiescing | ObligationState.Released =>
      let seq := ob_release_evidence ob in
      if seq =? 0 then
        blocked BlockerCode.ReleaseEvidenceMissing
          "no release evidence was supplied with the release report" 0
      else
        let release_key := MkEvidenceKey EvidenceKind.ObligationReleased (dr_id record) (ob_id ob) "" in
        match el_find release_key seq (en_evidence e) with
        | None =>
            blocked BlockerCode.ReleaseEvidenceMissing
              "the referenced release evidence record does not exist" 0
        | Some ev =>
            if negb (is_fresh ev (evidence_fence now e) (p_evidence_freshness (en_policy e))) then
              blocked BlockerCode.ReleaseEvidenceStale
                "the release evidence is quarantined, superseded, or older than the freshness window"
                (saturating_add (ev_observed_at ev) (p_evidence_freshness (en_policy e)))
            else if negb (ev_generation ev =? dr_generation record) then
              blocked BlockerCode.GenerationSuperseded
                "the release evidence belongs to a different drain generation" 0
            else if ev_observed_at ev <? dr_admission_closed_at record then
              blocked BlockerCode.ReleaseEvidenceStale
                "the release evidence predates the admission boundary and cannot prove post-fence quiescence"
                0
            else (None, Some (ob_id ob))
        end
  | ObligationState.Failed =>
      blocked BlockerCode.ObligationFailed "the adjacent runtime reported that evacuation failed" 0
  | ObligationState.Retired => (None, None)
  end.

(** [evaluate_quiescence]: blockers and the obligations that may be retired. *)
Definition evaluate_quiescence (record : DrainRecord) (now : TimePoint) (e : engine)
  : list Blocker * list ObligationId :=
  let verdicts := quiescence_verdict record now e <$> outstanding_for (dr_target record) e in
  let blockers := base.omap fst verdicts in
  let retirable := base.omap snd verdicts in
  if negb (is_nil blockers) || negb (is_nil retirable) then (blockers, retirable)
  else
    let target := dr_target record in
    match to_resource (tg_id target) (en_topology e) with
    | None =>
        ([make_blocker BlockerCode.TopologyInconsistent (target_to_string target)
            "the target disappeared before the removal step" now 0], [])
    | Some node =>
        if negb (bool_decide (rn_status node = ResourceStatus.InService)) then
          if negb (removal_owned_by record e) then
            ([make_blocker BlockerCode.TopologyInconsistent (target_to_string target)
                "the target left service outside this drain, so this drain cannot claim its removal" now 0], [])
          else ([], [])
        else
          let v := validate_removal (tg_id target) (p_capacity_headroom_numerator (en_policy e))
                     (p_capacity_headroom_denominator (en_policy e)) (en_topology e) in
          if negb (tv_ok v) then ([blocker_from_violation record v now], []) else ([], [])
    end.

(** [evaluate_verification]: blockers and the sequence of the removal proof. *)
Definition evaluate_verification (record : DrainRecord) (now : TimePoint) (e : engine)
  : list Blocker * EvidenceSeq :=
  let target := dr_target record in
  let active := (λ ob, make_blocker BlockerCode.ProtectedObligationActive (obligation_label ob)
                  "a protected obligation still depends on the target" now 0)
                  <$> outstanding_for target e in
  if negb (is_nil active) then (active, 0)
  else
    let b_node :=
      match to_resource (tg_id target) (en_topology e) with
      | None =>
          [make_blocker BlockerCode.TopologyInconsistent (target_to_string target)
             "the target disappeared from the topology during verification" now 0]
      | Some _ =>
          if negb (removal_owned_by record e) then
            [make_blocker BlockerCode.TopologyInconsistent (target_to_string target)
               ("the removal step of this drain has not taken the target out of "
                ++s "service under this drain generation") now 0]
          else []
      end in
    if p_require_quiescence_evidence (en_policy e) then
      let key := removal_key record in
      match el_fresh key (evidence_fence now e) (p_evidence_freshness (en_policy e)) (en_evidence e) with
      | None =>
          (b_node ++ [make_blocker BlockerCode.QuiescenceEvidenceMissing (evidence_key_label key)
                        "no fresh removal evidence exists for this drain generation" now 0], 0)
      | Some candidate =>
          if negb (ev_generation candidate =? dr_generation record) then
            (b_node ++ [make_blocker BlockerCode.GenerationSuperseded (evidence_key_label key)
                          "the removal evidence belongs to a different drain generation" now 0], 0)
          else if ev_observed_at candidate <? dr_admission_closed_at record then
            (b_node ++ [make_blocker BlockerCode.ReleaseEvidenceStale (evidence_key_label key)
                          "the removal evidence predates the admission boundary" now 0], 0)
          else (b_node, ev_seq candidate)
      end
    else (b_node, 0).

(** [evaluate_state]. *)
Definition evaluate_state (record : DrainRecord) (state : DrainState.t) (now : TimePoint) (e : engine)
  : list Blocker :=
  match state with
  | DrainState.Requested | DrainState.Validating => evaluate_start record now e
  | DrainState.Evacuating => evaluate_evacuation record now e
  | DrainState.Quiescing => (evaluate_quiescence record now e).1
  | DrainState.Verifying => (evaluate_verification record now e).1
  | _ => []
  end.

(** [authoritative_digest_locked]. *)
Definition authoritative_digest (e : engine) : Z :=
  let d := foldl (λ d p,
    let '(id, node) := p in
    let d := digest_update_tagged d "resource" id in
    let d := digest_update_u64 d (ResourceStatus.rank (rn_status node)) in
    let d := digest_update_u64 d (rn_capacity node) in
    digest_update_u64 d (rn_reserved node)) kOffset (om_list (to_resources (en_topology e))) in
  let d := digest_update_u64 d (ot_digest (en_obligations e)) in
  let d := foldl (λ d p,
    let '(id, record) := p in
    let d := digest_update_u64 d id in
    let d := digest_update_u64 d (DrainState.rank (dr_state record)) in
    let d := digest_update_u64 d (dr_generation record) in
    digest_update_u64 d (dr_restore_generation record)) d (om_list (en_drains e)) in
  foldl (λ d p,
    let '(target, entry) := p in
    let d := digest_update_tagged d "fence" (target_to_string target) in
    let d := digest_update_bool d (fe_closed entry) in
    digest_update_u64 d (fe_generation entry)) d (om_list (en_fence e)).
