(* ===== verification/Snapshot.v ===== *)
(** * Snapshots

    [DrainEngine::snapshot] and [DrainEngine::restore] of [src/engine.cpp]: the
    whole state of the engine as one JSON document, and the conservative recovery
    from it.  Restoring stages every table first and replaces the engine's state
    only when all of them were accepted; nothing a previous incarnation produced
    is then treated as current. *)

From S2P Require Import Prelude Containers Checked Result Text Json Codec CodecTables CodecFabric CodecPolicy.
From S2P Require Import Identity Lifecycle Obligation Evidence Authority Admission Topology Policy Decision Engine.
#[local] Open Scope Z_scope.

Definition kSnapshotFormatVersion : Z := 1.

Definition nonce_to_json (p : RequestNonce * DrainSetId) : json := obj [("nonce", JUint p.1); ("set", JUint p.2)].

(** [DrainEngine::snapshot]. *)
Definition snapshot (e : engine) : json :=
  obj [("format_version", JUint kSnapshotFormatVersion); ("incarnation", JUint (ar_incarnation (en_authority e)));
       ("epoch", JUint (ar_epoch (en_authority e))); ("drain_high_water", JUint (en_drain_high_water e));
       ("set_high_water", JUint (en_set_high_water e)); ("exception_high_water", JUint (en_exception_high_water e));
       ("policy", policy_to_json (en_policy e)); ("topology", topology_to_json (en_topology e));
       ("obligations", table_to_json (en_obligations e)); ("evidence", ledger_to_json (en_evidence e));
       ("authority", registry_to_json (en_authority e)); ("fence", fence_to_json (en_fence e));
       ("drains", JArray (map drain_record_to_json (om_values (en_drains e))));
       ("sets", JArray (map drain_set_to_json (om_values (en_sets e))));
       ("exceptions", JArray (map grant_to_json (concat (om_values (en_exceptions e)))));
       ("nonces", JArray (map nonce_to_json (om_list (en_nonce_sets e))));
       ("decisions", JArray (map decision_to_json (en_decisions e)))].

(** [DrainEngine::clear_state_locked]. *)
Definition clear_state (e : engine) : engine :=
  MkEngine (en_policy e) empty_topology (new_obligation_table (ot_max_obligations (en_obligations e)))
    (new_evidence_ledger (el_max_records (en_evidence e))) new_authority_registry ∅ ∅ ∅ ∅ ∅ [] 0 0 0 zero_stats.

(** ** Restoring *)

(** An optional part of the document. *)
Definition load_part {A} (key : string) (load : json → result A) (absent : A) (snapshot : json) : result A :=
  match json_find key snapshot with Some value => load value | None => Ok absent end.

(** A part that must be an array of bounded size. *)
Definition load_array {A B} (what bounds : string) (bound : Z) (decode : json → result A) (add : A → B → result B)
    (staged : B) (value : json) : result B :=
  match value with
  | JArray items =>
      if bound <? zlength items then fail ErrorCode.BoundsExceeded bounds else load_all decode add items staged
  | _ => corrupt what
  end.

Definition load_drain (r : DrainRecord) (drains : omap DrainId DrainRecord) : result (omap DrainId DrainRecord) :=
  match emplace (dr_id r) r drains with
  | (_, false) => corrupt "duplicate drain id in snapshot"
  | (drains, true) => Ok drains
  end.

Definition load_set (s : DrainSet) (sets : omap DrainSetId DrainSet) : result (omap DrainSetId DrainSet) :=
  match emplace (ds_id s) s sets with
  | (_, false) => corrupt "duplicate drain set id in snapshot"
  | (sets, true) => Ok sets
  end.

(** [exceptions[grant->drain].push_back( *grant )]: grants are appended to their drain. *)
Definition load_grant (g : ExceptionGrant) (exceptions : omap DrainId (list ExceptionGrant))
  : result (omap DrainId (list ExceptionGrant)) :=
  Ok (<[eg_drain g := default [] (exceptions !! eg_drain g) ++ [g]]> exceptions).

Definition nonce_from_json (entry : json) : result (RequestNonce * DrainSetId) :=
  Ok (get_uint "nonce" 0 entry, get_uint "set" 0 entry).
Definition load_nonce (p : RequestNonce * DrainSetId) (nonces : omap RequestNonce DrainSetId)
  : result (omap RequestNonce DrainSetId) :=
  if p.1 =? 0 then Ok nonces else Ok (<[p.1 := p.2]> nonces).

Definition load_decision (d : Decision) (decisions : list Decision) : result (list Decision) := Ok (decisions ++ [d]).

(** States a drain cannot be resumed in after a restart. *)
Definition is_transient (state : DrainState.t) : bool :=
  match state with
  | DrainState.Validating | DrainState.AdmissionClosed | DrainState.Evacuating | DrainState.Quiescing
  | DrainState.Verifying | DrainState.Restoring => true
  | _ => false
  end.

Definition recovery_blocker (r : DrainRecord) (now : TimePoint) : Blocker :=
  MkBlocker BlockerCode.RestartRecoveryPending ("drain:" ++s decimal (dr_id r))
    ("recovered from state " ++s DrainState.to_string (dr_state r)
     ++s "; evidence must be re-attested before the drain can continue") now 0.

(** One iteration of the recovery loop. *)
Definition recover_drain (now : TimePoint) (r : DrainRecord) : result DrainRecord :=
  if negb (is_transient (dr_state r)) then Ok r
  else
    match transition DrainState.Blocked now "recovered after restart; revalidation required" r with
    | (Err err, _) => corrupt ("recovered drain could not be conservatively blocked: " ++s err_message err)
    | (Ok _, blocked) => Ok (set_blockers [recovery_blocker r now] blocked)
    end.

Fixpoint recover_drains (now : TimePoint) (l : list (DrainId * DrainRecord)) : result (list (DrainId * DrainRecord)) :=
  match l with
  | [] => Ok []
  | (id, r) :: l =>
      let? r := recover_drain now r in
      let? l := recover_drains now l in
      Ok ((id, r) :: l)
  end.

(** Everything [DrainEngine::restore] stages, before recovery. *)
Record staged_state := MkStaged {
  sg_policy : DrainPolicy;
  sg_topology : Topology;
  sg_obligations : ObligationTable;
  sg_evidence : EvidenceLedger;
  sg_authority : AuthorityRegistry;
  sg_fence : AdmissionFence;
  sg_drains : omap DrainId DrainRecord;
  sg_sets : omap DrainSetId DrainSet;
  sg_exceptions : omap DrainId (list ExceptionGrant);
  sg_nonces : omap RequestNonce DrainSetId;
  sg_decisions : list Decision;
}.

Definition stage (snapshot : json) (policy : DrainPolicy) : result staged_state :=
  let? policy := load_part "policy"
    (λ v, match policy_from_json v with Ok p => Ok p | Err err => corrupt ("snapshot policy rejected: " ++s err_message err) end)
    policy snapshot in
  let? topology := load_part "topology" topology_load_from_json empty_topology snapshot in
  let obligations := new_obligation_table (p_max_obligations policy) in
  let? obligations := load_part "obligations" (λ v, table_load_from_json v obligations) obligations snapshot in
  let evidence := new_evidence_ledger (p_max_evidence_records policy) in
  let? evidence := load_part "evidence" (λ v, ledger_load_from_json v evidence) evidence snapshot in
  let? authority := load_part "authority" registry_load_from_json new_authority_registry snapshot in
  let? fence := load_part "fence" fence_load_from_json ∅ snapshot in
  let? drains := load_part "drains"
    (load_array "snapshot drains payload is not an array" "snapshot drain count exceeds bound" kMaxDrains
       (λ v, rejected "drain record rejected: " (drain_record_from_json v)) load_drain ∅) ∅ snapshot in
  let? sets := load_part "sets"
    (load_array "snapshot sets payload is not an array" "snapshot drain set count exceeds bound" kMaxDrainSets
       (λ v, rejected "drain set rejected: " (drain_set_from_json v)) load_set ∅) ∅ snapshot in
  let? exceptions := load_part "exceptions"
    (load_array "snapshot exceptions payload is not an array" "snapshot exception count exceeds bound"
       (kMaxDrains * kHardMaxExceptionExtensions)
       (λ v, rejected "exception grant rejected: " (grant_from_json v)) load_grant ∅) ∅ snapshot in
  let? nonces := load_part "nonces"
    (load_array "snapshot nonce payload is not an array" "snapshot nonce count exceeds bound" kMaxDrainSets
       nonce_from_json load_nonce ∅) ∅ snapshot in
  let? decisions := load_part "decisions"
    (load_array "snapshot decision payload is not an array" "snapshot decision count exceeds bound"
       kHardMaxDecisionsRetained
       (λ v, rejected "decision record rejected: " (decision_from_json v)) load_decision []) [] snapshot in
  Ok (MkStaged policy topology obligations evidence authority fence drains sets exceptions nonces decisions).

(** The loops that raise a high-water mark to the ids present. *)
Definition raise_to {V} (mark : Z) (m : omap Z V) : Z :=
  foldl (λ mark p, if mark <? p.1 then p.1 else mark) mark (om_list m).

(** What [restore] computes, or the error it fails with. *)
Definition restored (snapshot : json) (previous_incarnation : IncarnationId) (now : TimePoint) (e : engine)
  : result engine :=
  if negb (is_object snapshot) then corrupt "snapshot payload is not a json object"
  else if negb (get_uint "format_version" 0 snapshot =? kSnapshotFormatVersion) then
    corrupt "unsupported snapshot format version"
  else
    let writer := get_uint "incarnation" 0 snapshot in
    if negb (previous_incarnation =? 0) && negb (writer =? previous_incarnation) then
      corrupt ("snapshot records incarnation " ++s decimal writer ++s " but the loader reported "
               ++s decimal previous_incarnation)
    else
      let? s := stage snapshot (en_policy e) in
      let drain_high_water := raise_to (get_uint "drain_high_water" 0 snapshot) (sg_drains s) in
      let set_high_water := raise_to (get_uint "set_high_water" 0 snapshot) (sg_sets s) in
      let! exceptions_mark := narrow_checked u32 u64 (get_uint "exception_high_water" 0 snapshot)
        else fail ErrorCode.BoundsExceeded "snapshot exception high-water mark does not fit a 32-bit counter" in
      let evidence := quarantine_all (sg_evidence s) in
      let authority := (revoke_all now "recovered from snapshot; authority never survives a restart" (sg_authority s)).2 in
      let? drains := recover_drains now (om_list (sg_drains s)) in
      let e := MkEngine (sg_policy s) (sg_topology s) (sg_obligations s) evidence authority (sg_fence s) (OMap drains)
                 (sg_sets s) (sg_exceptions s) (sg_nonces s) (sg_decisions s) drain_high_water set_high_water
                 exceptions_mark zero_stats in
      let decision := make_decision "restore-snapshot" DecisionOutcome.Applied 0 0 0 now e in
      let decision := decision <| de_inputs := ["previous-incarnation=" ++s decimal writer;
                                                "drains=" ++s decimal (om_size (en_drains e));
                                                "obligations=" ++s decimal (om_size (ot_obligations (en_obligations e)))] |>
                               <| de_rejected := ["trust-recovered-evidence-without-re-attestation";
                                                  "resume-transient-drain-states-directly"] |> in
      Ok (record_decision decision e).

(** [DrainEngine::restore]: on failure the engine is untouched. *)
Definition restore (snapshot : json) (previous_incarnation : IncarnationId) (now : TimePoint) (e : engine)
  : status * engine :=
  match restored snapshot previous_incarnation now e with
  | Ok e' => (ok_status, e')
  | Err err => (Err err, e)
  end.
