(* ===== verification/Store.v ===== *)
(** * Persistence

    [src/persistence.cpp]: the snapshot file with its checksums, and the sequence of
    file-system calls that replaces it.  The file system is a map from paths to
    contents; which calls fail, and after how much, is an argument (the texts of the
    operating system are left out of the messages).  [save] returns
    every state of the disk it goes through, so that a crash between two calls is
    one of them. *)

From S2P Require Import Prelude Containers Checked Result Text Json JsonFacts JsonText JsonBounds Codec CodecPolicy.
From S2P Require Import Identity Snapshot Crc Bytes Wire.
#[local] Open Scope Z_scope.

(** ** The file image *)

Definition kMagic : list Z := [68; 82; 78; 70; 65; 66; 0; 1].
Definition kReservedMarker : Z := 0xffffffff.
Definition kSnapshotHeaderBytes : Z := 48.
Definition kSnapshotFooterBytes : Z := 4.
Definition kSnapshotOverheadBytes : Z := kSnapshotHeaderBytes + kSnapshotFooterBytes.

Record PersistenceLimits := MkPersistenceLimits { pl_max_snapshot_bytes : Z; pl_max_extra_bytes : Z }.
Definition default_persistence_limits : PersistenceLimits :=
  MkPersistenceLimits (32 * 1024 * 1024) (32 * 1024 * 1024).

Record SnapshotInfo := MkSnapshotInfo {
  si_format_version : Z;
  si_sequence : Z;
  si_incarnation : IncarnationId;
  si_payload_bytes : Z;
  si_payload_crc : Z;
  si_from_backup : bool;
  si_source : string;
}.

(** The first twelve bytes, and the header they are the start of. *)
Definition file_prefix : list Z := kMagic ++ put_u16 kSnapshotFormatVersion ++ put_u16 0.
Definition file_header (sequence : Z) (incarnation : IncarnationId) (size payload_crc : Z) : list Z :=
  file_prefix ++ put_u32 (crc32c file_prefix 0) ++ put_u64 sequence ++ put_u64 incarnation ++ put_u64 size
  ++ put_u32 payload_crc ++ put_u32 kReservedMarker.

(** The bytes [save] writes. *)
Definition snapshot_image (sequence : Z) (incarnation : IncarnationId) (payload : list Z) : list Z :=
  let bytes := file_header sequence incarnation (zlength payload) (crc32c payload 0) ++ payload in
  bytes ++ put_u32 (crc32c bytes 0).

(** [Persistence::read_file] once the bytes are in memory. *)
Definition decode_snapshot (limits : PersistenceLimits) (from_backup : bool) (file : string) (bytes : list Z)
  : result (json * SnapshotInfo) :=
  if zlength bytes <? kSnapshotOverheadBytes then corrupt "snapshot is shorter than its fixed overhead"
  else if negb (bool_decide (slice 0 8 bytes = kMagic)) then corrupt "snapshot magic does not match"
  else if negb (crc32c (slice 0 12 bytes) 0 =? get_u32 12 bytes) then
    corrupt "snapshot header checksum does not match"
  else if negb (get_u16 8 bytes =? kSnapshotFormatVersion) then corrupt "snapshot format version is not supported"
  else if negb (get_u16 10 bytes =? 0) then corrupt "snapshot header flags must be zero"
  else if negb (get_u32 44 bytes =? kReservedMarker) then corrupt "snapshot reserved marker is wrong"
  else
    let payload_length := get_u64 32 bytes in
    if pl_max_snapshot_bytes limits <? payload_length then
      fail ErrorCode.BoundsExceeded "snapshot payload length exceeds the configured bound"
    else if negb (bool_decide (add_checked u64 kSnapshotOverheadBytes payload_length = Some (zlength bytes))) then
      corrupt "snapshot length field does not match the file size"
    else
      let payload_crc := get_u32 40 bytes in
      let payload := slice kSnapshotHeaderBytes payload_length bytes in
      if negb (crc32c payload 0 =? payload_crc) then corrupt "snapshot payload checksum does not match"
      else
        let footer_offset := kSnapshotHeaderBytes + payload_length in
        if negb (crc32c (slice 0 footer_offset bytes) 0 =? get_u32 footer_offset bytes) then
          corrupt "snapshot file checksum does not match"
        else
          match json_parsed (payload_limits (pl_max_snapshot_bytes limits)) (text_of payload) with
          | Err err => corrupt ("snapshot payload is not valid json: " ++s err_message err)
          | Ok parsed =>
              Ok (parsed, MkSnapshotInfo (get_u16 8 bytes) (get_u64 16 bytes) (get_u64 24 bytes) payload_length
                            payload_crc from_backup file)
          end.

(** ** The disk *)

Abbreviation disk := (omap string (list Z)).

(** Which calls of one read fail. *)
Record ReadFaults := MkReadFaults { rf_stat : bool; rf_size : bool; rf_open : bool; rf_short : bool }.
Definition no_read_faults : ReadFaults := MkReadFaults false false false false.

(** [read_whole_file]. *)
Definition read_whole_file (ft : ReadFaults) (file : string) (max_bytes : Z) (d : disk) : result (list Z) :=
  if rf_stat ft then fail ErrorCode.PersistenceIo ("cannot stat " ++s file)
  else
    match d !! file with
    | None => fail ErrorCode.NotFound ("no snapshot at " ++s file)
    | Some bytes =>
        if rf_size ft then fail ErrorCode.PersistenceIo ("cannot size " ++s file)
        else if max_bytes <? zlength bytes then
          fail ErrorCode.BoundsExceeded "snapshot file exceeds the configured bound"
        else if rf_open ft then fail ErrorCode.PersistenceIo ("cannot open " ++s file)
        else if rf_short ft then fail ErrorCode.PersistenceIo ("short read from " ++s file)
        else Ok bytes
    end.

(** Which calls of one [save] fail.  A failed write or copy leaves that many bytes. *)
Record Faults := MkFaults {
  ft_create : bool;
  ft_write : option nat;
  ft_flush : bool;
  ft_sync : bool;
  ft_close : bool;
  ft_exists : bool;
  ft_copy : option nat;
  ft_rename : bool;
  ft_rename_again : bool;
}.
Definition no_faults : Faults := MkFaults false None false false false false None false false.

(** [write_whole_file]: the answer and the states of the disk it goes through. *)
Definition write_whole_file (ft : Faults) (file : string) (bytes : list Z) (d : disk) : status * list disk :=
  if ft_create ft then (fail ErrorCode.PersistenceIo ("cannot create " ++s file), [d])
  else
    let created := <[file := []]> d in
    match ft_write ft with
    | Some n =>
        (fail ErrorCode.PersistenceIo ("short write to " ++s file), [created; <[file := take n bytes]> d])
    | None =>
        let written := <[file := bytes]> d in
        if ft_flush ft then (fail ErrorCode.PersistenceIo ("flush failed for " ++s file), [created; written])
        else if ft_sync ft then (fail ErrorCode.PersistenceIo ("fsync failed for " ++s file), [created; written])
        else if ft_close ft then (fail ErrorCode.PersistenceIo ("close failed for " ++s file), [created; written])
        else (ok_status, [created; written])
    end.

(** ** [Persistence] *)

Record Persistence := MkPersistence { pe_path : string; pe_limits : PersistenceLimits; pe_written_sequence : Z }.
Definition new_persistence (path : string) (limits : PersistenceLimits) : Persistence := MkPersistence path limits 0.

Definition backup_path (p : Persistence) : string := pe_path p ++s ".bak".
Definition temporary_path (p : Persistence) : string := pe_path p ++s ".tmp".
Definition exists_ (failing : bool) (p : Persistence) (d : disk) : bool :=
  negb failing && bool_decide (is_Some (d !! pe_path p)).

Definition last_disk (d : disk) (trace : list disk) : disk := default d (last trace).

(** [std::filesystem::rename]: the content of a path moves, atomically. *)
Definition rename (from to : string) (d : disk) : disk :=
  match d !! from with Some bytes => delete from (<[to := bytes]> d) | None => d end.

(** The installation of the temporary file over the live one. *)
Definition install (ft : Faults) (p : Persistence) (d : disk) : status * list disk :=
  if negb (ft_rename ft) then (ok_status, [rename (temporary_path p) (pe_path p) d])
  else
    let removed := delete (pe_path p) d in
    if negb (ft_rename_again ft) then (ok_status, [removed; rename (temporary_path p) (pe_path p) removed])
    else (fail ErrorCode.PersistenceIo "cannot install the new snapshot", [removed; delete (temporary_path p) removed]).

(** The rotation of the live file into the backup. *)
Definition rotate (ft : Faults) (p : Persistence) (d : disk) : status * list disk :=
  if negb (exists_ (ft_exists ft) p d) then (ok_status, [d])
  else
    let removed := delete (backup_path p) d in
    let live := default [] (d !! pe_path p) in
    match ft_copy ft with
    | Some n =>
        let partial := <[backup_path p := take n live]> removed in
        (fail ErrorCode.PersistenceIo "cannot rotate the previous snapshot",
         [removed; partial; delete (temporary_path p) partial])
    | None => (ok_status, [removed; <[backup_path p := live]> removed])
    end.

(** [Persistence::save]: the answer, the object, and the states of the disk. *)
Definition save (ft : Faults) (snapshot : json) (incarnation : IncarnationId) (p : Persistence) (d : disk)
  : status * Persistence * list disk :=
  let payload := bytes_of (dump 0 snapshot) in
  if pl_max_snapshot_bytes (pe_limits p) <? zlength payload then
    (fail ErrorCode.BoundsExceeded "snapshot payload exceeds the configured bound", p, [d])
  else
    match increment_checked u64 (pe_written_sequence p) with
    | None => (fail ErrorCode.BoundsExceeded "snapshot sequence space exhausted", p, [d])
    | Some next_sequence =>
        let bytes := snapshot_image next_sequence incarnation payload in
        let removed := delete (temporary_path p) d in
        let '(written, t1) := write_whole_file ft (temporary_path p) bytes removed in
        let t1 := d :: removed :: t1 in
        match written with
        | Err err => (Err err, p, t1)
        | Ok _ =>
            let '(rotated, t2) := rotate ft p (last_disk d t1) in
            match rotated with
            | Err err => (Err err, p, t1 ++ t2)
            | Ok _ =>
                let '(installed, t3) := install ft p (last_disk d t2) in
                match installed with
                | Err err => (Err err, p, t1 ++ t2 ++ t3)
                | Ok _ => (ok_status, MkPersistence (pe_path p) (pe_limits p) next_sequence, t1 ++ t2 ++ t3)
                end
            end
        end
    end.

(** [Persistence::read_file]. *)
Definition read_file (ft : ReadFaults) (file : string) (from_backup : bool) (p : Persistence) (d : disk)
  : result (json * SnapshotInfo) :=
  let bound := wrap u64 (pl_max_snapshot_bytes (pe_limits p) + kSnapshotOverheadBytes) in
  let? bytes := read_whole_file ft file bound d in
  decode_snapshot (pe_limits p) from_backup file bytes.

(** [Persistence::load]. *)
Definition load (ft ft_backup : ReadFaults) (p : Persistence) (d : disk) : result (json * SnapshotInfo) :=
  match read_file ft (pe_path p) false p d with
  | Ok r => Ok r
  | Err primary =>
      if bool_decide (err_code primary = ErrorCode.NotFound) then Err primary
      else
        match read_file ft_backup (backup_path p) true p d with
        | Ok r => Ok r
        | Err backup =>
            fail (err_code primary)
              ("live snapshot rejected (" ++s err_message primary ++s ") and the backup is unusable ("
               ++s err_message backup ++s ")")
        end
  end.

(** [Persistence::verify]. *)
Definition verify (ft ft_backup : ReadFaults) (p : Persistence) (d : disk) : result SnapshotInfo :=
  match read_file ft (pe_path p) false p d with
  | Ok (_, info) => Ok info
  | Err primary =>
      match read_file ft_backup (backup_path p) true p d with
      | Ok (_, info) => Ok info
      | Err _ => Err primary
      end
  end.

(** [Persistence::reset]. *)
Definition reset (p : Persistence) (d : disk) : status * Persistence * disk :=
  (ok_status, MkPersistence (pe_path p) (pe_limits p) 0,
   delete (temporary_path p) (delete (backup_path p) (delete (pe_path p) d))).
