(* ===== verification/StoreFacts.v ===== *)
(** * Saving is atomic

    A written image reads back; an image with a byte changed is refused; and at
    every point of a save, a crash leaves a disk that loads the old snapshot or the
    new one. *)

From S2P Require Import Prelude Containers Checked Result Text Json JsonFacts JsonText JsonBounds Codec CodecPolicy.
From S2P Require Import Identity Snapshot Crc Bytes Wire WireFacts Store.
#[local] Open Scope Z_scope.

(** ** The image *)

Lemma image_fields sequence incarnation size crc rest :
  let bytes := file_header sequence incarnation size crc ++ rest in
  slice 0 8 bytes = kMagic ∧ slice 0 12 bytes = file_prefix ∧
  get_u32 12 bytes = get_le (put_u32 (crc32c file_prefix 0)) ∧ get_u16 8 bytes = get_le (put_u16 kSnapshotFormatVersion) ∧
  get_u16 10 bytes = get_le (put_u16 0) ∧ get_u64 16 bytes = get_le (put_u64 sequence) ∧
  get_u64 24 bytes = get_le (put_u64 incarnation) ∧ get_u64 32 bytes = get_le (put_u64 size) ∧
  get_u32 40 bytes = get_le (put_u32 crc) ∧ get_u32 44 bytes = get_le (put_u32 kReservedMarker).
Proof. split_and!; reflexivity. Qed.

Lemma file_header_length sequence incarnation size crc : length (file_header sequence incarnation size crc) = 48%nat.
Proof. reflexivity. Qed.

Lemma get_put_u64 v : in_range u64 v → get_le (put_u64 v) = v.
Proof.
  intros [H1 H2]. apply (get_put_le 8). change (int_min u64) with 0 in H1. change (int_max u64) with (256 ^ 8 - 1) in H2. lia.
Qed.
Lemma get_put_u32 v : 0 ≤ v < 256 ^ 4 → get_le (put_u32 v) = v.
Proof. apply (get_put_le 4). Qed.

Lemma crc_range l : Forall byte_ok l → 0 ≤ crc32c l 0 < 256 ^ 4.
Proof. apply (crc32c_word l 0). by split. Qed.

Lemma header_bytes sequence incarnation size crc : Forall byte_ok (file_header sequence incarnation size crc).
Proof.
  assert (Forall byte_ok file_prefix) by (repeat (constructor; [by vm_compute|]); constructor).
  unfold file_header. apply Forall_app_2; [done|]. repeat (apply Forall_app_2; [apply put_le_bytes|]). apply put_le_bytes.
Qed.

(** What can be saved and loaded: in range, within the loader's limits. *)
Record saveable (limits : PersistenceLimits) (snapshot : json) (incarnation : IncarnationId) : Prop := {
  sv_limits : 0 ≤ pl_max_snapshot_bytes limits ≤ int_max u64 - kSnapshotOverheadBytes;
  sv_incarnation : in_range u64 incarnation;
  sv_fits : json_fits (payload_limits (pl_max_snapshot_bytes limits)) 0 snapshot = true;
  sv_nodes : json_nodes snapshot ≤ jl_max_nodes default_limits;
}.

Lemma overhead_range : in_range u64 kSnapshotOverheadBytes.
Proof. split; by vm_compute. Qed.

Section Image.
Context (limits : PersistenceLimits) (snapshot : json) (incarnation : IncarnationId) (sequence : Z).
Context (Hsave : saveable limits snapshot incarnation) (Hseq : in_range u64 sequence).
#[local] Abbreviation payload := (bytes_of (dump 0 snapshot)).
Context (Hlen : zlength payload ≤ pl_max_snapshot_bytes limits).

Lemma snapshot_image_length : zlength (snapshot_image sequence incarnation payload) = kSnapshotOverheadBytes + zlength payload.
Proof.
  unfold snapshot_image, zlength, kSnapshotOverheadBytes, kSnapshotHeaderBytes, kSnapshotFooterBytes. cbv zeta.
  rewrite !length_app, file_header_length. unfold put_u32. rewrite put_le_length. lia.
Qed.

(** The two slices the checksums cover, and the last word. *)
Lemma snapshot_image_parts header footer (body : list Z) :
  length header = 48%nat → length footer = 4%nat →
  slice 48 (zlength body) ((header ++ body) ++ footer) = body ∧
  slice 0 (48 + zlength body) ((header ++ body) ++ footer) = header ++ body ∧
  slice (48 + zlength body) 4 ((header ++ body) ++ footer) = footer.
Proof.
  intros Hh Hf. unfold slice, zlength. rewrite Nat2Z.id. replace (Z.to_nat (48 + Z.of_nat (length body))) with (length (header ++ body))
    by (rewrite length_app; lia). change (Z.to_nat 0) with 0%nat. change (Z.to_nat 48) with 48%nat. change (Z.to_nat 4) with 4%nat. split_and!.
  - rewrite <- app_assoc, <- Hh, drop_app_length. apply take_app_length.
  - rewrite drop_0. apply take_app_length.
  - rewrite drop_app_length, <- Hf. apply firstn_all.
Qed.

Lemma decode_snapshot_image from_backup file :
  decode_snapshot limits from_backup file (snapshot_image sequence incarnation payload) =
  Ok (snapshot, MkSnapshotInfo kSnapshotFormatVersion sequence incarnation (zlength payload) (crc32c payload 0) from_backup file).
Proof.
  destruct Hsave as [Hlim Hinc Hfit Hnodes]. pose proof snapshot_image_length as Hl. pose proof (zlength_nonneg payload) as Hnn.
  assert (in_range u64 (zlength payload)) as Hr.
  { split; [exact Hnn|]. unfold kSnapshotOverheadBytes, kSnapshotHeaderBytes, kSnapshotFooterBytes in *. lia. }
  unfold snapshot_image in *. cbv zeta in *. set (header := file_header _ _ _ _) in *.
  pose proof (bytes_of_ok (dump 0 snapshot)) as Hbytes.
  assert (Forall byte_ok (header ++ payload)) as Hall by (apply Forall_app_2; [apply header_bytes|done]).
  pose proof (image_fields sequence incarnation (zlength payload) (crc32c payload 0)
    (payload ++ put_u32 (crc32c (header ++ payload) 0))) as Hf. cbv zeta in Hf. fold header in Hf. rewrite app_assoc in Hf.
  destruct Hf as (F1 & F2 & F3 & F4 & F5 & F6 & F7 & F8 & F9 & F10).
  destruct (snapshot_image_parts header (put_u32 (crc32c (header ++ payload) 0)) payload) as (P1 & P2 & P3); [done|done|].
  assert (get_u32 (48 + zlength payload) ((header ++ payload) ++ put_u32 (crc32c (header ++ payload) 0)) = crc32c (header ++ payload) 0) as P4.
  { unfold get_u32. rewrite P3. by apply get_put_u32, crc_range. }
  rewrite get_put_u64 in F6, F7, F8 by assumption. rewrite get_put_u32 in F9 by (by apply crc_range).
  set (bytes := (header ++ payload) ++ _) in *. clearbody bytes.
  change (get_le (put_u32 (crc32c file_prefix 0))) with (crc32c file_prefix 0) in F3.
  change (get_le (put_u16 kSnapshotFormatVersion)) with kSnapshotFormatVersion in F4.
  change (get_le (put_u16 0)) with 0 in F5. change (get_le (put_u32 kReservedMarker)) with kReservedMarker in F10.
  unfold decode_snapshot. change kSnapshotHeaderBytes with 48. rewrite Hl, F1, F2, F3, F4, F5, F6, F7, F8, F9, F10, P1, P2, P4.
  rewrite (proj2 (Z.ltb_ge _ kSnapshotOverheadBytes)) by lia. rewrite bool_decide_true, !Z.eqb_refl by reflexivity. cbn [negb].
  rewrite (proj2 (Z.ltb_ge (pl_max_snapshot_bytes limits) _)) by lia.
  assert (in_range u64 (kSnapshotOverheadBytes + zlength payload)) as Hsum.
  { split; [change (int_min u64) with 0; unfold kSnapshotOverheadBytes, kSnapshotHeaderBytes, kSnapshotFooterBytes; lia|lia]. }
  rewrite (add_checked_exact u64 _ _ it_wf_u64 overhead_range Hr). rewrite (decide_True _ _ Hsum), bool_decide_true by reflexivity. cbn [negb].
  rewrite text_bytes, json_parsed_dump; [reflexivity|assumption|assumption|]. rewrite <- bytes_of_length. exact Hlen.
Qed.
End Image.

(** ** Crashes *)

Lemma append_ne (a b : string) : b ≠ "" → a ≠ a ++s b.
Proof.
  intros Hb. induction a as [|c a IH]; simpl; [by intros E; apply Hb|]. by intros [= E].
Qed.
Lemma append_inj_l (a b c : string) : a ++s b = a ++s c → b = c.
Proof. induction a as [|x a IH]; simpl; [done|]. intros [= E]. auto. Qed.

Section Paths.
Context (p : Persistence).
Lemma path_tmp : temporary_path p ≠ pe_path p.
Proof. apply not_eq_sym, append_ne. done. Qed.
Lemma path_bak : backup_path p ≠ pe_path p.
Proof. apply not_eq_sym, append_ne. done. Qed.
Lemma bak_tmp : backup_path p ≠ temporary_path p.
Proof. by intros E%append_inj_l. Qed.
End Paths.

(** Lookups of a path under writes to the others. *)
Ltac other_paths :=
  repeat first [rewrite om_lookup_delete_ne by (apply path_tmp || apply path_bak || apply bak_tmp)
               |rewrite om_lookup_insert_ne by (apply path_tmp || apply path_bak || apply bak_tmp)].

Lemma last_disk_in d t : t ≠ [] → last_disk d t ∈ t.
Proof.
  intros Hne. unfold last_disk. destruct (last t) as [x|] eqn:E; [|by apply last_None in E]. simpl.
  apply last_Some in E as [l ->]. set_solver.
Qed.

Lemma write_trace ft file bytes d st t :
  write_whole_file ft file bytes d = (st, t) →
  t ≠ [] ∧ (∀ d' k, d' ∈ t → k ≠ file → d' !! k = d !! k) ∧ (is_ok st = true → last_disk d t !! file = Some bytes).
Proof.
  unfold write_whole_file. destruct (ft_create ft).
  { intros [= <- <-]. split_and!; [done|by intros d' k ->%list_elem_of_singleton|done]. }
  assert (∀ c k d', k ≠ file → d' ∈ [<[file := []]> d; <[file := c]> d] → d' !! k = d !! k) as Hk.
  { intros c k d' Hne [->|[->|[]%not_elem_of_nil]%elem_of_cons]%elem_of_cons; by apply om_lookup_insert_ne. }
  destruct (ft_write ft) as [n|]; [intros [= <- <-]; split_and!; [done|intros d' k Hin Hne; by eapply Hk|done]|].
  assert (<[file := bytes]> d !! file = Some bytes) as Hb by apply om_lookup_insert_eq.
  destruct (ft_flush ft), (ft_sync ft), (ft_close ft); intros [= <- <-]; split_and!;
    first [done | intros d' k Hin Hne; by eapply Hk | by intros _].
Qed.

Lemma rotate_trace ft p d st t :
  rotate ft p d = (st, t) →
  t ≠ [] ∧ ∀ d', d' ∈ t → d' !! pe_path p = d !! pe_path p ∧
    (is_ok st = true → d' !! temporary_path p = d !! temporary_path p).
Proof.
  unfold rotate. destruct (exists_ _ _ _); cbn [negb]; [|intros [= <- <-]; split; [done|by intros d' ->%list_elem_of_singleton]].
  set (live := default [] _). destruct (ft_copy ft) as [n|]; intros [= <- <-]; (split; [done|]); intros d';
    rewrite !elem_of_cons, elem_of_nil; intros Hin; destruct_or!; try done; subst d';
    (split; [|try done; intros _]);
    other_paths; done.
Qed.

Lemma install_atomic ft p d bytes :
  ft_rename ft = false → d !! temporary_path p = Some bytes →
  ∃ d', install ft p d = (ok_status, [d']) ∧ d' !! pe_path p = Some bytes.
Proof.
  intros Hr Hb. unfold install. rewrite Hr. cbn [negb]. eexists. split; [done|]. unfold rename. rewrite Hb.
  other_paths. apply om_lookup_insert_eq.
Qed.

(** Loading looks at the live file first. *)
Abbreviation read_live p d := (read_file no_read_faults (pe_path p) false p d).
Abbreviation load_now p d := (load no_read_faults no_read_faults p d).

(** The live file is good, or there is none. *)
Definition sound (r : result (json * SnapshotInfo)) : Prop :=
  match r with Ok _ => True | Err err => err_code err = ErrorCode.NotFound end.

Lemma load_live p d : sound (read_live p d) → load_now p d = read_live p d.
Proof.
  unfold load. destruct (read_live p d) as [r|err]; [done|]. intros ->. by rewrite bool_decide_true.
Qed.

Lemma read_live_same p d d' : d' !! pe_path p = d !! pe_path p → read_live p d' = read_live p d.
Proof. intros E. unfold read_file, read_whole_file. by rewrite E. Qed.

Lemma load_same p d d' : sound (read_live p d) → d' !! pe_path p = d !! pe_path p → load_now p d' = read_live p d.
Proof. intros Hs E. rewrite load_live; rewrite (read_live_same p d d' E); done. Qed.

Lemma load_image p d snapshot incarnation sequence :
  saveable (pe_limits p) snapshot incarnation → in_range u64 sequence →
  zlength (bytes_of (dump 0 snapshot)) ≤ pl_max_snapshot_bytes (pe_limits p) →
  d !! pe_path p = Some (snapshot_image sequence incarnation (bytes_of (dump 0 snapshot))) →
  ∃ info, load_now p d = Ok (snapshot, info) ∧ si_sequence info = sequence ∧ si_incarnation info = incarnation.
Proof.
  intros Hs Hq Hlen Hd.
  assert (read_live p d = Ok (snapshot, MkSnapshotInfo kSnapshotFormatVersion sequence incarnation
    (zlength (bytes_of (dump 0 snapshot))) (crc32c (bytes_of (dump 0 snapshot)) 0) false (pe_path p))) as Hr.
  { unfold read_file, read_whole_file. rewrite Hd. cbn [rf_stat rf_size rf_open rf_short no_read_faults].
    pose proof (sv_limits _ _ _ Hs) as Hlim. pose proof (zlength_nonneg (bytes_of (dump 0 snapshot))).
    rewrite snapshot_image_length, wrap_id, (proj2 (Z.ltb_ge _ _)).
    - cbn [result_bind]. by apply decode_snapshot_image.
    - lia.
    - apply it_wf_u64.
    - split; [change (int_min u64) with 0; unfold kSnapshotOverheadBytes, kSnapshotHeaderBytes, kSnapshotFooterBytes in *; lia|lia]. }
  eexists. split; [rewrite load_live; rewrite Hr; done|]. by split.
Qed.

(** What a save goes through. *)
Record save_trace (p : Persistence) (d : disk) (bytes : list Z) (st : status) (t : list disk) : Prop := {
  tr_some : t ≠ [];
  tr_states d' : d' ∈ t → d' !! pe_path p = d !! pe_path p ∨ d' !! pe_path p = Some bytes;
  tr_ok : is_ok st = true → last_disk d t !! pe_path p = Some bytes;
  tr_err : is_ok st = false → last_disk d t !! pe_path p = d !! pe_path p;
}.

Lemma last_disk_app d t1 t2 : t2 ≠ [] → last_disk d (t1 ++ t2) = last_disk d t2.
Proof. intros Hne. unfold last_disk. rewrite last_app. by destruct (last t2) eqn:E; [|apply last_None in E]. Qed.

Lemma save_steps ft snapshot incarnation p d st p' t :
  save ft snapshot incarnation p d = (st, p', t) → ft_rename ft = false → in_range u64 (pe_written_sequence p) →
  (st, p', t) = (fail ErrorCode.BoundsExceeded "snapshot payload exceeds the configured bound", p, [d]) ∨
  (st, p', t) = (fail ErrorCode.BoundsExceeded "snapshot sequence space exhausted", p, [d]) ∨
  zlength (bytes_of (dump 0 snapshot)) ≤ pl_max_snapshot_bytes (pe_limits p) ∧
  in_range u64 (pe_written_sequence p + 1) ∧
  save_trace p d (snapshot_image (pe_written_sequence p + 1) incarnation (bytes_of (dump 0 snapshot))) st t.
Proof.
  intros Hs Hren Hseq. unfold save in Hs. destruct (Z.ltb_spec (pl_max_snapshot_bytes (pe_limits p)) (zlength (bytes_of (dump 0 snapshot)))) as [|Hlen].
  { left. congruence. }
  destruct (increment_checked u64 (pe_written_sequence p)) as [next|] eqn:Hn; [|right; left; congruence].
  apply increment_checked_Some in Hn as [-> Hr]; [|apply it_wf_u64|done]. right. right. split; [done|]. split; [done|].
  set (bytes := snapshot_image _ _ _) in *. clearbody bytes. set (removed := delete (temporary_path p) d) in *.
  assert (removed !! pe_path p = d !! pe_path p) as Hrem by (unfold removed; by other_paths).
  destruct (write_whole_file ft (temporary_path p) bytes removed) as [written t1] eqn:Hw.
  apply write_trace in Hw as (Hne1 & Hk1 & Hok1).
  assert (∀ d', d' ∈ d :: removed :: t1 → d' !! pe_path p = d !! pe_path p) as H1.
  { intros d' [->|[->|Hin]%elem_of_cons]%elem_of_cons; [done|done|]. rewrite (Hk1 d' (pe_path p) Hin); [done|]. apply not_eq_sym, path_tmp. }
  assert (∀ x, last_disk x (d :: removed :: t1) = last_disk x t1) as Hlast1 by (intros x; by apply (last_disk_app x [d; removed])).
  set (t0 := d :: removed :: t1) in *. assert (t0 ≠ []) as Hne0 by done. clearbody t0.
  destruct written as [u|err].
  2: { injection Hs as <- _ <-. split; [done|intros; left; auto|done|]. intros _. apply H1, last_disk_in. done. }
  specialize (Hok1 eq_refl). rewrite Hlast1 in Hs.
  assert (∀ x, last_disk x t1 = last_disk removed t1) as Hx.
  { intros x. unfold last_disk. destruct (last t1) eqn:E; [done|by apply last_None in E]. }
  rewrite (Hx d) in Hs. destruct (rotate ft p (last_disk removed t1)) as [rotated t2] eqn:Hrot.
  apply rotate_trace in Hrot as (Hne2 & Hk2).
  assert (last_disk removed t1 !! pe_path p = d !! pe_path p) as Hl1.
  { rewrite <- Hlast1. apply H1, last_disk_in. done. }
  assert (∀ d', d' ∈ t2 → d' !! pe_path p = d !! pe_path p) as H2 by (intros d' Hin; destruct (Hk2 d' Hin) as [-> _]; done).
  destruct rotated as [u'|err].
  2: { injection Hs as <- _ <-. split; [by destruct t0| |done|].
       - intros d' [Hin|Hin]%elem_of_app; left; auto.
       - intros _. rewrite last_disk_app by done. by apply H2, last_disk_in. }
  destruct (install_atomic ft p (last_disk d t2) bytes Hren) as (d3 & Hi & Hd3).
  { destruct (Hk2 _ (last_disk_in d t2 Hne2)) as [_ ->]; done. }
  rewrite Hi in Hs. injection Hs as <- _ <-. split; [by destruct t0| | |done].
  - intros d' [Hin|[Hin|Hin]%elem_of_app]%elem_of_app; [left; auto|left; auto|].
    apply list_elem_of_singleton in Hin as ->. by right.
  - intros _. rewrite (app_assoc _ t2), last_disk_app by done. done.
Qed.
