(* ===== verification/Explain.v ===== *)
(** * Explanations and the accounting audit

    [src/explain.cpp] and the two reporting operations of the engine,
    [DrainEngine::explain] and [DrainEngine::audit] ([src/engine.cpp]).  The audit
    is the engine's own statement of what must never be seen; a violation is kept
    as data here and rendered to the text the report carries. *)

From S2P Require Import Prelude Containers Checked Result Text Json Codec CodecPolicy.
From S2P Require Import Identity Lifecycle Obligation Evidence Authority Admission Topology Policy Decision Engine.
#[local] Open Scope Z_scope.

Definition newline : string := String (Ascii.ascii_of_nat 10) "".

(** ** Statistics *)

Definition stats_to_json (s : EngineStats) : json :=
  obj [("advances", JUint (st_advances s)); ("transitions", JUint (st_transitions s));
       ("evacuation_requests", JUint (st_evacuation_requests s));
       ("restoration_requests", JUint (st_restoration_requests s)); ("reopen_requests", JUint (st_reopen_requests s));
       ("rejected_reports", JUint (st_rejected_reports s)); ("rejected_admissions", JUint (st_rejected_admissions s));
       ("rejected_evidence", JUint (st_rejected_evidence s)); ("blocked_evaluations", JUint (st_blocked_evaluations s));
       ("sink_failures", JUint (st_sink_failures s)); ("completion_proofs", JUint (st_completion_proofs s))].

Definition stats_render (s : EngineStats) : string :=
  "advances=" ++s decimal (st_advances s) ++s " transitions=" ++s decimal (st_transitions s)
  ++s " evacuation-requests=" ++s decimal (st_evacuation_requests s)
  ++s " restoration-requests=" ++s decimal (st_restoration_requests s)
  ++s " reopen-requests=" ++s decimal (st_reopen_requests s)
  ++s " rejected-reports=" ++s decimal (st_rejected_reports s)
  ++s " rejected-admissions=" ++s decimal (st_rejected_admissions s)
  ++s " rejected-evidence=" ++s decimal (st_rejected_evidence s)
  ++s " blocked-evaluations=" ++s decimal (st_blocked_evaluations s)
  ++s " sink-failures=" ++s decimal (st_sink_failures s)
  ++s " completion-proofs=" ++s decimal (st_completion_proofs s).

(** ** Explanations *)

Record Explanation := MkExplanation {
  ex_found : bool;
  ex_drain : DrainRecord;
  ex_blockers : list Blocker;
  ex_dependents : list Obligation;
  ex_outstanding : list Obligation;
  ex_history : list Decision;
  ex_summary : string;
}.

(** A default-constructed record. *)
Definition default_drain_record : DrainRecord :=
  new_drain_record 0 (MkTarget TargetKind.Resource "" "") 0 0 0.

(** [DrainEngine::explain]. *)
Definition explain (id : DrainId) (e : engine) : Explanation :=
  match en_drains e !! id with
  | None =>
      MkExplanation false default_drain_record [] [] [] [] ("drain " ++s decimal id ++s " is not known to this engine")
  | Some record =>
      let blockers := dr_blockers record in
      let dependents := dependents_of (en_obligations e) (dr_target record) in
      let outstanding := List.filter blocks_completion dependents in
      let history := List.filter (λ d, de_drain d =? id) (en_decisions e) in
      let summary :=
        "state=" ++s DrainState.to_string (dr_state record)
        ++s match dr_blocked_from record with
            | Some from => " resumable-to=" ++s DrainState.to_string from
            | None => ""
            end
        ++s " generation=" ++s decimal (dr_generation record)
        ++s " dependents=" ++s decimal (zlength dependents)
        ++s " outstanding-protected=" ++s decimal (zlength outstanding)
        ++s " blockers=" ++s decimal (zlength blockers)
        ++s match blockers with
            | first :: _ => " first-blocker=" ++s blocker_render first
            | [] => ""
            end in
      MkExplanation true record blockers dependents outstanding history summary
  end.

Definition explanation_to_json (x : Explanation) : json :=
  obj ([("found", JBool (ex_found x)); ("summary", JString (ex_summary x))]
       ++ (if ex_found x then [("drain", drain_record_to_json (ex_drain x))] else [])
       ++ [("blockers", JArray (map blocker_to_json (ex_blockers x)));
           ("dependents", JArray (map obligation_to_json (ex_dependents x)));
           ("outstanding", JArray (map obligation_to_json (ex_outstanding x)));
           ("history", JArray (map decision_to_json (ex_history x)))]).

(** A counted section of indented lines. *)
Definition section_render {A} (title suffix : string) (line : A → string) (l : list A) : string :=
  title ++s decimal (zlength l) ++s suffix ++s newline
  ++s foldr (λ x rest, "  " ++s line x ++s newline ++s rest) "" l.

Definition explanation_render (x : Explanation) : string :=
  if negb (ex_found x) then "drain not found" ++s newline
  else
    let drain := ex_drain x in
    "drain " ++s decimal (dr_id drain) ++s " target=" ++s target_to_string (dr_target drain)
    ++s " state=" ++s DrainState.to_string (dr_state drain) ++s " generation=" ++s decimal (dr_generation drain)
    ++s " revision=" ++s decimal (dr_revision drain) ++s newline
    ++s "summary: " ++s ex_summary x ++s newline
    ++s section_render "blockers: " "" blocker_render (ex_blockers x)
    ++s section_render "dependents: " "" (λ ob,
          obligation_label ob ++s " state=" ++s ObligationState.to_string (ob_state ob)
          ++s " protection=" ++s ProtectionClass.to_string (ob_protection ob)) (ex_dependents x)
    ++s section_render "outstanding-protected: " "" (λ ob,
          obligation_label ob ++s " state=" ++s ObligationState.to_string (ob_state ob)) (ex_outstanding x)
    ++s section_render "history: " " decision(s)" decision_render (ex_history x).

(** ** The audit *)

(** One constructor per message the audit can push. *)
Inductive violation : Type :=
  | DrainedWithDependencies (id : DrainId) (target : DrainTarget) (outstanding : Z)
  | DrainedWithCount (id : DrainId) (target : DrainTarget)
  | DrainedWithoutDigest (id : DrainId) (target : DrainTarget)
  | DrainedButOpen (id : DrainId) (target : DrainTarget)
  | DrainedInService (id : DrainId) (target : DrainTarget)
  | RestoredAtOldGeneration (id : DrainId) (target : DrainTarget)
  | RestoredOwnsFence (id : DrainId) (target : DrainTarget)
  | CancelledButOpen (id : DrainId) (target : DrainTarget)
  | CancelledFenceMoved (id : DrainId) (target : DrainTarget)
  | CancelledHoldsFence (id : DrainId) (target : DrainTarget)
  | ClosedButOpen (id : DrainId) (target : DrainTarget)
  | RestoringButClosed (id : DrainId) (target : DrainTarget)
  | AccountingOpen (classified total : Z)
  | AdmittedBehindFence (label : string) (admitted : Generation) (target : DrainTarget) (closed : Generation)
  | FenceOfUnknownDrain (target : DrainTarget) (drain : DrainId)
  | FenceOfRestoredDrain (target : DrainTarget) (drain : DrainId).

Definition drain_label (id : DrainId) (target : DrainTarget) : string :=
  "drain " ++s decimal id ++s " (" ++s target_to_string target ++s ")".

Definition violation_render (v : violation) : string :=
  match v with
  | DrainedWithDependencies id t n =>
      drain_label id t ++s " is drained but " ++s decimal n ++s " protected dependenc(ies) still reference the target"
  | DrainedWithCount id t => drain_label id t ++s " recorded a non-zero protected count at completion"
  | DrainedWithoutDigest id t => drain_label id t ++s " has no completion digest"
  | DrainedButOpen id t => drain_label id t ++s " is drained but does not hold a closed admission fence"
  | DrainedInService id t => drain_label id t ++s " is drained but the resource is still in service"
  | RestoredAtOldGeneration id t => drain_label id t ++s " was restored without advancing the admission generation"
  | RestoredOwnsFence id t => drain_label id t ++s " was restored but still owns a closed admission fence"
  | CancelledButOpen id t => drain_label id t ++s " was cancelled after closing admission but the fence is open"
  | CancelledFenceMoved id t => drain_label id t ++s " was cancelled but the fence generation moved on"
  | CancelledHoldsFence id t => drain_label id t ++s " was cancelled before closing admission yet holds a closed fence"
  | ClosedButOpen id t => drain_label id t ++s " is past admission closure but its fence is open"
  | RestoringButClosed id t => drain_label id t ++s " is restoring but its admission fence is still closed"
  | AccountingOpen classified total =>
      "drain accounting does not close: classified " ++s decimal classified ++s " of " ++s decimal total
  | AdmittedBehindFence label admitted t closed =>
      label ++s " was admitted at generation " ++s decimal admitted ++s " but admission for "
      ++s target_to_string t ++s " closed at generation " ++s decimal closed
  | FenceOfUnknownDrain t drain =>
      "closed admission fence for " ++s target_to_string t ++s " references an unknown drain " ++s decimal drain
  | FenceOfRestoredDrain t drain =>
      "restored drain " ++s decimal drain ++s " still holds a closed admission fence for " ++s target_to_string t
  end.

(** [if (condition) violations.push_back(v)]. *)
Definition flag (condition : bool) (v : violation) : list violation := if condition then [v] else [].

Definition audit_drained (id : DrainId) (record : DrainRecord) (e : engine) : list violation :=
  let target := dr_target record in
  let outstanding := outstanding_protected_dependents_of (en_obligations e) target in
  flag (negb (is_nil outstanding)) (DrainedWithDependencies id target (zlength outstanding))
  ++ flag (negb (dr_remaining_protected record =? 0)) (DrainedWithCount id target)
  ++ flag (dr_completion_digest record =? 0) (DrainedWithoutDigest id target)
  ++ flag (negb (fence_is_closed target (en_fence e))) (DrainedButOpen id target)
  ++ match to_resource (tg_id target) (en_topology e) with
     | Some node => flag (in_service node) (DrainedInService id target)
     | None => []
     end.

Definition audit_cancelled (id : DrainId) (record : DrainRecord) (e : engine) : list violation :=
  let target := dr_target record in
  let entry := fence_entry target (en_fence e) in
  if negb (dr_restored_at record =? 0) then
    match entry with
    | None => [RestoredAtOldGeneration id target]
    | Some entry =>
        if fe_generation entry <=? dr_generation record then [RestoredAtOldGeneration id target]
        else flag (fe_closed entry && (fe_drain entry =? dr_id record)) (RestoredOwnsFence id target)
    end
  else if negb (dr_generation record =? 0) then
    match entry with
    | None => [CancelledButOpen id target]
    | Some entry =>
        if negb (fe_closed entry) then [CancelledButOpen id target]
        else flag (negb (fe_generation entry =? dr_generation record)) (CancelledFenceMoved id target)
    end
  else
    match entry with
    | None => []
    | Some entry => flag (fe_closed entry && (fe_drain entry =? dr_id record)) (CancelledHoldsFence id target)
    end.

(** The checks of one iteration of the loop over drains. *)
Definition audit_drain (e : engine) (p : DrainId * DrainRecord) : list violation :=
  let '(id, record) := p in
  let target := dr_target record in
  let state := dr_state record in
  (if bool_decide (state = DrainState.Drained) then audit_drained id record e else [])
  ++ (if bool_decide (state = DrainState.Cancelled) then audit_cancelled id record e else [])
  ++ flag (negb (is_settled state) && negb (bool_decide (state = DrainState.Restoring))
           && (holds_fence record || is_fence_holding_state state)
           && negb (fence_is_closed target (en_fence e))) (ClosedButOpen id target)
  ++ (if bool_decide (state = DrainState.Restoring) then
        match fence_entry target (en_fence e) with
        | Some entry => flag (fe_closed entry) (RestoringButClosed id target)
        | None => []
        end
      else []).

Record drain_counts := MkDrainCounts {
  dc_active : Z; dc_blocked : Z; dc_drained : Z; dc_cancelled : Z; dc_failed : Z; dc_restoring : Z; dc_restored : Z;
}.

(** The switch that classifies a drain. *)
Definition count_drain (c : drain_counts) (record : DrainRecord) : drain_counts :=
  let '(MkDrainCounts active blocked drained cancelled failed restoring restored) := c in
  match dr_state record with
  | DrainState.Drained => MkDrainCounts active blocked (drained + 1) cancelled failed restoring restored
  | DrainState.Cancelled =>
      MkDrainCounts active blocked drained (cancelled + 1) failed restoring
        (if negb (dr_restored_at record =? 0) then restored + 1 else restored)
  | DrainState.Failed => MkDrainCounts active blocked drained cancelled (failed + 1) restoring restored
  | DrainState.Blocked => MkDrainCounts active (blocked + 1) drained cancelled failed restoring restored
  | DrainState.Restoring => MkDrainCounts active blocked drained cancelled failed (restoring + 1) restored
  | _ => MkDrainCounts (active + 1) blocked drained cancelled failed restoring restored
  end.
Definition count_drains (records : list DrainRecord) : drain_counts :=
  foldl count_drain (MkDrainCounts 0 0 0 0 0 0 0) records.
Definition classified (c : drain_counts) : Z :=
  dc_active c + dc_blocked c + dc_drained c + dc_cancelled c + dc_failed c + dc_restoring c.

(** The checks of one iteration of the loop over obligations. *)
Definition audit_obligation (e : engine) (ob : Obligation) : list violation :=
  concat (map (λ dependency,
    match fence_entry dependency (en_fence e) with
    | None => []
    | Some entry =>
        if negb (fe_closed entry) then []
        else flag (fe_generation entry <=? ob_admission_generation ob)
               (AdmittedBehindFence (obligation_label ob) (ob_admission_generation ob) dependency (fe_generation entry))
    end) (ob_dependencies ob)).

(** The checks of one iteration of the loop over fence entries. *)
Definition audit_fence (e : engine) (p : DrainTarget * FenceEntry) : list violation :=
  let '(target, entry) := p in
  if negb (fe_closed entry) then []
  else
    match en_drains e !! fe_drain entry with
    | None => [FenceOfUnknownDrain target (fe_drain entry)]
    | Some record =>
        flag (bool_decide (dr_state record = DrainState.Cancelled) && negb (dr_restored_at record =? 0))
          (FenceOfRestoredDrain target (fe_drain entry))
    end.

Definition audit_violations (e : engine) : list violation :=
  let counts := count_drains (om_values (en_drains e)) in
  concat (map (audit_drain e) (om_list (en_drains e)))
  ++ flag (negb (classified counts =? om_size (en_drains e))) (AccountingOpen (classified counts) (om_size (en_drains e)))
  ++ concat (map (audit_obligation e) (ot_all (en_obligations e)))
  ++ concat (map (audit_fence e) (om_list (en_fence e))).

Record AccountingReport := MkAccountingReport {
  ac_drains_total : Z;
  ac_counts : drain_counts;
  ac_obligations_total : Z;
  ac_obligations_outstanding_protected : Z;
  ac_obligations_retired : Z;
  ac_obligations_reappeared : Z;
  ac_fences_closed : Z;
  ac_evidence_records : Z;
  ac_drain_sets : Z;
  ac_authoritative_digest : Z;
  ac_topology_digest : Z;
  ac_obligation_digest : Z;
  ac_evidence_digest : Z;
  ac_violations : list string;
}.

Definition topology_digest (t : Topology) : Z :=
  foldl (λ d p, digest_update_u64 (digest_update_tagged d "resource" p.1) (ResourceStatus.rank (rn_status p.2)))
    kOffset (om_list (to_resources t)).

(** [DrainEngine::audit]. *)
Definition audit (e : engine) : AccountingReport :=
  let obligations := ot_all (en_obligations e) in
  MkAccountingReport (om_size (en_drains e)) (count_drains (om_values (en_drains e))) (om_size (ot_obligations (en_obligations e)))
    (zlength (List.filter blocks_completion obligations))
    (zlength (List.filter (λ ob, bool_decide (ob_state ob = ObligationState.Retired)) obligations))
    (foldl (λ n ob, n + ob_reappearances ob) 0 obligations)
    (zlength (List.filter (λ p, fe_closed p.2) (om_list (en_fence e))))
    (om_size (el_records (en_evidence e))) (om_size (en_sets e)) (authoritative_digest e)
    (topology_digest (en_topology e)) (ot_digest (en_obligations e)) (el_digest (en_evidence e))
    (sort_unique (map violation_render (audit_violations e))).

Definition clean (r : AccountingReport) : bool := is_nil (ac_violations r).

Definition accounting_to_json (r : AccountingReport) : json :=
  let c := ac_counts r in
  obj [("drains_total", JUint (ac_drains_total r)); ("drains_active", JUint (dc_active c));
       ("drains_blocked", JUint (dc_blocked c)); ("drains_drained", JUint (dc_drained c));
       ("drains_cancelled", JUint (dc_cancelled c)); ("drains_failed", JUint (dc_failed c));
       ("drains_restoring", JUint (dc_restoring c)); ("drains_restored", JUint (dc_restored c));
       ("obligations_total", JUint (ac_obligations_total r));
       ("obligations_outstanding_protected", JUint (ac_obligations_outstanding_protected r));
       ("obligations_retired", JUint (ac_obligations_retired r));
       ("obligations_reappeared", JUint (ac_obligations_reappeared r));
       ("fences_closed", JUint (ac_fences_closed r)); ("evidence_records", JUint (ac_evidence_records r));
       ("drain_sets", JUint (ac_drain_sets r)); ("authoritative_digest", JUint (ac_authoritative_digest r));
       ("topology_digest", JUint (ac_topology_digest r)); ("obligation_digest", JUint (ac_obligation_digest r));
       ("evidence_digest", JUint (ac_evidence_digest r));
       ("violations", JArray (map JString (ac_violations r))); ("clean", JBool (clean r))].

Definition accounting_render (r : AccountingReport) : string :=
  let c := ac_counts r in
  "drains total=" ++s decimal (ac_drains_total r) ++s " active=" ++s decimal (dc_active c)
  ++s " blocked=" ++s decimal (dc_blocked c) ++s " drained=" ++s decimal (dc_drained c)
  ++s " cancelled=" ++s decimal (dc_cancelled c) ++s " failed=" ++s decimal (dc_failed c)
  ++s " restoring=" ++s decimal (dc_restoring c) ++s " restored=" ++s decimal (dc_restored c) ++s newline
  ++s "obligations total=" ++s decimal (ac_obligations_total r)
  ++s " outstanding-protected=" ++s decimal (ac_obligations_outstanding_protected r)
  ++s " retired=" ++s decimal (ac_obligations_retired r) ++s " reappeared=" ++s decimal (ac_obligations_reappeared r) ++s newline
  ++s "fences-closed=" ++s decimal (ac_fences_closed r) ++s " evidence-records=" ++s decimal (ac_evidence_records r)
  ++s " drain-sets=" ++s decimal (ac_drain_sets r) ++s newline
  ++s "authoritative-digest=" ++s hex_u64 (ac_authoritative_digest r) ++s " topology-digest=" ++s hex_u64 (ac_topology_digest r)
  ++s " obligation-digest=" ++s hex_u64 (ac_obligation_digest r) ++s " evidence-digest=" ++s hex_u64 (ac_evidence_digest r) ++s newline
  ++s section_render "violations: " "" (λ v, v) (ac_violations r).
