(* ===== verification/EngineStep.v ===== *)
(** * The drain engine: one scheduling pass

    [DrainEngine::step_drain] and [advance] of [src/engine.cpp].  A pass steps
    every unsettled drain in id order; the requests it collects for adjacent
    runtimes are returned, because the sink is called after the mutex has been
    released. *)

From S2P Require Import Prelude Containers Checked Result Text Identity Lifecycle Obligation Evidence.
From S2P Require Import Authority Admission Topology Policy Decision Engine.

(** [drain::EvacuationRequest]. *)
Record EvacuationRequest := MkEvacuationRequest {
  er_drain : DrainId;
  er_target : DrainTarget;
  er_obligation : ObligationId;
  er_expected_revision : Revision;
  er_evidence_seq : EvidenceSeq;
  er_kind : ObligationKind.t;
  er_mode : EvacuationMode.t;
  er_generation : Generation;
  er_attempt : Attempt;
  er_at : TimePoint;
  er_reason : string;
}.

#[export] Instance EvacuationRequest_eq_dec : EqDecision EvacuationRequest.
Proof. solve_decision. Defined.
(** [drain::RestorationRequest]. *)
Record RestorationRequest := MkRestorationRequest {
  rr_drain : DrainId;
  rr_target : DrainTarget;
  rr_obligation : ObligationId;
  rr_generation : Generation;
  rr_restore_generation : Generation;
  rr_at : TimePoint;
  rr_reason : string;
}.

#[export] Instance RestorationRequest_eq_dec : EqDecision RestorationRequest.
Proof. solve_decision. Defined.
(** [drain::AdmissionReopenRequest]. *)
Record AdmissionReopenRequest := MkAdmissionReopenRequest {
  ao_target : DrainTarget;
  ao_generation : Generation;
  ao_at : TimePoint;
  ao_reason : string;
}.

#[export] Instance AdmissionReopenRequest_eq_dec : EqDecision AdmissionReopenRequest.
Proof. solve_decision. Defined.
(** [DrainEngine::PendingActions]. *)
Record PendingActions := MkPendingActions {
  pa_evacuations : list EvacuationRequest;
  pa_restorations : list RestorationRequest;
  pa_reopens : list AdmissionReopenRequest;
}.

#[export] Instance eta_PendingActions : Eta PendingActions := λ r,
  MkPendingActions
    (pa_evacuations r) (pa_restorations r) (pa_reopens r).
#[export] Instance upd_pa_evacuations : Update pa_evacuations := ltac:(solve_update pa_evacuations).
Arguments upd_pa_evacuations f r /.

Definition no_actions : PendingActions := MkPendingActions [] [] [].

(** ** One case per lifecycle state *)

Definition step_requested (record : DrainRecord) (now : TimePoint) (e : engine) : engine :=
  (apply_transition record DrainState.Validating now "begin validation" DecisionOutcome.Applied
     [] [] [] e).2.

(** [Validating]: the admission boundary is established here. *)
Definition step_validating (record : DrainRecord) (now : TimePoint) (e : engine) : engine :=
  let blockers := evaluate_start record now e in
  if negb (is_nil blockers) then (enter_blocked record blockers now "validation-blocked" e).2
  else
    match fence_close (dr_target record) (dr_id record) now (dr_reason record) (en_fence e) with
    | (Err err, f) =>
        let e := e <| en_fence := f |> in
        (enter_blocked record
           [make_blocker BlockerCode.AdmissionFenceMissing (target_to_string (dr_target record))
              (err_message err) now 0] now "fence-close-failed" e).2
    | (Ok generation, f) =>
        let e := e <| en_fence := f |> in
        let record := record <| dr_generation := generation |> in
        (apply_transition record DrainState.AdmissionClosed now "admission closed" DecisionOutcome.Applied
           ["target=" ++s target_to_string (dr_target record); "generation=" ++s decimal generation]
           ["fence-state=closed"] ["proceed-without-closing-admission"] e).2
    end.

Definition step_admission_closed (record : DrainRecord) (now : TimePoint) (e : engine) : engine :=
  if now <? saturating_add (dr_admission_closed_at record) (p_admission_fence_settle (en_policy e)) then
    let d := make_decision "await-fence-settle" DecisionOutcome.NoOp (dr_id record) (dr_set record)
               (dr_generation record) now e in
    record_decision
      (d <| de_inputs := ["settle=" ++s describe_duration (p_admission_fence_settle (en_policy e));
                          "closed-at=" ++s describe_time (dr_admission_closed_at record)] |>) e
  else
    let outstanding := outstanding_for (dr_target record) e in
    if is_nil outstanding then
      (apply_transition record DrainState.Quiescing now "no protected dependencies depend on the target"
         DecisionOutcome.Applied ["outstanding-protected=0"] []
         ["request-evacuation-with-nothing-to-evacuate"] e).2
    else
      (apply_transition record DrainState.Evacuating now "protected dependencies require evacuation"
         DecisionOutcome.Applied ["outstanding-protected=" ++s decimal (zlength outstanding)] []
         ["declare-quiescent-with-active-obligations"] e).2.

(** The request sent for one movable obligation. *)
Definition evacuation_request (record : DrainRecord) (attempt : Attempt) (now : TimePoint) (e : engine)
    (ob : Obligation) : EvacuationRequest :=
  let release_key := MkEvidenceKey EvidenceKind.ObligationReleased (dr_id record) (ob_id ob) "" in
  MkEvacuationRequest (dr_id record) (dr_target record) (ob_id ob) (ob_revision ob)
    (default 0 (increment_checked u64 (el_high_water release_key (en_evidence e))))
    (ob_kind ob) (ob_mode ob) (dr_generation record) attempt now (dr_reason record).

Definition step_evacuating (record : DrainRecord) (now : TimePoint) (actions : PendingActions) (e : engine)
  : engine * PendingActions :=
  let outstanding := outstanding_for (dr_target record) e in
  if negb (existsb is_movable outstanding) then
    ((apply_transition record DrainState.Quiescing now "every protected dependency has been evacuated"
        DecisionOutcome.Applied ["outstanding-protected=" ++s decimal (zlength outstanding)] [] [] e).2, actions)
  else
    let blockers := evaluate_evacuation record now e in
    if negb (is_nil blockers) then ((enter_blocked record blockers now "evacuation-blocked" e).2, actions)
    else
      let next_retry := saturating_add (dr_last_evacuation_at record)
                          (p_evacuation_retry_interval (en_policy e)) in
      let never_requested := dr_evacuation_requests record =? 0 in
      let retry_due := next_retry <=? now in
      if negb never_requested && negb retry_due then
        let d := make_decision "await-evacuation" DecisionOutcome.NoOp (dr_id record) (dr_set record)
                   (dr_generation record) now e in
        (record_decision
           (d <| de_inputs := ["outstanding-protected=" ++s decimal (zlength outstanding);
                               "next-retry-after=" ++s describe_time next_retry] |>) e, actions)
      else
        let attempt := wrap u32 (dr_evacuation_requests record + 1) in
        let requests := evacuation_request record attempt now e <$> List.filter is_movable outstanding in
        let actions := actions <| pa_evacuations := pa_evacuations actions ++ requests |> in
        let record := note_evacuation_attempt now record in
        let e := put_drain record e in
        let d := make_decision "request-evacuation" DecisionOutcome.Applied (dr_id record) (dr_set record)
                   (dr_generation record) now e in
        let d := d <| de_inputs := ["attempt=" ++s decimal attempt;
                                    "requested=" ++s decimal (zlength requests);
                                    "outstanding-protected=" ++s decimal (zlength outstanding)] |> in
        (record_decision (d <| de_rejected := ["perform-the-migration-in-drain-fabric"] |>) e, actions).

(** Retiring the obligations whose release evidence was accepted. *)
Definition retire_one (now : TimePoint) (st : ObligationTable * Z) (id : ObligationId)
  : ObligationTable * Z :=
  let '(t, retired) := st in
  match ot_find id t with
  | None => (t, retired)
  | Some ob =>
      let '(applied, ob) := apply_state (ob_revision ob) ObligationState.Retired
                              (ob_release_evidence ob) now ob in
      (ot_store id ob t, if is_ok applied then retired + 1 else retired)
  end.

Definition step_retire (record : DrainRecord) (retirable : list ObligationId) (now : TimePoint) (e : engine)
  : engine :=
  let '(t, retired) := foldl (retire_one now) (en_obligations e, 0) retirable in
  let e := e <| en_obligations := t |> in
  let d := make_decision "retire-obligations" DecisionOutcome.Applied (dr_id record) (dr_set record)
             (dr_generation record) now e in
  let d := d <| de_inputs := ["retired=" ++s decimal retired] |> in
  let notes := base.omap (λ id,
    (λ ob, obligation_label ob ++s " release-evidence=" ++s decimal (ob_release_evidence ob))
    <$> ot_find id t) retirable in
  record_decision (d <| de_evidence := notes |>) e.

(** The removal step: validated before the resource leaves service. *)
Definition step_removal (record : DrainRecord) (now : TimePoint) (e : engine) : engine :=
  let target := dr_target record in
  match to_resource (tg_id target) (en_topology e) with
  | None =>
      (enter_blocked record
         [make_blocker BlockerCode.TopologyInconsistent (target_to_string target)
            "the target disappeared before the removal step" now 0] now "removal-step-rejected" e).2
  | Some node =>
      if negb (bool_decide (rn_status node = ResourceStatus.InService)) && negb (removal_owned_by record e) then
        (enter_blocked record
           [make_blocker BlockerCode.TopologyInconsistent (target_to_string target)
              "the target left service outside this drain, so this drain cannot claim its removal" now 0]
           now "removal-step-not-owned" e).2
      else
        let v := validate_removal (tg_id target) (p_capacity_headroom_numerator (en_policy e))
                   (p_capacity_headroom_denominator (en_policy e)) (en_topology e) in
        if in_service node && negb (tv_ok v) then
          (enter_blocked record [blocker_from_violation record v now] now "removal-step-rejected" e).2
        else
          let e := if in_service node
                   then e <| en_topology :=
                               (to_set_status (tg_id target) ResourceStatus.Unavailable (en_topology e)).2 |>
                   else e in
          match record_removal_evidence record now e with
          | (Err err, e) =>
              (enter_blocked record
                 [make_blocker BlockerCode.QuiescenceEvidenceMissing (evidence_key_label (removal_key record))
                    (err_message err) now 0] now "removal-evidence-failed" e).2
          | (Ok _, e) =>
              (apply_transition record DrainState.Verifying now "removal step completed"
                 DecisionOutcome.Applied ["resource=" ++s tg_id target; "removal=applied"]
                 ["removal-observation=recorded-for-generation-" ++s decimal (dr_generation record)]
                 ["removal=assumed-without-observation"] e).2
          end
  end.

Definition step_quiescing (record : DrainRecord) (now : TimePoint) (e : engine) : engine :=
  if existsb is_movable (outstanding_for (dr_target record) e) then
    (apply_transition record DrainState.Evacuating now "an obligation reappeared and must be evacuated again"
       DecisionOutcome.Applied ["reappeared=true"] [] [] e).2
  else
    let '(blockers, retirable) := evaluate_quiescence record now e in
    if negb (is_nil blockers) then (enter_blocked record blockers now "quiescence-blocked" e).2
    else if negb (is_nil retirable) then step_retire record retirable now e
    else step_removal record now e.

(** The part of [Verifying] that follows a clean evaluation. *)
Definition step_complete (record : DrainRecord) (proof : EvidenceSeq) (now : TimePoint) (e : engine) : engine :=
  let remaining := zlength (outstanding_for (dr_target record) e) in
  let digest := authoritative_digest e in
  match record_completion now (wrap u32 remaining) digest proof record with
  | (Err err, record) =>
      (enter_blocked record
         [make_blocker BlockerCode.ProtectedObligationActive (target_to_string (dr_target record))
            (err_message err) now 0] now "completion-refused" e).2
  | (Ok _, record) =>
      let e := bump (λ s, s <| st_completion_proofs := u64_inc (st_completion_proofs s) |>) (put_drain record e) in
      (apply_transition record DrainState.Drained now
         "authoritative snapshot proves zero protected dependencies" DecisionOutcome.Applied
         ["remaining-protected=0"; "snapshot-digest=" ++s hex_u64 digest]
         ["removal-evidence=" ++s decimal proof] ["complete-without-verification"] e).2
  end.

Definition step_verifying (record : DrainRecord) (now : TimePoint) (e : engine) : engine :=
  let '(blockers, proof) := evaluate_verification record now e in
  let '(blockers, proof, e) :=
    if negb (is_nil blockers) && p_reobserve_removal_evidence (en_policy e)
       && removal_is_reobservable record e then
      match record_removal_evidence record now e with
      | (Ok _, e) => (evaluate_verification record now e, e)
      | (Err _, e) => (blockers, proof, e)
      end
    else (blockers, proof, e) in
  if negb (is_nil blockers) then (enter_blocked record blockers now "verification-blocked" e).2
  else step_complete record proof now e.

Definition step_restoring (record : DrainRecord) (now : TimePoint) (e : engine) : engine :=
  if now <? saturating_add (dr_state_since record) (p_admission_fence_settle (en_policy e)) then
    let d := make_decision "await-restore-settle" DecisionOutcome.NoOp (dr_id record) (dr_set record)
               (dr_restore_generation record) now e in
    record_decision
      (d <| de_inputs := ["settle=" ++s describe_duration (p_admission_fence_settle (en_policy e))] |>) e
  else
    let e := if removal_owned_by record e
             then e <| en_topology := (to_set_status (tg_id (dr_target record)) ResourceStatus.InService
                                         (en_topology e)).2 |>
             else e in
    match apply_transition record DrainState.Cancelled now
            "restoration complete; admission reopened under a fresh generation" DecisionOutcome.Applied
            ["reopened-generation=" ++s decimal (dr_restore_generation record)] []
            ["reopen-with-the-closed-generation"] e with
    | (false, e) =>
        (enter_blocked record
           [make_blocker BlockerCode.GenerationSuperseded (target_to_string (dr_target record))
              "restoration could not settle into the cancelled state" now 0] now "restoration-rejected" e).2
    | (true, e) =>
        match en_drains e !! dr_id record with
        | Some record => put_drain (mark_restored now (dr_restore_generation record) record) e
        | None => e
        end
    end.

(** The [switch] of [step_drain]. *)
Definition step_state (record : DrainRecord) (now : TimePoint) (actions : PendingActions) (e : engine)
  : engine * PendingActions :=
  match dr_state record with
  | DrainState.Requested => (step_requested record now e, actions)
  | DrainState.Validating => (step_validating record now e, actions)
  | DrainState.AdmissionClosed => (step_admission_closed record now e, actions)
  | DrainState.Evacuating => step_evacuating record now actions e
  | DrainState.Quiescing => (step_quiescing record now e, actions)
  | DrainState.Verifying => (step_verifying record now e, actions)
  | DrainState.Restoring => (step_restoring record now e, actions)
  | DrainState.Blocked | DrainState.Drained | DrainState.Cancelled | DrainState.Failed => (e, actions)
  end.

(** [DrainEngine::step_drain]: a blocked drain is revalidated first. *)
Definition step_drain (record : DrainRecord) (now : TimePoint) (actions : PendingActions) (e : engine)
  : engine * PendingActions :=
  if bool_decide (dr_state record = DrainState.Blocked) then
    let resume := default DrainState.Validating (dr_blocked_from record) in
    let e :=
      if bool_decide (resume = DrainState.Verifying) && p_reobserve_removal_evidence (en_policy e)
         && removal_is_reobservable record e
      then (record_removal_evidence record now e).2 else e in
    let blockers := evaluate_state record resume now e in
    if negb (is_nil blockers) then ((enter_blocked record blockers now "stay-blocked" e).2, actions)
    else
      match apply_transition record resume now "blockers cleared" DecisionOutcome.Applied
              ["resume-to=" ++s DrainState.to_string resume] [] [] e with
      | (false, e) => (e, actions)
      | (true, e) =>
          match en_drains e !! dr_id record with
          | Some record => step_state record now actions e
          | None => (e, actions)
          end
      end
  else step_state record now actions e.

(** The loop of [advance] over the ids in order; the record is read when its
    turn comes, after its predecessors have moved. *)
Definition advance_one (now : TimePoint) (st : engine * PendingActions) (id : DrainId)
  : engine * PendingActions :=
  let '(e, actions) := st in
  match en_drains e !! id with
  | None => (e, actions)
  | Some record => if is_settled (dr_state record) then (e, actions) else step_drain record now actions e
  end.

(** The first critical section of [advance]. *)
Definition advance_pass (now : TimePoint) (e : engine) : engine * PendingActions :=
  let e := bump (λ s, s <| st_advances := u64_inc (st_advances s) |>) e in
  foldl (advance_one now) (e, no_actions) (om_keys (en_drains e)).

(** The closing critical section of [advance] and of [dispatch]: counters for
    what was handed to the sink and how many of the hand-overs failed. *)
Definition finish_dispatch (actions : PendingActions) (failures : Z) (e : engine) : engine :=
  bump (λ s,
    let s := s <| st_evacuation_requests := wrap u64 (st_evacuation_requests s + zlength (pa_evacuations actions)) |> in
    let s := s <| st_restoration_requests := wrap u64 (st_restoration_requests s + zlength (pa_restorations actions)) |> in
    let s := s <| st_reopen_requests := wrap u64 (st_reopen_requests s + zlength (pa_reopens actions)) |> in
    s <| st_sink_failures := wrap u64 (st_sink_failures s + failures) |>) e.
