(* ===== verification/EngineOps.v ===== *)
(** * The drain engine: public operations

    The public mutators of [DrainEngine] in [src/engine.cpp].  Each returns its
    result together with the engine it leaves; the sources never roll back, so an
    error result may come with a changed engine and the model says which. *)

From S2P Require Import Prelude Containers Checked Result Text Identity Lifecycle Obligation Evidence.
From S2P Require Import Authority Admission Topology Policy Decision Engine EngineStep.

(** [drain::DrainRequest]. *)
Record DrainRequest := MkDrainRequest {
  dq_targets : list DrainTarget;
  dq_reason : string;
  dq_authority : AuthorityId;
  dq_node : NodeId;
  dq_nonce : RequestNonce;
}.

#[export] Instance DrainRequest_eq_dec : EqDecision DrainRequest.
Proof. solve_decision. Defined.
(** [drain::ObligationReport]. *)
Record ObligationReport := MkObligationReport {
  op_obligation : ObligationId;
  op_expected_revision : Revision;
  op_next : ObligationState.t;
  op_evidence : EvidenceSeq;
  op_drain : DrainId;
  op_generation : Generation;
  op_attempt : Attempt;
  op_note : string;
}.

#[export] Instance ObligationReport_eq_dec : EqDecision ObligationReport.
Proof. solve_decision. Defined.

(** ** Configuration and authority *)

(** [set_policy]. *)
Definition set_policy (policy : DrainPolicy) (now : TimePoint) (e : engine) : status * engine :=
  match policy_validate policy with
  | Err err => (Err err, e)
  | Ok _ =>
      let e := e <| en_policy := policy |> in
      let e := e <| en_obligations := en_obligations e <| ot_max_obligations := p_max_obligations policy |> |> in
      let e := e <| en_evidence := en_evidence e <| el_max_records := p_max_evidence_records policy |> |> in
      let d := make_decision "set-policy" DecisionOutcome.Applied 0 0 0 now e in
      (ok_status,
       record_decision (d <| de_inputs := ["policy=" ++s p_name policy;
                                           "fingerprint=" ++s policy_fingerprint policy] |>) e)
  end.

(** [install_incarnation]. *)
Definition en_install_incarnation (incarnation : IncarnationId) (now : TimePoint) (e : engine)
  : status * engine :=
  match install_incarnation incarnation now (en_authority e) with
  | (Err err, a) => (Err err, e <| en_authority := a |>)
  | (Ok _, a) =>
      let e := e <| en_authority := a |> in
      let d := make_decision "install-incarnation" DecisionOutcome.Applied 0 0 0 now e in
      (ok_status, record_decision (d <| de_inputs := ["incarnation=" ++s decimal incarnation] |>) e)
  end.

(** [install_authority_line]: the restart fence. *)
Definition install_authority_line (incarnation : IncarnationId) (epoch : Epoch) (now : TimePoint)
    (reason : string) (e : engine) : status * engine :=
  match install_line incarnation epoch now reason (en_authority e) with
  | (Err err, a) => (Err err, e <| en_authority := a |>)
  | (Ok _, a) =>
      let e := e <| en_authority := a |> in
      let e := e <| en_evidence := quarantine_all (en_evidence e) |> in
      let d := make_decision "install-authority-line" DecisionOutcome.Applied 0 0 0 now e in
      (ok_status,
       record_decision (d <| de_inputs := ["incarnation=" ++s decimal incarnation;
                                           "epoch=" ++s decimal (ar_epoch (en_authority e));
                                           "reason=" ++s truncate reason] |>) e)
  end.

(** [begin_new_epoch]. *)
Definition en_begin_new_epoch (incarnation : IncarnationId) (now : TimePoint) (reason : string) (e : engine)
  : status * engine :=
  match increment_checked u64 (ar_epoch (en_authority e)) with
  | None => (fail ErrorCode.BoundsExceeded "authority epoch space exhausted", e)
  | Some next_epoch => install_authority_line incarnation next_epoch now reason e
  end.

(** [issue_authority]. *)
Definition issue_authority (scope : DomainId) (validity : Duration) (now : TimePoint) (e : engine)
  : result AuthorityToken * engine :=
  match ar_issue scope now validity (en_authority e) with
  | (Err err, a) => (Err err, e <| en_authority := a |>)
  | (Ok token, a) =>
      let e := e <| en_authority := a |> in
      let d := make_decision "issue-authority" DecisionOutcome.Applied 0 0 0 now e in
      (Ok token,
       record_decision (d <| de_inputs := ["authority=" ++s decimal (at_id token);
                                           "scope=" ++s (if bool_decide (scope = "") then "*" else scope)] |>) e)
  end.

Definition validate_authority (token : AuthorityToken) (now : TimePoint) (e : engine) : status :=
  ar_validate token now (en_authority e).

(** [revoke_authority]. *)
Definition revoke_authority (id : AuthorityId) (reason : string) (now : TimePoint) (e : engine)
  : status * engine :=
  match ar_revoke id now reason (en_authority e) with
  | (Err err, a) => (Err err, e <| en_authority := a |>)
  | (Ok _, a) =>
      let e := e <| en_authority := a |> in
      let d := make_decision "revoke-authority" DecisionOutcome.Applied 0 0 0 now e in
      (ok_status,
       record_decision (d <| de_inputs := ["authority=" ++s decimal id; "reason=" ++s truncate reason] |>) e)
  end.

(** ** Topology *)

Definition en_add_resource (node : ResourceNode) (now : TimePoint) (e : engine) : status * engine :=
  match add_resource node (en_topology e) with
  | (Err err, t) => (Err err, e <| en_topology := t |>)
  | (Ok _, t) =>
      let e := e <| en_topology := t |> in
      (ok_status, record_decision (make_decision "add-resource" DecisionOutcome.Applied 0 0 0 now e) e)
  end.

Definition en_add_edge (a b : ResourceId) (now : TimePoint) (e : engine) : status * engine :=
  match add_edge a b (en_topology e) with
  | (Err err, t) => (Err err, e <| en_topology := t |>)
  | (Ok _, t) =>
      let e := e <| en_topology := t |> in
      (ok_status, record_decision (make_decision "add-edge" DecisionOutcome.Applied 0 0 0 now e) e)
  end.

Definition en_add_path (path : FabricPath) (now : TimePoint) (e : engine) : status * engine :=
  match add_path path (en_topology e) with
  | (Err err, t) => (Err err, e <| en_topology := t |>)
  | (Ok _, t) =>
      let e := e <| en_topology := t |> in
      (ok_status, record_decision (make_decision "add-path" DecisionOutcome.Applied 0 0 0 now e) e)
  end.

Definition en_add_diversity_group (group : DiversityGroup) (now : TimePoint) (e : engine) : status * engine :=
  match add_diversity_group group (en_topology e) with
  | (Err err, t) => (Err err, e <| en_topology := t |>)
  | (Ok _, t) =>
      let e := e <| en_topology := t |> in
      (ok_status, record_decision (make_decision "add-diversity-group" DecisionOutcome.Applied 0 0 0 now e) e)
  end.

Definition en_add_capacity_pool (pool : CapacityPool) (now : TimePoint) (e : engine) : status * engine :=
  match add_capacity_pool pool (en_topology e) with
  | (Err err, t) => (Err err, e <| en_topology := t |>)
  | (Ok _, t) =>
      let e := e <| en_topology := t |> in
      (ok_status, record_decision (make_decision "add-capacity-pool" DecisionOutcome.Applied 0 0 0 now e) e)
  end.

Definition en_add_protected_route (route : ProtectedRoute) (now : TimePoint) (e : engine) : status * engine :=
  match add_protected_route route (en_topology e) with
  | (Err err, t) => (Err err, e <| en_topology := t |>)
  | (Ok _, t) =>
      let e := e <| en_topology := t |> in
      (ok_status, record_decision (make_decision "add-protected-route" DecisionOutcome.Applied 0 0 0 now e) e)
  end.

(** [report_resource_status]. *)
Definition report_resource_status (id : ResourceId) (st : ResourceStatus.t) (now : TimePoint) (e : engine)
  : status * engine :=
  match to_set_status id st (en_topology e) with
  | (Err err, t) => (Err err, e <| en_topology := t |>)
  | (Ok _, t) =>
      let e := e <| en_topology := t |> in
      let d := make_decision "report-resource-status" DecisionOutcome.Applied 0 0 0 now e in
      (ok_status,
       record_decision (d <| de_inputs := ["resource=" ++s id;
                                           "status=" ++s ResourceStatus.to_string st] |>) e)
  end.

(** ** Obligations *)

Definition reject_admission (e : engine) : engine :=
  bump (λ s, s <| st_rejected_admissions := u64_inc (st_rejected_admissions s) |>) e.
Definition reject_report (e : engine) : engine :=
  bump (λ s, s <| st_rejected_reports := u64_inc (st_rejected_reports s) |>) e.
Definition reject_evidence (e : engine) : engine :=
  bump (λ s, s <| st_rejected_evidence := u64_inc (st_rejected_evidence s) |>) e.

(** The first dependency the fence refuses, with its refusal. *)
Fixpoint first_refusal (presented : Generation) (f : AdmissionFence) (deps : list DrainTarget)
  : option (DrainTarget * error) :=
  match deps with
  | [] => None
  | target :: deps =>
      match check_admission target presented f with
      | Ok _ => first_refusal presented f deps
      | Err err => Some (target, err)
      end
  end.

(** [admit_obligation]. *)
Definition admit_obligation (draft : Obligation) (presented : Generation) (authority : AuthorityId)
    (now : TimePoint) (e : engine) : result Obligation * engine :=
  match require_authority authority now e with
  | Err err => (Err err, reject_admission e)
  | Ok _ =>
      if is_nil (ob_dependencies draft) then
        (fail ErrorCode.InvalidArgument "an obligation must depend on at least one target", reject_admission e)
      else if kMaxDependenciesPerObligation <? zlength (ob_dependencies draft) then
        (fail ErrorCode.BoundsExceeded "obligation dependency count exceeds the supported bound",
         reject_admission e)
      else
        match first_refusal presented (en_fence e) (ob_dependencies draft) with
        | Some (target, err) =>
            let e := reject_admission e in
            let d := make_decision "admit-obligation" DecisionOutcome.Rejected 0 0 presented now e in
            let d := d <| de_inputs := ["holder=" ++s ob_holder draft;
                                        "target=" ++s target_to_string target;
                                        "presented-generation=" ++s decimal presented] |> in
            (Err err, record_decision (d <| de_rejected := [error_to_string err] |>) e)
        | None =>
            let draft := draft <| ob_admitted_at := now |> <| ob_admission_generation := presented |> in
            match ot_insert draft (en_obligations e) with
            | (Err err, t) => (Err err, reject_admission (e <| en_obligations := t |>))
            | (Ok stored, t) =>
                let e := e <| en_obligations := t |> in
                let d := make_decision "admit-obligation" DecisionOutcome.Applied 0 0 presented now e in
                let d := d <| de_inputs := ["obligation=" ++s decimal (ob_id stored);
                  "holder=" ++s ob_holder stored; "kind=" ++s ObligationKind.to_string (ob_kind stored);
                  "protection=" ++s ProtectionClass.to_string (ob_protection stored);
                  "generation=" ++s decimal presented] |> in
                (Ok stored, record_decision d e)
            end
        end
  end.

(** The generation fence of [report_obligation]. *)
Definition report_generation_check (report : ObligationReport) (e : engine) : status :=
  if op_drain report =? 0 then ok_status
  else
    match en_drains e !! op_drain report with
    | None => fail ErrorCode.NotFound ("no such drain: " ++s decimal (op_drain report))
    | Some record =>
        let current_generation := op_generation report =? dr_generation record in
        let restore_generation := negb (dr_restore_generation record =? 0)
                                  && (op_generation report =? dr_restore_generation record) in
        if negb current_generation && negb restore_generation then
          fail ErrorCode.StaleGeneration
            ("obligation report for drain " ++s decimal (op_drain report) ++s " carries generation "
             ++s decimal (op_generation report) ++s " but the drain is at generation "
             ++s decimal (dr_generation record))
        else ok_status
    end.

(** [report_obligation]. *)
Definition report_obligation (report : ObligationReport) (now : TimePoint) (e : engine) : status * engine :=
  match ot_find (op_obligation report) (en_obligations e) with
  | None => (fail ErrorCode.NotFound ("no such obligation: " ++s decimal (op_obligation report)), reject_report e)
  | Some ob =>
      match report_generation_check report e with
      | Err err => (Err err, reject_report e)
      | Ok _ =>
          match apply_state (op_expected_revision report) (op_next report) (op_evidence report) now ob with
          | (Err err, ob) =>
              (Err err, reject_report (e <| en_obligations := ot_store (op_obligation report) ob (en_obligations e) |>))
          | (Ok _, ob) =>
              let ob := if negb (op_attempt report =? 0) then ob <| ob_attempt := op_attempt report |> else ob in
              let ob := if negb (bool_decide (op_note report = ""))
                        then ob <| ob_note := truncate (op_note report) |> else ob in
              let e := e <| en_obligations := ot_store (op_obligation report) ob (en_obligations e) |> in
              let d := make_decision "report-obligation" DecisionOutcome.Applied (op_drain report) 0
                         (op_generation report) now e in
              (ok_status,
               record_decision (d <| de_inputs := ["obligation=" ++s decimal (op_obligation report);
                 "state=" ++s ObligationState.to_string (op_next report);
                 "expected-revision=" ++s decimal (op_expected_revision report);
                 "resulting-revision=" ++s decimal (ob_revision ob)] |>) e)
          end
      end
  end.

(** ** Evidence *)

(** [record_evidence]. *)
Definition record_evidence (draft : Evidence) (now : TimePoint) (e : engine) : result Evidence * engine :=
  match el_record draft (evidence_fence now e) (p_evidence_requires_live_incarnation (en_policy e))
          (en_evidence e) with
  | (Err err, l) =>
      let e := reject_evidence (e <| en_evidence := l |>) in
      let d := make_decision "record-evidence" DecisionOutcome.Rejected (ek_drain (ev_key draft)) 0 0 now e in
      let d := d <| de_inputs := ["evidence=" ++s evidence_key_label (ev_key draft);
                                  "sequence=" ++s decimal (ev_seq draft)] |> in
      (Err err, record_decision (d <| de_rejected := [error_to_string err] |>) e)
  | (Ok recorded, l) =>
      let e := e <| en_evidence := l |> in
      let d := make_decision "record-evidence" DecisionOutcome.Applied (ek_drain (ev_key draft)) 0
                 (ev_generation recorded) now e in
      let d := d <| de_inputs := ["evidence=" ++s evidence_key_label (ev_key draft);
                                  "sequence=" ++s decimal (ev_seq recorded);
                                  "observed-at=" ++s describe_time (ev_observed_at recorded)] |> in
      let d := d <| de_evidence := ["fresh-until=" ++s describe_time
                 (saturating_add (ev_observed_at recorded) (p_evidence_freshness (en_policy e)))] |> in
      (Ok recorded, record_decision d e)
  end.

(** [attest_evidence]. *)
Definition attest_evidence (key : EvidenceKey) (seq : EvidenceSeq) (now : TimePoint) (e : engine)
  : status * engine :=
  match el_attest key seq (evidence_fence now e) (en_evidence e) with
  | (Err err, l) => (Err err, reject_evidence (e <| en_evidence := l |>))
  | (Ok _, l) =>
      let e := e <| en_evidence := l |> in
      let d := make_decision "attest-evidence" DecisionOutcome.Applied 0 0 0 now e in
      (ok_status,
       record_decision (d <| de_inputs := ["sequence=" ++s decimal seq;
                                           "stream=" ++s evidence_key_label key] |>) e)
  end.

(** ** Requesting a drain *)

(** A drain that gave its target back. *)
Definition reusable (r : DrainRecord) : bool :=
  bool_decide (dr_state r = DrainState.Cancelled) && negb (dr_restored_at r =? 0).

(** The first target that some drain still owns, with that drain. *)
Fixpoint first_owned (e : engine) (targets : list DrainTarget) : option (DrainTarget * DrainId * DrainRecord) :=
  match targets with
  | [] => None
  | target :: targets =>
      match List.find (λ p : DrainId * DrainRecord,
              bool_decide (dr_target p.2 = target) && negb (reusable p.2)) (om_list (en_drains e)) with
      | Some (id, r) => Some (target, id, r)
      | None => first_owned e targets
      end
  end.

(** The [per_domain] counters of [request_drain_set]. *)
Definition per_domain (targets : list DrainTarget) : omap DomainId Z :=
  foldl (λ m t, <[tg_domain t := default 0 (m !! tg_domain t) + 1]> m) ∅ targets.

(** A rejected request leaves only a decision behind. *)
Definition reject_request (reasons : list string) (now : TimePoint) (e : engine) : engine :=
  let d := make_decision "request-drain-set" DecisionOutcome.Rejected 0 0 0 now e in
  record_decision (d <| de_rejected := reasons |>) e.

(** Set-level admission checks, in source order; [Ok] lets the set be created. *)
Definition correlated_check (targets : list DrainTarget) (now : TimePoint) (e : engine) : status * engine :=
  let complete_topology :=
    forallb (λ t, match to_resource (tg_id t) (en_topology e) with Some _ => true | None => false end) targets in
  let removal := set_of_list (tg_id <$> targets) in
  let violation := validate_removal_many removal (p_capacity_headroom_numerator (en_policy e))
                     (p_capacity_headroom_denominator (en_policy e)) (en_topology e) in
  if complete_topology && negb (tv_ok violation) then
    let code :=
      match tv_kind violation with
      | ViolationKind.CapacityPoolExhausted | ViolationKind.ReservationOverCapacity =>
          ErrorCode.CapacityViolation
      | _ => ErrorCode.RedundancyViolation
      end in
    (fail code ("correlated drain would violate " ++s tv_subject violation ++s ": " ++s tv_detail violation),
     reject_request [tv_detail violation; "consider draining fewer targets in the same failure domain"] now e)
  else
    match List.find (λ p : DomainId * Z, p_max_concurrent_drains_per_domain (en_policy e) <? p.2)
            (om_list (per_domain targets)) with
    | Some (domain, count) =>
        (fail ErrorCode.DomainLimitViolation "the drain set exceeds the failure-domain concurrency limit",
         reject_request ["failure domain " ++s (if bool_decide (domain = "") then "<none>" else domain)
                         ++s " would host " ++s decimal count ++s " correlated drains"] now e)
    | None => (ok_status, e)
    end.

(** The loop that creates the member drains; it stops where the id space ends. *)
Fixpoint create_members (request : DrainRequest) (set : DrainSet) (now : TimePoint)
    (targets : list DrainTarget) (e : engine) : result DrainSet * engine :=
  match targets with
  | [] => (Ok set, e)
  | target :: targets =>
      match increment_checked u64 (en_drain_high_water e) with
      | None => (fail ErrorCode.BoundsExceeded "drain id space exhausted", e)
      | Some next_drain =>
          let e := e <| en_drain_high_water := next_drain |> in
          let record := new_drain_record next_drain target 0 (dq_authority request) now in
          let record := record <| dr_set := ds_id set |> in
          let record := record <| dr_node := dq_node request |> in
          let record := record <| dr_reason := ds_reason set |> in
          let set := set <| ds_members := ds_members set ++ [next_drain] |> in
          let e := e <| en_drains := (emplace next_drain record (en_drains e)).1 |> in
          create_members request set now targets e
      end
  end.

(** The decision logged for each member. *)
Definition log_member (set : DrainSet) (now : TimePoint) (e : engine) (member : DrainId) : engine :=
  let d := make_decision "request-drain" DecisionOutcome.Applied member (ds_id set) 0 now e in
  let inputs := match en_drains e !! member with
                | Some r => ["target=" ++s target_to_string (dr_target r)]
                | None => []
                end in
  record_decision (d <| de_inputs := inputs ++ ["reason=" ++s ds_reason set] |>) e.

(** Creating the set, once every check passed. *)
Definition create_set (request : DrainRequest) (targets : list DrainTarget) (now : TimePoint) (e : engine)
  : result DrainSetId * engine :=
  match increment_checked u64 (en_set_high_water e) with
  | None => (fail ErrorCode.BoundsExceeded "drain set id space exhausted", e)
  | Some next_set =>
      let e := e <| en_set_high_water := next_set |> in
      let set := MkDrainSet next_set (truncate (dq_reason request)) now 1 (dq_authority request)
                   (dq_nonce request) targets [] in
      match create_members request set now targets e with
      | (Err err, e) => (Err err, e)
      | (Ok set, e) =>
          let e := e <| en_sets := (emplace (ds_id set) set (en_sets e)).1 |> in
          let e := if negb (dq_nonce request =? 0)
                   then e <| en_nonce_sets := (emplace (dq_nonce request) (ds_id set) (en_nonce_sets e)).1 |>
                   else e in
          let d := make_decision "request-drain-set" DecisionOutcome.Applied 0 (ds_id set) 0 now e in
          let d := d <| de_inputs := ["set=" ++s decimal (ds_id set);
                                      "members=" ++s decimal (zlength (ds_members set))]
                                     ++ ((λ t, "target=" ++s target_to_string t) <$> ds_targets set) |> in
          let e := record_decision (d <| de_rejected := ["admit-without-correlated-check"] |>) e in
          (Ok (ds_id set), foldl (log_member set now) e (ds_members set))
      end
  end.

(** [request_drain_set]. *)
Definition request_drain_set (request : DrainRequest) (now : TimePoint) (e : engine)
  : result DrainSetId * engine :=
  match normalize_targets (dq_targets request) (p_max_targets_per_request (en_policy e)) with
  | Err err => (Err err, e)
  | Ok targets =>
      match require_authority (dq_authority request) now e with
      | Err err => (Err err, reject_request [truncate (err_message err)] now e)
      | Ok _ =>
          if p_max_drains_in_set (en_policy e) <? zlength targets then
            (fail ErrorCode.BoundsExceeded "drain set exceeds the policy member limit", e)
          else if (kMaxDrainSets <=? om_size (en_sets e))
                  || (kMaxDrains <? om_size (en_drains e) + zlength targets) then
            (fail ErrorCode.BoundsExceeded "drain table is at capacity", e)
          else
            match (if dq_nonce request =? 0 then None else en_nonce_sets e !! dq_nonce request) with
            | Some existing =>
                match en_sets e !! existing with
                | Some set =>
                    if bool_decide (ds_targets set = targets) then (Ok existing, e)
                    else (fail ErrorCode.DuplicateIdentity
                            "request nonce was already used for a different target set", e)
                | None => (fail ErrorCode.DuplicateIdentity
                             "request nonce was already used for a different target set", e)
                end
            | None =>
                match first_owned e targets with
                | Some (target, id, r) =>
                    (fail ErrorCode.DuplicateIdentity
                       ("target " ++s target_to_string target ++s " is already owned by drain "
                        ++s decimal id ++s " in state " ++s DrainState.to_string (dr_state r)), e)
                | None =>
                    match correlated_check targets now e with
                    | (Err err, e) => (Err err, e)
                    | (Ok _, e) => create_set request targets now e
                    end
                end
            end
      end
  end.

(** [request_drain]: the set's single member. *)
Definition request_drain (request : DrainRequest) (now : TimePoint) (e : engine) : result DrainId * engine :=
  match request_drain_set request now e with
  | (Err err, e) => (Err err, e)
  | (Ok set_id, e) =>
      match en_sets e !! set_id with
      | Some set =>
          match ds_members set with
          | [member] => (Ok member, e)
          | _ => (fail ErrorCode.Internal "single-target drain request did not produce exactly one drain", e)
          end
      | None => (fail ErrorCode.Internal "single-target drain request did not produce exactly one drain", e)
      end
  end.

(** ** Operating on a drain *)

(** The common prologue: authority, then the record. *)
Definition with_drain {A} (id : DrainId) (authority : AuthorityId) (now : TimePoint) (e : engine)
    (k : DrainRecord → result A * engine) : result A * engine :=
  match require_authority authority now e with
  | Err err => (Err err, e)
  | Ok _ =>
      match en_drains e !! id with
      | None => (fail ErrorCode.NotFound ("no such drain: " ++s decimal id), e)
      | Some record => k record
      end
  end.

(** [cancel_drain]: the admission fence is deliberately left closed. *)
Definition cancel_drain (id : DrainId) (authority : AuthorityId) (reason : string) (now : TimePoint)
    (e : engine) : status * engine :=
  with_drain id authority now e (λ record,
    match dr_state record with
    | DrainState.Drained =>
        (fail ErrorCode.IllegalTransition
           ("a drained target must be restored, not cancelled: " ++s decimal id), e)
    | DrainState.Cancelled => (ok_status, e)
    | _ =>
        match apply_transition record DrainState.Cancelled now (truncate reason) DecisionOutcome.Applied
                ["reason=" ++s truncate reason] [] ["complete-the-drain"] e with
        | (true, e) => (ok_status, e)
        | (false, e) =>
            (fail ErrorCode.IllegalTransition
               ("drain " ++s decimal id ++s " cannot be cancelled from state "
                ++s DrainState.to_string (dr_state record)), e)
        end
    end).

(** How [restore_drain] obtains the generation it reopens under. *)
Definition reopen_generation (record : DrainRecord) (reason : string) (now : TimePoint) (e : engine)
  : result Generation * engine :=
  let target := dr_target record in
  if fence_is_closed target (en_fence e) then
    match fence_entry target (en_fence e) with
    | Some entry =>
        if negb (fe_drain entry =? dr_id record) then
          (fail ErrorCode.IllegalTransition
             ("admission for " ++s target_to_string target ++s " is held by drain "
              ++s decimal (fe_drain entry) ++s ", not by " ++s decimal (dr_id record)), e)
        else
          let '(res, f) := fence_reopen target (dr_id record) now (truncate reason) (en_fence e) in
          (res, e <| en_fence := f |>)
    | None => (* unreachable: a closed fence has an entry *)
        let '(res, f) := fence_reopen target (dr_id record) now (truncate reason) (en_fence e) in
        (res, e <| en_fence := f |>)
    end
  else if fence_generation target (en_fence e) <=? dr_generation record then
    match fence_close target (dr_id record) now "restoration generation advance" (en_fence e) with
    | (Err err, f) => (Err err, e <| en_fence := f |>)
    | (Ok _, f) =>
        let '(res, f) := fence_reopen target (dr_id record) now (truncate reason) f in
        (res, e <| en_fence := f |>)
    end
  else (Ok (fence_generation target (en_fence e)), e).

(** The critical section of [restore_drain], with the requests it hands to the
    sink afterwards. *)
Definition restore_drain (id : DrainId) (authority : AuthorityId) (reason : string) (now : TimePoint)
    (e : engine) : result PendingActions * engine :=
  with_drain id authority now e (λ record,
    if bool_decide (dr_state record = DrainState.Restoring) then (Ok no_actions, e)
    else if negb (is_settled (dr_state record)) then
      (fail ErrorCode.IllegalTransition
         ("only a settled drain can be restored: " ++s decimal id ++s " is "
          ++s DrainState.to_string (dr_state record)), e)
    else if reusable record then (Ok no_actions, e)
    else
      match reopen_generation record reason now e with
      | (Err err, e) => (Err err, e)
      | (Ok reopened, e) =>
          match apply_transition record DrainState.Restoring now (truncate reason) DecisionOutcome.Applied
                  ["reopened-generation=" ++s decimal reopened] [] ["leave-admission-closed"] e with
          | (false, e) =>
              (fail ErrorCode.IllegalTransition
                 ("drain " ++s decimal id ++s " cannot be restored from state "
                  ++s DrainState.to_string (dr_state record)), e)
          | (true, e) =>
              let record := default record (en_drains e !! id) in
              let record := record <| dr_restore_generation := reopened |> in
              let e := put_drain record e in
              let restorations := (λ ob,
                MkRestorationRequest (dr_id record) (dr_target record) (ob_id ob) (dr_generation record)
                  reopened now (truncate reason)) <$> outstanding_for (dr_target record) e in
              (Ok (MkPendingActions [] restorations
                     [MkAdmissionReopenRequest (dr_target record) reopened now (truncate reason)]), e)
          end
      end).

(** [resume_drain]. *)
Definition resume_drain (id : DrainId) (authority : AuthorityId) (now : TimePoint) (e : engine)
  : status * engine :=
  with_drain id authority now e (λ record,
    if negb (bool_decide (dr_state record = DrainState.Blocked)) then
      (fail ErrorCode.IllegalTransition ("drain is not blocked: " ++s decimal id), e)
    else
      let resume := default DrainState.Validating (dr_blocked_from record) in
      match evaluate_state record resume now e with
      | first :: rest =>
          (fail ErrorCode.Blocked ("drain remains blocked: " ++s blocker_render first),
           (enter_blocked record (first :: rest) now "resume-rejected" e).2)
      | [] =>
          match apply_transition record resume now "operator resume" DecisionOutcome.Applied
                  ["operator=" ++s decimal authority] [] [] e with
          | (true, e) => (ok_status, e)
          | (false, e) => (fail ErrorCode.IllegalTransition "drain could not be resumed", e)
          end
      end).

(** [grant_exception]. *)
Definition grant_exception (id : DrainId) (obligation : ObligationId) (extension : Duration)
    (authority : AuthorityId) (now : TimePoint) (e : engine) : status * engine :=
  match require_authority authority now e with
  | Err err => (Err err, e)
  | Ok _ =>
      if extension <=? 0 then
        (fail ErrorCode.InvalidArgument "an exception extension must be positive", e)
      else
        match en_drains e !! id with
        | None => (fail ErrorCode.NotFound ("no such drain: " ++s decimal id), e)
        | Some record =>
            if is_settled (dr_state record) then
              (fail ErrorCode.IllegalTransition
                 ("a settled drain cannot receive an exception: " ++s decimal id), e)
            else if negb (obligation =? 0) && bool_decide (ot_find obligation (en_obligations e) = None) then
              (fail ErrorCode.NotFound ("no such obligation: " ++s decimal obligation), e)
            else
              let grants := default [] (en_exceptions e !! id) in
              let e := e <| en_exceptions := <[id := grants]> (en_exceptions e) |> in
              if p_max_exception_extensions (en_policy e) <=? zlength grants then
                (fail ErrorCode.PolicyViolation "the exception budget for this drain is exhausted", e)
              else
                match increment_checked u32 (en_exception_high_water e) with
                | None => (fail ErrorCode.BoundsExceeded "exception sequence space exhausted", e)
                | Some next =>
                    let e := e <| en_exception_high_water := next |> in
                    let grant := MkExceptionGrant id obligation extension authority now next in
                    let e := e <| en_exceptions := <[id := grants ++ [grant]]> (en_exceptions e) |> in
                    let e := put_drain (reset_evacuation_attempts record) e in
                    let d := make_decision "grant-exception" DecisionOutcome.Applied id (dr_set record)
                               (dr_generation record) now e in
                    let d := d <| de_inputs := ["obligation=" ++s decimal obligation;
                                                "extension=" ++s describe_duration extension;
                                                "sequence=" ++s decimal next] |> in
                    (ok_status, record_decision (d <| de_rejected := ["ignore-the-grace-window"] |>) e)
                end
        end
  end.

(** ** Handing requests to the adjacent runtimes *)

(** [drain::EvacuationSink], the hook the embedding program supplies: an object with
    a state of its own that every call may change.  The calls are made without the
    mutex; what they do to the engine are operations of their own. *)
Record EvacuationSink := MkSink {
  sk_state : Type;
  sk_current : sk_state;
  on_evacuation_request : EvacuationRequest → sk_state → status * sk_state;
  on_restoration_request : RestorationRequest → sk_state → status * sk_state;
  on_admission_reopen : AdmissionReopenRequest → sk_state → status * sk_state;
}.

(** The last failing status of a sequence of calls, and how many failed. *)
Definition hand_over_all {A K} (send : A → K → status * K) (requests : list A) (acc : status * Z * K) : status * Z * K :=
  foldl (λ acc r, let '(overall, failures, k) := acc in
                  match send r k with
                  | (Ok _, k) => (overall, failures, k)
                  | (Err err, k) => (Err err, failures + 1, k)
                  end) acc requests.

(** The three loops over the sink: the last failing status, how many evacuation
    hand-overs failed, how many of the others, and the sink afterwards. *)
Definition hand_over (s : EvacuationSink) (actions : PendingActions) : status * Z * Z * sk_state s :=
  let '(overall, evacuations, k) :=
    hand_over_all (on_evacuation_request s) (pa_evacuations actions) (ok_status, 0, sk_current s) in
  let '(overall, restorations, k) := hand_over_all (on_restoration_request s) (pa_restorations actions) (overall, 0, k) in
  let '(overall, reopens, k) := hand_over_all (on_admission_reopen s) (pa_reopens actions) (overall, 0, k) in
  (overall, evacuations, restorations + reopens, k).

(** [DrainEngine::dispatch]. *)
Definition dispatch (sink : option EvacuationSink) (actions : PendingActions) (e : engine) : status * engine :=
  let '(overall, failures) :=
    match sink with
    | None => (ok_status, 0)
    | Some s => let '(overall, evacuations, others, _) := hand_over s actions in (overall, evacuations + others)
    end in
  (overall, finish_dispatch actions failures e).

(** [DrainEngine::advance]: only evacuation hand-overs are counted as sink
    failures, and all of them count when there is no sink. *)
Definition advance (sink : option EvacuationSink) (now : TimePoint) (e : engine) : status * engine :=
  let '(e, actions) := advance_pass now e in
  let '(overall, failures) :=
    match sink with
    | None => (ok_status, zlength (pa_evacuations actions))
    | Some s => let '(overall, evacuations, _, _) := hand_over s actions in (overall, evacuations)
    end in
  (overall, finish_dispatch actions failures e).

(** [restore_drain] with its hand-over. *)
Definition restore_drain_and_dispatch (sink : option EvacuationSink) (id : DrainId) (authority : AuthorityId)
    (reason : string) (now : TimePoint) (e : engine) : status * engine :=
  match restore_drain id authority reason now e with
  | (Err err, e) => (Err err, e)
  | (Ok actions, e) => dispatch sink actions e
  end.
