(* ===== verification/EngineInv.v ===== *)
(** * The engine: frames and the representation invariant

    The decision log and the counters are written by every operation and read by
    none, so engines are compared up to them; each helper of [src/engine.cpp]
    is summarised by the record it stores. *)

From S2P Require Import Prelude Containers Checked Result Text Identity Lifecycle Obligation Evidence.
From S2P Require Import Authority Admission Topology TopologyFacts Policy Decision Protocol Engine.
From S2P Require Import EngineStep EngineOps.

(** ** Equality up to the log *)

Definition core (e : engine) : engine := e <| en_decisions := [] |> <| en_stats := zero_stats |>.

Record log_eq (e e' : engine) : Prop := { le_core : core e = core e' }.
#[export] Instance engine_equiv : Equiv engine := log_eq.
#[export] Instance engine_equivalence : Equivalence (≡@{engine}).
Proof.
  split.
  - by intros e.
  - intros e e' [H]. by split.
  - intros e1 e2 e3 [H1] [H2]. split. by rewrite H1.
Qed.

Lemma record_decision_log d e : record_decision d e ≡ e.
Proof. done. Qed.
Lemma bump_log f e : bump f e ≡ e.
Proof. done. Qed.

#[export] Instance en_policy_proper : Proper ((≡) ==> (=)) en_policy.
Proof. by intros e e' [[=]]. Qed.
#[export] Instance en_topology_proper : Proper ((≡) ==> (=)) en_topology.
Proof. by intros e e' [[=]]. Qed.
#[export] Instance en_obligations_proper : Proper ((≡) ==> (=)) en_obligations.
Proof. by intros e e' [[=]]. Qed.
#[export] Instance en_evidence_proper : Proper ((≡) ==> (=)) en_evidence.
Proof. by intros e e' [[=]]. Qed.
#[export] Instance en_authority_proper : Proper ((≡) ==> (=)) en_authority.
Proof. by intros e e' [[=]]. Qed.
#[export] Instance en_fence_proper : Proper ((≡) ==> (=)) en_fence.
Proof. by intros e e' [[=]]. Qed.
#[export] Instance en_drains_proper : Proper ((≡) ==> (=)) en_drains.
Proof. by intros e e' [[=]]. Qed.
#[export] Instance en_sets_proper : Proper ((≡) ==> (=)) en_sets.
Proof. by intros e e' [[=]]. Qed.
#[export] Instance en_nonce_sets_proper : Proper ((≡) ==> (=)) en_nonce_sets.
Proof. by intros e e' [[=]]. Qed.
#[export] Instance en_exceptions_proper : Proper ((≡) ==> (=)) en_exceptions.
Proof. by intros e e' [[=]]. Qed.
#[export] Instance en_drain_high_water_proper : Proper ((≡) ==> (=)) en_drain_high_water.
Proof. by intros e e' [[=]]. Qed.
#[export] Instance en_set_high_water_proper : Proper ((≡) ==> (=)) en_set_high_water.
Proof. by intros e e' [[=]]. Qed.

#[export] Instance put_drain_proper r : Proper ((≡) ==> (≡)) (put_drain r).
Proof.
  intros e e' [He]. injection He; intros. split. unfold core, put_drain; simpl.
  f_equal; try assumption; by f_equal.
Qed.
#[export] Instance record_decision_proper d : Proper ((≡) ==> (≡)) (record_decision d).
Proof. intros e e' He. by rewrite !record_decision_log. Qed.
#[export] Instance bump_proper f : Proper ((≡) ==> (≡)) (bump f).
Proof. intros e e' He. by rewrite !bump_log. Qed.

Lemma put_put r r' e : dr_id r' = dr_id r → put_drain r' (put_drain r e) = put_drain r' e.
Proof. intros Hid. unfold put_drain; simpl. by rewrite Hid, om_insert_insert. Qed.

Lemma lookup_put r e id :
  en_drains (put_drain r e) !! id = if decide (dr_id r = id) then Some r else en_drains e !! id.
Proof.
  simpl. case_decide; [subst; apply om_lookup_insert_eq|by apply om_lookup_insert_ne].
Qed.

(** ** The state a record is effectively in *)

(** A blocked drain holds what it held when it blocked. *)
Definition effective_state (r : DrainRecord) : DrainState.t :=
  match dr_state r with
  | DrainState.Blocked => default DrainState.Validating (dr_blocked_from r)
  | s => s
  end.

Definition phase_at (s : DrainState.t) (restored reopened : bool) : phase :=
  match s with
  | DrainState.Requested | DrainState.Validating | DrainState.Blocked => Waiting
  | DrainState.AdmissionClosed | DrainState.Evacuating | DrainState.Quiescing
  | DrainState.Verifying => Holding
  | DrainState.Drained => Done
  | DrainState.Restoring => Leaving
  | DrainState.Cancelled => if restored then Released else if reopened then Abandoned else Gone
  | DrainState.Failed => if reopened then Abandoned else Gone
  end.
Definition phase_of (r : DrainRecord) : phase :=
  phase_at (effective_state r) (negb (dr_restored_at r =? 0)) (negb (dr_restore_generation r =? 0)).

Lemma holds_fence_effective r : holds_fence r = is_fence_holding_state (effective_state r).
Proof. unfold holds_fence, effective_state. destruct (dr_state r); try done. by destruct (dr_blocked_from r). Qed.

Lemma holds_fence_phase r : holds_fence r = true ↔ phase_of r = Holding.
Proof.
  rewrite holds_fence_effective. unfold phase_of.
  destruct (effective_state r), (dr_restored_at r =? 0), (dr_restore_generation r =? 0); simpl; done.
Qed.

Lemma reusable_phase r : record_wf r → reusable r = true ↔ phase_of r = Released.
Proof.
  intros (_ & _ & Hb & Hs). unfold reusable, phase_of, effective_state.
  destruct (dr_state r) eqn:Es, (dr_restored_at r =? 0), (dr_restore_generation r =? 0); simpl; try done.
  all: destruct (dr_blocked_from r) as [s|] eqn:Eb; simpl; [|done].
  all: destruct (Hs s eq_refl) as [_ Hl]; by destruct s.
Qed.

(** The moves a transition can make, seen through the effective state. *)
Lemma effective_moved next at_ detail r :
  next ≠ DrainState.Blocked → effective_state (moved next at_ detail r) = next.
Proof. intros Hn. unfold effective_state. rewrite dr_state_moved. by destruct next. Qed.

Lemma effective_moved_blocked at_ detail r :
  dr_state r ≠ DrainState.Blocked →
  effective_state (moved DrainState.Blocked at_ detail r) = effective_state r.
Proof.
  intros Hn. unfold effective_state. rewrite dr_state_moved, dr_blocked_from_moved. simpl.
  by destruct (dr_state r).
Qed.

(** ** What a step does to the record it works on *)

(** A record as the engine keeps it: well formed, stamped as restored only once
    restoration has settled it as cancelled, completed with nothing left, and in
    restoration only under the generation it reopened admission with. *)
Definition record_ok (r : DrainRecord) : Prop :=
  record_wf r ∧ (dr_restored_at r ≠ 0 → dr_state r = DrainState.Cancelled) ∧ dr_remaining_protected r = 0 ∧
  (effective_state r = DrainState.Restoring → dr_restore_generation r ≠ 0).

(** [r'] is [r] as far as fences are concerned. *)
Record kept (r r' : DrainRecord) : Prop := {
  kp_id : dr_id r' = dr_id r;
  kp_target : dr_target r' = dr_target r;
  kp_generation : dr_generation r' = dr_generation r;
  kp_wf : record_ok r → record_ok r';
}.

Lemma kept_refl r : kept r r.
Proof. by split. Qed.

Lemma kept_trans r1 r2 r3 : kept r1 r2 → kept r2 r3 → kept r1 r3.
Proof. intros [A1 A2 A3 A4] [B1 B2 B3 B4]. split; try congruence. by auto. Qed.

Lemma moved_kept next at_ detail r :
  next ≠ dr_state r → is_legal_drain_transition (dr_state r) next = true →
  dr_revision r ≠ int_max u64 → dr_state r ≠ DrainState.Cancelled ∨ dr_restored_at r = 0 →
  (next = DrainState.Restoring → effective_state r = DrainState.Restoring) →
  kept r (moved next at_ detail r).
Proof.
  intros Hne Hleg Hrev Hs Hre. split; autorewrite with drain; try done. intros (Hw & Hst & Hrem & Hg).
  split; [by apply moved_wf|]. autorewrite with drain. split_and!; [|done|].
  - intros Hr. destruct Hs as [Hs|Hs]; [|done]. by destruct Hs; auto.
  - intros He. destruct (decide (next = DrainState.Blocked)) as [->|Hn].
    + rewrite effective_moved_blocked in He by congruence. auto.
    + rewrite effective_moved in He by done. auto.
Qed.

(** [apply_transition] stores one record: the moved one, or the given one. *)
Lemma apply_transition_spec r next now detail oc ins ev rej e b e' :
  apply_transition r next now detail oc ins ev rej e = (b, e') →
  ∃ r', e' ≡ put_drain r' e ∧
   ((b = false ∧ r' = r ∧ next ≠ dr_state r ∧
      (is_legal_drain_transition (dr_state r) next = false ∨ dr_revision r = int_max u64)) ∨
    (b = true ∧ r' = r ∧ next = dr_state r) ∨
    (b = true ∧ r' = moved next now detail r ∧ next ≠ dr_state r ∧
      is_legal_drain_transition (dr_state r) next = true ∧ dr_revision r ≠ int_max u64)).
Proof.
  unfold apply_transition. destruct (transition next now detail r) as [[u|err] r1] eqn:Ht;
    apply transition_cases in Ht as [(? & ? & ->)|[(-> & ? & ? & ?)|(? & ? & ? & ? & ->)]]; try done;
    intros [= <- <-]; eexists; (split; [rewrite record_decision_log, ?bump_log; reflexivity|]); tauto.
Qed.

(** [enter_blocked] keeps the effective state. *)
Lemma enter_blocked_spec r bl now act e :
  ∃ r', (enter_blocked r bl now act e).2 ≡ put_drain r' e ∧ kept r r' ∧
        effective_state r' = effective_state r ∧
        (dr_restored_at r' = dr_restored_at r ∧ dr_restore_generation r' = dr_restore_generation r) ∧
        (dr_state r' = dr_state r ∨ dr_state r' = DrainState.Blocked).
Proof.
  unfold enter_blocked. set (r1 := set_blockers _ r).
  assert (kept r r1) as Hk by by split.
  case_bool_decide as D.
  - exists r1. simpl. rewrite record_decision_log, bump_log. by split_and!; auto.
  - destruct (apply_transition _ _ _ _ _ _ _ _ _) as [b e'] eqn:Ha. simpl.
    apply apply_transition_spec in Ha as (r2 & He & Hc). exists r2.
    assert (dr_id r2 = dr_id r1 ∧ kept r r2 ∧ effective_state r2 = effective_state r ∧
            (dr_restored_at r2 = dr_restored_at r ∧ dr_restore_generation r2 = dr_restore_generation r) ∧
            (dr_state r2 = dr_state r ∨ dr_state r2 = DrainState.Blocked)) as (Hid & ?).
    { destruct Hc as [(_ & -> & _)|[(_ & -> & _)|(_ & -> & ? & ? & ?)]]; [by split_and!; auto..|].
      rewrite dr_id_moved, effective_moved_blocked, dr_restored_at_moved, dr_restore_generation_moved, dr_state_moved
        by done.
      split_and!; auto. apply (kept_trans _ r1); [done|]. apply moved_kept; try done.
      left. intros E. by rewrite E in *. }
    by rewrite He, bump_log, put_put.
Qed.

(** ** The representation invariant *)

Record engine_wf (e : engine) : Prop := {
  ew_drains : om_wf (en_drains e);
  ew_room : om_size (en_drains e) ≤ kMaxDrains;
  ew_record : ∀ id r, en_drains e !! id = Some r →
    dr_id r = id ∧ 1 ≤ id ≤ en_drain_high_water e ∧ record_ok r;
  ew_high : in_range u64 (en_drain_high_water e);
  ew_sets : om_wf (en_sets e);
  ew_set : ∀ id s, en_sets e !! id = Some s → ds_id s = id ∧ 1 ≤ id ≤ en_set_high_water e;
  ew_set_high : in_range u64 (en_set_high_water e);
  ew_nonce : ∀ n id, en_nonce_sets e !! n = Some id → is_Some (en_sets e !! id);
  ew_obligations : table_wf (en_obligations e);
  ew_evidence : ledger_wf (en_evidence e);
  ew_authority : registry_wf (en_authority e);
  ew_fence : fence_wf (en_fence e);
  ew_topology : topology_wf (en_topology e);
  ew_nonces : om_wf (en_nonce_sets e) ∧ ∀ n id, en_nonce_sets e !! n = Some id → n ≠ 0;
  ew_exceptions : om_wf (en_exceptions e) ∧
    ∀ id gs, en_exceptions e !! id = Some gs → Forall (λ g, eg_drain g = id) gs;
}.

#[export] Instance engine_wf_proper : Proper ((≡) ==> iff) engine_wf.
Proof.
  assert (∀ e e', e ≡ e' → engine_wf e → engine_wf e') as H.
  { intros e e' [He] Hwf. injection He; intros.
    split; repeat match goal with E : _ e = _ e' |- _ => rewrite <-E; clear E end; apply Hwf. }
  intros e e' He. split; apply H; done.
Qed.

Lemma new_engine_wf p : engine_wf (new_engine p).
Proof.
  split; simpl; try done; auto using om_wf_empty, fence_wf_empty, new_obligation_table_wf,
    new_evidence_ledger_wf, new_authority_registry_wf, empty_topology_wf.
  split; [apply om_wf_empty|done].
Qed.

Lemma put_drain_wf r r0 e :
  engine_wf e → en_drains e !! dr_id r = Some r0 → record_ok r → engine_wf (put_drain r e).
Proof.
  intros [] Hl Hr. split; simpl; try done.
  - by apply om_wf_insert.
  - by erewrite om_size_insert_Some.
  - intros id r' Hl'. destruct (ew_record0 _ _ Hl) as (? & ? & ?). om_cases Hl'; [done|by apply ew_record0].
Qed.

(** ** Bounds of the tables

    [engine_wf] bounds the drains, the fences and the fabric; these bounds need a
    validated policy to start from.  Lowering a policy's limit never shrinks a table,
    so obligations and evidence are bounded by the caps no policy exceeds. *)

Record tables_bounded (e : engine) : Prop := {
  tb_policy : policy_validate (en_policy e) = ok_status;
  tb_sets : om_size (en_sets e) ≤ kMaxDrainSets;
  tb_nonces : om_size (en_nonce_sets e) ≤ om_size (en_sets e);
  tb_tokens : registry_within (en_authority e);
  tb_obligations : table_within kHardMaxObligations (en_obligations e);
  tb_evidence : ledger_within kHardMaxEvidenceRecords (en_evidence e);
  tb_exceptions : ∀ id gs, en_exceptions e !! id = Some gs → zlength gs ≤ kHardMaxExceptionExtensions;
}.

#[export] Instance tables_bounded_proper : Proper ((≡) ==> iff) tables_bounded.
Proof.
  assert (∀ e e', e ≡ e' → tables_bounded e → tables_bounded e') as H.
  { intros e e' [He] []. injection He; intros.
    split; repeat match goal with E : _ e = _ e' |- _ => rewrite <-E; clear E end; assumption. }
  intros e e' He. split; apply H; done.
Qed.

Lemma new_engine_bounded p : policy_validate p = ok_status → tables_bounded (new_engine p).
Proof.
  intros Hp. destruct (policy_validate_caps p Hp) as (Ho & He & _).
  split; [exact Hp|by vm_compute..|by split|by split|done].
Qed.

(** Steps that leave the bounded tables alone. *)
Ltac same_tables :=
  let H1 := fresh in let H2 := fresh in let H3 := fresh in let H4 := fresh in
  let H5 := fresh in let H6 := fresh in let H7 := fresh in
  intros [H1 H2 H3 H4 H5 H6 H7];
  match goal with |- tables_bounded ?e => exact (Build_tables_bounded e H1 H2 H3 H4 H5 H6 H7) end.

(** ** The protocol's view of an engine *)

Definition fence_view (f : AdmissionFence) (t : DrainTarget) : Generation * option DrainId :=
  (fence_generation t f,
   match fence_entry t f with
   | Some entry => if fe_closed entry then Some (fe_drain entry) else None
   | None => None
   end).

Definition drain_view (r : DrainRecord) : DrainTarget * phase * Generation :=
  (dr_target r, phase_of r, dr_generation r).
Definition obligation_view (ob : Obligation) : Generation * list DrainTarget * bool :=
  (ob_admission_generation ob, ob_dependencies ob, blocks_completion ob).

Definition view_of (e : engine) : view :=
  MkView (λ id, drain_view <$> en_drains e !! id) (fence_view (en_fence e))
    (λ o, obligation_view <$> ot_find o (en_obligations e)).

#[export] Instance view_of_proper : Proper ((≡) ==> (≡)) view_of.
Proof.
  intros e e' [He]. injection He; intros. unfold view_of.
  repeat match goal with E : _ e = _ e' |- _ => rewrite E; clear E end. done.
Qed.

Lemma view_put r e :
  view_of (put_drain r e) ≡ set_drain (dr_id r) (dr_target r) (phase_of r) (dr_generation r) (view_of e).
Proof.
  split_and!; try done. intros id. simpl. unfold at_key. case_decide as D.
  - subst. by rewrite om_lookup_insert_eq.
  - by rewrite om_lookup_insert_ne by congruence.
Qed.

Lemma fence_view_insert target entry f t :
  fence_view (<[target := entry]> f) t =
    if decide (t = target) then (fe_generation entry, if fe_closed entry then Some (fe_drain entry) else None)
    else fence_view f t.
Proof.
  unfold fence_view, fence_generation, fence_entry. case_decide; [subst; by rewrite om_lookup_insert_eq|].
  by rewrite om_lookup_insert_ne by congruence.
Qed.

Lemma fence_view_closed f t g id :
  fence_view f t = (g, Some id) ↔
  ∃ entry, fence_entry t f = Some entry ∧ fe_closed entry = true ∧ fe_drain entry = id ∧ fe_generation entry = g.
Proof.
  unfold fence_view, fence_generation, fence_entry. destruct (f !! t) as [entry|].
  - destruct (fe_closed entry) eqn:E; split; intros H; simplify_eq; [by exists entry| |];
      destruct H as (? & [= <-] & ? & ? & ?); congruence.
  - split; [done|]. by intros (? & ? & _).
Qed.

Lemma fence_view_open f t g :
  fence_view f t = (g, None) ↔ fence_is_closed t f = false ∧ fence_generation t f = g.
Proof.
  unfold fence_view, fence_is_closed, fence_generation, fence_entry.
  destruct (f !! t) as [entry|]; [destruct (fe_closed entry)|]; naive_solver.
Qed.
