(* ===== verification/Restart.v ===== *)
(** * A restart keeps the engine's promises

    Restoring the snapshot of an engine ([src/engine.cpp]) succeeds and yields an
    engine with the same policy, fabric, obligations, fences, sets and ids in which
    every drain has the same target, generation and phase.  To the drain protocol a
    restart is invisible.  What must not survive does not: every token is revoked,
    every evidence record unattested, and no drain is in a state that only a live
    incarnation can vouch for. *)

From S2P Require Import Prelude Containers Checked Result Text Json Codec CodecTables CodecFabric CodecPolicy.
From S2P Require Import Identity Lifecycle Obligation Evidence Authority Admission Topology TopologyFacts Policy Decision.
From S2P Require Import Protocol Engine Snapshot EngineStep EngineOps EngineInv.
#[local] Open Scope Z_scope.

(** ** Drain records *)

(** What the recovery loop makes of a record. *)
Definition blocked_for_recovery (now : TimePoint) (r : DrainRecord) : DrainRecord :=
  if is_transient (dr_state r)
  then set_blockers [recovery_blocker r now] (moved DrainState.Blocked now "recovered after restart; revalidation required" r)
  else r.

(** A record after a restart. *)
Definition recovered_drain (now : TimePoint) (r : DrainRecord) : DrainRecord :=
  blocked_for_recovery now (r <| dr_revision := 1 |>).

Lemma transient_blocks s :
  is_transient s = true → s ≠ DrainState.Blocked ∧ s ≠ DrainState.Cancelled ∧ is_legal_drain_transition s DrainState.Blocked = true.
Proof. by destruct s. Qed.

Lemma recover_drain_ok now r : dr_revision r ≠ int_max u64 → recover_drain now r = Ok (blocked_for_recovery now r).
Proof.
  intros Hrev. unfold recover_drain, blocked_for_recovery. destruct (is_transient (dr_state r)) eqn:Ht; cbn [negb]; [|done].
  apply transient_blocks in Ht as (H1 & _ & H2). unfold transition.
  rewrite bool_decide_false, H2, (proj2 (Z.eqb_neq _ _)) by done. done.
Qed.

Lemma blocked_kept now r : dr_revision r ≠ int_max u64 → kept r (blocked_for_recovery now r).
Proof.
  intros Hrev. unfold blocked_for_recovery. destruct (is_transient (dr_state r)) eqn:Ht; [|apply kept_refl].
  apply transient_blocks in Ht as (H1 & H2 & H3).
  apply (kept_trans _ (moved DrainState.Blocked now "recovered after restart; revalidation required" r)); [|by split].
  apply moved_kept; [congruence|done|done|by left|done].
Qed.

Lemma recovered_kept now r : kept r (recovered_drain now r).
Proof.
  apply (kept_trans _ (r <| dr_revision := 1 |>)); [|apply blocked_kept; by vm_compute].
  split; try done. intros [(Hr & H1 & Hb & Hs) Hc]. split; [|done].
  split_and!; [by split; vm_compute|simpl; lia|done|done].
Qed.

Lemma blocked_phase now r : phase_of (blocked_for_recovery now r) = phase_of r.
Proof.
  unfold blocked_for_recovery. destruct (is_transient (dr_state r)) eqn:Ht; [|done].
  apply transient_blocks in Ht as (H1 & _). set (r1 := moved _ _ _ r).
  change (phase_of (set_blockers [recovery_blocker r now] r1)) with (phase_of r1). unfold phase_of, r1.
  by rewrite dr_restored_at_moved, dr_restore_generation_moved, effective_moved_blocked.
Qed.

Lemma recovered_phase now r : phase_of (recovered_drain now r) = phase_of r.
Proof. unfold recovered_drain. by rewrite blocked_phase. Qed.

Lemma recovered_view now r : drain_view (recovered_drain now r) = drain_view r.
Proof.
  unfold drain_view. rewrite recovered_phase. destruct (recovered_kept now r) as [_ Ht Hg _]. by rewrite Ht, Hg.
Qed.

Lemma recovered_settles now r : is_transient (dr_state (recovered_drain now r)) = false.
Proof.
  unfold recovered_drain, blocked_for_recovery. set (r1 := r <| dr_revision := 1 |>).
  destruct (is_transient (dr_state r1)) eqn:Ht; [|done]. set (r2 := moved _ _ _ r1).
  change (dr_state (set_blockers [recovery_blocker r1 now] r2)) with (dr_state r2). unfold r2. by rewrite dr_state_moved.
Qed.

Lemma recover_drains_ok now l :
  recover_drains now ((λ p, (p.1, p.2 <| dr_revision := 1 |>)) <$> l) = Ok ((λ p, (p.1, recovered_drain now p.2)) <$> l).
Proof.
  induction l as [|[id r] l IH]; [done|]. rewrite !fmap_cons. cbn [recover_drains fst snd].
  rewrite recover_drain_ok by by vm_compute. cbn [result_bind]. by rewrite IH.
Qed.

(** ** Exceptions *)

#[local] Abbreviation load_grant_items :=
  (load_all (λ v, rejected "exception grant rejected: " (grant_from_json v)) load_grant).

Lemma load_all_app {A B} (dec : json → result A) (add : A → B → result B) l1 l2 s s' :
  load_all dec add l1 s = Ok s' → load_all dec add (l1 ++ l2) s = load_all dec add l2 s'.
Proof.
  revert s. induction l1 as [|x l1 IH]; intros s; simpl; [by intros [= ->]|].
  destruct (dec x) as [a|]; simpl; [|done]. destruct (add a s); simpl; [apply IH|done].
Qed.

Lemma load_grants id gs m :
  Forall (λ g, eg_drain g = id) gs → gs ≠ [] → forallb grant_storable gs = true →
  load_grant_items (map grant_to_json gs) m = Ok (<[id := default [] (m !! id) ++ gs]> m).
Proof.
  intros Hid Hne Hst. revert m. induction gs as [|g gs IH]; intros m; [done|]. apply Forall_cons in Hid as [Hg Hid].
  cbn [forallb] in Hst. apply andb_true_iff in Hst as [Hs Hst]. cbn [map load_all].
  rewrite grant_roundtrip by done. cbn [rejected result_bind load_grant]. rewrite Hg.
  destruct gs as [|g' gs]; [done|]. rewrite IH by done. f_equal. rewrite om_lookup_insert_eq, om_insert_insert.
  simpl. by rewrite <- app_assoc.
Qed.

Lemma load_exceptions (l : list (DrainId * list ExceptionGrant)) :
  sorted_entries l → (∀ p, p ∈ l → Forall (λ g, eg_drain g = p.1) p.2) →
  forallb grant_storable (concat l.*2) = true →
  load_grant_items (map grant_to_json (concat l.*2)) ∅ = Ok (trim (OMap l)).
Proof.
  induction l as [|[id gs] l IH] using rev_ind; [done|]. intros Hs Hf Hst.
  assert (sorted_entries l) as Hl.
  { clear -Hs. induction l as [|q l IH]; [constructor|]. apply StronglySorted_inv in Hs as [Hs Hall].
    constructor; [by apply IH|]. by apply Forall_app in Hall as [Hall _]. }
  rewrite fmap_app, concat_app in *. simpl in *. rewrite app_nil_r in *. rewrite forallb_app in Hst.
  apply andb_true_iff in Hst as [Hst1 Hst2]. rewrite map_app.
  rewrite (load_all_app _ _ _ _ _ (trim (OMap l))) by (apply IH; [done|set_solver|done]).
  unfold trim. cbn [om_list]. rewrite List.filter_app. simpl.
  destruct gs as [|g gs]; [simpl; by rewrite app_nil_r|]. cbn [is_nil negb].
  assert (∀ q, q ∈ List.filter (λ p : DrainId * list ExceptionGrant, negb (is_nil p.2)) l → ltb q.1 id = true) as Hbelow.
  { intros q [Hq _]%list_elem_of_In%filter_In. apply list_elem_of_In in Hq.
    exact (sorted_before l (id, g :: gs) [] q Hs Hq). }
  rewrite (load_grants id); [|apply (Hf (id, g :: gs)); set_solver|done|done].
  unfold insert, omap_insert, lookup, omap_lookup. cbn [om_list]. rewrite list_find_last, list_put_last by done. done.
Qed.

(** ** Nonces and decisions *)

Lemma load_nonces m :
  om_wf m → (∀ n id, m !! n = Some id → n ≠ 0) →
  load_all nonce_from_json load_nonce (map nonce_to_json (om_list m)) ∅ = Ok m.
Proof.
  intros Hwf Hz. pose (mk := λ l : list (RequestNonce * DrainSetId), loaded (λ s, s) l). change ∅ with (mk []).
  rewrite (load_prefix mk); [unfold mk; by rewrite loaded_om, om_map_id|]. intros l1 p l2 Hl. exists p.
  pose proof (in_split_elem _ _ _ _ Hl) as Hp. split.
  - unfold nonce_from_json, nonce_to_json. json_compute. by destruct p.
  - unfold load_nonce, mk. destruct p as [n id]. apply om_elem_lookup in Hp; [|done]. cbn [fst snd].
    rewrite (proj2 (Z.eqb_neq _ _)) by by eapply Hz. unfold om_wf in Hwf. rewrite Hl in Hwf.
    by rewrite (insert_next (λ s, s) l1 (n, id) l2 Hwf : <[n := id]> _ = _).
Qed.

Lemma load_decisions l :
  forallb decision_storable l = true →
  load_all (λ v, rejected "decision record rejected: " (decision_from_json v)) load_decision
    (map decision_to_json l) [] = Ok l.
Proof.
  intros Hl. rewrite forallb_forall in Hl.
  destruct (load_inv (λ l s, s = l) (λ v, rejected "decision record rejected: " (decision_from_json v)) load_decision
    decision_to_json l []) as (s & Hs & ->); [done| |done].
  intros l1 d l2 s -> ->. exists d, (l1 ++ [d]). rewrite decision_roundtrip; [done|]. apply Hl. apply in_elt.
Qed.

Lemma load_drains m :
  om_wf m → (∀ id r, m !! id = Some r → dr_id r = id) → forallb drain_record_storable (om_values m) = true →
  load_all (λ v, rejected "drain record rejected: " (drain_record_from_json v)) load_drain
    (map drain_record_to_json (om_values m)) ∅ = Ok (om_map (λ r, r <| dr_revision := 1 |>) m).
Proof.
  intros Hwf Hid Hst. rewrite map_values.
  pose (mk := λ l : list (DrainId * DrainRecord), loaded (λ r, r <| dr_revision := 1 |>) l). change ∅ with (mk []).
  rewrite (load_prefix mk); [unfold mk; by rewrite loaded_om|]. intros l1 p l2 Hl. exists (p.2 <| dr_revision := 1 |>).
  pose proof (in_split_elem _ _ _ _ Hl) as Hp. pose proof (forallb_values _ _ _ Hst Hp) as Hs.
  split; [by rewrite drain_record_roundtrip|]. destruct p as [id r]. apply om_elem_lookup in Hp; [|done].
  unfold load_drain, mk. change (dr_id ((id, r).2 <| dr_revision := 1 |>)) with (dr_id r). rewrite (Hid id r Hp).
  unfold om_wf in Hwf. rewrite Hl in Hwf.
  by rewrite (emplace_next (λ r, r <| dr_revision := 1 |>) l1 (id, r) l2 Hwf : emplace id _ _ = _).
Qed.

Lemma load_sets m :
  om_wf m → (∀ id s, m !! id = Some s → ds_id s = id) → forallb drain_set_storable (om_values m) = true →
  load_all (λ v, rejected "drain set rejected: " (drain_set_from_json v)) load_set
    (map drain_set_to_json (om_values m)) ∅ = Ok m.
Proof.
  intros Hwf Hid Hst. rewrite map_values. pose (mk := λ l : list (DrainSetId * DrainSet), loaded (λ s, s) l).
  change ∅ with (mk []). rewrite (load_prefix mk); [unfold mk; by rewrite loaded_om, om_map_id|].
  intros l1 p l2 Hl. exists p.2. pose proof (in_split_elem _ _ _ _ Hl) as Hp.
  pose proof (forallb_values _ _ _ Hst Hp) as Hs. split; [by rewrite drain_set_roundtrip|].
  destruct p as [id r]. apply om_elem_lookup in Hp; [|done]. unfold load_set, mk. cbn [snd]. rewrite (Hid id r Hp).
  unfold om_wf in Hwf. rewrite Hl in Hwf.
  by rewrite (emplace_next (λ s, s) l1 (id, r) l2 Hwf : emplace id r _ = _).
Qed.

(** ** The engine *)

Definition engine_storable (e : engine) : bool :=
  policy_storable (en_policy e) && topology_storable (en_topology e)
  && table_storable (en_obligations e)
  && (om_size (ot_obligations (en_obligations e)) <=? p_max_obligations (en_policy e))
  && ledger_storable (en_evidence e)
  && (om_size (el_records (en_evidence e)) <=? p_max_evidence_records (en_policy e))
  && registry_storable (en_authority e) && fence_storable (en_fence e)
  && forallb drain_record_storable (om_values (en_drains e))
  && forallb drain_set_storable (om_values (en_sets e)) && (om_size (en_sets e) <=? kMaxDrainSets)
  && forallb grant_storable (concat (om_values (en_exceptions e)))
  && (zlength (concat (om_values (en_exceptions e))) <=? kMaxDrains * kHardMaxExceptionExtensions)
  && (om_size (en_nonce_sets e) <=? kMaxDrainSets)
  && forallb decision_storable (en_decisions e) && (zlength (en_decisions e) <=? kHardMaxDecisionsRetained)
  && u32_ok (en_exception_high_water e).

(** What is staged from an engine's own snapshot. *)
Definition staged_of (e : engine) : staged_state :=
  MkStaged (en_policy e) (en_topology e <| to_adjacency := trim (to_adjacency (en_topology e)) |>)
    (en_obligations e <| ot_max_obligations := p_max_obligations (en_policy e) |>)
    (MkEvidenceLedger (om_map unattested (el_records (en_evidence e))) (el_latest_seq (en_evidence e))
       (p_max_evidence_records (en_policy e)) (el_global_high_water (en_evidence e)))
    (en_authority e <| ar_tokens := om_map token_recovered (ar_tokens (en_authority e)) |>) (en_fence e)
    (om_map (λ r, r <| dr_revision := 1 |>) (en_drains e)) (en_sets e) (trim (en_exceptions e)) (en_nonce_sets e)
    (en_decisions e).

Lemma load_array_ok {A B C} what bounds bound (dec : json → result A) (add : A → B → result B) (enc : C → json) l s s' :
  (zlength l <=? bound) = true → load_all dec add (map enc l) s = Ok s' →
  load_array what bounds bound dec add s (JArray (map enc l)) = Ok s'.
Proof. intros Hz Hl. unfold load_array. by rewrite zlength_map, Z.ltb_antisym, Hz. Qed.

Lemma size_values {V} (m : omap Z V) bound : (om_size m <=? bound) = true → (zlength (om_values m) <=? bound) = true.
Proof. unfold om_size, om_values, zlength. by rewrite length_fmap. Qed.

Lemma stage_snapshot e p : engine_wf e → engine_storable e = true → stage (snapshot e) p = Ok (staged_of e).
Proof.
  intros Hwf Hst. unfold engine_storable in Hst. split_storable. unfold stage, load_part, snapshot. json_compute.
  rewrite policy_roundtrip by done. cbn [result_bind].
  rewrite topology_roundtrip by (done || apply Hwf). cbn [result_bind].
  rewrite table_roundtrip by (done || apply Hwf || by apply Z.leb_le). cbn [result_bind].
  rewrite ledger_roundtrip by (done || apply Hwf || by apply Z.leb_le). cbn [result_bind].
  rewrite registry_roundtrip by (done || apply Hwf). cbn [result_bind].
  rewrite fence_roundtrip by (done || apply Hwf). cbn [result_bind].
  erewrite load_array_ok; [|apply size_values, Z.leb_le, Hwf|apply load_drains; [apply Hwf|apply Hwf|done]]. cbn [result_bind].
  erewrite load_array_ok; [|by apply size_values|apply load_sets; [apply Hwf|apply Hwf|done]]. cbn [result_bind].
  destruct (ew_exceptions _ Hwf) as [Hx Hxs].
  erewrite load_array_ok; [|done|apply load_exceptions; [apply Hx| |done]].
  2: { intros [id gs] Hp. by apply Hxs, om_elem_lookup. }
  cbn [result_bind].
  erewrite load_array_ok; [|done|by apply load_nonces; apply Hwf]. cbn [result_bind].
  erewrite load_array_ok; [|done|by apply load_decisions]. cbn [result_bind].
  done.
Qed.

(** The engine a restart leaves, up to the log. *)
Definition restarted (now : TimePoint) (e : engine) : engine :=
  let s := staged_of e in
  MkEngine (sg_policy s) (sg_topology s) (sg_obligations s) (sg_evidence s) (sg_authority s) (sg_fence s)
    (om_map (recovered_drain now) (en_drains e)) (sg_sets s) (sg_exceptions s) (sg_nonces s) (sg_decisions s)
    (en_drain_high_water e) (en_set_high_water e) (en_exception_high_water e) zero_stats.

Lemma raise_to_below {V} (m : omap Z V) mark :
  om_wf m → (∀ k v, m !! k = Some v → k ≤ mark) → raise_to mark m = mark.
Proof.
  intros Hwf Hle. unfold raise_to. assert (∀ p, p ∈ om_list m → p.1 ≤ mark) as Hl.
  { intros [k v] Hp. by eapply Hle, om_elem_lookup. }
  clear Hle. induction (om_list m) as [|p l IH] in Hl |- *; simpl; [done|].
  rewrite (proj2 (Z.ltb_ge _ _)) by (apply Hl; set_solver). apply IH. set_solver.
Qed.

Lemma om_map_compose {K V} (f g : V → V) (m : omap K V) : om_map f (om_map g m) = om_map (λ v, f (g v)) m.
Proof. unfold om_map. simpl. f_equal. rewrite <- list_fmap_compose. by apply list_fmap_ext. Qed.

Lemma om_map_same {K V} (f g : V → V) (m : omap K V) : (∀ v, f v = g v) → om_map f m = om_map g m.
Proof. intros H. unfold om_map. f_equal. apply list_fmap_ext. intros ? [k v] _. by rewrite H. Qed.

Lemma restored_snapshot e e0 prev now :
  engine_wf e → engine_storable e = true → prev = 0 ∨ prev = ar_incarnation (en_authority e) →
  ∃ e', restored (snapshot e) prev now e0 = Ok e' ∧ e' ≡ restarted now e.
Proof.
  intros Hwf Hst Hprev. unfold restored.
  change (is_object (snapshot e)) with true. cbn [negb].
  assert (get_uint "format_version" 0 (snapshot e) = 1) as -> by done. change (1 =? kSnapshotFormatVersion) with true. cbn [negb].
  assert (get_uint "incarnation" 0 (snapshot e) = ar_incarnation (en_authority e)) as -> by done.
  assert (negb (prev =? 0) && negb (ar_incarnation (en_authority e) =? prev) = false) as ->.
  { destruct Hprev as [-> | ->]; [done|]. by rewrite Z.eqb_refl, andb_false_r. }
  rewrite stage_snapshot by done. cbn [result_bind].
  assert (get_uint "exception_high_water" 0 (snapshot e) = en_exception_high_water e) as -> by done.
  assert (get_uint "drain_high_water" 0 (snapshot e) = en_drain_high_water e) as -> by done.
  assert (get_uint "set_high_water" 0 (snapshot e) = en_set_high_water e) as -> by done.
  rewrite narrow_u32 by (by unfold engine_storable in Hst; split_storable).
  rewrite (recover_drains_ok now (om_list (en_drains e))
    : recover_drains now (om_list (sg_drains (staged_of e))) = Ok (om_list (om_map (recovered_drain now) (en_drains e)))).
  cbn [result_bind]. eexists. split; [done|]. rewrite record_decision_log. split. unfold core, restarted; simpl.
  f_equal.
  - unfold quarantine_all; simpl. f_equal. rewrite om_map_compose. by apply om_map_same.
  - f_equal. rewrite om_map_compose. apply om_map_same. by intros v.
  - apply raise_to_below; [apply om_wf_map, Hwf|]. intros id r. rewrite om_lookup_map, fmap_Some.
    intros (r' & Hr' & _). apply (ew_record _ Hwf) in Hr' as (_ & ? & _). lia.
  - apply raise_to_below; [apply Hwf|]. intros id s Hs. apply (ew_set _ Hwf) in Hs as [_ ?]. lia.
Qed.

(** Restoring an engine's own snapshot, into any engine, fails only when the
    loader names another incarnation. *)
Lemma restored_own e e0 prev now e' :
  engine_wf e → engine_storable e = true → restored (snapshot e) prev now e0 = Ok e' → e' ≡ restarted now e.
Proof.
  intros Hwf Hst Hr. assert (prev = 0 ∨ prev = ar_incarnation (en_authority e)) as Hp.
  { revert Hr. unfold restored.
    assert (get_uint "incarnation" 0 (snapshot e) = ar_incarnation (en_authority e)) as -> by done.
    destruct (Z.eqb_spec prev 0); [by left|]. destruct (Z.eqb_spec (ar_incarnation (en_authority e)) prev); [by right|done]. }
  destruct (restored_snapshot e e0 prev now Hwf Hst Hp) as (e1 & He1 & He). rewrite He1 in Hr. by injection Hr as <-.
Qed.

(** *** What a restart leaves is well formed *)

Lemma trim_neighbors t a : topology_wf t → neighbors a (t <| to_adjacency := trim (to_adjacency t) |>) = neighbors a t.
Proof.
  intros Hwf. unfold neighbors. simpl. rewrite trim_lookup by apply Hwf. by destruct (to_adjacency t !! a) as [[|x l]|].
Qed.

Lemma trim_topology_wf t : topology_wf t → topology_wf (t <| to_adjacency := trim (to_adjacency t) |>).
Proof.
  intros Hwf. pose proof (λ a, trim_neighbors t a Hwf) as Hn. set (t' := t <| to_adjacency := _ |>) in *.
  split; try apply Hwf; [by apply trim_wf, Hwf|..]; intros *; rewrite ?Hn; apply Hwf.
Qed.

Lemma unattested_wf l n :
  ledger_wf l →
  ledger_wf (MkEvidenceLedger (om_map unattested (el_records l)) (el_latest_seq l) n (el_global_high_water l)).
Proof.
  intros [Hr Hl Hf Hp]. split; simpl; [by apply om_wf_map|done|..].
  - intros k s e. rewrite om_lookup_map, fmap_Some. intros (e' & He' & ->).
    destruct (Hf k s e' He') as (<- & <- & Hs). done.
  - intros k s Hk. rewrite om_lookup_map, fmap_is_Some. by apply Hp.
Qed.

Lemma token_recovered_wf r : registry_wf r → registry_wf (r <| ar_tokens := om_map token_recovered (ar_tokens r) |>).
Proof.
  intros (? & ? & ? & ? & ? & ? & Htok). split_and!; simpl; try done; [by apply om_wf_map|].
  intros id t. unfold ar_find; simpl. rewrite om_lookup_map, fmap_Some. intros (t' & Ht' & ->). 
  destruct (Htok id t' Ht') as [<- Hb]. done.
Qed.

Lemma restarted_wf now e : engine_wf e → engine_wf (restarted now e).
Proof.
  intros Hwf. split; simpl; try apply Hwf.
  - apply om_wf_map, Hwf.
  - rewrite om_size_map. apply Hwf.
  - intros id r. rewrite om_lookup_map, fmap_Some. intros (r' & Hr' & ->). apply (ew_record _ Hwf) in Hr' as (<- & Hb & Hok).
    destruct (recovered_kept now r') as [Hid _ _ Hrec]. rewrite Hid. auto.
  - apply unattested_wf, Hwf.
  - apply token_recovered_wf, Hwf.
  - apply trim_topology_wf, Hwf.
  - destruct (ew_exceptions _ Hwf) as [Hx Hg]. split; [by apply trim_wf|]. intros id gs. rewrite trim_lookup by done.
    destruct (en_exceptions e !! id) as [[|g l]|] eqn:E; intros [= <-]. by apply Hg in E.
Qed.

Lemma restarted_bounded now e : engine_wf e → tables_bounded e → tables_bounded (restarted now e).
Proof.
  intros Hwf [Hp Hs Hn Ht [_ Ho] [_ He] Hx]. destruct (policy_validate_caps _ Hp) as (Ho' & He' & _).
  split; [exact Hp|exact Hs|exact Hn| |exact (conj Ho' Ho)| |].
  - unfold registry_within. simpl. by rewrite om_size_map.
  - split; [done|]. simpl. by rewrite om_size_map.
  - intros id gs. change (en_exceptions (restarted now e)) with (trim (en_exceptions e)).
    rewrite trim_lookup by apply (ew_exceptions _ Hwf).
    destruct (en_exceptions e !! id) as [[|g l]|] eqn:E; intros [= <-]. by eapply Hx.
Qed.

Lemma restarted_view now e : view_of (restarted now e) ≡ view_of e.
Proof.
  split_and!; try done. intros id. simpl. rewrite om_lookup_map. destruct (en_drains e !! id) as [r|]; [|done].
  simpl. by rewrite recovered_view.
Qed.
