(* ===== verification/EngineRefine.v ===== *)
(** * The engine refines the drain protocol: the scheduling pass

    Every case of [step_drain] is a run of [Protocol.astep] on the view, keeps
    the representation invariant, and never lets more drains hold admission in a
    failure domain than the policy allows. *)

From S2P Require Import Prelude Containers Checked Result Text Identity Lifecycle Obligation Evidence.
From S2P Require Import Authority Admission Topology TopologyFacts Policy Decision Protocol Engine.
From S2P Require Import EngineStep EngineOps EngineInv.

(** ** Counting the drains that hold admission in a domain *)

Definition holder_in (domain : DomainId) (p : DrainId * DrainRecord) : bool :=
  bool_decide (tg_domain (dr_target p.2) = domain) && holds_fence p.2.

Lemma active_count domain exclude e :
  active_drains_in_domain domain exclude e = om_count (except exclude (holder_in domain)) (en_drains e).
Proof.
  unfold active_drains_in_domain, om_count. f_equal. apply filter_ext. intros [id r]. unfold except, holder_in; simpl.
  assert (eqvb id exclude = (id =? exclude)) as ->.
  { apply eq_true_iff_eq. by rewrite eqvb_true, Z.eqb_eq. }
  destruct (id =? exclude); [done|]. by case_bool_decide.
Qed.

(** Ids start at one, so excluding zero excludes nothing. *)
Definition domain_within (limit : Z) (e : engine) : Prop :=
  ∀ d, active_drains_in_domain d 0 e ≤ limit.

Lemma active_all domain e :
  engine_wf e → active_drains_in_domain domain 0 e = om_count (holder_in domain) (en_drains e).
Proof.
  intros Hwf. rewrite active_count, (om_count_split 0 (holder_in domain)) by apply Hwf.
  destruct (en_drains e !! 0) as [r|] eqn:E; [|lia]. apply (ew_record _ Hwf) in E as (_ & ? & _). lia.
Qed.

(** Only the stored record's own contribution changes. *)
Lemma active_put r r0 e d :
  engine_wf e → en_drains e !! dr_id r = Some r0 → record_ok r →
  active_drains_in_domain d 0 (put_drain r e) =
  active_drains_in_domain d (dr_id r) e + Z.b2z (holder_in d (dr_id r, r)).
Proof.
  intros Hwf Hl Hr. rewrite active_all by by eapply put_drain_wf. rewrite active_count. simpl.
  rewrite (om_count_split (dr_id r)) by apply om_wf_insert, Hwf.
  by rewrite om_count_except_insert, om_lookup_insert_eq by apply Hwf.
Qed.

Lemma active_self r e d :
  engine_wf e → en_drains e !! dr_id r = Some r →
  active_drains_in_domain d 0 e =
  active_drains_in_domain d (dr_id r) e + Z.b2z (holder_in d (dr_id r, r)).
Proof.
  intros Hwf Hl. rewrite active_all, active_count by done.
  rewrite (om_count_split (dr_id r)) by apply Hwf. by rewrite Hl.
Qed.

(** ** Simulation *)

Record simulates (n : Z) (e e' : engine) : Prop := {
  sm_wf : engine_wf e';
  sm_policy : en_policy e' = en_policy e;
  sm_size : om_size (en_drains e') = om_size (en_drains e);
  sm_run : ∃ tr, arun tr (view_of e) (view_of e') ∧ existsb is_reappear tr = false;
  sm_gens : ∀ t, fence_generation t (en_fence e') ≤ fence_generation t (en_fence e) + n;
  sm_domain : ∀ L, p_max_concurrent_drains_per_domain (en_policy e) ≤ L →
    domain_within L e → domain_within L e';
  sm_bounded : tables_bounded e → tables_bounded e';
}.

Lemma sim_log n e e1 e2 : e2 ≡ e1 → simulates n e e1 → simulates n e e2.
Proof.
  intros He [H1 H2 H3 (tr & H4 & H4') H5 H6 H7]. split; rewrite ?He; try done.
  - exists tr. split; [|done]. clear -He H4. remember (view_of e1) as s1 eqn:E. revert E.
    induction H4 as [s s' Hs|]; intros ->; [apply run_nil; by rewrite He|]. eapply run_cons; eauto.
  - intros t. by rewrite He.
  - intros L HL Hd d. specialize (H6 L HL Hd d). by rewrite active_count, He, <-active_count.
Qed.

Lemma sim_trans n m e1 e2 e3 : simulates n e1 e2 → simulates m e2 e3 → simulates (n + m) e1 e3.
Proof.
  intros [A1 A2 A3 (tr & A4 & A4') A5 A6 A7] [B1 B2 B3 (tr' & B4 & B4') B5 B6 B7].
  split; try done; try congruence; [..|by auto].
  - exists (tr ++ tr'). split; [by eapply arun_app|]. by rewrite existsb_app, A4', B4'.
  - intros t. specialize (A5 t). specialize (B5 t). lia.
  - intros L HL Hd. apply B6; [by rewrite A2|by apply A6].
Qed.

Lemma sim_le n m e e' : n ≤ m → simulates n e e' → simulates m e e'.
Proof. intros Hle [A1 A2 A3 A4 A5 A6 A7]. split; try done. intros t. specialize (A5 t). lia. Qed.

(** Parts of the engine the protocol does not look at. *)
Lemma sim_frame e e' :
  engine_wf e' → en_policy e' = en_policy e → en_drains e' = en_drains e → en_fence e' = en_fence e →
  en_obligations e' = en_obligations e → (tables_bounded e → tables_bounded e') → simulates 0 e e'.
Proof.
  intros Hwf Hp Hd Hf Ho Hb. split; rewrite ?Hd, ?Hf; try done.
  - exists []. split; [|done]. apply run_nil. split_and!; intros; simpl; by rewrite ?Hd, ?Hf, ?Ho.
  - intros. lia.
  - intros L _ H d. specialize (H d). rewrite active_count in *. by rewrite Hd.
Qed.

Lemma sim_refl e : engine_wf e → simulates 0 e e.
Proof. intros. by apply sim_frame. Qed.

Lemma phase_move_refl p : phase_move p p = true.
Proof. by destruct p. Qed.

Lemma same_phase r r' :
  effective_state r' = effective_state r → dr_restored_at r' = dr_restored_at r →
  dr_restore_generation r' = dr_restore_generation r → phase_of r' = phase_of r.
Proof. unfold phase_of. congruence. Qed.

(** The drain under the scheduler's hand is the stored one. *)
Definition stored (r : DrainRecord) (e : engine) : Prop := en_drains e !! dr_id r = Some r.

(** Storing a record that changed phase without touching its fence. *)
Lemma sim_put r r' e :
  engine_wf e → stored r e → kept r r' → phase_move (phase_of r) (phase_of r') = true →
  simulates 0 e (put_drain r' e).
Proof.
  intros Hwf Hl Hk Hm. destruct (ew_record _ Hwf _ _ Hl) as (_ & _ & Hr).
  assert (en_drains e !! dr_id r' = Some r) as Hl' by by rewrite (kp_id _ _ Hk).
  split; simpl; try done.
  - by eapply put_drain_wf; [..|apply Hk].
  - rewrite (om_size_insert_Some _ _ r); [done|apply Hwf|done].
  - exists [AMove (dr_id r)]. split; [|done]. apply arun_one.
    eapply (as_move _ _ _ (dr_target r) (phase_of r) (phase_of r') (dr_generation r)); simpl.
    + by rewrite Hl.
    + done.
    + rewrite view_put. by rewrite (kp_id _ _ Hk), (kp_target _ _ Hk), (kp_generation _ _ Hk).
  - intros. lia.
  - intros L HL Hd d. erewrite active_put by (done || by apply Hk). etrans; [|exact (Hd d)].
    erewrite (active_self r) by done. rewrite (kp_id _ _ Hk). unfold holder_in; simpl.
    rewrite (kp_target _ _ Hk). case_bool_decide; simpl; [|lia].
    destruct (holds_fence r') eqn:E'; simpl; [|destruct (holds_fence r); simpl; lia].
    apply holds_fence_phase in E'. rewrite E' in Hm.
    assert (holds_fence r = true) as -> by (apply holds_fence_phase; by destruct (phase_of r)). simpl. lia.
  - same_tables.
Qed.

Lemma sim_enter_blocked r bl now act e :
  engine_wf e → stored r e → simulates 0 e (enter_blocked r bl now act e).2.
Proof.
  intros Hwf Hl. destruct (enter_blocked_spec r bl now act e) as (r' & He & Hk & Hs & [Hr Hg] & _).
  eapply sim_log; [exact He|]. eapply sim_put; try done. rewrite (same_phase _ _ Hs Hr Hg). apply phase_move_refl.
Qed.

(** A transition within the phase system. *)
Lemma sim_transition r next now detail oc ins ev rej e :
  engine_wf e → stored r e → next ≠ DrainState.Blocked → dr_state r ≠ DrainState.Cancelled →
  (next = DrainState.Restoring → effective_state r = DrainState.Restoring) →
  phase_move (phase_of r) (phase_at next (negb (dr_restored_at r =? 0)) (negb (dr_restore_generation r =? 0))) = true →
  simulates 0 e (apply_transition r next now detail oc ins ev rej e).2.
Proof.
  intros Hwf Hl Hn Hnc Hre Hm. destruct (apply_transition _ _ _ _ _ _ _ _ _) as [b e'] eqn:Ha; cbn [snd].
  apply apply_transition_spec in Ha as (r' & He & Hc). eapply sim_log; [exact He|].
  destruct Hc as [(_ & -> & _)|[(_ & -> & _)|(_ & -> & ? & ? & ?)]];
    [eapply sim_put; eauto using kept_refl, phase_move_refl..|].
  eapply sim_put; [done|done|apply moved_kept; auto|].
  unfold phase_of at 2. by rewrite effective_moved, dr_restored_at_moved, dr_restore_generation_moved.
Qed.

Lemma sim_evidence e l :
  engine_wf e → ledger_wf l → (∀ bound, ledger_within bound (en_evidence e) → ledger_within bound l) →
  simulates 0 e (e <| en_evidence := l |>).
Proof. intros [] Hl Hb. apply sim_frame; try done. intros [H1 H2 H3 H4 H5 H6 H7].
  pose proof (Hb kHardMaxEvidenceRecords H6) as H6'.
  split; [exact H1|exact H2|exact H3|exact H4|exact H5|simpl; exact H6'|exact H7].
Qed.
Lemma sim_topology e t : engine_wf e → topology_wf t → simulates 0 e (e <| en_topology := t |>).
Proof. intros [] Hl. apply sim_frame; try done. same_tables. Qed.

Lemma sim_record_removal r now e st e' :
  engine_wf e → record_removal_evidence r now e = (st, e') →
  simulates 0 e e' ∧ en_drains e' = en_drains e ∧ en_policy e' = en_policy e ∧
  en_obligations e' = en_obligations e ∧ en_fence e' = en_fence e ∧ en_topology e' = en_topology e.
Proof.
  intros Hwf. unfold record_removal_evidence.
  destruct (increment_checked _ _) as [s|]; [|by intros [= _ <-]; split; [apply sim_refl|]].
  destruct (el_record _ _ _ _) as [res l] eqn:Hr. pose proof (el_record_wf _ _ _ _ _ _ (ew_evidence _ Hwf) Hr).
  pose proof (λ bound, el_record_within bound _ _ _ _ _ _ (ew_evidence _ Hwf) Hr).
  destruct res; intros [= _ <-]; (split; [by apply sim_evidence|done]).
Qed.

Lemma sim_stored r e e' n : simulates n e e' → en_drains e' = en_drains e → stored r e → stored r e'.
Proof. intros _ E. unfold stored. by rewrite E. Qed.

(** ** Obligations *)

Lemma blocks_completion_spec ob :
  blocks_completion ob = true ↔
  ob_protection ob = ProtectionClass.Protected ∧ ob_state ob ≠ ObligationState.Retired.
Proof. unfold blocks_completion. by rewrite andb_true_iff, negb_true_iff, bool_decide_eq_true, bool_decide_eq_false. Qed.

Lemma view_store o ob e :
  view_of (e <| en_obligations := ot_store o ob (en_obligations e) |>) ≡
  set_obligation o (ob_admission_generation ob) (ob_dependencies ob) (blocks_completion ob) (view_of e).
Proof.
  split_and!; try done. intros o'. simpl. unfold at_key. rewrite ot_find_store.
  repeat case_decide; subst; done.
Qed.

(** A stored obligation whose binding did not change. *)
Record same_binding (ob ob' : Obligation) : Prop := {
  sb_id : ob_id ob' = ob_id ob;
  sb_deps : ob_dependencies ob' = ob_dependencies ob;
  sb_generation : ob_admission_generation ob' = ob_admission_generation ob;
  sb_wf : obligation_wf ob → obligation_wf ob';
}.

Lemma store_obligation_wf o ob ob' e :
  engine_wf e → ot_find o (en_obligations e) = Some ob → same_binding ob ob' →
  engine_wf (e <| en_obligations := ot_store o ob' (en_obligations e) |>).
Proof.
  intros Hwf Hf [Hid _ _ Hw]. pose proof (ew_obligations _ Hwf) as Ht. destruct Hwf. split; simpl; try done.
  eapply ot_store_wf; [done|done|done|]. apply Hw.
  by apply (proj2 (proj2 Ht) _ _ Hf).
Qed.

(** An obligation that does not come back to life. *)
Lemma sim_obligation o ob ob' e :
  engine_wf e → ot_find o (en_obligations e) = Some ob → same_binding ob ob' →
  (blocks_completion ob' = true → blocks_completion ob = true) →
  simulates 0 e (e <| en_obligations := ot_store o ob' (en_obligations e) |>).
Proof.
  intros Hwf Hf Hb Hl. split; try done.
  - by eapply store_obligation_wf.
  - exists [AReport o]. split; [|done]. apply arun_one.
    eapply (as_report _ _ _ (ob_admission_generation ob) (ob_dependencies ob)); [simpl; by rewrite Hf|exact Hl|].
    rewrite view_store. by rewrite (sb_deps _ _ Hb), (sb_generation _ _ Hb).
  - intros t. simpl. lia.
  - intros [H1 H2 H3 H4 H5 H6 H7]. pose proof (ot_store_within _ o ob ob' _ (ew_obligations _ Hwf) Hf H5) as H5'.
    split; [exact H1|exact H2|exact H3|exact H4|simpl; exact H5'|exact H6|exact H7].
Qed.

Lemma apply_state_binding expected next ev now ob st ob' :
  apply_state expected next ev now ob = (st, ob') → same_binding ob ob'.
Proof.
  intros Ha. pose proof (λ H, apply_state_wf _ _ _ _ _ _ _ H Ha).
  apply apply_state_cases in Ha as [->|(_ & _ & _ & _ & _ & _ & ? & _ & ? & ?)]; by split.
Qed.

Lemma apply_state_live expected next ev now ob st ob' :
  apply_state expected next ev now ob = (st, ob') →
  (next = ObligationState.Admitted_ → ob_state ob ≠ ObligationState.Retired) →
  blocks_completion ob' = true → blocks_completion ob = true.
Proof.
  intros Ha Hn. apply apply_state_cases in Ha as [->|(_ & _ & _ & _ & Es & Hleg & _ & Ep & _)]; [done|].
  rewrite !blocks_completion_spec, Es, Ep. intros [? Hr]. split; [done|]. intros E. rewrite E in Hleg.
  destruct next; try done. by apply Hn.
Qed.

Lemma sim_retire now e ids n :
  engine_wf e →
  simulates 0 e (e <| en_obligations := (foldl (retire_one now) (en_obligations e, n) ids).1 |>).
Proof.
  intros Hwf. apply (foldl_inv (λ st : ObligationTable * Z, simulates 0 e (e <| en_obligations := st.1 |>))).
  - apply sim_frame; [by destruct Hwf|done..|]. same_tables.
  - intros [t k] id _ Hs. unfold retire_one. destruct (ot_find id t) as [ob|] eqn:Hf; [|done].
    destruct (apply_state _ _ _ _ _) as [st ob'] eqn:Ha. simpl.
    eapply (sim_trans 0 0 _ _ _ Hs).
    apply (sim_obligation id ob ob' _ (sm_wf _ _ _ Hs) Hf (apply_state_binding _ _ _ _ _ _ _ Ha)).
    by eapply apply_state_live.
Qed.

(** ** Evaluations that come out clean *)

Lemma evaluate_start_nil r now e :
  evaluate_start r now e = [] →
  start_authority_blockers r now e = [] ∧
  (∀ entry, fence_entry (dr_target r) (en_fence e) = Some entry → fe_closed entry = true →
     fe_drain entry = dr_id r) ∧
  (∃ n, to_resource (tg_id (dr_target r)) (en_topology e) = Some n ∧ in_service n = true) ∧
  active_drains_in_domain (tg_domain (dr_target r)) (dr_id r) e
    < p_max_concurrent_drains_per_domain (en_policy e) ∧
  (∀ front, frontmost_waiting r e = Some front → dr_id r ≤ front) ∧
  tv_ok (validate_removal (tg_id (dr_target r)) (p_capacity_headroom_numerator (en_policy e))
           (p_capacity_headroom_denominator (en_policy e)) (en_topology e)) = true.
Proof.
  unfold evaluate_start. intros H.
  repeat (apply app_eq_nil in H as [? H]). rename H into Htop.
  split_and!; [done|..].
  - intros entry E Hc. rewrite E, Hc in *. by destruct (Z.eqb_spec (fe_drain entry) (dr_id r)).
  - destruct (to_resource _ _) as [n|]; [|done]. exists n. split; [done|]. by destruct (in_service n).
  - by destruct (Z.leb_spec (p_max_concurrent_drains_per_domain (en_policy e))
      (active_drains_in_domain (tg_domain (dr_target r)) (dr_id r) e)).
  - intros front E. rewrite E in *. by destruct (Z.ltb_spec front (dr_id r)).
  - destruct (to_resource _ _) as [n|]; [|done]. destruct (in_service n); [|done].
    by destruct (tv_ok _).
Qed.

Lemma evaluate_verification_nil r now e proof :
  evaluate_verification r now e = ([], proof) →
  outstanding_for (dr_target r) e = [] ∧ removal_owned_by r e = true ∧
  (p_require_quiescence_evidence (en_policy e) = true →
     ∃ ev, el_fresh (removal_key r) (evidence_fence now e) (p_evidence_freshness (en_policy e))
             (en_evidence e) = Some ev ∧
           ev_generation ev = dr_generation r ∧ dr_admission_closed_at r ≤ ev_observed_at ev ∧
           ev_seq ev = proof).
Proof.
  unfold evaluate_verification. destruct (outstanding_for (dr_target r) e); simpl; [|done].
  set (bn := match to_resource _ _ with Some _ => _ | None => _ end).
  assert (bn = [] → removal_owned_by r e = true) as Hbn.
  { subst bn. destruct (to_resource _ _); [|done]. by destruct (removal_owned_by r e). }
  assert (∀ b, bn ++ [b] ≠ []) as Hne by by destruct bn.
  destruct (p_require_quiescence_evidence (en_policy e)); [|by intros [= -> <-]; split_and!; auto].
  destruct (el_fresh _ _ _ _) as [ev|]; [|by intros [= ?%Hne _]].
  destruct (Z.eqb_spec (ev_generation ev) (dr_generation r)); simpl; [|by intros [= ?%Hne _]].
  destruct (Z.ltb_spec (ev_observed_at ev) (dr_admission_closed_at r)); simpl; [by intros [= ?%Hne _]|].
  intros [= E <-]. split_and!; [done|auto|]. intros _. by exists ev.
Qed.

(** ** Closing admission, and completing *)

Lemma close_wf r now reason e g f :
  engine_wf e → fence_generation (dr_target r) (en_fence e) ≠ int_max u64 →
  fence_close (dr_target r) (dr_id r) now reason (en_fence e) = (g, f) →
  engine_wf (e <| en_fence := f |>).
Proof. intros [] Hg Hc. split; simpl; try done. by eapply fence_close_wf. Qed.

(** The record that [step_validating] stores after a closure. *)
Lemma sim_close r r' now reason e g f :
  engine_wf e → stored r e → phase_of r = Waiting →
  fence_generation (dr_target r) (en_fence e) < int_max u64 →
  (∀ entry, fence_entry (dr_target r) (en_fence e) = Some entry → fe_closed entry = true →
     fe_drain entry = dr_id r) →
  active_drains_in_domain (tg_domain (dr_target r)) (dr_id r) e
    < p_max_concurrent_drains_per_domain (en_policy e) →
  fence_close (dr_target r) (dr_id r) now reason (en_fence e) = (Ok g, f) →
  kept (r <| dr_generation := g |>) r' → phase_of r' = Holding ∨ phase_of r' = Waiting →
  simulates 1 e (put_drain r' (e <| en_fence := f |>)).
Proof.
  intros Hwf Hl Hp Hg Hown Hdom Hc Hk Hp'. destruct (ew_record _ Hwf _ _ Hl) as (_ & _ & Hr).
  assert (fence_generation (dr_target r) (en_fence e) ≠ int_max u64) as Hmax by lia.
  pose proof (close_wf _ _ _ _ _ _ Hwf Hmax Hc) as Hwf1.
  assert (record_ok r') as Hr' by by apply Hk.
  assert (dr_id r' = dr_id r ∧ dr_target r' = dr_target r ∧ dr_generation r' = g) as (Ei & Et & Eg).
  { destruct Hk as [? ? ? _]. done. }
  apply fence_close_cases in Hc as [[? _]|(entry & Hok & _ & -> & Ec & Eg' & Ed & _)]; [done| |apply Hwf|lia].
  injection Hok as ->.
  assert (en_drains (e <| en_fence := <[dr_target r := entry]> (en_fence e) |>) !! dr_id r' = Some r) as Hl1
    by by rewrite Ei.
  split; try done.
  - by eapply put_drain_wf.
  - simpl. rewrite (om_size_insert_Some _ _ r); [done|apply Hwf|by rewrite Ei].
  - exists [AClose (dr_id r)]. split; [|done]. apply arun_one.
    eapply (as_close _ _ _ (dr_target r) (phase_of r') (dr_generation r)
              (fence_generation (dr_target r) (en_fence e)) (fence_view (en_fence e) (dr_target r)).2);
      [simpl; rewrite Hl; simpl; unfold drain_view; by rewrite Hp|done| |done|].
    + unfold fence_view; simpl. destruct (fence_entry _ _) as [en|] eqn:E; [|by left].
      destruct (fe_closed en) eqn:Ecl; [right|by left]. by rewrite (Hown _ eq_refl Ecl).
    + rewrite view_put, Ei, Et, Eg. f_equiv. split_and!; try done. intros t. simpl. unfold at_key.
      rewrite fence_view_insert. case_decide; [|done]. by rewrite Ec, Ed, Eg'.
  - intros t. simpl. rewrite fence_generation_insert. case_decide; subst; lia.
  - intros L HL Hd d. erewrite active_put by done. rewrite Ei. unfold holder_in; simpl. rewrite Et.
    change (active_drains_in_domain d (dr_id r) _) with (active_drains_in_domain d (dr_id r) e).
    specialize (Hd d). erewrite (active_self r) in Hd by done. unfold holder_in in Hd; simpl in Hd.
    case_bool_decide as D; simpl in *; [|lia]. subst d. destruct (holds_fence r'); simpl; lia.
  - same_tables.
Qed.

Lemma sim_complete r r' e :
  engine_wf e → stored r e → phase_of r = Holding → outstanding_for (dr_target r) e = [] →
  kept r r' → phase_of r' = Done → simulates 0 e (put_drain r' e).
Proof.
  intros Hwf Hl Hp Hout Hk Hp'. destruct (ew_record _ Hwf _ _ Hl) as (_ & _ & Hr).
  assert (en_drains e !! dr_id r' = Some r) as Hl' by by rewrite (kp_id _ _ Hk).
  split; simpl; try done.
  - by eapply put_drain_wf; [..|apply Hk].
  - rewrite (om_size_insert_Some _ _ r); [done|apply Hwf|done].
  - exists [AComplete (dr_id r)]. split; [|done]. apply arun_one.
    eapply (as_complete _ _ _ (dr_target r) (dr_generation r)); simpl.
    + rewrite Hl. simpl. unfold drain_view. by rewrite Hp.
    + intros o g deps. rewrite fmap_Some. intros (ob & Hf & [= -> -> Hb]) Hin.
      symmetry in Hb. apply blocks_completion_spec in Hb as [? Hne]. apply Hne.
      by eapply (proj1 (outstanding_nil _ _ (ew_obligations _ Hwf)) Hout).
    + rewrite view_put. by rewrite (kp_id _ _ Hk), (kp_target _ _ Hk), (kp_generation _ _ Hk), Hp'.
  - intros. lia.
  - intros L HL Hd d. erewrite active_put by (done || by apply Hk). etrans; [|exact (Hd d)].
    erewrite (active_self r) by done. rewrite (kp_id _ _ Hk). unfold holder_in; simpl.
    assert (holds_fence r' = false) as ->.
    { destruct (holds_fence r') eqn:E; [|done]. apply holds_fence_phase in E. congruence. }
    rewrite andb_false_r. destruct (_ && _); simpl; lia.
  - same_tables.
Qed.

(** ** The cases of [step_state] *)

Lemma phase_of_state r s : dr_state r = s → s ≠ DrainState.Blocked →
  phase_of r = phase_at s (negb (dr_restored_at r =? 0)) (negb (dr_restore_generation r =? 0)).
Proof. intros E Hn. unfold phase_of, effective_state. rewrite E. by destruct s. Qed.

Ltac by_phase E := rewrite (phase_of_state _ _ E) by done; done.

Lemma sim_transition_at r s (E : dr_state r = s) next now detail oc ins ev rej e :
  engine_wf e → stored r e → s ≠ DrainState.Blocked → s ≠ DrainState.Cancelled →
  next ≠ DrainState.Blocked → next ≠ DrainState.Restoring →
  (∀ b g, phase_move (phase_at s b g) (phase_at next b g) = true) →
  simulates 0 e (apply_transition r next now detail oc ins ev rej e).2.
Proof. intros ?? Hb ????. apply sim_transition; try congruence. by rewrite (phase_of_state _ _ E Hb). Qed.

Lemma sim_requested r now e :
  engine_wf e → stored r e → dr_state r = DrainState.Requested → simulates 0 e (step_requested r now e).
Proof. intros Hwf Hl E. by apply (sim_transition_at _ _ E). Qed.

Lemma sim_validating r now e :
  engine_wf e → stored r e → dr_state r = DrainState.Validating →
  fence_generation (dr_target r) (en_fence e) < int_max u64 → simulates 1 e (step_validating r now e).
Proof.
  intros Hwf Hl E Hg. unfold step_validating. destruct (evaluate_start r now e) as [|b bl] eqn:Hev; simpl.
  2: { eapply sim_le; [|by apply sim_enter_blocked]. lia. }
  apply evaluate_start_nil in Hev as (_ & Hown & _ & Hdom & _).
  destruct (fence_close _ _ _ _ _) as [[g|err] f] eqn:Hc.
  - destruct (apply_transition _ _ _ _ _ _ _ _ _) as [b e'] eqn:Ha; cbn [snd].
    apply apply_transition_spec in Ha as (r' & He & Hcase). eapply sim_log; [exact He|].
    assert (phase_of (r <| dr_generation := g |>) = Waiting) as Hp
      by by apply (phase_of_state (r <| dr_generation := g |>) _ E).
    eapply (sim_close r); try done.
    + destruct Hcase as [(_ & -> & _)|[(_ & -> & _)|(_ & -> & ? & ? & ?)]];
        [apply kept_refl|apply kept_refl|].
      apply moved_kept; try done. left. simpl. by rewrite E.
    + destruct Hcase as [(_ & -> & _)|[(_ & -> & _)|(_ & -> & ? & ? & ?)]]; [by right|by right|left].
      by rewrite (phase_of_state _ _ (dr_state_moved _ _ _ _)).
  - pose proof (close_wf _ _ _ _ _ _ Hwf ltac:(intros X; rewrite X in Hg; lia) Hc) as Hwf1.
    assert (f = en_fence e) as ->.
    { apply fence_close_cases in Hc as [[_ ->]|(? & ? & _)]; [done|done|apply Hwf|intros X; rewrite X in Hg; lia]. }
    eapply sim_le; [|eapply (sim_trans 0 0)]; [lia| |apply sim_enter_blocked; [exact Hwf1|exact Hl]].
    apply sim_frame; try done. same_tables.
Qed.

Lemma sim_admission_closed r now e :
  engine_wf e → stored r e → dr_state r = DrainState.AdmissionClosed →
  simulates 0 e (step_admission_closed r now e).
Proof.
  intros Hwf Hl E. unfold step_admission_closed.
  destruct (_ <? _); [eapply sim_log; [apply record_decision_log|by apply sim_refl]|].
  destruct (is_nil _); by apply (sim_transition_at _ _ E).
Qed.

Lemma sim_evacuating r now acts e :
  engine_wf e → stored r e → dr_state r = DrainState.Evacuating →
  simulates 0 e (step_evacuating r now acts e).1.
Proof.
  intros Hwf Hl E. unfold step_evacuating.
  destruct (negb _); [by apply (sim_transition_at _ _ E)|].
  destruct (evaluate_evacuation r now e); simpl; [|by apply sim_enter_blocked].
  destruct (_ && _); simpl; eapply sim_log; try apply record_decision_log; [by apply sim_refl|].
  eapply (sim_put r (note_evacuation_attempt now r)); [done|done|by split|].
  change (phase_of (note_evacuation_attempt now r)) with (phase_of r). apply phase_move_refl.
Qed.

Lemma sim_removal r now e :
  engine_wf e → stored r e → dr_state r = DrainState.Quiescing → simulates 0 e (step_removal r now e).
Proof.
  intros Hwf Hl E. unfold step_removal.
  destruct (to_resource _ _) as [node|] eqn:Hn; [|by apply sim_enter_blocked].
  destruct (_ && _); [by apply sim_enter_blocked|]. destruct (_ && _); [by apply sim_enter_blocked|].
  set (e1 := if in_service node then _ else e).
  assert (simulates 0 e e1 ∧ en_drains e1 = en_drains e) as [Hs Ed].
  { subst e1. destruct (in_service node); [|by split; [apply sim_refl|]]. split; [|done].
    apply sim_topology; [done|]. destruct (to_set_status _ _ _) as [st t] eqn:Ht.
    by eapply to_set_status_wf; [apply Hwf|]. }
  destruct (record_removal_evidence r now e1) as [res e2] eqn:Hr.
  destruct (sim_record_removal _ _ _ _ _ (sm_wf _ _ _ Hs) Hr) as (Hs2 & Ed2 & _).
  assert (stored r e2) as Hl2 by (unfold stored; by rewrite Ed2, Ed).
  assert (simulates (0 + 0) e e2) as Hs3 by by eapply sim_trans.
  pose proof (sm_wf _ _ _ Hs2) as Hwf2. destruct res; eapply (sim_trans 0 0 _ _ _ Hs3).
  - apply (sim_transition_at _ _ E); [exact Hwf2|exact Hl2|discriminate..|reflexivity].
  - apply sim_enter_blocked; [exact Hwf2|exact Hl2].
Qed.

Lemma sim_quiescing r now e :
  engine_wf e → stored r e → dr_state r = DrainState.Quiescing → simulates 0 e (step_quiescing r now e).
Proof.
  intros Hwf Hl E. unfold step_quiescing.
  destruct (existsb _ _); [by apply (sim_transition_at _ _ E)|].
  destruct (evaluate_quiescence r now e) as [bl ids]. destruct bl; simpl; [|by apply sim_enter_blocked].
  destruct ids; simpl; [by apply sim_removal|]. unfold step_retire.
  pose proof (sim_retire now e (z :: ids) 0 Hwf) as Hs.
  destruct (foldl _ _ _) as [t n]. eapply sim_log; [apply record_decision_log|done].
Qed.

Lemma sim_step_complete r proof now e :
  engine_wf e → stored r e → dr_state r = DrainState.Verifying → outstanding_for (dr_target r) e = [] →
  simulates 0 e (step_complete r proof now e).
Proof.
  intros Hwf Hl E Hout. unfold step_complete. rewrite Hout. simpl.
  set (r1 := r <| dr_completed_at := now |> <| dr_remaining_protected := 0 |>
               <| dr_completion_digest := authoritative_digest e |> <| dr_completion_evidence := proof |>).
  change (record_completion now (wrap u32 (zlength [])) (authoritative_digest e) proof r) with (ok_status, r1).
  simpl. assert (kept r r1) as Hk by (split; try done; intros (? & ? & ? & ?); by split_and!).
  destruct (apply_transition _ _ _ _ _ _ _ _ _) as [b e'] eqn:Ha; cbn [snd].
  apply apply_transition_spec in Ha as (r' & He & Hcase).
  assert (e' ≡ put_drain r' e) as He'.
  { rewrite He, bump_log, put_put; [done|].
    destruct Hcase as [(_ & -> & _)|[(_ & -> & _)|(_ & -> & _)]]; by rewrite ?dr_id_moved. }
  eapply sim_log; [exact He'|].
  destruct Hcase as [(_ & -> & _)|[(_ & -> & Hst)|(_ & -> & ? & ? & ?)]].
  - apply (sim_put r r1); try done.
    rewrite (same_phase r r1) by done. apply phase_move_refl.
  - change (dr_state r1) with (dr_state r) in Hst. by rewrite E in Hst.
  - eapply (sim_complete r); try done; [by_phase E|]. eapply kept_trans; [exact Hk|].
    apply moved_kept; try done. left. change (dr_state r1) with (dr_state r). by rewrite E.
Qed.

Lemma sim_verifying r now e :
  engine_wf e → stored r e → dr_state r = DrainState.Verifying → simulates 0 e (step_verifying r now e).
Proof.
  intros Hwf Hl E. unfold step_verifying.
  assert (∀ n e1 bl proof, simulates 0 e e1 → en_drains e1 = en_drains e →
    (bl = [] → n = true → evaluate_verification r now e1 = ([], proof)) → n = true →
    simulates 0 e (if negb (is_nil bl) then (enter_blocked r bl now "verification-blocked" e1).2
                   else step_complete r proof now e1)) as Hfin.
  { intros n e1 bl proof Hs Ed Hev Hn. assert (stored r e1) as Hl1 by (unfold stored; by rewrite Ed).
    eapply (sim_trans 0 0 _ _ _ Hs). destruct bl; simpl; [|apply sim_enter_blocked; [apply Hs|done]].
    apply sim_step_complete; [apply Hs|done|done|].
    by eapply evaluate_verification_nil, Hev. }
  destruct (evaluate_verification r now e) as [bl proof] eqn:Hev. destruct (_ && _ && _).
  - destruct (record_removal_evidence r now e) as [[u|err] e1] eqn:Hr;
      destruct (sim_record_removal _ _ _ _ _ Hwf Hr) as (Hs & Ed & Ep & Eo & Ef & Et).
    + destruct (evaluate_verification r now e1) as [bl' proof'] eqn:Hev'.
      apply (Hfin true); try done. by intros -> _.
    + destruct bl as [|b bl]; [|by apply (Hfin true)].
      simpl. eapply (sim_trans 0 0 _ _ _ Hs). apply sim_step_complete; [apply Hs|unfold stored; by rewrite Ed|done|].
      unfold outstanding_for. rewrite Eo. by eapply evaluate_verification_nil.
  - apply (Hfin true); [by apply sim_refl|done| |done]. by intros -> _.
Qed.

(** Restoration settles: the cancelled record is stamped. *)
Lemma sim_mark_restored r m e1 e2 now g :
  engine_wf e1 → stored r e1 → dr_state r = DrainState.Restoring → kept r m →
  dr_state m = DrainState.Cancelled → e2 ≡ put_drain m e1 → g = dr_restore_generation r →
  simulates 0 e1 (put_drain (mark_restored now g m) e2).
Proof.
  intros Hwf Hl E Hk Em He Hg.
  assert (put_drain (mark_restored now g m) e2 ≡ put_drain (mark_restored now g m) e1) as He3.
  { rewrite He, put_put; [reflexivity|]. reflexivity. }
  assert (effective_state (mark_restored now g m) = DrainState.Cancelled) as E3.
  { unfold effective_state. change (dr_state (mark_restored now g m)) with (dr_state m). by rewrite Em. }
  eapply sim_log; [exact He3|]. apply (sim_put r); [exact Hwf|exact Hl| |].
  - eapply (kept_trans _ m); [exact Hk|]. split; try done. intros (Hw & _ & ? & _). split_and!; try done. congruence.
  - destruct (ew_record _ Hwf _ _ Hl) as (_ & _ & _ & _ & _ & Hre).
    rewrite (phase_of_state _ _ E) by done. unfold phase_of. rewrite E3. simpl.
    rewrite Hg, (proj2 (Z.eqb_neq (dr_restore_generation r) 0)) by (apply Hre; unfold effective_state; by rewrite E). by destruct (_ =? _).
Qed.

Lemma sim_settle r now detail oc ins ev rej label bl e :
  engine_wf e → stored r e → dr_state r = DrainState.Restoring →
  simulates 0 e
    (match apply_transition r DrainState.Cancelled now detail oc ins ev rej e with
     | (false, e) => (enter_blocked r bl now label e).2
     | (true, e) =>
         match en_drains e !! dr_id r with
         | Some r => put_drain (mark_restored now (dr_restore_generation r) r) e
         | None => e
         end
     end).
Proof.
  intros Hwf Hl E. destruct (apply_transition _ _ _ _ _ _ _ _ _) as [b e2] eqn:Ha.
  apply apply_transition_spec in Ha as (r' & He & Hcase).
  assert (en_drains e2 = <[dr_id r' := r']> (en_drains e)) as Ed2 by by rewrite He.
  destruct Hcase as [(-> & -> & _)|[(-> & -> & Hst)|(-> & -> & Hne & Hleg & Hrev)]].
  - assert (simulates 0 e e2) as Hs2.
    { eapply sim_log; [exact He|]. apply (sim_put r r); auto using kept_refl, phase_move_refl. }
    eapply (sim_trans 0 0 _ _ _ Hs2). apply sim_enter_blocked; [apply Hs2|].
    unfold stored. rewrite Ed2. apply om_lookup_insert_eq.
  - by rewrite E in Hst.
  - rewrite dr_id_moved in Ed2. rewrite Ed2, om_lookup_insert_eq.
    eapply sim_mark_restored; [exact Hwf|exact Hl|exact E| |apply dr_state_moved|exact He|apply dr_restore_generation_moved].
    apply moved_kept; try done. left. by rewrite E.
Qed.

Lemma sim_restoring r now e :
  engine_wf e → stored r e → dr_state r = DrainState.Restoring → simulates 0 e (step_restoring r now e).
Proof.
  intros Hwf Hl E. unfold step_restoring.
  destruct (_ <? _); [eapply sim_log; [apply record_decision_log|by apply sim_refl]|].
  set (e1 := if removal_owned_by r e then _ else e).
  assert (simulates 0 e e1 ∧ en_drains e1 = en_drains e) as [Hs Ed].
  { subst e1. destruct (removal_owned_by r e); [|by split; [apply sim_refl|]]. split; [|done].
    apply sim_topology; [done|]. destruct (to_set_status _ _ _) as [st t] eqn:Ht.
    by eapply to_set_status_wf; [apply Hwf|]. }
  assert (stored r e1) as Hl1 by (unfold stored; by rewrite Ed).
  eapply (sim_trans 0 0 _ _ _ Hs). apply sim_settle; [apply Hs|exact Hl1|exact E].
Qed.

(** ** One drain, and the whole pass *)

Lemma sim_step_state r now acts e :
  engine_wf e → stored r e → fence_generation (dr_target r) (en_fence e) < int_max u64 →
  simulates 1 e (step_state r now acts e).1.
Proof.
  intros Hwf Hl Hg. unfold step_state. destruct (dr_state r) eqn:E; cbn [fst].
  2: by apply sim_validating.
  all: apply (sim_le 0 1); [lia|].
  - by apply sim_requested.
  - by apply sim_admission_closed.
  - by apply sim_evacuating.
  - by apply sim_quiescing.
  - by apply sim_verifying.
  - by apply sim_refl.
  - by apply sim_refl.
  - by apply sim_refl.
  - by apply sim_refl.
  - by apply sim_restoring.
Qed.

Lemma sim_step_drain r now acts e :
  engine_wf e → stored r e → fence_generation (dr_target r) (en_fence e) < int_max u64 →
  simulates 1 e (step_drain r now acts e).1.
Proof.
  intros Hwf Hl Hg. unfold step_drain. case_bool_decide as Hb; [|by apply sim_step_state].
  set (resume := default DrainState.Validating (dr_blocked_from r)).
  set (e1 := if _ : bool then _ else e).
  assert (simulates 0 e e1 ∧ en_drains e1 = en_drains e ∧ en_fence e1 = en_fence e) as (Hs & Ed & Ef).
  { subst e1. destruct (_ && _ && _); [|by split; [apply sim_refl|]].
    destruct (record_removal_evidence r now e) as [st e1] eqn:Hr.
    by destruct (sim_record_removal _ _ _ _ _ Hwf Hr) as (? & ? & _ & _ & ? & _). }
  pose proof (sm_wf _ _ _ Hs) as Hwf1. eapply (sim_trans 0 1 _ _ _ Hs).
  assert (stored r e1) as Hl1 by (unfold stored; by rewrite Ed).
  rewrite <-Ef in Hg. clearbody e1. clear Hs Ed Ef Hl Hwf e.
  destruct (evaluate_state r resume now e1); cbn [is_nil negb];
    [|apply (sim_le 0 1); [lia|by apply sim_enter_blocked]].
  destruct (ew_record _ Hwf1 _ _ Hl1) as (_ & _ & Hr).
  assert (resume ≠ DrainState.Blocked) as Hnb.
  { subst resume. destruct (dr_blocked_from r) as [s|] eqn:Es; [|done]. by apply Hr in Es as [? _]. }
  destruct (apply_transition _ _ _ _ _ _ _ _ _) as [b e2] eqn:Ha.
  assert (simulates 0 e1 e2) as Hs2.
  { change e2 with (b, e2).2. rewrite <-Ha. apply sim_transition; [done|done|done|by rewrite Hb|by unfold effective_state; rewrite Hb|].
    unfold phase_of, effective_state. rewrite Hb. apply phase_move_refl. }
  apply apply_transition_spec in Ha as (r' & He & Hcase).
  assert (dr_id r' = dr_id r ∧ dr_target r' = dr_target r) as [Ei Et].
  { destruct Hcase as [(_ & -> & _)|[(_ & -> & _)|(_ & -> & _)]]; by autorewrite with drain. }
  destruct b; [|by apply (sim_le 0 1); [lia|]].
  assert (en_drains e2 !! dr_id r = Some r') as Hl2.
  { rewrite He. simpl. rewrite Ei. apply om_lookup_insert_eq. }
  rewrite Hl2. eapply (sim_trans 0 1 _ _ _ Hs2). apply sim_step_state; [apply Hs2| |].
  - unfold stored. by rewrite Ei.
  - rewrite Et, He. done.
Qed.

Lemma sim_advance_one now e acts id :
  engine_wf e → (∀ t, fence_generation t (en_fence e) < int_max u64) →
  simulates 1 e (advance_one now (e, acts) id).1.
Proof.
  intros Hwf Hg. unfold advance_one. destruct (en_drains e !! id) as [r|] eqn:Hl;
    [|by apply (sim_le 0 1), sim_refl].
  destruct (is_settled (dr_state r)); [by apply (sim_le 0 1), sim_refl|].
  destruct (ew_record _ Hwf _ _ Hl) as (Hid & _). apply sim_step_drain; [done| |done].
  unfold stored. by rewrite Hid.
Qed.

Lemma sim_advance_fold now ids e acts :
  engine_wf e → (∀ t, fence_generation t (en_fence e) + zlength ids ≤ int_max u64) →
  simulates (zlength ids) e (foldl (advance_one now) (e, acts) ids).1.
Proof.
  revert e acts. induction ids as [|id ids IH]; intros e acts Hwf Hg; [by apply sim_refl|].
  rewrite zlength_cons in *. cbn [foldl].
  assert (simulates 1 e (advance_one now (e, acts) id).1) as Hs.
  { apply sim_advance_one; [done|]. intros t. specialize (Hg t). pose proof (zlength_nonneg ids). lia. }
  destruct (advance_one now (e, acts) id) as [e1 acts1]. simpl in Hs.
  replace (zlength ids + 1) with (1 + zlength ids) by lia. eapply sim_trans; [exact Hs|].
  apply IH; [apply Hs|]. intros t. pose proof (sm_gens _ _ _ Hs t). specialize (Hg t). lia.
Qed.

(** A scheduling pass is a run of the protocol. *)
Lemma sim_advance_pass now e :
  engine_wf e → (∀ t, fence_generation t (en_fence e) + om_size (en_drains e) ≤ int_max u64) →
  simulates (om_size (en_drains e)) e (advance_pass now e).1.
Proof.
  intros Hwf Hg. unfold advance_pass. set (e0 := bump _ e).
  assert (simulates 0 e e0) as Hs by (eapply sim_log; [apply bump_log|by apply sim_refl]).
  assert (om_size (en_drains e) = zlength (om_keys (en_drains e0))) as Hk.
  { unfold om_size, om_keys, zlength. by rewrite length_fmap. }
  rewrite Hk in *. apply (sim_trans 0 _ _ _ _ Hs). by apply sim_advance_fold; [apply Hs|].
Qed.
