(* ===== verification/EngineReach.v ===== *)
(** * The engine refines the drain protocol: every operation, every history

    [op] lists the public mutators and the restart; [exec] runs one; [reachable]
    is the set of engines some history leads to.  Each operation is a run of the protocol, so
    reachable engines satisfy the protocol's invariants.  [advance] and [restore_drain]
    give the engine's mutex up while they call the sink; their critical sections are
    operations too, so that a history may run others in between. *)

From S2P Require Import Prelude Containers Checked Result Text Identity Lifecycle Obligation Evidence.
From S2P Require Import Authority Admission Topology TopologyFacts Policy Decision Protocol Engine.
From S2P Require Import Snapshot EngineStep EngineOps EngineInv Restart EngineRefine.

(** ** Operations as data *)

Inductive op : Type :=
  | OpSetPolicy (p : DrainPolicy)
  | OpInstallIncarnation (i : IncarnationId)
  | OpInstallLine (i : IncarnationId) (epoch : Epoch) (reason : string)
  | OpBeginEpoch (i : IncarnationId) (reason : string)
  | OpIssue (scope : DomainId) (validity : Duration)
  | OpRevoke (id : AuthorityId) (reason : string)
  | OpAddResource (n : ResourceNode)
  | OpAddEdge (a b : ResourceId)
  | OpAddPath (p : FabricPath)
  | OpAddGroup (g : DiversityGroup)
  | OpAddPool (p : CapacityPool)
  | OpAddRoute (r : ProtectedRoute)
  | OpReportStatus (id : ResourceId) (st : ResourceStatus.t)
  | OpAdmit (draft : Obligation) (presented : Generation) (authority : AuthorityId)
  | OpReport (report : ObligationReport)
  | OpEvidence (draft : Evidence)
  | OpAttest (key : EvidenceKey) (seq : EvidenceSeq)
  | OpRequestSet (request : DrainRequest)
  | OpRequest (request : DrainRequest)
  | OpCancel (id : DrainId) (authority : AuthorityId) (reason : string)
  | OpRestore (id : DrainId) (authority : AuthorityId) (reason : string)
  | OpResume (id : DrainId) (authority : AuthorityId)
  | OpGrant (id : DrainId) (obligation : ObligationId) (extension : Duration) (authority : AuthorityId)
  | OpAdvance
  | OpAdvancePass
  | OpRestorePass (id : DrainId) (authority : AuthorityId) (reason : string)
  | OpDispatched (actions : PendingActions) (failures : Z)
  | OpRestart (previous : IncarnationId).

(** What each leaves behind, whatever it answers.  A restart restores the
    engine's own snapshot. *)
Definition exec (sink : option EvacuationSink) (o : op) (now : TimePoint) (e : engine) : engine :=
  match o with
  | OpSetPolicy p => (set_policy p now e).2
  | OpInstallIncarnation i => (en_install_incarnation i now e).2
  | OpInstallLine i epoch reason => (install_authority_line i epoch now reason e).2
  | OpBeginEpoch i reason => (en_begin_new_epoch i now reason e).2
  | OpIssue scope validity => (issue_authority scope validity now e).2
  | OpRevoke id reason => (revoke_authority id reason now e).2
  | OpAddResource n => (en_add_resource n now e).2
  | OpAddEdge a b => (en_add_edge a b now e).2
  | OpAddPath p => (en_add_path p now e).2
  | OpAddGroup g => (en_add_diversity_group g now e).2
  | OpAddPool p => (en_add_capacity_pool p now e).2
  | OpAddRoute r => (en_add_protected_route r now e).2
  | OpReportStatus id st => (report_resource_status id st now e).2
  | OpAdmit draft presented authority => (admit_obligation draft presented authority now e).2
  | OpReport report => (report_obligation report now e).2
  | OpEvidence draft => (record_evidence draft now e).2
  | OpAttest key seq => (attest_evidence key seq now e).2
  | OpRequestSet request => (request_drain_set request now e).2
  | OpRequest request => (request_drain request now e).2
  | OpCancel id authority reason => (cancel_drain id authority reason now e).2
  | OpRestore id authority reason => (restore_drain_and_dispatch sink id authority reason now e).2
  | OpResume id authority => (resume_drain id authority now e).2
  | OpGrant id obligation extension authority => (grant_exception id obligation extension authority now e).2
  | OpAdvance => (advance sink now e).2
  | OpAdvancePass => (advance_pass now e).1
  | OpRestorePass id authority reason => (restore_drain id authority reason now e).2
  | OpDispatched actions failures => finish_dispatch actions failures e
  | OpRestart previous => (restore (snapshot e) previous now e).2
  end.

(** Arguments as their C++ types deliver them: identifiers are 64-bit, and an
    [Obligation] is built by its constructor. *)
Definition args_wf (o : op) : Prop :=
  match o with
  | OpInstallIncarnation i | OpBeginEpoch i _ => in_range u64 i
  | OpInstallLine i epoch _ => in_range u64 i ∧ in_range u64 epoch
  | OpAdmit draft _ _ => obligation_wf draft
  | _ => True
  end.

(** What a restart reads back is in the range the snapshot's format has. *)
Definition storable_for (o : op) (e : engine) : bool :=
  match o with OpRestart _ => engine_storable e | _ => true end.

Definition op_wf (o : op) (e : engine) : Prop := args_wf o ∧ storable_for o e = true.

(** A report that brings a retired protected obligation back. *)
Definition brings_back (o : op) (e : engine) : bool :=
  match o with
  | OpReport report =>
      bool_decide (op_next report = ObligationState.Admitted_)
      && match ot_find (op_obligation report) (en_obligations e) with
         | Some ob => bool_decide (ob_state ob = ObligationState.Retired)
         | None => false
         end
  | _ => false
  end.

(** The 64-bit counters have room for one more operation. *)
Definition headroom (e : engine) : Prop :=
  (∀ t, fence_generation t (en_fence e) + om_size (en_drains e) + 2 ≤ int_max u64) ∧
  (∀ id r, en_drains e !! id = Some r → dr_revision r < int_max u64).

(** ** Refinement of one operation *)

(** [e'] is a well-formed engine with policy [q] that a run of the protocol
    leads to; the run brings no obligation back unless [back]. *)
Record refines_to (back : bool) (q : DrainPolicy) (e e' : engine) : Prop := {
  rf_wf : engine_wf e';
  rf_policy : en_policy e' = q;
  rf_run : ∃ tr, arun tr (view_of e) (view_of e') ∧ (back = false → existsb is_reappear tr = false);
  rf_domain : ∀ L, p_max_concurrent_drains_per_domain (en_policy e) ≤ L →
    domain_within L e → domain_within L e';
  rf_bounded : tables_bounded e → tables_bounded e';
}.

Abbreviation refines back e e' := (refines_to back (en_policy e) e e').

Lemma sim_refines n b e e' : simulates n e e' → refines b e e'.
Proof. intros [H1 Hp _ (tr & H2 & H3) _ H4 H5]. split; eauto. Qed.

Lemma refines_log b q e e1 e2 : e2 ≡ e1 → refines_to b q e e1 → refines_to b q e e2.
Proof.
  intros He [H1 Hp (tr & H2 & H3) H4 H5]. split.
  - by rewrite He.
  - by rewrite He.
  - exists tr. split; [|done]. rewrite <-(app_nil_r tr). eapply arun_app; [exact H2|]. apply run_nil. by rewrite He.
  - intros L HL Hd d. specialize (H4 L HL Hd d). by rewrite active_count, He, <-active_count.
  - by rewrite He.
Qed.

Lemma refines_refl b e : engine_wf e → refines b e e.
Proof. intros. eapply (sim_refines 0), sim_refl; done. Qed.

Lemma set_policy_refines p now e :
  engine_wf e →
  refines_to false (if is_ok (policy_validate p) then p else en_policy e) e (set_policy p now e).2.
Proof.
  intros Hwf. unfold set_policy. destruct (policy_validate p) as [[]|] eqn:Hv; simpl is_ok; cbv iota; [|by apply refines_refl].
  eapply refines_log; [apply record_decision_log|]. split.
  - pose proof (ew_evidence _ Hwf) as Hl. destruct Hwf. split; simpl; try done. by destruct Hl; split.
  - done.
  - exists []. split; [|done]. by apply run_nil.
  - intros L _ H d. by specialize (H d).
  - intros [Hp Hs Hn Ht [_ Ho] [_ Hev] Hx]. destruct (policy_validate_caps p Hv) as (Ho' & He' & _).
    split; [exact Hv|exact Hs|exact Hn|exact Ht|exact (conj Ho' Ho)|exact (conj He' Hev)|exact Hx].
Qed.

(** Operations on parts the protocol does not look at. *)
Lemma authority_refines b e a :
  engine_wf e → registry_wf a → (registry_within (en_authority e) → registry_within a) →
  refines b e (e <| en_authority := a |>).
Proof. intros [] Ha Hb. apply (sim_refines 0), sim_frame; try done. intros [H1 H2 H3 H4 H5 H6 H7].
  split; [exact H1|exact H2|exact H3|exact (Hb H4)|exact H5|exact H6|exact H7].
Qed.
Lemma topology_refines b e t : engine_wf e → topology_wf t → refines b e (e <| en_topology := t |>).
Proof. intros Hwf Ht. apply (sim_refines 0). by apply sim_topology. Qed.
Lemma evidence_refines b e l :
  engine_wf e → ledger_wf l → (∀ bound, ledger_within bound (en_evidence e) → ledger_within bound l) →
  refines b e (e <| en_evidence := l |>).
Proof. intros Hwf Ht Hb. apply (sim_refines 0). by apply sim_evidence. Qed.

(** Strips the decision and the counters a public operation adds. *)
Ltac strip_log :=
  unfold reject_evidence, reject_report, reject_admission, reject_request;
  eapply refines_log; [repeat (rewrite record_decision_log || rewrite bump_log); reflexivity|].

Lemma install_line_refines i epoch reason now e :
  engine_wf e → in_range u64 i → in_range u64 epoch →
  refines false e (install_authority_line i epoch now reason e).2.
Proof.
  intros Hwf Hi He. unfold install_authority_line. destruct (install_line _ _ _ _ _) as [st a] eqn:Hl.
  assert (registry_wf a) as Ha by (eapply install_line_wf; [apply Hwf|exact Hi|exact He|exact Hl]).
  pose proof (install_line_within _ _ _ _ _ _ _ Hl) as Hb.
  destruct st; cbn [snd]; [|by apply authority_refines]. strip_log.
  apply (sim_refines 0), sim_frame; try done.
  - pose proof (quarantine_all_wf _ (ew_evidence _ Hwf)). by destruct Hwf.
  - intros [H1 H2 H3 H4 H5 H6 H7].
    split; [exact H1|exact H2|exact H3|exact (Hb H4)|exact H5|by apply quarantine_within|exact H7].
Qed.

Lemma begin_epoch_refines i reason now e :
  engine_wf e → in_range u64 i → refines false e (en_begin_new_epoch i now reason e).2.
Proof.
  intros Hwf Hi. unfold en_begin_new_epoch.
  destruct (increment_checked _ _) as [n|] eqn:Hn; [|by apply refines_refl].
  apply install_line_refines; try done. apply increment_checked_Some in Hn as [-> ?]; [done|apply it_wf_u64|].
  apply (ew_authority _ Hwf).
Qed.

Lemma incarnation_refines i now e :
  engine_wf e → in_range u64 i → refines false e (en_install_incarnation i now e).2.
Proof.
  intros Hwf Hi. unfold en_install_incarnation. destruct (install_incarnation _ _ _) as [st a] eqn:Hl.
  assert (registry_wf a) as Ha.
  { revert Hl. unfold install_incarnation. pose proof (ew_authority _ Hwf) as Hr.
    repeat case_match; intros [= _ <-]; try done. destruct Hr as (? & ? & ? & ? & ? & ? & ?). by split_and!. }
  pose proof (install_incarnation_within _ _ _ _ _ Hl).
  destruct st; cbn [snd]; [strip_log|]; by apply authority_refines.
Qed.

Lemma issue_refines scope validity now e :
  engine_wf e → refines false e (issue_authority scope validity now e).2.
Proof.
  intros Hwf. unfold issue_authority. destruct (ar_issue _ _ _ _) as [st a] eqn:Hl.
  pose proof (ar_issue_wf _ _ _ _ _ _ (ew_authority _ Hwf) Hl).
  pose proof (ar_issue_within _ _ _ _ _ _ (ew_authority _ Hwf) Hl).
  destruct st; cbn [snd]; [strip_log|]; by apply authority_refines.
Qed.

Lemma revoke_refines id reason now e : engine_wf e → refines false e (revoke_authority id reason now e).2.
Proof.
  intros Hwf. unfold revoke_authority. destruct (ar_revoke _ _ _ _) as [st a] eqn:Hl.
  pose proof (ar_revoke_wf _ _ _ _ _ _ (ew_authority _ Hwf) Hl).
  pose proof (ar_revoke_within _ _ _ _ _ _ (ew_authority _ Hwf) Hl).
  destruct st; cbn [snd]; [strip_log|]; by apply authority_refines.
Qed.

(** All topology edits share one shape. *)
Ltac topology_op Hwf lem :=
  match goal with |- context [match ?x with _ => _ end] =>
    let st := fresh "st" in let t := fresh "t" in let Hl := fresh "Hl" in destruct x as [st t] eqn:Hl;
    assert (topology_wf t) by (eapply lem; [apply (ew_topology _ Hwf)|exact Hl]);
    destruct st; cbn [snd]; [strip_log|]; by apply topology_refines
  end.

Lemma add_resource_refines n now e : engine_wf e → refines false e (en_add_resource n now e).2.
Proof. intros Hwf. unfold en_add_resource. topology_op Hwf add_resource_wf. Qed.
Lemma add_edge_refines a b now e : engine_wf e → refines false e (en_add_edge a b now e).2.
Proof. intros Hwf. unfold en_add_edge. topology_op Hwf add_edge_wf. Qed.
Lemma add_path_refines p now e : engine_wf e → refines false e (en_add_path p now e).2.
Proof. intros Hwf. unfold en_add_path. topology_op Hwf add_path_wf. Qed.
Lemma add_group_refines g now e : engine_wf e → refines false e (en_add_diversity_group g now e).2.
Proof. intros Hwf. unfold en_add_diversity_group. topology_op Hwf add_diversity_group_wf. Qed.
Lemma add_pool_refines p now e : engine_wf e → refines false e (en_add_capacity_pool p now e).2.
Proof. intros Hwf. unfold en_add_capacity_pool. topology_op Hwf add_capacity_pool_wf. Qed.
Lemma add_route_refines r now e : engine_wf e → refines false e (en_add_protected_route r now e).2.
Proof. intros Hwf. unfold en_add_protected_route. topology_op Hwf add_protected_route_wf. Qed.
Lemma report_status_refines id s now e : engine_wf e → refines false e (report_resource_status id s now e).2.
Proof. intros Hwf. unfold report_resource_status. topology_op Hwf to_set_status_wf. Qed.

Lemma record_evidence_refines draft now e : engine_wf e → refines false e (record_evidence draft now e).2.
Proof.
  intros Hwf. unfold record_evidence. destruct (el_record _ _ _ _) as [res l] eqn:Hr.
  pose proof (el_record_wf _ _ _ _ _ _ (ew_evidence _ Hwf) Hr).
  pose proof (λ bound, el_record_within bound _ _ _ _ _ _ (ew_evidence _ Hwf) Hr).
  destruct res; cbn [snd]; strip_log; by apply evidence_refines.
Qed.

Lemma attest_evidence_refines key seq now e : engine_wf e → refines false e (attest_evidence key seq now e).2.
Proof.
  intros Hwf. unfold attest_evidence. destruct (el_attest _ _ _ _) as [res l] eqn:Hr.
  pose proof (el_attest_wf _ _ _ _ _ _ (ew_evidence _ Hwf) Hr).
  pose proof (λ bound, el_attest_within bound _ _ _ _ _ _ (ew_evidence _ Hwf) Hr).
  destruct res; cbn [snd]; strip_log; by apply evidence_refines.
Qed.

(** *** Obligations *)

Lemma first_refusal_None presented f deps :
  first_refusal presented f deps = None ↔
  ∀ t, t ∈ deps → fence_is_closed t f = false ∧ presented = fence_generation t f.
Proof.
  induction deps as [|d deps IH]; simpl; [split; [by intros _ t ?%not_elem_of_nil|done]|].
  destruct (check_admission d presented f) as [[]|err] eqn:E.
  - apply check_admission_ok in E. rewrite IH. split.
    + intros H t [->|?]%elem_of_cons; auto.
    + intros H t Ht. apply H. by right.
  - split; [done|]. intros H. specialize (H d ltac:(by left)). apply check_admission_ok in H. congruence.
Qed.

Lemma first_refusal_Some presented f deps t err :
  first_refusal presented f deps = Some (t, err) → t ∈ deps ∧ check_admission t presented f = Err err.
Proof.
  induction deps as [|d deps IH]; simpl; [done|]. destruct (check_admission d presented f) eqn:E.
  - intros [? ?]%IH. split; [by right|done].
  - intros [= <- <-]. split; [by left|done].
Qed.

(** A successful admission, spelled out. *)
Lemma admit_Ok draft presented authority now e ob e' :
  engine_wf e → admit_obligation draft presented authority now e = (Ok ob, e') →
  require_authority authority now e = ok_status ∧ ob_dependencies draft ≠ [] ∧
  zlength (ob_dependencies draft) ≤ kMaxDependenciesPerObligation ∧
  (∀ t, t ∈ ob_dependencies draft →
     fence_is_closed t (en_fence e) = false ∧ presented = fence_generation t (en_fence e)) ∧
  ob = draft <| ob_admitted_at := now |> <| ob_admission_generation := presented |>
             <| ob_id := ot_high_water (en_obligations e) + 1 |> ∧
  ∃ t, ot_insert (draft <| ob_admitted_at := now |> <| ob_admission_generation := presented |>)
         (en_obligations e) = (Ok ob, t) ∧ e' ≡ e <| en_obligations := t |>.
Proof.
  intros Hwf. unfold admit_obligation. destruct (require_authority _ _ _) as [[]|] eqn:Ha; [|done].
  destruct (is_nil _) eqn:Hn; [done|]. apply is_nil_false in Hn. destruct (_ <? _) eqn:Hm; [done|].
  apply Z.ltb_ge in Hm. destruct (first_refusal _ _ _) as [[]|] eqn:Hf; [done|].
  destruct (ot_insert _ _) as [[stored|] t] eqn:Hi; [|done]. intros [= <- <-].
  split_and!; try done; [by apply first_refusal_None| |].
  - by apply ot_insert_Ok in Hi as (_ & -> & _); [|apply Hwf].
  - exists t. split; [done|]. by rewrite record_decision_log.
Qed.

Lemma admit_Err draft presented authority now e err e' :
  engine_wf e → admit_obligation draft presented authority now e = (Err err, e') → e' ≡ e.
Proof.
  intros Hwf. unfold admit_obligation. destruct (require_authority _ _ _); [|by intros [= _ <-]].
  destruct (is_nil _); [by intros [= _ <-]|]. destruct (_ <? _); [by intros [= _ <-]|].
  destruct (first_refusal _ _ _) as [[]|]; [by intros [= _ <-]; rewrite record_decision_log|].
  destruct (ot_insert _ _) as [[stored|] t] eqn:Hi; [done|]. intros [= _ <-].
  by apply ot_insert_Err in Hi as [-> _]; [|apply Hwf].
Qed.

Lemma admit_refines draft presented authority now e :
  engine_wf e → obligation_wf draft → refines false e (admit_obligation draft presented authority now e).2.
Proof.
  intros Hwf Hd. destruct (admit_obligation _ _ _ _ _) as [[ob|err] e'] eqn:Ha; cbn [snd].
  2: { apply admit_Err in Ha; [|done]. eapply refines_log; [exact Ha|]. by apply refines_refl. }
  apply admit_Ok in Ha as (_ & _ & _ & Hf & Hob & t & Hi & He); [|done]. eapply refines_log; [exact He|].
  destruct (ot_insert_Ok _ _ _ _ (ew_obligations _ Hwf) Hi) as (Hfresh & _ & _ & _ & _ & Et & _). split.
  - assert (table_wf t) by (eapply ot_insert_wf; [apply Hwf| |exact Hi]; exact Hd). by destruct Hwf.
  - done.
  - exists [AAdmit (ot_high_water (en_obligations e) + 1)]. split; [|done]. apply arun_one.
    eapply (as_admit _ _ _ presented (ob_dependencies draft) (blocks_completion draft));
      [simpl; by rewrite Hfresh| |].
    + intros d Hd'. apply fence_view_open. by destruct (Hf d Hd') as [? ->].
    + split_and!; try done. intros o. simpl. unfold at_key, ot_find. rewrite Et. case_decide as D.
      * subst o. rewrite om_lookup_insert_eq. by rewrite Hob.
      * by rewrite om_lookup_insert_ne by congruence.
  - intros L _ H d. by specialize (H d).
  - intros [H1 H2 H3 H4 H5 H6 H7]. pose proof (ot_insert_within _ _ _ _ _ (ew_obligations _ Hwf) Hi H5).
    split; [exact H1|exact H2|exact H3|exact H4|simpl; assumption|exact H6|exact H7].
Qed.

Lemma report_refines report now e :
  engine_wf e → refines (brings_back (OpReport report) e) e (report_obligation report now e).2.
Proof.
  intros Hwf. unfold report_obligation, brings_back.
  destruct (ot_find _ _) as [ob|] eqn:Hf; cbn [snd]; [|strip_log; by apply refines_refl].
  destruct (report_generation_check _ _); cbn [snd]; [|strip_log; by apply refines_refl].
  destruct (apply_state _ _ _ _ _) as [st ob1] eqn:Ha. pose proof (apply_state_binding _ _ _ _ _ _ _ Ha) as Hb.
  assert (∀ ob2, same_binding ob ob2 → blocks_completion ob2 = blocks_completion ob1 →
    refines (bool_decide (op_next report = ObligationState.Admitted_)
             && bool_decide (ob_state ob = ObligationState.Retired)) e
      (e <| en_obligations := ot_store (op_obligation report) ob2 (en_obligations e) |>)) as Hst.
  { intros ob2 Hb2 Hl2.
    destruct (bool_decide (op_next report = ObligationState.Admitted_)
              && bool_decide (ob_state ob = ObligationState.Retired)) eqn:Hback.
    2: { apply (sim_refines 0). eapply sim_obligation; try done. rewrite Hl2. eapply apply_state_live; [exact Ha|].
         intros Hn. by apply andb_false_iff in Hback as [?%bool_decide_eq_false|?%bool_decide_eq_false]. }
    apply andb_true_iff in Hback as [_ Hret%bool_decide_eq_true]. split.
    - by eapply store_obligation_wf.
    - done.
    - assert (blocks_completion ob = false) as Hdead.
      { apply not_true_is_false. rewrite blocks_completion_spec. by intros [_ ?]. }
      exists [if blocks_completion ob2 then AReappear (op_obligation report) else AReport (op_obligation report)].
      split; [|done]. apply arun_one. destruct (blocks_completion ob2) eqn:E2.
      + eapply as_reappear; [simpl; rewrite Hf; simpl; unfold obligation_view; by rewrite Hdead|].
        rewrite view_store, E2. by rewrite (sb_deps _ _ Hb2), (sb_generation _ _ Hb2).
      + eapply (as_report _ _ _ _ _ false false); [simpl; rewrite Hf; simpl; unfold obligation_view; by rewrite Hdead|done|].
        rewrite view_store, E2. by rewrite (sb_deps _ _ Hb2), (sb_generation _ _ Hb2).
    - intros L _ H d. by specialize (H d).
    - intros [H1 H2 H3 H4 H5 H6 H7]. pose proof (ot_store_within _ _ ob ob2 _ (ew_obligations _ Hwf) Hf H5).
      split; [exact H1|exact H2|exact H3|exact H4|simpl; assumption|exact H6|exact H7]. }
  destruct st; cbn [snd]; strip_log; apply Hst; try done.
  - destruct Hb as [? ? ? Hw]. repeat case_match; split; try done; auto.
  - repeat case_match; done.
Qed.

(** *** Drains *)

Lemma with_drain_refines {A} id authority now e (k : DrainRecord → result A * engine) :
  engine_wf e → (∀ r, en_drains e !! id = Some r → stored r e → refines false e (k r).2) →
  refines false e (with_drain id authority now e k).2.
Proof.
  intros Hwf Hk. unfold with_drain. destruct (require_authority _ _ _); [|by apply refines_refl].
  destruct (en_drains e !! id) as [r|] eqn:Hl; [|by apply refines_refl].
  apply Hk; [done|]. destruct (ew_record _ Hwf _ _ Hl) as (E & _). unfold stored. by rewrite E.
Qed.

Lemma stored_unrestored r e :
  engine_wf e → stored r e → dr_state r ≠ DrainState.Cancelled → dr_restored_at r = 0.
Proof.
  intros Hwf Hl Hs. destruct (ew_record _ Hwf _ _ Hl) as (_ & _ & _ & Hr & _).
  destruct (decide (dr_restored_at r = 0)); [done|]. by destruct Hs; auto.
Qed.

Lemma restoring_generation r e :
  engine_wf e → stored r e → effective_state r = DrainState.Restoring → dr_restore_generation r ≠ 0.
Proof. intros Hwf Hl. by destruct (ew_record _ Hwf _ _ Hl) as (_ & _ & _ & _ & _ & ?). Qed.

Lemma cancel_refines id authority reason now e :
  engine_wf e → refines false e (cancel_drain id authority reason now e).2.
Proof.
  intros Hwf. unfold cancel_drain. apply with_drain_refines; [done|]. intros r _ Hl.
  assert (dr_state r ≠ DrainState.Drained → dr_state r ≠ DrainState.Cancelled →
    ∀ detail oc ins ev rej, simulates 0 e (apply_transition r DrainState.Cancelled now detail oc ins ev rej e).2) as Hc.
  { intros Hd Hnc detail oc ins ev rej. pose proof (restoring_generation r e Hwf Hl) as Hre.
    apply sim_transition; try done. rewrite (stored_unrestored r e) by done. unfold phase_of, effective_state.
    rewrite (stored_unrestored r e) by done. simpl.
    destruct (ew_record _ Hwf _ _ Hl) as (_ & _ & (_ & _ & _ & Hb) & _).
    assert (dr_state r = DrainState.Restoring ∨ (dr_state r = DrainState.Blocked ∧
      dr_blocked_from r = Some DrainState.Restoring) → (dr_restore_generation r =? 0) = false) as Hnz.
    { intros Hor. apply Z.eqb_neq, Hre. unfold effective_state. by destruct Hor as [->|[-> ->]]. }
    destruct (dr_state r); try (by destruct (_ =? _)); [|by rewrite Hnz by auto].
    destruct (dr_blocked_from r) as [s|]; [|by destruct (_ =? _)]. simpl.
    destruct (Hb s eq_refl) as [_ Hleg]. destruct s; try (by destruct (_ =? _)). by rewrite Hnz by auto. }
  destruct (dr_state r) eqn:E; try (by apply refines_refl);
    (specialize (Hc ltac:(done) ltac:(done) (truncate reason) DecisionOutcome.Applied
       ["reason=" ++s truncate reason] [] ["complete-the-drain"]);
     destruct (apply_transition _ _ _ _ _ _ _ _ _) as [[] e']; by eapply sim_refines).
Qed.

Lemma resume_refines id authority now e :
  engine_wf e → refines false e (resume_drain id authority now e).2.
Proof.
  intros Hwf. unfold resume_drain. apply with_drain_refines; [done|]. intros r _ Hl.
  case_bool_decide as Hb; simpl; [|by apply refines_refl].
  destruct (evaluate_state _ _ _ _); [|by eapply sim_refines, sim_enter_blocked].
  set (resume := default DrainState.Validating (dr_blocked_from r)).
  destruct (ew_record _ Hwf _ _ Hl) as (_ & _ & (_ & _ & _ & Hs) & _).
  assert (simulates 0 e (apply_transition r resume now "operator resume" DecisionOutcome.Applied
    ["operator=" ++s decimal authority] [] [] e).2) as Hsim.
  { apply sim_transition; [done|done| |by rewrite Hb|by unfold effective_state; rewrite Hb|].
    - subst resume. destruct (dr_blocked_from r) as [s|]; [|done]. by destruct (Hs s eq_refl).
    - unfold phase_of, effective_state. rewrite Hb. apply phase_move_refl. }
  destruct (apply_transition _ _ _ _ _ _ _ _ _) as [[] e']; by eapply sim_refines.
Qed.

Lemma grant_refines id obligation extension authority now e :
  engine_wf e → refines false e (grant_exception id obligation extension authority now e).2.
Proof.
  intros Hwf. unfold grant_exception. destruct (require_authority _ _ _); [|by apply refines_refl].
  destruct (_ <=? _); [by apply refines_refl|].
  destruct (en_drains e !! id) as [r|] eqn:Hl; [|by apply refines_refl].
  destruct (is_settled _); [by apply refines_refl|]. destruct (_ && _); [by apply refines_refl|].
  set (grants := default [] (en_exceptions e !! id)).
  assert (Forall (λ g, eg_drain g = id) grants) as Hg.
  { subst grants. destruct (en_exceptions e !! id) eqn:E; [by apply (proj2 (ew_exceptions _ Hwf))|constructor]. }
  assert (∀ gs y, Forall (λ g, eg_drain g = id) gs →
    (tables_bounded e → zlength gs ≤ kHardMaxExceptionExtensions) →
    simulates 0 e (e <| en_exceptions := <[id := gs]> (<[id := grants]> (en_exceptions e)) |>
                     <| en_exception_high_water := y |>)) as Hx.
  { intros gs y Hgs Hz. rewrite om_insert_insert. apply sim_frame; try done.
    - pose proof (ew_exceptions _ Hwf) as [Hw Hf].
      destruct Hwf. split; try done. split; [by apply om_wf_insert|]. intros id' gs' Hl'. simpl in Hl'.
      om_cases Hl'; [done|by eapply Hf].
    - intros Hb. specialize (Hz Hb). destruct Hb as [H1 H2 H3 H4 H5 H6 Ht].
      split; [exact H1|exact H2|exact H3|exact H4|exact H5|exact H6|]. intros id' gs' Hl'. simpl in Hl'. om_cases Hl'; [done|by eapply Ht]. }
  assert (tables_bounded e → zlength grants ≤ kHardMaxExceptionExtensions) as Hz.
  { intros Hb. subst grants. destruct (en_exceptions e !! id) eqn:E; [by eapply (tb_exceptions _ Hb)|by vm_compute]. }
  assert (simulates 0 e (e <| en_exceptions := <[id := grants]> (en_exceptions e) |>)) as Hx0.
  { pose proof (Hx grants (en_exception_high_water e) Hg Hz) as Hs. by rewrite om_insert_insert in Hs. }
  destruct (Z.leb_spec (p_max_exception_extensions (en_policy (e <| en_exceptions := <[id := grants]> (en_exceptions e) |>)))
    (zlength grants)) as [|Hmore]; [by eapply sim_refines|]. simpl in Hmore.
  destruct (increment_checked _ _) as [n|]; [|by eapply sim_refines].
  assert (∀ g : ExceptionGrant, tables_bounded e → zlength (grants ++ [g]) ≤ kHardMaxExceptionExtensions) as Hz'.
  { intros g Hb. destruct (policy_validate_caps _ (tb_policy _ Hb)) as (_ & _ & ?). rewrite zlength_app.
    change (zlength [g]) with 1. lia. }
  assert (Forall (λ g, eg_drain g = id) (grants ++ [MkExceptionGrant id obligation extension authority now n])) as Hg'.
  { apply Forall_app. split; [done|]. by repeat constructor. }
  cbn [snd]. strip_log. eapply sim_refines, (sim_trans 0 0); [by eapply (Hx _ n); [|apply Hz']|].
  destruct (ew_record _ Hwf _ _ Hl) as (Hid & _).
  apply (sim_put r (reset_evacuation_attempts r)); [by apply (Hx _ n); [|apply Hz']|unfold stored; by rewrite Hid|by split|].
  change (phase_of (reset_evacuation_attempts r)) with (phase_of r). apply phase_move_refl.
Qed.

Lemma advance_pass_refines now e :
  engine_wf e → headroom e → refines false e (advance_pass now e).1.
Proof.
  intros Hwf [Hg _]. eapply sim_refines, sim_advance_pass; [done|]. intros t. specialize (Hg t). lia.
Qed.

Lemma finish_dispatch_refines b q e e' actions failures :
  refines_to b q e e' → refines_to b q e (finish_dispatch actions failures e').
Proof. intros He. unfold finish_dispatch. by strip_log. Qed.

Lemma advance_refines sink now e :
  engine_wf e → headroom e → refines false e (advance sink now e).2.
Proof.
  intros Hwf Hh. pose proof (advance_pass_refines now e Hwf Hh) as Hs. unfold advance.
  destruct (advance_pass now e) as [e1 actions]. destruct (match sink with Some s => _ | None => _ end) as [overall failures].
  by apply finish_dispatch_refines.
Qed.

(** *** Requests *)

Lemma refines_trans b e1 e2 e3 :
  refines b e1 e2 → refines b e2 e3 → refines b e1 e3.
Proof.
  intros [A1 Hp (tr & A2 & A3) A4 A5] [B1 Hp' (tr' & B2 & B3) B4 B5]. split; [done|congruence| | |by auto].
  - exists (tr ++ tr'). split; [by eapply arun_app|]. intros Hb. by rewrite existsb_app, A3, B3.
  - intros L HL Hd. apply B4; [by rewrite Hp|by apply A4].
Qed.

(** The record a request creates for one target. *)
Definition member_record (request : DrainRequest) (set_id : DrainSetId) (reason : string) (now : TimePoint)
    (id : DrainId) (target : DrainTarget) : DrainRecord :=
  new_drain_record id target 0 (dq_authority request) now
    <| dr_set := set_id |> <| dr_node := dq_node request |> <| dr_reason := reason |>.

Definition add_drain (r : DrainRecord) (e : engine) : engine :=
  e <| en_drain_high_water := dr_id r |> <| en_drains := <[dr_id r := r]> (en_drains e) |>.

Lemma high_water_fresh e id : engine_wf e → en_drain_high_water e < id → en_drains e !! id = None.
Proof.
  intros Hwf Hlt. destruct (en_drains e !! id) as [r|] eqn:Hl; [|done].
  apply (ew_record _ Hwf) in Hl as (_ & ? & _). lia.
Qed.

Lemma create_members_cons request set now target targets e next :
  engine_wf e → increment_checked u64 (en_drain_high_water e) = Some next →
  create_members request set now (target :: targets) e =
  create_members request (set <| ds_members := ds_members set ++ [next] |>) now targets
    (add_drain (member_record request (ds_id set) (ds_reason set) now next target) e).
Proof.
  intros Hwf Hn. cbn [create_members]. rewrite Hn. f_equal.
  apply increment_checked_Some in Hn as [-> _]; [|apply it_wf_u64|apply Hwf].
  unfold add_drain; simpl. unfold emplace. rewrite high_water_fresh by (done || lia). done.
Qed.

(** A drain no target owner forbids may be added. *)
Lemma add_drain_refines request set_id reason now target e next :
  engine_wf e → increment_checked u64 (en_drain_high_water e) = Some next →
  om_size (en_drains e) < kMaxDrains →
  (∀ id r, en_drains e !! id = Some r → dr_target r = target → phase_of r = Released) →
  refines false e (add_drain (member_record request set_id reason now next target) e).
Proof.
  intros Hwf Hn Hroom Hfree. apply increment_checked_Some in Hn as [-> Hr]; [|apply it_wf_u64|apply Hwf].
  pose proof (ew_high _ Hwf) as [Hh0 _]. change (int_min u64) with 0 in Hh0.
  set (r := member_record _ _ _ _ _ _).
  assert (en_drains e !! dr_id r = None) as Hf by (apply high_water_fresh; simpl; done || lia).
  split.
  - pose proof (ew_record _ Hwf) as Hrec. destruct Hwf. split; simpl; try done.
    + by apply om_wf_insert.
    + rewrite om_size_insert_None by done. lia.
    + intros id r' Hl. om_cases Hl.
      * split_and!; simpl; [done|lia|lia|]. split; [|done]. apply (new_drain_record_wf 1 target 0 0 now).
      * destruct (Hrec _ _ Hl) as (? & ? & ?). split_and!; try done; lia.
  - done.
  - exists [ARequest (dr_id r)]. split; [|done]. apply arun_one.
    eapply (as_request _ _ _ target); [cbn [view_of v_drain]; by rewrite Hf| |].
    + intros id p g. simpl. rewrite fmap_Some. intros (r' & Hl & [= -> -> _]). symmetry.
      eapply eq_sym, Hfree; [exact Hl|done].
    + split_and!; try done. intros id. simpl. unfold at_key. case_decide as D.
      * subst id. by rewrite om_lookup_insert_eq.
      * by rewrite om_lookup_insert_ne by congruence.
  - intros L _ Hd d. specialize (Hd d). rewrite active_all in Hd by done.
    rewrite (om_count_split (dr_id r)), Hf in Hd by apply Hwf.
    rewrite active_count. simpl.
    assert (om_count (except 0 (holder_in d)) (<[dr_id r := r]> (en_drains e)) ≤
            om_count (holder_in d) (<[dr_id r := r]> (en_drains e))) as Hle.
    { rewrite (om_count_split 0 (holder_in d) (<[_ := _]> _)) by apply om_wf_insert, Hwf.
      case_match; [destruct (holder_in _ _)|]; simpl; lia. }
    rewrite (om_count_split (dr_id r) (holder_in d) (<[_ := _]> _)) in Hle by apply om_wf_insert, Hwf.
    rewrite om_count_except_insert, om_lookup_insert_eq in Hle by apply Hwf.
    unfold holder_in at 3 in Hle. simpl in Hle. rewrite andb_false_r in Hle. simpl in *. lia.
  - same_tables.
Qed.

Lemma create_members_refines request now targets set e res e' :
  engine_wf e → NoDup targets → om_size (en_drains e) + zlength targets ≤ kMaxDrains →
  (∀ id r, en_drains e !! id = Some r → dr_target r ∈ targets → phase_of r = Released) →
  create_members request set now targets e = (res, e') →
  refines false e e' ∧ en_policy e' = en_policy e ∧ en_sets e' = en_sets e ∧
  en_nonce_sets e' = en_nonce_sets e ∧ en_set_high_water e' = en_set_high_water e.
Proof.
  revert set e. induction targets as [|t targets IH]; intros set e Hwf Hnd Hroom Hfree.
  { intros [= <- <-]. split; [by apply refines_refl|done]. }
  apply NoDup_cons in Hnd as [Hnt Hnd]. rewrite zlength_cons in Hroom. pose proof (zlength_nonneg targets).
  destruct (increment_checked u64 (en_drain_high_water e)) as [next|] eqn:Hn.
  2: { cbn [create_members]. rewrite Hn. intros [= <- <-]. split; [by apply refines_refl|done]. }
  rewrite (create_members_cons _ _ _ _ _ _ _ Hwf Hn). set (e1 := add_drain _ e).
  assert (refines false e e1) as Hs.
  { apply add_drain_refines; [done|done|lia|]. intros id r Hl <-. eapply Hfree; [done|by left]. }
  assert (next = en_drain_high_water e + 1) as ->
    by (apply increment_checked_Some in Hn as [-> _]; [done|apply it_wf_u64|apply Hwf]).
  assert (en_drains e !! (en_drain_high_water e + 1) = None) as Hf by (apply high_water_fresh; done || lia).
  intros Hc. apply IH in Hc as (Hs' & Hp & E1 & E2 & E3); [|apply Hs|done| |].
  - split; [|done]. by eapply refines_trans.
  - simpl. rewrite om_size_insert_None by done. lia.
  - intros id r Hl Hin. simpl in Hl. om_cases Hl; [done|]. eapply Hfree; [done|by right].
Qed.

Lemma first_owned_None e targets :
  engine_wf e →
  first_owned e targets = None ↔
  ∀ id r, en_drains e !! id = Some r → dr_target r ∈ targets → reusable r = true.
Proof.
  intros Hwf. induction targets as [|t targets IH]; simpl; [split; [by intros _ id r _ ?%not_elem_of_nil|done]|].
  destruct (List.find _ _) as [[id r]|] eqn:Hf.
  - split; [done|]. intros H. apply find_some in Hf as [Hin Hb].
    apply andb_true_iff in Hb as [Ht%bool_decide_eq_true Hr]. simpl in *.
    rewrite (H id r) in Hr; [done| |rewrite Ht; left].
    apply om_elem_lookup; [apply Hwf|]. by apply list_elem_of_In.
  - rewrite IH. split; intros H id r Hl Hin.
    + apply elem_of_cons in Hin as [Ht|?]; [|by eapply H].
      pose proof (find_none _ _ Hf (id, r)) as Hn. simpl in Hn.
      rewrite bool_decide_true in Hn by done. destruct (reusable r); [done|]. simpl in Hn.
      rewrite Hn; [done|]. apply list_elem_of_In. by apply om_lookup_elem.
    + eapply H; [done|by right].
Qed.

Lemma fold_log {A} (f : engine → A → engine) (l : list A) e :
  (∀ e a, f e a ≡ e) → foldl f e l ≡ e.
Proof. intros Hf. revert e. induction l as [|a l IH]; intros e; simpl; [done|]. by rewrite IH, Hf. Qed.

Lemma create_members_set request now targets set e set' e' :
  create_members request set now targets e = (Ok set', e') → ds_id set' = ds_id set.
Proof.
  revert set e. induction targets as [|t targets IH]; intros set e; simpl; [by intros [= <- _]|].
  destruct (increment_checked _ _); [|done]. intros H. by apply IH in H.
Qed.

Lemma correlated_check_log targets now e st e' : correlated_check targets now e = (st, e') → e' ≡ e.
Proof.
  unfold correlated_check. destruct (_ && _); [by intros [= _ <-]|].
  destruct (List.find _ _) as [[]|]; by intros [= _ <-].
Qed.

Lemma create_set_refines request targets now e :
  engine_wf e → om_size (en_sets e) < kMaxDrainSets → NoDup targets → om_size (en_drains e) + zlength targets ≤ kMaxDrains →
  (∀ id r, en_drains e !! id = Some r → dr_target r ∈ targets → phase_of r = Released) →
  refines false e (create_set request targets now e).2.
Proof.
  intros Hwf Hsets Hnd Hroom Hfree. unfold create_set.
  destruct (increment_checked u64 (en_set_high_water e)) as [ns|] eqn:Hn; [|by apply refines_refl].
  apply increment_checked_Some in Hn as [-> Hr]; [|apply it_wf_u64|apply Hwf].
  set (e0 := e <| en_set_high_water := _ |>). set (set0 := MkDrainSet _ _ _ _ _ _ _ _).
  assert (refines false e e0) as Hs0.
  { apply (sim_refines 0), sim_frame; try done; [|same_tables]. pose proof (ew_set _ Hwf) as Hset. destruct Hwf.
    split; try done. simpl. intros id s Hl. destruct (Hset _ _ Hl). split; [done|lia]. }
  destruct (create_members _ _ _ _ _) as [res e1] eqn:Hc.
  pose proof (create_members_set request now targets set0 e0) as Hid.
  apply create_members_refines in Hc as Hs1; [|apply Hs0|done..]. destruct Hs1 as (Hs1 & Hp & E1 & E2 & E3).
  assert (refines false e e1) as Hs2 by by eapply refines_trans.
  destruct res as [set1|]; [|done]. cbn [snd]. apply Hid in Hc. clear Hid. simpl in Hc.
  eapply refines_log; [apply fold_log; intros; apply record_decision_log|]. strip_log.
  assert (en_sets e1 !! ds_id set1 = None) as Hfresh.
  { rewrite E1, Hc. simpl. destruct (en_sets e !! _) as [s|] eqn:Hl; [|done].
    apply (ew_set _ Hwf) in Hl as [_ ?]. lia. }
  assert (∀ e2, en_sets e2 = <[ds_id set1 := set1]> (en_sets e1) → engine_wf e1 →
     (∀ n id, en_nonce_sets e2 !! n = Some id → is_Some (en_sets e2 !! id)) →
     en_policy e2 = en_policy e1 → en_drains e2 = en_drains e1 → en_fence e2 = en_fence e1 →
     en_obligations e2 = en_obligations e1 → en_evidence e2 = en_evidence e1 →
     en_authority e2 = en_authority e1 → en_topology e2 = en_topology e1 →
     en_drain_high_water e2 = en_drain_high_water e1 → en_set_high_water e2 = en_set_high_water e1 →
     en_exceptions e2 = en_exceptions e1 →
     om_wf (en_nonce_sets e2) ∧ (∀ n id, en_nonce_sets e2 !! n = Some id → n ≠ 0) →
     om_size (en_nonce_sets e2) ≤ om_size (en_nonce_sets e1) + 1 →
     refines false e1 e2) as Hset.
  { intros e2 F1 Hwf1 Fn F2 F3 F4 F5 F6 F7 F8 F9 F10 F11 F12 F13. pose proof (ew_set _ Hwf1) as Hold.
    pose proof (ew_set_high _ Hwf) as [Hsh _]. change (int_min u64) with 0 in Hsh. destruct Hwf1.
    apply (sim_refines 0), sim_frame; try done.
    2: { intros [H1 H2 H3 H4 H5 H6 H7]. split; rewrite ?F1, ?F2, ?F5, ?F6, ?F7, ?F11, ?om_size_insert_None by exact Hfresh;
           [exact H1| |lia|exact H4|exact H5|exact H6|exact H7]. rewrite E1. simpl. lia. }
    split; rewrite ?F1, ?F3, ?F4, ?F5, ?F6, ?F7, ?F8, ?F9, ?F10, ?F11; try done.
    - by apply om_wf_insert.
    - intros id s Hl. om_cases Hl; [|by apply Hold]. rewrite Hc, E3. simpl. split; [done|lia].
    - rewrite <-F1. done. }
  assert ((emplace (ds_id set1) set1 (en_sets e1)).1 = <[ds_id set1 := set1]> (en_sets e1)) as Eem
    by (unfold emplace; by rewrite Hfresh).
  assert (∀ n id, en_nonce_sets e1 !! n = Some id → is_Some (<[ds_id set1 := set1]> (en_sets e1) !! id)) as Hnon.
  { intros n id Hl. destruct (decide (ds_id set1 = id)) as [<-|]; [rewrite om_lookup_insert_eq; eauto|].
    rewrite om_lookup_insert_ne by done. by eapply (ew_nonce _ (rf_wf _ _ _ _ Hs1)). }
  eapply refines_trans; [exact Hs2|].
  pose proof (ew_nonces _ (rf_wf _ _ _ _ Hs1)) as [Hnw Hnz].
  destruct (Z.eqb_spec (dq_nonce request) 0) as [|Hnonce]; cbn [negb]; (apply Hset; simpl; try done; [apply Hs1|..]).
  - intros n id Hl. rewrite Eem. by eapply Hnon.
  - lia.
  - intros n id Hl. rewrite Eem. unfold emplace in Hl. destruct (en_nonce_sets e1 !! _); simpl in Hl; [by eapply Hnon|].
    om_cases Hl; [rewrite om_lookup_insert_eq; eauto|by eapply Hnon].
  - unfold emplace. destruct (en_nonce_sets e1 !! _); [done|]. split; [by apply om_wf_insert|].
    intros n id Hl. simpl in Hl. om_cases Hl; [done|by eapply Hnz].
  - unfold emplace. destruct (en_nonce_sets e1 !! _) eqn:En; [simpl; lia|]. simpl. rewrite om_size_insert_None by done. lia.
Qed.

Lemma request_set_refines request now e :
  engine_wf e → refines false e (request_drain_set request now e).2.
Proof.
  intros Hwf. unfold request_drain_set.
  destruct (normalize_targets _ _) as [targets|] eqn:Hn; [|by apply refines_refl].
  apply normalize_targets_spec in Hn as (Hs & _ & _ & _).
  destruct (require_authority _ _ _); [|strip_log; by apply refines_refl].
  destruct (_ <? zlength targets); [by apply refines_refl|].
  destruct (_ || _) eqn:Hroom; [by apply refines_refl|].
  apply orb_false_iff in Hroom as [Hsets%Z.leb_gt Hroom%Z.ltb_ge].
  destruct (if dq_nonce request =? 0 then None else _) as [existing|].
  { destruct (en_sets e !! existing); [case_bool_decide|]; by apply refines_refl. }
  destruct (first_owned e targets) as [[[??]?]|] eqn:Hf; [by apply refines_refl|].
  destruct (correlated_check _ _ _) as [[u|err] e1] eqn:Hc; apply correlated_check_log in Hc as He;
    [|eapply refines_log; [exact He|by apply refines_refl]].
  assert (refines false e e1) as Hs1 by (eapply refines_log; [exact He|by apply refines_refl]).
  eapply refines_trans; [exact Hs1|]. apply create_set_refines; [apply Hs1|by rewrite He| | |].
  - by apply (@strictly_sorted_NoDup _ order_less_ord order_less_strict).
  - rewrite He. done.
  - intros id r Hl Hin. rewrite He in Hl. pose proof (proj1 (first_owned_None e targets Hwf) Hf id r Hl Hin) as Hr.
    apply reusable_phase; [|done]. by destruct (ew_record _ Hwf _ _ Hl) as (_ & _ & ? & _).
Qed.

Lemma request_refines request now e : engine_wf e → refines false e (request_drain request now e).2.
Proof.
  intros Hwf. unfold request_drain. pose proof (request_set_refines request now e Hwf) as Hs.
  destruct (request_drain_set request now e) as [[id|] e1]; [|done].
  destruct (en_sets e1 !! id) as [set|]; [|done]. by destruct (ds_members set) as [|? []].
Qed.

(** *** Restoration *)

Lemma fence_reopen_closed t entry drain now reason f :
  f !! t = Some entry → fe_closed entry = true → drain ≠ 0 →
  in_range u64 (fe_generation entry) → fe_generation entry < int_max u64 →
  ∃ entry', fence_reopen t drain now reason f = (Ok (fe_generation entry + 1), <[t := entry']> f) ∧
    fe_closed entry' = false ∧ fe_generation entry' = fe_generation entry + 1.
Proof.
  intros Hf Hc Hd Hr Hm. unfold fence_reopen. rewrite Hf, Hc. simpl.
  rewrite (proj2 (Z.eqb_neq _ _) Hd).
  rewrite increment_checked_exact by (apply it_wf_u64 || done). rewrite decide_True by (destruct Hr; lia).
  eexists. done.
Qed.

(** What [reopen_generation] yields on success: the fence is open under a
    generation newer than the one the drain closed, and it was open before or
    held by this drain. *)
Record reopened (r : DrainRecord) (f f' : AdmissionFence) (g : Generation) : Prop := {
  ro_wf : fence_wf f';
  ro_holder : (fence_view f (dr_target r)).2 = None ∨ (fence_view f (dr_target r)).2 = Some (dr_id r);
  ro_newer : dr_generation r < g;
  ro_ge : fence_generation (dr_target r) f ≤ g;
  ro_gt : (fence_view f (dr_target r)).2 = Some (dr_id r) → fence_generation (dr_target r) f < g;
  ro_view : ∀ t, fence_view f' t = if decide (t = dr_target r) then (g, None) else fence_view f t;
}.

Lemma eta_fence e : e <| en_fence := en_fence e |> = e.
Proof. by destruct e. Qed.

Lemma reopen_held r reason now e entry :
  engine_wf e → stored r e → dr_generation r ≤ fence_generation (dr_target r) (en_fence e) →
  fence_generation (dr_target r) (en_fence e) < int_max u64 →
  fence_entry (dr_target r) (en_fence e) = Some entry → fe_closed entry = true → fe_drain entry = dr_id r →
  ∃ f, fence_reopen (dr_target r) (dr_id r) now reason (en_fence e)
         = (Ok (fence_generation (dr_target r) (en_fence e) + 1), f) ∧
       reopened r (en_fence e) f (fence_generation (dr_target r) (en_fence e) + 1).
Proof.
  intros Hwf Hl Hle Hmax He Hc Hd. destruct (ew_record _ Hwf _ _ Hl) as (_ & Hid & _).
  pose proof (ew_fence _ Hwf) as Hfw. destruct (proj2 (proj2 Hfw) _ _ He) as (Hr & _ & _).
  assert (fence_generation (dr_target r) (en_fence e) = fe_generation entry) as Eg.
  { unfold fence_generation. unfold fence_entry in He. by rewrite He. }
  rewrite Eg in *.
  destruct (fence_reopen_closed _ _ (dr_id r) now reason _ He Hc ltac:(lia) Hr Hmax) as (entry' & E & Ec & Eg').
  eexists. split; [exact E|]. split.
  - by eapply fence_reopen_wf.
  - right. unfold fence_view; simpl. by rewrite He, Hc, Hd.
  - lia.
  - lia.
  - lia.
  - intros t. rewrite fence_view_insert. case_decide; [|done]. by rewrite Ec, Eg'.
Qed.

Lemma close_reopen r reason now e f1 g1 :
  engine_wf e → stored r e → dr_generation r ≤ fence_generation (dr_target r) (en_fence e) →
  fence_generation (dr_target r) (en_fence e) + 2 ≤ int_max u64 →
  fence_is_closed (dr_target r) (en_fence e) = false →
  fence_close (dr_target r) (dr_id r) now "restoration generation advance" (en_fence e) = (Ok g1, f1) →
  ∃ f, fence_reopen (dr_target r) (dr_id r) now reason f1
         = (Ok (fence_generation (dr_target r) (en_fence e) + 2), f) ∧
       reopened r (en_fence e) f (fence_generation (dr_target r) (en_fence e) + 2).
Proof.
  intros Hwf Hl Hle Hmax Hopen Hcl. destruct (ew_record _ Hwf _ _ Hl) as (_ & Hid & _).
  assert (fence_generation (dr_target r) (en_fence e) ≠ int_max u64) as Hne by lia.
  pose proof (fence_close_wf _ _ _ _ _ _ _ (ew_fence _ Hwf) Hne Hcl) as Hwf1.
  apply fence_close_cases in Hcl as [[? _]|(entry & _ & _ & -> & Hc & Hg & Hd & Hr & _)];
    [done| |apply Hwf|done].
  assert (<[dr_target r := entry]> (en_fence e) !! dr_target r = Some entry) as Hlk by apply om_lookup_insert_eq.
  destruct (fence_reopen_closed _ _ (dr_id r) now reason _ Hlk Hc ltac:(lia)
              ltac:(by rewrite Hg) ltac:(rewrite Hg; lia)) as (entry' & E & Ec & Eg').
  assert (fe_generation entry + 1 = fence_generation (dr_target r) (en_fence e) + 2) as E2 by (rewrite Hg; lia).
  assert (fence_view (en_fence e) (dr_target r) = (fence_generation (dr_target r) (en_fence e), None)) as Hv
    by by apply fence_view_open.
  rewrite E2 in *. eexists. split; [exact E|]. split; try lia; rewrite ?Hv.
  - by eapply fence_reopen_wf.
  - by left.
  - intros t. rewrite !fence_view_insert. case_decide; [|done]. by rewrite Ec, Eg'.
Qed.

Lemma reopen_generation_spec r reason now e res e' :
  engine_wf e → stored r e → dr_generation r ≤ fence_generation (dr_target r) (en_fence e) →
  fence_generation (dr_target r) (en_fence e) + 2 ≤ int_max u64 →
  reopen_generation r reason now e = (res, e') →
  (is_ok res = false ∧ e' = e) ∨
  ∃ g f, res = Ok g ∧ e' = e <| en_fence := f |> ∧ reopened r (en_fence e) f g.
Proof.
  intros Hwf Hl Hle Hmax. unfold reopen_generation. destruct (fence_is_closed _ _) eqn:Hc.
  - assert (∃ entry, fence_entry (dr_target r) (en_fence e) = Some entry ∧ fe_closed entry = true) as (entry & He & Hcl).
    { unfold fence_is_closed in Hc. unfold fence_entry. destruct (en_fence e !! dr_target r); [eauto|done]. }
    rewrite He. destruct (Z.eqb_spec (fe_drain entry) (dr_id r)) as [Hd|]; simpl; [|intros [= <- <-]; by left].
    destruct (reopen_held r (truncate reason) now e entry) as (f & E & Hro); try done; [lia|].
    rewrite E. intros [= <- <-]. right. eauto 6.
  - destruct (Z.leb_spec (fence_generation (dr_target r) (en_fence e)) (dr_generation r)) as [Hg|Hg].
    + destruct (fence_close _ _ _ _ _) as [[g1|err] f1] eqn:Hcl.
      * destruct (close_reopen r (truncate reason) now e f1 g1) as (f & E & Hro); try done.
        rewrite E. intros [= <- <-]. right. eauto 6.
      * apply fence_close_cases in Hcl as [[_ ->]|(? & ? & _)]; [|done|apply Hwf|lia].
        intros [= <- <-]. left. split; [done|]. apply eta_fence.
    + intros [= <- <-]. right. eexists _, (en_fence e). split; [done|]. split; [by rewrite eta_fence|].
      assert (fence_view (en_fence e) (dr_target r) = (fence_generation (dr_target r) (en_fence e), None)) as Hv
        by by apply fence_view_open.
      split; try lia; rewrite ?Hv; try done; [apply Hwf|by left|].
      intros t. case_decide; [by subst|done].
Qed.

Lemma sim_reopen r r' e f g :
  engine_wf e → stored r e → phase_of r = Done ∨ phase_of r = Gone ∨ phase_of r = Abandoned → reopened r (en_fence e) f g →
  kept r r' → phase_of r' = Leaving → refines false e (put_drain r' (e <| en_fence := f |>)).
Proof.
  intros Hwf Hl Hp [H1 H2 H3 H4 H5 H6] Hk Hp'. destruct (ew_record _ Hwf _ _ Hl) as (_ & _ & Hr).
  assert (engine_wf (e <| en_fence := f |>)) as Hwf1 by by destruct Hwf.
  assert (en_drains (e <| en_fence := f |>) !! dr_id r' = Some r) as Hl1 by by rewrite (kp_id _ _ Hk).
  assert (record_ok r') as Hr' by by apply Hk. split.
  - by eapply put_drain_wf.
  - done.
  - exists [AReopen (dr_id r)]. split; [|done]. apply arun_one.
    eapply (as_reopen _ _ _ (dr_target r) (phase_of r) (dr_generation r)
              (fence_generation (dr_target r) (en_fence e)) _ g);
      [simpl; by rewrite Hl|done|reflexivity|exact H2|done|done|exact H5|].
    rewrite view_put, (kp_id _ _ Hk), (kp_target _ _ Hk), (kp_generation _ _ Hk), Hp'.
    f_equiv. by split_and!.
  - intros L HL Hd d. erewrite active_put by done. etrans; [|exact (Hd d)].
    erewrite (active_self r) by done. rewrite (kp_id _ _ Hk).
    change (active_drains_in_domain d (dr_id r) (e <| en_fence := f |>))
      with (active_drains_in_domain d (dr_id r) e).
    unfold holder_in at 1; simpl. assert (holds_fence r' = false) as ->.
    { destruct (holds_fence r') eqn:E; [|done]. apply holds_fence_phase in E. congruence. }
    rewrite andb_false_r. destruct (holder_in _ _); simpl; lia.
  - same_tables.
Qed.

(** The state from which [restore_drain] acts. *)
Lemma restorable_phase r e :
  engine_wf e → stored r e → is_settled (dr_state r) = true → reusable r = false →
  (phase_of r = Done ∨ phase_of r = Gone ∨ phase_of r = Abandoned) ∧ is_legal_drain_transition (dr_state r) DrainState.Restoring = true ∧
  DrainState.Restoring ≠ dr_state r ∧ (dr_state r ≠ DrainState.Cancelled ∨ dr_restored_at r = 0).
Proof.
  intros Hwf Hl Hs Hr. unfold phase_of, effective_state, reusable in *. destruct (dr_state r); try done; simpl in *.
  - by split_and!; auto.
  - destruct (Z.eqb_spec (dr_restored_at r) 0); [|done]. split_and!; auto. destruct (_ =? 0); auto.
  - split_and!; auto. destruct (_ =? 0); auto.
Qed.

(** The record stored once the fence has been reopened. *)
Lemma restamped_kept r m g :
  dr_id m = dr_id r → dr_target m = dr_target r → dr_generation m = dr_generation r → g ≠ 0 →
  (record_ok r → record_wf m ∧ (dr_restored_at m ≠ 0 → dr_state m = DrainState.Cancelled) ∧
     dr_remaining_protected m = 0) →
  kept r (m <| dr_restore_generation := g |>).
Proof. intros Ei Et Eg Hg Hok. destruct m. split; [done..|]. intros (H1 & H2 & H3)%Hok. by split_and!. Qed.

Lemma reopened_kept r now detail g :
  DrainState.Restoring ≠ dr_state r → is_legal_drain_transition (dr_state r) DrainState.Restoring = true →
  dr_revision r ≠ int_max u64 → dr_state r ≠ DrainState.Cancelled ∨ dr_restored_at r = 0 → g ≠ 0 →
  kept r (moved DrainState.Restoring now detail r <| dr_restore_generation := g |>).
Proof.
  intros Hne Hleg Hrev Hs Hg. apply restamped_kept; autorewrite with drain; try done.
  intros (Hw & Hst & Hrem & _). split_and!; [by apply moved_wf| |done].
  intros Hr. destruct Hs as [Hs|Hs]; [|done]. by destruct Hs; auto.
Qed.

Lemma sim_reopened r m e e2 f g :
  engine_wf e → stored r e → phase_of r = Done ∨ phase_of r = Gone ∨ phase_of r = Abandoned →
  reopened r (en_fence e) f g → kept r (m <| dr_restore_generation := g |>) → dr_state m = DrainState.Restoring →
  e2 ≡ put_drain m (e <| en_fence := f |>) →
  refines false e (put_drain (m <| dr_restore_generation := g |>) e2).
Proof.
  intros Hwf Hl Hp Hro Hk Em He.
  assert (put_drain (m <| dr_restore_generation := g |>) e2
          ≡ put_drain (m <| dr_restore_generation := g |>) (e <| en_fence := f |>)) as He2.
  { rewrite He, put_put; [reflexivity|]. reflexivity. }
  eapply refines_log; [exact He2|]. eapply (sim_reopen r); try done.
  unfold phase_of, effective_state. change (dr_state (m <| dr_restore_generation := g |>)) with (dr_state m).
  by rewrite Em.
Qed.

(** Everything [restore_drain] does after reopening. *)
Lemma restore_tail {A} r now detail oc ins ev rej e f g (fail : result A) (done_ : DrainRecord → engine → result A) :
  engine_wf e → stored r e → dr_revision r < int_max u64 → 0 ≤ dr_generation r →
  is_settled (dr_state r) = true → reusable r = false → reopened r (en_fence e) f g →
  refines false e
    (match apply_transition r DrainState.Restoring now detail oc ins ev rej (e <| en_fence := f |>) with
     | (false, e) => (fail, e)
     | (true, e) =>
         let record := default r (en_drains e !! dr_id r) in
         let record := record <| dr_restore_generation := g |> in
         let e := put_drain record e in
         (done_ record e, e)
     end).2.
Proof.
  intros Hwf Hl Hrev Hgn Hs Hru Hro. destruct (restorable_phase r e Hwf Hl Hs Hru) as (Hp & Hleg & Hne & Hcr).
  destruct (apply_transition _ _ _ _ _ _ _ _ _) as [b e2] eqn:Ha.
  apply apply_transition_spec in Ha as (r' & He & Hcase).
  destruct Hcase as [(_ & _ & _ & [?|?])|[(_ & _ & ?)|(-> & -> & _)]]; [congruence|lia|congruence|].
  assert (kept r (moved DrainState.Restoring now detail r <| dr_restore_generation := g |>)) as Hk.
  { pose proof (ro_newer _ _ _ _ Hro). apply reopened_kept; done || lia. }
  pose proof (dr_state_moved DrainState.Restoring now detail r) as Em.
  pose proof (dr_id_moved DrainState.Restoring now detail r) as Ei.
  set (m := moved _ _ _ r) in *. clearbody m.
  assert (en_drains e2 !! dr_id r = Some m) as Hm.
  { rewrite He, <-Ei. apply om_lookup_insert_eq. }
  rewrite Hm. cbn zeta. cbn [snd]. by eapply sim_reopened.
Qed.

Lemma restore_refines id authority reason now e :
  engine_wf e → protocol_inv (view_of e) → headroom e →
  refines false e (restore_drain id authority reason now e).2.
Proof.
  intros Hwf HI [Hg Hrev]. unfold restore_drain. apply with_drain_refines; [done|]. intros r Hlk Hl.
  case_bool_decide; [by apply refines_refl|]. destruct (is_settled _) eqn:Hs; [|by apply refines_refl]. cbn [negb].
  destruct (reusable r) eqn:Hru; [by apply refines_refl|].
  assert (0 ≤ dr_generation r ≤ fence_generation (dr_target r) (en_fence e)) as [Hgn Hle].
  { apply (pi_reached _ HI (dr_id r) (dr_target r) (phase_of r) (dr_generation r)). simpl. by rewrite Hl. }
  assert (fence_generation (dr_target r) (en_fence e) + 2 ≤ int_max u64) as Hmax.
  { specialize (Hg (dr_target r)). pose proof (om_size_nonneg (en_drains e)). lia. }
  destruct (reopen_generation r reason now e) as [res e1] eqn:Hro.
  apply reopen_generation_spec in Hro as [[? ->]|(g & f & -> & -> & Hro)]; [| |exact Hwf|exact Hl|exact Hle|exact Hmax].
  - destruct res; [done|]. by apply refines_refl.
  - assert (dr_id r = id) as <- by by destruct (ew_record _ Hwf _ _ Hlk).
    apply (restore_tail r now _ _ _ _ _ e f g _ (λ record e,
      Ok (MkPendingActions []
            ((λ ob, MkRestorationRequest (dr_id record) (dr_target record) (ob_id ob) (dr_generation record)
                      g now (truncate reason)) <$> outstanding_for (dr_target record) e)
            [MkAdmissionReopenRequest (dr_target record) g now (truncate reason)])));
      [exact Hwf|exact Hl|by eapply Hrev|exact Hgn|exact Hs|exact Hru|exact Hro].
Qed.

(** *** Restart *)

Lemma recovered_holder now d p : holder_in d (p.1, recovered_drain now p.2) = holder_in d p.
Proof.
  unfold holder_in. simpl. rewrite (kp_target _ _ (recovered_kept now p.2)). f_equal. apply eq_true_iff_eq.
  by rewrite !holds_fence_phase, recovered_phase.
Qed.

Lemma restarted_refines now e : engine_wf e → refines false e (restarted now e).
Proof.
  intros Hwf. split.
  - by apply restarted_wf.
  - done.
  - exists []. split; [|done]. apply run_nil, restarted_view.
  - intros L _ Hd d. specialize (Hd d). etrans; [|exact Hd]. rewrite !active_all by auto using restarted_wf.
    simpl. rewrite om_count_map; [done|]. intros p. apply recovered_holder.
  - by apply restarted_bounded.
Qed.

Lemma restart_refines previous now e :
  engine_wf e → engine_storable e = true → refines false e (restore (snapshot e) previous now e).2.
Proof.
  intros Hwf Hst. unfold restore. destruct (restored _ _ _ _) as [e'|] eqn:Hr; cbn [snd]; [|by apply refines_refl].
  eapply refines_log; [by eapply restored_own|by apply restarted_refines].
Qed.

(** ** Histories *)

(** The policy an operation leaves. *)
Definition policy_after (o : op) (e : engine) : DrainPolicy :=
  match o with
  | OpSetPolicy p => if is_ok (policy_validate p) then p else en_policy e
  | _ => en_policy e
  end.

(** Every operation refines the protocol. *)
Lemma exec_refines sink o now e :
  engine_wf e → protocol_inv (view_of e) → headroom e → op_wf o e →
  refines_to (brings_back o e) (policy_after o e) e (exec sink o now e).
Proof.
  intros Hwf HI Hh [Ho Hst]. destruct o; cbn [exec policy_after].
  - by apply set_policy_refines.
  - by apply incarnation_refines.
  - destruct Ho. by apply install_line_refines.
  - by apply begin_epoch_refines.
  - by apply issue_refines.
  - by apply revoke_refines.
  - by apply add_resource_refines.
  - by apply add_edge_refines.
  - by apply add_path_refines.
  - by apply add_group_refines.
  - by apply add_pool_refines.
  - by apply add_route_refines.
  - by apply report_status_refines.
  - by apply admit_refines.
  - by apply report_refines.
  - by apply record_evidence_refines.
  - by apply attest_evidence_refines.
  - by apply request_set_refines.
  - by apply request_refines.
  - by apply cancel_refines.
  - unfold restore_drain_and_dispatch. pose proof (restore_refines id authority reason now e Hwf HI Hh) as Hs.
    destruct (restore_drain id authority reason now e) as [[acts|] e1]; [|done]. unfold dispatch.
    destruct (match sink with Some s => _ | None => _ end). by apply finish_dispatch_refines.
  - by apply resume_refines.
  - by apply grant_refines.
  - by apply advance_refines.
  - by apply advance_pass_refines.
  - by apply restore_refines.
  - by apply finish_dispatch_refines, refines_refl.
  - by apply restart_refines.
Qed.

(** One step of a history: any operation, at any time, with any sink, while the
    counters last. *)
Inductive history (ok : engine → op → Prop) : engine → engine → Prop :=
  | history_nil e : history ok e e
  | history_step sink e o now e' : op_wf o e → headroom e → ok e o →
      history ok (exec sink o now e) e' → history ok e e'.

Definition reachable (ok : engine → op → Prop) (e : engine) : Prop :=
  ∃ p, history ok (new_engine p) e.

Definition any_op : engine → op → Prop := λ _ _, True.

Lemma new_engine_view p : view_of (new_engine p) ≡ initial_view.
Proof. by split_and!. Qed.

(** Rule induction over histories, for an invariant of well-formed engines. *)
Lemma history_inv ok (P : engine → Prop) e e' :
  (∀ sink e o now, engine_wf e → protocol_inv (view_of e) → headroom e → op_wf o e → ok e o →
     P e → P (exec sink o now e)) →
  engine_wf e → protocol_inv (view_of e) → P e → history ok e e' →
  engine_wf e' ∧ protocol_inv (view_of e') ∧ P e'.
Proof.
  intros Hstep Hwf HI HP Hh. induction Hh as [|sink e o now e' Ho Hroom Hok Hh IH]; [done|].
  destruct (exec_refines sink o now e) as [Hwf' _ (tr & Hr & _) _]; try done.
  apply IH; [done|by eapply arun_inv|by apply Hstep].
Qed.

Lemma reachable_inv ok e :
  reachable ok e → engine_wf e ∧ protocol_inv (view_of e).
Proof.
  intros [p Hh]. destruct (history_inv ok (λ _, True) _ _ ltac:(done)
    (new_engine_wf p) (protocol_inv_proper _ _ (symmetry (new_engine_view p)) initial_inv) I Hh) as (? & ? & _).
  done.
Qed.
