(* ===== verification/Scenario.v ===== *)
(** * Executable histories

    A checked runner for lists of operations, and one complete drain on a small
    fabric, so that the theorems about reachable engines can be applied to
    engines the definitions actually produce. *)

From S2P Require Import Prelude Containers Checked Result Text Identity Lifecycle Obligation Evidence.
From S2P Require Import Authority Admission Topology TopologyFacts Policy Decision Protocol Engine.
From S2P Require Import EngineStep EngineOps EngineInv Restart EngineRefine EngineReach.

(** Executable headroom. *)
Definition headroomb (e : engine) : bool :=
  forallb (λ entry, fe_generation entry + om_size (en_drains e) + 2 <=? int_max u64) (om_values (en_fence e))
  && (om_size (en_drains e) + 2 <=? int_max u64)
  && forallb (λ r, dr_revision r <? int_max u64) (om_values (en_drains e)).

Lemma headroomb_ok e : headroomb e = true → headroom e.
Proof.
  unfold headroomb. rewrite !andb_true_iff, !forallb_forall. intros [[H1 H2] H3]. split.
  - intros t. unfold fence_generation. destruct (en_fence e !! t) as [entry|] eqn:E; [|apply Z.leb_le in H2; lia].
    apply Z.leb_le, H1, list_elem_of_In. by eapply om_lookup_values.
  - intros id r E. apply Z.ltb_lt, H3, list_elem_of_In. by eapply om_lookup_values.
Qed.

(** Runs the operations, refusing to start one without headroom, a restart of what
    cannot be stored, or one that [okb] rejects. *)
Fixpoint run_checked (okb : engine → op → bool) (ops : list (op * TimePoint)) (e : engine) : option engine :=
  match ops with
  | [] => Some e
  | (o, now) :: ops =>
      if headroomb e && storable_for o e && okb e o then run_checked okb ops (exec None o now e) else None
  end.

Lemma run_checked_history okb (ok : engine → op → Prop) ops e e' :
  (∀ e o, okb e o = true → ok e o) → Forall (λ p : op * TimePoint, args_wf p.1) ops →
  run_checked okb ops e = Some e' → history ok e e'.
Proof.
  intros Hok Hwf. revert e. induction Hwf as [|[o now] ops Ho _ IH]; intros e; simpl; [intros [= ->]; constructor|].
  destruct (headroomb e) eqn:Hh; [|done]. destruct (storable_for o e) eqn:Hs; [|done]. destruct (okb e o) eqn:Hb; [|done]. simpl. intros Hr.
  eapply history_step; [by split|by apply headroomb_ok|by apply Hok|by apply IH].
Qed.

(** ** A small fabric *)

Module Demo.

Definition second : Z := 10 ^ 9.
Definition port_a : DrainTarget := MkTarget TargetKind.Port "port-a" "rack-1".
Definition port_b : DrainTarget := MkTarget TargetKind.Port "port-b" "rack-1".

Definition flow : Obligation := new_obligation ObligationKind.ActiveFlow "holder-1" [port_a].

Definition release_key : EvidenceKey := MkEvidenceKey EvidenceKind.ObligationReleased 1 1 "".
Definition release_proof : Evidence :=
  MkEvidence 1 release_key 1 1 1 1 (30 * second) 0 true 0 "rerouted" false.
Definition release_report : ObligationReport := MkObligationReport 1 1 ObligationState.Released 1 1 1 1 "".

(** Two ports, one protected flow on the first, and a drain requested for it. *)
Definition request : DrainRequest := MkDrainRequest [port_a] "maintenance" 1 "node-1" 7.
Definition request_ops : list (op * TimePoint) :=
  [ (OpInstallLine 1 1 "boot", second);
    (OpIssue "" 0, second);
    (OpAddResource (MkResourceNode port_a 100 10 ResourceStatus.InService), second);
    (OpAddResource (MkResourceNode port_b 100 0 ResourceStatus.InService), second);
    (OpAdmit flow 0 1, 2 * second);
    (OpRequest request, 3 * second) ].
(** Admission closes; the flow has to move. *)
Definition evacuate_ops : list (op * TimePoint) :=
  [(OpAdvance, 4 * second); (OpAdvance, 5 * second); (OpAdvance, 20 * second); (OpAdvance, 21 * second)].
(** The adjacent runtime reports the release with its proof. *)
Definition release_ops : list (op * TimePoint) :=
  [(OpEvidence release_proof, 30 * second); (OpReport release_report, 31 * second)].
(** Quiescing, then retirement. *)
Definition retire_ops : list (op * TimePoint) := [(OpAdvance, 32 * second); (OpAdvance, 33 * second)].
(** Removal, then verification. *)
Definition remove_ops : list (op * TimePoint) := [(OpAdvance, 34 * second)].
Definition complete_ops : list (op * TimePoint) := [(OpAdvance, 35 * second)].
(** The target is restored; a second drain of it is then accepted. *)
Definition restore_ops : list (op * TimePoint) := [(OpRestore 1 1 "maintenance done", 40 * second)].
Definition again_ops : list (op * TimePoint) :=
  [(OpAdvance, 60 * second);
   (OpRequest (MkDrainRequest [port_a] "maintenance" 1 "node-1" 8), 70 * second)].

Definition run_from (e : engine) (ops : list (op * TimePoint)) : engine :=
  default e (run_checked (λ e o, negb (brings_back o e)) ops e).

(** The engines these histories lead to, in normal form. *)
Definition requested_engine : engine := Eval vm_compute in run_from (new_engine default_policy) request_ops.
Definition evacuating_engine : engine := Eval vm_compute in run_from requested_engine evacuate_ops.
Definition released_engine : engine := Eval vm_compute in run_from evacuating_engine release_ops.
Definition quiescing_engine : engine := Eval vm_compute in run_from released_engine retire_ops.
Definition verifying_engine : engine := Eval vm_compute in run_from quiescing_engine remove_ops.
Definition drained_engine : engine := Eval vm_compute in run_from verifying_engine complete_ops.
Definition restoring_engine : engine := Eval vm_compute in run_from drained_engine restore_ops.
Definition again_engine : engine := Eval vm_compute in run_from restoring_engine again_ops.

End Demo.

(** Histories in which no retired obligation is reported back. *)
Definition no_comeback : engine → op → Prop := λ e o, brings_back o e = false.

Lemma reachable_history ok p e : history ok (new_engine p) e → reachable ok e.
Proof. by exists p. Qed.

Lemma history_app ok e1 e2 e3 : history ok e1 e2 → history ok e2 e3 → history ok e1 e3.
Proof. intros H1 H2. induction H1; [done|]. eapply history_step; eauto. Qed.

(** They are reachable, under any restriction that allows what they do. *)
Section DemoReachable.
Context (ok : engine → op → Prop).
Context (Hok : ∀ e o, brings_back o e = false → (∀ p, o ≠ OpSetPolicy p) → (∀ id st, o ≠ OpReportStatus id st) →
  ok e o).

Definition demo_ok (e : engine) (o : op) : bool :=
  negb (brings_back o e) && match o with OpSetPolicy _ | OpReportStatus _ _ => false | _ => true end.

Lemma demo_history ops e e' :
  Forall (λ p : op * TimePoint, args_wf p.1) ops → run_checked demo_ok ops e = Some e' → history ok e e'.
Proof.
  intros Hwf Hr. eapply run_checked_history; [|exact Hwf|exact Hr].
  intros e0 o [Hb%negb_true_iff Ho]%andb_true_iff. apply Hok; [done|by intros p ->|by intros id st ->].
Qed.

Lemma requested_history : history ok (new_engine default_policy) Demo.requested_engine.
Proof.
  apply (demo_history Demo.request_ops); [|vm_compute; reflexivity].
  repeat constructor; try apply new_obligation_wf; by vm_compute.
Qed.
Lemma evacuating_history : history ok (new_engine default_policy) Demo.evacuating_engine.
Proof.
  eapply history_app; [exact requested_history|].
  apply (demo_history Demo.evacuate_ops); [by repeat constructor|vm_compute; reflexivity].
Qed.
Lemma released_history : history ok (new_engine default_policy) Demo.released_engine.
Proof.
  eapply history_app; [exact evacuating_history|].
  apply (demo_history Demo.release_ops); [by repeat constructor|vm_compute; reflexivity].
Qed.
Lemma quiescing_history : history ok (new_engine default_policy) Demo.quiescing_engine.
Proof.
  eapply history_app; [exact released_history|].
  apply (demo_history Demo.retire_ops); [by repeat constructor|vm_compute; reflexivity].
Qed.
Lemma verifying_history : history ok (new_engine default_policy) Demo.verifying_engine.
Proof.
  eapply history_app; [exact quiescing_history|].
  apply (demo_history Demo.remove_ops); [by repeat constructor|vm_compute; reflexivity].
Qed.
Lemma drained_history : history ok (new_engine default_policy) Demo.drained_engine.
Proof.
  eapply history_app; [exact verifying_history|].
  apply (demo_history Demo.complete_ops); [by repeat constructor|vm_compute; reflexivity].
Qed.
Lemma restoring_history : history ok (new_engine default_policy) Demo.restoring_engine.
Proof.
  eapply history_app; [exact drained_history|].
  apply (demo_history Demo.restore_ops); [by repeat constructor|vm_compute; reflexivity].
Qed.
Lemma again_history : history ok (new_engine default_policy) Demo.again_engine.
Proof.
  eapply history_app; [exact restoring_history|].
  apply (demo_history Demo.again_ops); [by repeat constructor|vm_compute; reflexivity].
Qed.
End DemoReachable.

Definition record_at (id : DrainId) (e : engine) : DrainRecord :=
  default (new_drain_record 0 Demo.port_a 0 0 0) (en_drains e !! id).

(** Every engine of a history satisfies the invariants. *)
Lemma history_wf e : history any_op (new_engine default_policy) e → engine_wf e.
Proof. intros Hh. by destruct (reachable_inv any_op e (reachable_history _ _ _ Hh)). Qed.
Lemma history_protocol e : history any_op (new_engine default_policy) e → protocol_inv (view_of e).
Proof. intros Hh. by destruct (reachable_inv any_op e (reachable_history _ _ _ Hh)). Qed.
