(* ===== verification/Recovery.v ===== *)
(** * What a restart keeps and what it gives up

    The claims about [DrainEngine::snapshot] and [DrainEngine::restore]: an
    engine's own snapshot restores to an engine the drain protocol cannot tell
    apart from it, and whatever document is restored, nothing a previous
    incarnation vouched for is trusted. *)

From S2P Require Import Prelude Containers Checked Result Text Json Codec CodecTables CodecFabric CodecPolicy.
From S2P Require Import Identity Lifecycle Obligation Evidence Authority Admission Topology TopologyFacts Policy Decision.
From S2P Require Import Protocol Engine Snapshot EngineStep EngineOps EngineInv Restart EngineRefine EngineReach Scenario.
#[local] Open Scope Z_scope.

(** ** The engine's own snapshot *)



Lemma set_blockers_fields bs m :
  dr_state (set_blockers bs m) = dr_state m ∧ dr_blocked_from (set_blockers bs m) = dr_blocked_from m ∧
  dr_blockers (set_blockers bs m) = normalise_blockers bs ∧ dr_target (set_blockers bs m) = dr_target m ∧
  dr_generation (set_blockers bs m) = dr_generation m.
Proof. done. Qed.

(** C37: every drain comes back.  One that was in flight is blocked, remembers the
    state to resume and says why; any other is the same record with its revision
    counter restarted. *)
Theorem restart_blocks_in_flight e e0 previous now e' id r :
  reachable any_op e → engine_storable e = true →
  restore (snapshot e) previous now e0 = (ok_status, e') → en_drains e !! id = Some r →
  ∃ r', en_drains e' !! id = Some r' ∧
    if is_transient (dr_state r)
    then dr_state r' = DrainState.Blocked ∧ dr_blocked_from r' = Some (dr_state r) ∧
         dr_blockers r' = [recovery_blocker r now] ∧ dr_target r' = dr_target r ∧ dr_generation r' = dr_generation r
    else r' = r <| dr_revision := 1 |>.
Proof.
  intros Hr Hst Hres Hl. destruct (reachable_inv _ _ Hr) as [Hwf _]. unfold restore in Hres.
  destruct (restored (snapshot e) previous now e0) as [e1|] eqn:He; [|done]. injection Hres as ->.
  apply restored_own in He as Heq; [|done..]. exists (recovered_drain now r).
  split; [rewrite Heq; simpl; by rewrite om_lookup_map, Hl|].
  unfold recovered_drain, blocked_for_recovery. change (dr_state (r <| dr_revision := 1 |>)) with (dr_state r).
  destruct (is_transient (dr_state r)) eqn:Ht; [|done]. apply transient_blocks in Ht as (Hb & _).
  set (r1 := r <| dr_revision := 1 |>). set (m := moved _ _ _ r1).
  destruct (set_blockers_fields [recovery_blocker r1 now] m) as (-> & -> & -> & -> & ->).
  unfold m. rewrite dr_state_moved, dr_blocked_from_moved, dr_target_moved, dr_generation_moved. split_and!; reflexivity.
Qed.

Lemma restart_blocks_in_flight_witness :
  let e' := (restore (snapshot Demo.evacuating_engine) 1 (100 * Demo.second) (new_engine default_policy)).2 in
  ∃ r', en_drains e' !! 1 = Some r' ∧
    dr_state r' = DrainState.Blocked ∧ dr_blocked_from r' = Some DrainState.Evacuating ∧
    dr_blockers r' = [recovery_blocker (record_at 1 Demo.evacuating_engine) (100 * Demo.second)] ∧
    dr_target r' = Demo.port_a ∧ dr_generation r' = 1.
Proof.
  cbv zeta.
  apply (restart_blocks_in_flight Demo.evacuating_engine (new_engine default_policy) 1 (100 * Demo.second) _ 1
           (record_at 1 Demo.evacuating_engine)).
  - by eapply reachable_history, evacuating_history.
  - vm_compute. reflexivity.
  - vm_compute. reflexivity.
  - vm_compute. reflexivity.
Defined.

(** ** Any document *)

Lemma recover_drain_settled now r r' : recover_drain now r = Ok r' → is_transient (dr_state r') = false.
Proof.
  unfold recover_drain. destruct (is_transient (dr_state r)) eqn:Ht; cbn [negb]; [|by intros [= <-]].
  destruct (transition _ _ _ r) as [[]r1] eqn:Htr; [|done]. intros [= <-].
  apply transition_cases in Htr as [(Hs & _ & ->)|[(_ & [=] & _)|(_ & _ & _ & _ & ->)]].
  - change (is_transient (dr_state r) = false). by rewrite <- Hs.
  - set (m := moved _ _ _ r). change (is_transient (dr_state m) = false). unfold m. by rewrite dr_state_moved.
Qed.

Lemma recover_drains_settled now l l' id r :
  recover_drains now l = Ok l' → OMap l' !! id = Some r → is_transient (dr_state r) = false.
Proof.
  intros Hl Hr%om_lookup_elem. revert l' Hl Hr. induction l as [|[id0 r0] l IH]; intros l'; simpl.
  - by intros [= <-] ?%not_elem_of_nil.
  - destruct (recover_drain now r0) as [r1|] eqn:Hr; [|done]. destruct (recover_drains now l) as [l1|]; [|done].
    intros [= <-]. simpl. intros [[= <- <-]|Hin]%elem_of_cons; [by eapply recover_drain_settled|by apply (IH l1)].
Qed.

(** What every successful restore has in common, up to the log. *)
Lemma restored_shape doc previous now e e' :
  restored doc previous now e = Ok e' →
  ∃ a l ds, en_authority e' = (revoke_all now "recovered from snapshot; authority never survives a restart" a).2 ∧
    en_evidence e' = quarantine_all l ∧ recover_drains now ds = Ok (om_list (en_drains e')).
Proof.
  unfold restored. destruct (negb (is_object doc)); [done|]. destruct (negb (_ =? _)); [done|].
  destruct (_ && _); [done|]. destruct (stage doc (en_policy e)) as [s|]; [|done]. cbn [result_bind].
  destruct (narrow_checked _ _ _) as [mark|]; [|done].
  destruct (recover_drains now (om_list (sg_drains s))) as [ds|] eqn:Hd; [|done]. cbn [result_bind]. intros [= <-].
  exists (sg_authority s), (sg_evidence s), (om_list (sg_drains s)). split; [reflexivity|]. split; [reflexivity|]. exact Hd.
Qed.

(** C36: whatever document is restored, valid, corrupt or forged, a failed restore
    leaves the engine as it was; and after a successful one every authority token
    is revoked, no evidence is attested, and no drain is in a state that needs a
    live incarnation (validating, admission closed, evacuating, quiescing,
    verifying or restoring). *)
Theorem restore_trusts_nothing doc previous now e st e' :
  restore doc previous now e = (st, e') →
  (is_ok st = false → e' = e) ∧
  (is_ok st = true →
   (∀ id t, ar_find id (en_authority e') = Some t → at_revoked t = true) ∧
   (∀ k ev, el_records (en_evidence e') !! k = Some ev → ev_attested ev = false) ∧
   (∀ id r, en_drains e' !! id = Some r → is_transient (dr_state r) = false)).
Proof.
  unfold restore. destruct (restored doc previous now e) as [e1|err] eqn:Hr; intros [= <- <-]; split; try done. intros _.
  apply restored_shape in Hr as (a & l & ds & Ha & Hl & Hd). split_and!.
  - intros id t. rewrite Ha. apply revoke_all_revoked.
  - intros k ev. rewrite Hl. unfold quarantine_all. simpl. rewrite om_lookup_map, fmap_Some. by intros (ev' & _ & ->).
  - intros id r Hf. eapply recover_drains_settled; [exact Hd|]. by destruct (en_drains e1).
Qed.

Lemma restore_trusts_nothing_witness :
  let e' := (restore (snapshot Demo.evacuating_engine) 1 (100 * Demo.second) (new_engine default_policy)).2 in
  (∀ id t, ar_find id (en_authority e') = Some t → at_revoked t = true) ∧
  (∀ k ev, el_records (en_evidence e') !! k = Some ev → ev_attested ev = false) ∧
  (∀ id r, en_drains e' !! id = Some r → is_transient (dr_state r) = false).
Proof.
  cbv zeta.
  apply (restore_trusts_nothing (snapshot Demo.evacuating_engine) 1 (100 * Demo.second) (new_engine default_policy)
    (restore (snapshot Demo.evacuating_engine) 1 (100 * Demo.second) (new_engine default_policy)).1).
  - apply surjective_pairing.
  - vm_compute. reflexivity.
Defined.
