(* ===== verification/Safety.v ===== *)
(** * Safety of every reachable engine

    What holds after any history of operations, in any order, successful or
    not, restarts included, for any embedding program's sink. *)

From S2P Require Import Prelude Containers Checked Result Text Identity Lifecycle Obligation Evidence.
From S2P Require Import Authority Admission Topology TopologyFacts Policy Decision Protocol Engine.
From S2P Require Import Snapshot EngineStep EngineOps EngineInv Restart EngineRefine EngineReach Scenario.

(** The view of a stored drain. *)
Lemma view_drain e id r : en_drains e !! id = Some r → v_drain (view_of e) id = Some (drain_view r).
Proof. intros Hl. simpl. by rewrite Hl. Qed.

Lemma done_clear_outstanding e r id :
  engine_wf e → done_is_clear (view_of e) → en_drains e !! id = Some r → dr_state r = DrainState.Drained →
  outstanding_for (dr_target r) e = [].
Proof.
  intros Hwf HC Hl Hs. apply (outstanding_nil _ _ (ew_obligations _ Hwf)). intros o ob Hf Hp Hd.
  destruct (decide (ob_state ob = ObligationState.Retired)); [done|].
  assert (blocks_completion ob = true) as Hb by by apply blocks_completion_spec.
  destruct (HC id (dr_target r) (dr_generation r) o (ob_admission_generation ob) (ob_dependencies ob));
    [|simpl; rewrite Hf; simpl; unfold obligation_view; by rewrite Hb|done].
  rewrite (view_drain _ _ _ Hl). unfold drain_view. by rewrite (phase_of_state _ _ Hs).
Qed.

(** Without comebacks completed targets stay clear. *)
Lemma reachable_clear e :
  reachable no_comeback e → engine_wf e ∧ protocol_inv (view_of e) ∧ done_is_clear (view_of e).
Proof.
  intros [p Hh].
  apply (history_inv no_comeback (λ e, done_is_clear (view_of e)) (new_engine p) e);
    [|apply new_engine_wf|exact (protocol_inv_proper _ _ (symmetry (new_engine_view p)) initial_inv)|done|done].
  intros sink e0 o now Hwf HI Hroom Ho Hb HC.
  destruct (exec_refines sink o now e0 Hwf HI Hroom Ho) as [_ _ (tr & Hr & Hn) _ _].
  by eapply arun_clear; [..|exact HC]; [exact Hr|apply Hn|].
Qed.

(** C1: in every engine reachable without a report that brings a retired
    obligation back, a drain in state [Drained] has no outstanding protected
    obligation on its target: nothing protected depends on a drained target, and
    nothing can come to depend on it while it stays drained. *)
Theorem drained_target_is_clear e id r :
  reachable no_comeback e → en_drains e !! id = Some r → dr_state r = DrainState.Drained →
  outstanding_for (dr_target r) e = [].
Proof.
  intros Hr Hl Hs. destruct (reachable_clear e Hr) as (Hwf & _ & HC). by eapply done_clear_outstanding.
Qed.

Lemma drained_target_is_clear_witness :
  outstanding_for (dr_target (record_at 1 Demo.drained_engine)) Demo.drained_engine = [].
Proof.
  apply (drained_target_is_clear Demo.drained_engine 1).
  - by eapply reachable_history, drained_history.
  - vm_compute. reflexivity.
  - vm_compute. reflexivity.
Defined.

(** C2: a drain that holds admission (blocked or not), or that has completed,
    owns its target's fence: the fence is closed, names this drain, and stands at
    exactly the generation the drain recorded. *)
Theorem active_drain_owns_fence e id r :
  reachable any_op e → en_drains e !! id = Some r →
  holds_fence r = true ∨ dr_state r = DrainState.Drained →
  ∃ entry, fence_entry (dr_target r) (en_fence e) = Some entry ∧ fe_closed entry = true ∧
           fe_drain entry = id ∧ fe_generation entry = dr_generation r.
Proof.
  intros Hr Hl Hs. destruct (reachable_inv _ _ Hr) as [Hwf HI].
  assert (phase_of r = Holding ∨ phase_of r = Done) as Hp.
  { destruct Hs as [Hs|Hs]; [left; by apply holds_fence_phase|right]. by rewrite (phase_of_state _ _ Hs). }
  apply fence_view_closed. by apply (pi_owned _ HI id _ _ _ (view_drain _ _ _ Hl)).
Qed.

Lemma active_drain_owns_fence_witness :
  ∃ entry, fence_entry Demo.port_a (en_fence Demo.drained_engine) = Some entry ∧
           fe_closed entry = true ∧ fe_drain entry = 1 ∧ fe_generation entry = 1.
Proof.
  apply (active_drain_owns_fence Demo.drained_engine 1
           (record_at 1 Demo.drained_engine)).
  - by eapply reachable_history, drained_history.
  - vm_compute. reflexivity.
  - right. vm_compute. reflexivity.
Defined.

(** C3: an obligation is never bound behind a fence: its admission generation is
    at most the current generation of every target it depends on, and strictly
    older than the generation of a closed one. *)
Theorem no_obligation_bound_behind_fence e o ob t :
  reachable any_op e → ot_find o (en_obligations e) = Some ob → t ∈ ob_dependencies ob →
  ob_admission_generation ob ≤ fence_generation t (en_fence e) ∧
  (fence_is_closed t (en_fence e) = true → ob_admission_generation ob < fence_generation t (en_fence e)).
Proof.
  intros Hr Hf Ht. destruct (reachable_inv _ _ Hr) as [Hwf HI].
  destruct (pi_bound _ HI o (ob_admission_generation ob) (ob_dependencies ob) (blocks_completion ob) t) as [H1 H2];
    [simpl; by rewrite Hf|done|].
  split; [done|]. intros Hc. apply H2. intros Hn.
  destruct (proj1 (fence_view_open (en_fence e) t (fence_generation t (en_fence e)))) as [Hv _]; [|congruence].
  rewrite (surjective_pairing (fence_view _ _)). simpl. f_equal. exact Hn.
Qed.

Lemma no_obligation_bound_behind_fence_witness :
  0 ≤ fence_generation Demo.port_a (en_fence Demo.drained_engine) ∧
  (fence_is_closed Demo.port_a (en_fence Demo.drained_engine) = true →
   0 < fence_generation Demo.port_a (en_fence Demo.drained_engine)).
Proof.
  apply (no_obligation_bound_behind_fence Demo.drained_engine 1
           (default Demo.flow (ot_find 1 (en_obligations Demo.drained_engine))) Demo.port_a).
  - by eapply reachable_history, drained_history.
  - vm_compute. reflexivity.
  - vm_compute. apply list_elem_of_here.
Defined.

(** A target has at most one owner: of two different drains of one target, at
    least one has been restored and given the target back. *)
Theorem one_owner_per_target e id1 id2 r1 r2 :
  reachable any_op e → en_drains e !! id1 = Some r1 → en_drains e !! id2 = Some r2 →
  dr_target r1 = dr_target r2 → id1 ≠ id2 → reusable r1 = true ∨ reusable r2 = true.
Proof.
  intros Hr H1 H2 Ht Hne. destruct (reachable_inv _ _ Hr) as [Hwf HI].
  assert (∀ id r, en_drains e !! id = Some r → reusable r = false → phase_of r ≠ Released) as Hp.
  { intros id r Hl Hn Hp. destruct (ew_record _ Hwf _ _ Hl) as (_ & _ & Hrw & _).
    apply reusable_phase in Hp; [|done]. congruence. }
  pose proof (view_drain _ _ _ H1) as V1. pose proof (view_drain _ _ _ H2) as V2. unfold drain_view in V1.
  rewrite Ht in V1. destruct (reusable r1) eqn:E1, (reusable r2) eqn:E2; auto.
  destruct Hne. eapply (pi_unique _ HI _ _ _ _ _ _ _ V1 V2); eauto.
Qed.

Lemma one_owner_per_target_witness :
  reusable (record_at 1 Demo.again_engine) = true ∨
  reusable (record_at 2 Demo.again_engine) = true.
Proof.
  apply (one_owner_per_target Demo.again_engine 1 2);
    [|vm_compute; reflexivity..|done].
  by eapply reachable_history, again_history.
Defined.

(** Histories whose policies all allow at most [L] concurrent drains per domain. *)
Definition limited (L : Z) : engine → op → Prop := λ _ o,
  ∀ p, o = OpSetPolicy p → p_max_concurrent_drains_per_domain p ≤ L.

Lemma new_engine_domain p L : 0 ≤ L → domain_within L (new_engine p).
Proof. intros ? d. by rewrite active_count. Qed.

(** C5: the failure-domain limit holds in every reachable engine: if no policy
    ever installed allows more than [L] drains per domain, at most [L] drains of a
    domain hold their admission fence at any time. *)
Theorem domain_limit_respected p L e d :
  p_max_concurrent_drains_per_domain p ≤ L → 0 ≤ L → history (limited L) (new_engine p) e →
  active_drains_in_domain d 0 e ≤ L.
Proof.
  intros Hp HL Hh.
  destruct (history_inv (limited L)
    (λ e, p_max_concurrent_drains_per_domain (en_policy e) ≤ L ∧ domain_within L e) (new_engine p) e)
    as (_ & _ & _ & Hd);
    [|apply new_engine_wf|exact (protocol_inv_proper _ _ (symmetry (new_engine_view p)) initial_inv)
     |split; [done|by apply new_engine_domain]|done|apply Hd].
  intros sink e0 o now Hwf HI Hroom Ho Hlim [Hle Hd].
  destruct (exec_refines sink o now e0 Hwf HI Hroom Ho) as [_ Hq _ Hdom _]. split; [|by apply Hdom].
  rewrite Hq. destruct o; try done. simpl. specialize (Hlim _ eq_refl). by destruct (is_ok _).
Qed.

Lemma domain_limit_respected_witness :
  active_drains_in_domain "rack-1" 0 Demo.evacuating_engine ≤ 1.
Proof.
  apply (domain_limit_respected default_policy 1); [vm_compute; discriminate|done|].
  apply evacuating_history. intros e o _ Hp _ q ->. by destruct (Hp q).
Defined.

(** Operations on the policy, the authority, the fabric, the evidence and the
    counters, and the restart: the protocol does not see them. *)
Definition outside_protocol (o : op) : bool :=
  match o with
  | OpSetPolicy _ | OpInstallIncarnation _ | OpInstallLine _ _ _ | OpBeginEpoch _ _ | OpIssue _ _ | OpRevoke _ _
  | OpAddResource _ | OpAddEdge _ _ | OpAddPath _ | OpAddGroup _ | OpAddPool _ | OpAddRoute _ | OpReportStatus _ _
  | OpEvidence _ | OpAttest _ _ | OpDispatched _ _ | OpRestart _ => true
  | _ => false
  end.

Lemma view_frame e e' :
  en_drains e' = en_drains e → en_fence e' = en_fence e →
  ot_obligations (en_obligations e') = ot_obligations (en_obligations e) → view_of e' ≡ view_of e.
Proof.
  intros Ed Ef Eo. split_and!; intros; simpl; rewrite ?Ed, ?Ef; try done. unfold ot_find. by rewrite Eo.
Qed.

Lemma exec_outside sink o now e :
  engine_wf e → op_wf o e → outside_protocol o = true → view_of (exec sink o now e) ≡ view_of e.
Proof.
  intros Hwf [_ Hst] Ho. destruct o; try done; cbn [exec]; clear Ho.
  - unfold set_policy. destruct (policy_validate p); by apply view_frame.
  - unfold en_install_incarnation. destruct (install_incarnation _ _ _) as [[] a]; by apply view_frame.
  - unfold install_authority_line. destruct (install_line _ _ _ _ _) as [[] a]; by apply view_frame.
  - unfold en_begin_new_epoch, install_authority_line. destruct (increment_checked _ _); [|done].
    destruct (install_line _ _ _ _ _) as [[] a]; by apply view_frame.
  - unfold issue_authority. destruct (ar_issue _ _ _ _) as [[] a]; by apply view_frame.
  - unfold revoke_authority. destruct (ar_revoke _ _ _ _) as [[] a]; by apply view_frame.
  - unfold en_add_resource. destruct (add_resource _ _) as [[] t]; by apply view_frame.
  - unfold en_add_edge. destruct (add_edge _ _ _) as [[] t]; by apply view_frame.
  - unfold en_add_path. destruct (add_path _ _) as [[] t]; by apply view_frame.
  - unfold en_add_diversity_group. destruct (add_diversity_group _ _) as [[] t]; by apply view_frame.
  - unfold en_add_capacity_pool. destruct (add_capacity_pool _ _) as [[] t]; by apply view_frame.
  - unfold en_add_protected_route. destruct (add_protected_route _ _) as [[] t]; by apply view_frame.
  - unfold report_resource_status. destruct (to_set_status _ _ _) as [[] t]; by apply view_frame.
  - unfold record_evidence. destruct (el_record _ _ _ _) as [[] l]; by apply view_frame.
  - unfold attest_evidence. destruct (el_attest _ _ _ _) as [[] l]; by apply view_frame.
  - unfold restore. destruct (restored _ _ _ _) as [e'|] eqn:Hre; cbn [snd]; [|done].
    rewrite (restored_own _ _ _ _ _ Hwf Hst Hre). apply restarted_view.
Qed.

(** C6: the engine implements the drain protocol operation by operation: whatever
    it answers, an operation on a reachable engine takes the engine's view along a
    run of the abstract transition system, from the view before it to the view after
    it.  The run brings a retired obligation back to life only if the operation is
    the report of exactly that; and operations on the policy, the authority, the
    fabric, the evidence or the counters, and a restart, leave the view as it is. *)
Theorem engine_refines_protocol sink o now e :
  reachable any_op e → headroom e → op_wf o e →
  (∃ tr, arun tr (view_of e) (view_of (exec sink o now e)) ∧
     (existsb is_reappear tr = true → brings_back o e = true)) ∧
  (outside_protocol o = true → view_of (exec sink o now e) ≡ view_of e).
Proof.
  intros Hr Hh Ho. destruct (reachable_inv _ _ Hr) as [Hwf HI]. split; [|by apply exec_outside].
  destruct (exec_refines sink o now e Hwf HI Hh Ho) as [_ _ (tr & Hrun & Hb) _ _]. exists tr. split; [done|].
  intros Hre. destruct (brings_back o e); [done|]. by rewrite Hb in Hre.
Qed.

Lemma engine_refines_protocol_witness :
  ∃ tr, arun tr (view_of Demo.verifying_engine) (view_of (exec None OpAdvance (35 * Demo.second) Demo.verifying_engine)) ∧
    (existsb is_reappear tr = true → false = true).
Proof.
  apply (engine_refines_protocol None OpAdvance (35 * Demo.second) Demo.verifying_engine).
  - by eapply reachable_history, verifying_history.
  - by apply headroomb_ok; vm_compute.
  - by split.
Defined.

(** Fence generations never go back, along any history from any reachable
    engine. *)
Theorem fence_generation_monotone e e' t :
  reachable any_op e → history any_op e e' →
  fence_generation t (en_fence e) ≤ fence_generation t (en_fence e').
Proof.
  intros Hr Hh. destruct (reachable_inv _ _ Hr) as [Hwf HI].
  destruct (history_inv any_op
    (λ e1, fence_generation t (en_fence e) ≤ fence_generation t (en_fence e1)) e e') as (_ & _ & H); try done.
  intros sink e0 o now Hwf0 HI0 Hroom Ho _ Hle.
  destruct (exec_refines sink o now e0 Hwf0 HI0 Hroom Ho) as [_ _ (tr & Hrun & _) _ _].
  pose proof (arun_fence_monotone _ _ _ t Hrun) as Hm. simpl in Hm. lia.
Qed.

Lemma fence_generation_monotone_witness :
  fence_generation Demo.port_a (en_fence (new_engine default_policy))
  ≤ fence_generation Demo.port_a (en_fence Demo.again_engine).
Proof.
  apply (fence_generation_monotone).
  - eexists. apply history_nil.
  - by apply again_history.
Defined.

(** C8: the representation invariant holds in every reachable engine: the maps
    are ordered, every record is filed under its own identifier and below its
    high-water mark, drain records, obligations, evidence streams, authority
    tokens, fence entries and the adjacency relation are well formed, and every
    remembered nonce names an existing drain set.  The drains, the fences and the
    parts of the fabric are bounded by their constants; and once the first policy is
    a valid one (the constructor does not check it), so are the drain sets, the
    nonces (no more than sets), the authority tokens, the grants of each drain, and,
    by the caps no policy exceeds, the obligations and the evidence. *)
Theorem reachable_engine_wf p e :
  history any_op (new_engine p) e →
  engine_wf e ∧ (policy_validate p = ok_status → tables_bounded e).
Proof.
  intros Hh. split; [by destruct (reachable_inv any_op e (reachable_history _ _ _ Hh))|]. intros Hp.
  destruct (history_inv any_op tables_bounded (new_engine p) e) as (_ & _ & Hb);
    [|apply new_engine_wf|exact (protocol_inv_proper _ _ (symmetry (new_engine_view p)) initial_inv)
     |by apply new_engine_bounded|done|done].
  intros sink e0 o now Hwf HI Hroom Ho _. apply (exec_refines sink o now e0 Hwf HI Hroom Ho).
Qed.

Lemma reachable_engine_wf_witness : engine_wf Demo.again_engine ∧ tables_bounded Demo.again_engine.
Proof.
  destruct (reachable_engine_wf default_policy Demo.again_engine) as [Hwf Hb]; [by apply again_history|].
  split; [exact Hwf|]. apply Hb. vm_compute. reflexivity.
Defined.

(** A closed fence can always be reopened by somebody: it names a drain the
    engine knows, and that drain drains exactly this target and recorded the
    generation the fence closed at. *)
Theorem closed_fence_has_drain e t entry :
  reachable any_op e → fence_entry t (en_fence e) = Some entry → fe_closed entry = true →
  ∃ r, en_drains e !! fe_drain entry = Some r ∧ dr_target r = t ∧ dr_generation r = fe_generation entry.
Proof.
  intros Hr Hf Hc. destruct (reachable_inv _ _ Hr) as [Hwf HI].
  destruct (pi_named _ HI t (fe_generation entry) (fe_drain entry)) as (p & Hv).
  { apply fence_view_closed. eauto. }
  simpl in Hv. apply fmap_Some in Hv as (r & Hl & [= Ht _ Hg]). exists r. by split_and!.
Qed.

Lemma closed_fence_has_drain_witness :
  ∃ r, en_drains Demo.drained_engine !! 1 = Some r ∧ dr_target r = Demo.port_a ∧ dr_generation r = 1.
Proof.
  apply (closed_fence_has_drain Demo.drained_engine Demo.port_a
           (default default_fence_entry (fence_entry Demo.port_a (en_fence Demo.drained_engine))));
    [|vm_compute; reflexivity..].
  by eapply reachable_history, drained_history.
Defined.
