(* ===== verification/EngineGates.v ===== *)
(** * What one scheduling step may do, and when

    [step_drain] touches its own drain only, and each irreversible action it
    takes (closing admission, retiring an obligation, removing the resource,
    declaring the drain complete) is guarded by a check that held in the engine
    it acted on. *)

From S2P Require Import Prelude Containers Checked Result Text Identity Lifecycle Obligation Evidence.
From S2P Require Import Authority Admission Topology TopologyFacts Policy Decision Protocol Engine.
From S2P Require Import EngineStep EngineOps EngineInv EngineRefine EngineReach Scenario.

(** ** Isolation *)

(** [e'] differs from [e] at the drain [id], in the evidence, in the fence and
    topology entries, in the obligations and in the log, and nowhere else. *)
Record touches (id : DrainId) (e e' : engine) : Prop := {
  tc_others : ∀ id', id' ≠ id → en_drains e' !! id' = en_drains e !! id';
  tc_policy : en_policy e' = en_policy e;
  tc_authority : en_authority e' = en_authority e;
  tc_sets : en_sets e' = en_sets e;
  tc_nonce : en_nonce_sets e' = en_nonce_sets e;
  tc_exceptions : en_exceptions e' = en_exceptions e;
  tc_high_water : en_drain_high_water e' = en_drain_high_water e;
}.

Lemma touches_refl id e : touches id e e.
Proof. by split. Qed.
Lemma touches_trans id e1 e2 e3 : touches id e1 e2 → touches id e2 e3 → touches id e1 e3.
Proof. intros [A1 A2 A3 A4 A5 A6 A7] [B1 B2 B3 B4 B5 B6 B7]. split; try congruence. intros. by rewrite B1, A1. Qed.
Lemma touches_log id e e1 e2 : e2 ≡ e1 → touches id e e1 → touches id e e2.
Proof. intros He [A1 A2 A3 A4 A5 A6 A7]. split; intros; rewrite He; auto. Qed.
Lemma touches_put r e : touches (dr_id r) e (put_drain r e).
Proof. split; try done. intros id' Hne. rewrite lookup_put. by rewrite decide_False. Qed.

Lemma transition_touches r next now detail oc ins ev rej e :
  touches (dr_id r) e (apply_transition r next now detail oc ins ev rej e).2.
Proof.
  destruct (apply_transition _ _ _ _ _ _ _ _ _) as [b e'] eqn:Ha; cbn [snd].
  apply apply_transition_spec in Ha as (r' & He & Hc). eapply touches_log; [exact He|].
  assert (dr_id r' = dr_id r) as <- by (destruct Hc as [(_ & -> & _)|[(_ & -> & _)|(_ & -> & _)]]; by rewrite ?dr_id_moved).
  apply touches_put.
Qed.

Lemma blocked_touches r bl now act e : touches (dr_id r) e (enter_blocked r bl now act e).2.
Proof.
  destruct (enter_blocked_spec r bl now act e) as (r' & He & Hk & _). eapply touches_log; [exact He|].
  rewrite <-(kp_id _ _ Hk). apply touches_put.
Qed.

Lemma removal_evidence_touches id r now e : touches id e (record_removal_evidence r now e).2.
Proof.
  unfold record_removal_evidence. destruct (increment_checked _ _); [|apply touches_refl].
  by destruct (el_record _ _ _ _) as [[] l].
Qed.

Lemma removal_touches r now e : touches (dr_id r) e (step_removal r now e).
Proof.
  unfold step_removal. destruct (to_resource _ _) as [node|]; [|apply blocked_touches].
  destruct (_ && _); [apply blocked_touches|]. destruct (_ && _); [apply blocked_touches|].
  set (e1 := if in_service node then _ else e).
  assert (touches (dr_id r) e e1) as H1 by (subst e1; by destruct (in_service node)).
  pose proof (removal_evidence_touches (dr_id r) r now e1) as H2.
  destruct (record_removal_evidence r now e1) as [[] e2]; cbn [snd] in H2;
    (eapply touches_trans; [exact H1|]; eapply touches_trans; [exact H2|]);
    [apply transition_touches|apply blocked_touches].
Qed.

Lemma complete_touches r proof now e : touches (dr_id r) e (step_complete r proof now e).
Proof.
  unfold step_complete. destruct (record_completion _ _ _ _ _) as [st r1] eqn:Hc.
  assert (dr_id r1 = dr_id r) as <- by (revert Hc; unfold record_completion; destruct (negb _); by intros [= _ <-]).
  destruct st; [|apply blocked_touches].
  eapply touches_trans; [|apply transition_touches]. eapply touches_log; [apply bump_log|apply touches_put].
Qed.

Lemma verifying_touches r now e : touches (dr_id r) e (step_verifying r now e).
Proof.
  unfold step_verifying. destruct (evaluate_verification r now e) as [bl proof].
  assert (∀ x : list Blocker * EvidenceSeq * engine, touches (dr_id r) e x.2 →
    touches (dr_id r) e (let '(bl, proof, e1) := x in
      if negb (is_nil bl) then (enter_blocked r bl now "verification-blocked" e1).2
      else step_complete r proof now e1)) as Hfin.
  { intros [[b p] e1] H1. cbn [snd] in H1. eapply touches_trans; [exact H1|].
    destruct (negb _); [apply blocked_touches|apply complete_touches]. }
  apply Hfin. destruct (_ && _ && _); [|apply touches_refl].
  pose proof (removal_evidence_touches (dr_id r) r now e) as H1.
  destruct (record_removal_evidence r now e) as [[] e1]; cbn [snd] in *; [|done].
  by destruct (evaluate_verification r now e1).
Qed.

Lemma restoring_touches r now e : touches (dr_id r) e (step_restoring r now e).
Proof.
  unfold step_restoring. destruct (_ <? _); [by split|].
  set (e1 := if removal_owned_by r e then _ else e).
  assert (touches (dr_id r) e e1) as H1 by (subst e1; by destruct (removal_owned_by r e)).
  eapply touches_trans; [exact H1|]. clearbody e1.
  match goal with |- context [apply_transition ?a ?b ?c ?d ?f ?g ?h ?i ?j] =>
    pose proof (transition_touches a b c d f g h i j) as H2;
    destruct (apply_transition a b c d f g h i j) as [[] e2] eqn:Ha end; cbn [snd] in H2;
    (eapply touches_trans; [exact H2|]); [|apply blocked_touches].
  apply apply_transition_spec in Ha as (r' & He & Hc).
  assert (dr_id r' = dr_id r) as Hid by (destruct Hc as [(_ & -> & _)|[(_ & -> & _)|(_ & -> & _)]]; by rewrite ?dr_id_moved).
  assert (en_drains e2 !! dr_id r = Some r') as -> by (rewrite He, <-Hid; apply om_lookup_insert_eq).
  rewrite <-Hid. apply (touches_put (mark_restored now (dr_restore_generation r') r')).
Qed.

Lemma step_state_touches r now acts e : touches (dr_id r) e (step_state r now acts e).1.
Proof.
  unfold step_state. destruct (dr_state r); cbn [fst]; try apply touches_refl.
  - apply transition_touches.
  - unfold step_validating. destruct (negb _); [apply blocked_touches|].
    destruct (fence_close _ _ _ _ _) as [[g|] f].
    + apply (touches_trans _ _ (e <| en_fence := f |>)); [by split|].
      change (dr_id r) with (dr_id (r <| dr_generation := g |>)). apply transition_touches.
    + apply (touches_trans _ _ (e <| en_fence := f |>)); [by split|]. apply blocked_touches.
  - unfold step_admission_closed. destruct (_ <? _); [by split|]. destruct (is_nil _); apply transition_touches.
  - unfold step_evacuating. destruct (negb _); [apply transition_touches|].
    destruct (negb _); [apply blocked_touches|]. destruct (_ && _); [by split|]. cbn [fst].
    eapply touches_log; [apply record_decision_log|]. apply (touches_put (note_evacuation_attempt now r)).
  - unfold step_quiescing. destruct (existsb _ _); [apply transition_touches|].
    destruct (evaluate_quiescence r now e) as [bl ids]. destruct (negb _); [apply blocked_touches|].
    destruct (negb _); [|apply removal_touches]. unfold step_retire. destruct (foldl _ _ _) as [t n]. done.
  - apply verifying_touches.
  - apply restoring_touches.
Qed.

Lemma step_drain_touches r now acts e : touches (dr_id r) e (step_drain r now acts e).1.
Proof.
  unfold step_drain. case_bool_decide; [|apply step_state_touches].
  set (resume := default _ _). set (e1 := if _ : bool then _ else e).
  assert (touches (dr_id r) e e1) as H1.
  { subst e1. destruct (_ && _ && _); [apply removal_evidence_touches|apply touches_refl]. }
  eapply touches_trans; [exact H1|]. clearbody e1.
  destruct (negb _); [apply blocked_touches|].
  match goal with |- context [apply_transition ?a ?b ?c ?d ?f ?g ?h ?i ?j] =>
    pose proof (transition_touches a b c d f g h i j) as H2;
    destruct (apply_transition a b c d f g h i j) as [[] e2] eqn:Ha end; cbn [snd] in H2; [|done].
  eapply touches_trans; [exact H2|]. apply apply_transition_spec in Ha as (r' & He & Hc).
  assert (dr_id r' = dr_id r) as Hid by (destruct Hc as [(_ & -> & _)|[(_ & -> & _)|(_ & -> & _)]]; by rewrite ?dr_id_moved).
  assert (en_drains e2 !! dr_id r = Some r') as -> by (rewrite He, <-Hid; apply om_lookup_insert_eq).
  rewrite <-Hid. apply step_state_touches.
Qed.

(** ** Where a step lands *)

Lemma transition_lands r next now detail oc ins ev rej e :
  ∃ r', en_drains (apply_transition r next now detail oc ins ev rej e).2 !! dr_id r = Some r' ∧
        (r' = r ∨ r' = moved next now detail r).
Proof.
  destruct (apply_transition _ _ _ _ _ _ _ _ _) as [b e'] eqn:Ha; cbn [snd].
  apply apply_transition_spec in Ha as (r' & He & Hc). exists r'. rewrite He. simpl.
  destruct Hc as [(_ & -> & _)|[(_ & -> & _)|(_ & -> & _)]]; rewrite ?dr_id_moved, om_lookup_insert_eq; auto.
Qed.

Lemma blocked_lands r bl now act e :
  ∃ r', en_drains (enter_blocked r bl now act e).2 !! dr_id r = Some r' ∧
        effective_state r' = effective_state r ∧
        (dr_state r' = dr_state r ∨ dr_state r' = DrainState.Blocked).
Proof.
  destruct (enter_blocked_spec r bl now act e) as (r' & He & Hk & Hs & _ & Hst). exists r'. split_and!; [|done..].
  rewrite He, <-(kp_id _ _ Hk). apply om_lookup_insert_eq.
Qed.

(** The drain is not in [s] after the step. *)
Definition avoids (s : DrainState.t) (id : DrainId) (e : engine) : Prop :=
  ∀ r, en_drains e !! id = Some r → dr_state r ≠ s.

Lemma transition_avoids s r next now detail oc ins ev rej e :
  next ≠ s → dr_state r ≠ s → avoids s (dr_id r) (apply_transition r next now detail oc ins ev rej e).2.
Proof.
  intros Hn Hr r' Hl. destruct (transition_lands r next now detail oc ins ev rej e) as (r1 & Hl1 & Hc).
  rewrite Hl1 in Hl. injection Hl as <-. destruct Hc as [-> | ->]; [done|by rewrite dr_state_moved].
Qed.
Lemma blocked_avoids s r bl now act e :
  s ≠ DrainState.Blocked → dr_state r ≠ s → avoids s (dr_id r) (enter_blocked r bl now act e).2.
Proof.
  intros Hn Hr r' Hl. destruct (blocked_lands r bl now act e) as (r1 & Hl1 & _ & Hc).
  rewrite Hl1 in Hl. injection Hl as <-. destruct Hc; congruence.
Qed.
Lemma stored_avoids s r e e' :
  en_drains e' = en_drains e → stored r e → dr_state r ≠ s → avoids s (dr_id r) e'.
Proof. intros Ed Hl Hr r' Hl'. rewrite Ed, Hl in Hl'. by injection Hl' as <-. Qed.
Lemma put_avoids s r e : dr_state r ≠ s → avoids s (dr_id r) (put_drain r e).
Proof. intros Hr r'. rewrite lookup_put, decide_True by done. by intros [= <-]. Qed.

(** Only [Verifying] leads to [Drained]. *)
Lemma removal_avoids r now e :
  stored r e → dr_state r = DrainState.Quiescing → avoids DrainState.Drained (dr_id r) (step_removal r now e).
Proof.
  intros Hl Hs. assert (dr_state r ≠ DrainState.Drained) by by rewrite Hs. unfold step_removal.
  destruct (to_resource _ _) as [node|]; [|by apply blocked_avoids].
  destruct (_ && _); [by apply blocked_avoids|]. destruct (_ && _); [by apply blocked_avoids|].
  destruct (record_removal_evidence _ _ _) as [[] e2]; [by apply transition_avoids|by apply blocked_avoids].
Qed.

Lemma restoring_avoids r now e :
  stored r e → dr_state r = DrainState.Restoring → avoids DrainState.Drained (dr_id r) (step_restoring r now e).
Proof.
  intros Hl Hs. assert (dr_state r ≠ DrainState.Drained) as Hn by by rewrite Hs. unfold step_restoring.
  destruct (_ <? _); [by apply (stored_avoids _ _ e)|].
  set (e1 := if removal_owned_by r e then _ else e). clearbody e1.
  match goal with |- context [apply_transition ?a ?b ?c ?d ?f ?g ?h ?i ?j] =>
    destruct (transition_lands a b c d f g h i j) as (r1 & Hl1 & Hc);
    destruct (apply_transition a b c d f g h i j) as [[] e2] end; [|by apply blocked_avoids].
  cbn [snd] in Hl1. rewrite Hl1. assert (dr_id r1 = dr_id r ∧ dr_state r1 ≠ DrainState.Drained) as [<- Hn1].
  { destruct Hc as [-> | ->]; [done|]. by rewrite dr_id_moved, dr_state_moved. }
  by apply (put_avoids _ (mark_restored now (dr_restore_generation r1) r1)).
Qed.

Lemma step_state_avoids r now acts e :
  stored r e → dr_state r ≠ DrainState.Drained → dr_state r ≠ DrainState.Verifying →
  avoids DrainState.Drained (dr_id r) (step_state r now acts e).1.
Proof.
  intros Hl Hn Hv. unfold step_state. destruct (dr_state r) eqn:Hs; try done; cbn [fst].
  - apply transition_avoids; congruence.
  - unfold step_validating. destruct (negb _); [apply blocked_avoids; congruence|].
    destruct (fence_close _ _ _ _ _) as [[g|] f]; [|apply blocked_avoids; congruence].
    change (dr_id r) with (dr_id (r <| dr_generation := g |>)). apply transition_avoids; [done|]. simpl. congruence.
  - unfold step_admission_closed. destruct (_ <? _); [by apply (stored_avoids _ _ e); [|..|rewrite Hs]|].
    destruct (is_nil _); apply transition_avoids; congruence.
  - unfold step_evacuating. destruct (negb _); [apply transition_avoids; congruence|].
    destruct (negb _); [apply blocked_avoids; congruence|].
    destruct (_ && _); [by apply (stored_avoids _ _ e); [|..|rewrite Hs]|]. cbn [fst].
    apply (put_avoids _ (note_evacuation_attempt now r)). simpl. congruence.
  - unfold step_quiescing. destruct (existsb _ _); [apply transition_avoids; congruence|].
    destruct (evaluate_quiescence r now e) as [bl ids]. destruct (negb _); [apply blocked_avoids; congruence|].
    destruct (negb _); [|by apply removal_avoids]. unfold step_retire. destruct (foldl _ _ _) as [t n].
    by apply (stored_avoids _ _ e); [|..|rewrite Hs].
  - by apply (stored_avoids _ _ e); [|..|rewrite Hs].
  - by apply (stored_avoids _ _ e); [|..|rewrite Hs].
  - by apply (stored_avoids _ _ e); [|..|rewrite Hs].
  - by apply restoring_avoids.
Qed.

(** ** Completion *)

(** What a completed record and the engine it is stored in witness together. *)
Record proved_drained (now : TimePoint) (r : DrainRecord) (e : engine) : Prop := {
  pd_clear : outstanding_for (dr_target r) e = [];
  pd_removed : removal_owned_by r e = true;
  pd_completed_at : dr_completed_at r = now;
  pd_remaining : dr_remaining_protected r = 0;
  pd_evidence : p_require_quiescence_evidence (en_policy e) = true →
    ∃ ev, el_fresh (removal_key r) (evidence_fence now e) (p_evidence_freshness (en_policy e)) (en_evidence e)
            = Some ev ∧
          ev_generation ev = dr_generation r ∧ dr_admission_closed_at r ≤ ev_observed_at ev ∧
          dr_completion_evidence r = ev_seq ev;
}.

Lemma dr_admission_closed_at_moved next at_ detail r :
  dr_admission_closed_at (moved next at_ detail r) =
    if bool_decide (next = DrainState.AdmissionClosed) then at_ else dr_admission_closed_at r.
Proof. unfold moved. by repeat case_bool_decide. Qed.

Lemma put_fields e2 r e :
  e2 ≡ put_drain r e →
  en_topology e2 = en_topology e ∧ en_fence e2 = en_fence e ∧ en_obligations e2 = en_obligations e ∧
  en_evidence e2 = en_evidence e ∧ en_authority e2 = en_authority e ∧ en_policy e2 = en_policy e.
Proof. intros He. by rewrite !He. Qed.

Lemma complete_post r proof now e r' :
  dr_state r = DrainState.Verifying → evaluate_verification r now e = ([], proof) →
  en_drains (step_complete r proof now e) !! dr_id r = Some r' → dr_state r' = DrainState.Drained →
  proved_drained now r' (step_complete r proof now e).
Proof.
  intros Hs Hev. destruct (evaluate_verification_nil _ _ _ _ Hev) as (Hout & Hown & Hproof).
  unfold step_complete. rewrite Hout.
  set (r1 := r <| dr_completed_at := now |> <| dr_remaining_protected := 0 |>
               <| dr_completion_digest := authoritative_digest e |> <| dr_completion_evidence := proof |>).
  change (record_completion now (wrap u32 (zlength (@nil Obligation))) (authoritative_digest e) proof r)
    with (ok_status, r1).
  cbv beta iota. match goal with |- context [apply_transition ?a ?b ?c ?d ?f ?g ?h ?i ?j] =>
    destruct (apply_transition a b c d f g h i j) as [b0 e2] eqn:Ha end. cbn [snd].
  apply apply_transition_spec in Ha as (r2 & He & Hc).
  assert (dr_id r2 = dr_id r ∧ (r2 = r1 ∨ r2 = moved DrainState.Drained now
    "authoritative snapshot proves zero protected dependencies" r1)) as [Hid Hr2].
  { destruct Hc as [(_ & -> & _)|[(_ & -> & _)|(_ & -> & _)]]; rewrite ?dr_id_moved; auto. }
  assert (e2 ≡ put_drain r2 e) as He2 by (rewrite He, bump_log, put_put; [reflexivity|exact Hid]).
  clear He Hc. intros Hl Hd. rewrite He2, lookup_put, decide_True in Hl by done. injection Hl as <-.
  destruct Hr2 as [-> | ->]; [change (dr_state r1) with (dr_state r) in Hd; congruence|].
  destruct (put_fields _ _ _ He2) as (Et & Ef & Eo & Ee & Ea & Ep).
  split; unfold outstanding_for, removal_owned_by, evidence_fence, removal_key; rewrite ?Et, ?Ef, ?Eo, ?Ee, ?Ea, ?Ep;
    autorewrite with drain; rewrite ?dr_admission_closed_at_moved; try done.
  intros Hreq. destruct (Hproof Hreq) as (ev & Hf & Hg & Ho & <-). by exists ev.
Qed.

Lemma verifying_post r now e r' :
  dr_state r = DrainState.Verifying →
  en_drains (step_verifying r now e) !! dr_id r = Some r' → dr_state r' = DrainState.Drained →
  proved_drained now r' (step_verifying r now e).
Proof.
  intros Hs. unfold step_verifying.
  assert (∀ x : list Blocker * EvidenceSeq * engine,
    (x.1.1 = [] → evaluate_verification r now x.2 = ([], x.1.2)) →
    let e' := let '(bl, proof, e1) := x in
      if negb (is_nil bl) then (enter_blocked r bl now "verification-blocked" e1).2
      else step_complete r proof now e1 in
    en_drains e' !! dr_id r = Some r' → dr_state r' = DrainState.Drained → proved_drained now r' e') as Hfin.
  { intros [[bl proof] e1] Hev; cbn [fst snd] in *. destruct bl as [|b bl]; cbn [is_nil negb].
    - apply complete_post; [done|by apply Hev].
    - intros Hl Hd. by destruct (blocked_avoids DrainState.Drained r (b :: bl) now "verification-blocked" e1
        ltac:(done) ltac:(by rewrite Hs) r' Hl). }
  destruct (evaluate_verification r now e) as [bl proof] eqn:Hev. apply Hfin.
  destruct bl as [|b bl]; [by rewrite andb_false_l|]. simpl. destruct (_ && _); [|done].
  destruct (record_removal_evidence r now e) as [[] e1]; [|done].
  destruct (evaluate_verification r now e1) as [bl' proof'] eqn:Hev'. cbn [fst snd]. by intros ->.
Qed.

Lemma step_state_drained r now acts e r' :
  stored r e → dr_state r ≠ DrainState.Drained →
  en_drains (step_state r now acts e).1 !! dr_id r = Some r' → dr_state r' = DrainState.Drained →
  proved_drained now r' (step_state r now acts e).1.
Proof.
  intros Hl Hn Hl' Hd. destruct (decide (dr_state r = DrainState.Verifying)) as [Hs|Hs].
  - unfold step_state in *. rewrite Hs in *. cbn [fst] in *. by apply verifying_post.
  - by destruct (step_state_avoids r now acts e Hl Hn Hs r' Hl').
Qed.

(** The two ways into [step_state]: directly, or after the drain was unblocked
    into the state it held. *)
Lemma step_drain_cases r now acts e (Q : engine → Prop) :
  engine_wf e → stored r e →
  (dr_state r ≠ DrainState.Blocked → Q (step_state r now acts e).1) →
  (∀ e1 bl, dr_state r = DrainState.Blocked → stored r e1 →
     touches (dr_id r) e e1 → en_obligations e1 = en_obligations e → en_topology e1 = en_topology e →
     en_fence e1 = en_fence e → Q (enter_blocked r bl now "stay-blocked" e1).2) →
  (∀ e1 e2, dr_state r = DrainState.Blocked → e2 ≡ put_drain r e1 → stored r e1 → 
     en_obligations e1 = en_obligations e → en_topology e1 = en_topology e → en_fence e1 = en_fence e → Q e2) →
  (∀ e1 e2 s, dr_state r = DrainState.Blocked → dr_blocked_from r = Some s →
     (e1 = e ∨ s = DrainState.Verifying) → evaluate_state r s now e1 = [] →
     en_obligations e1 = en_obligations e → en_topology e1 = en_topology e → en_fence e1 = en_fence e →
     e2 ≡ put_drain (moved s now "blockers cleared" r) e1 → engine_wf e2 →
     Q (step_state (moved s now "blockers cleared" r) now acts e2).1) →
  Q (step_drain r now acts e).1.
Proof.
  intros Hwf Hl Hdirect Hstay Hfail Hresume. unfold step_drain. case_bool_decide as Hb; [|by apply Hdirect].
  destruct (ew_record _ Hwf _ _ Hl) as (_ & _ & (_ & _ & Hbf & Hbl) & _).
  destruct (proj1 Hbf Hb) as [s Hs]. destruct (Hbl _ Hs) as [Hsb Hsl]. rewrite Hs. change (default DrainState.Validating (Some s)) with s.
  set (e1 := if _ : bool then _ else e).
  assert (simulates 0 e e1 ∧ touches (dr_id r) e e1 ∧ en_drains e1 = en_drains e ∧
    en_obligations e1 = en_obligations e ∧ en_topology e1 = en_topology e ∧ en_fence e1 = en_fence e ∧
    (e1 = e ∨ s = DrainState.Verifying)) as (Hsim & Ht & Ed & Eo & Et & Ef & Hor).
  { subst e1. destruct (bool_decide (s = DrainState.Verifying)) eqn:Hv; cbn [andb].
    - apply bool_decide_eq_true in Hv. destruct (_ && _); [|by split_and!; auto using sim_refl, touches_refl].
      pose proof (removal_evidence_touches (dr_id r) r now e).
      destruct (record_removal_evidence r now e) as [st e1] eqn:Hr; cbn [snd] in *.
      destruct (sim_record_removal _ _ _ _ _ Hwf Hr) as (? & ? & _ & ? & ? & ?). by split_and!; auto.
    - by split_and!; auto using sim_refl, touches_refl. }
  assert (stored r e1) as Hl1 by (unfold stored; by rewrite Ed).
  pose proof (sm_wf _ _ _ Hsim) as Hwf1. clearbody e1.
  destruct (evaluate_state r s now e1) as [|b bl] eqn:Hev; cbn [is_nil negb]; [|by apply Hstay].
  pose proof (unblock_legal s Hsb Hsl) as Hleg. 
  destruct (apply_transition _ _ _ _ _ _ _ _ _) as [b e2] eqn:Ha.
  assert (simulates 0 e1 e2) as Hs2.
  { change e2 with (b, e2).2. rewrite <-Ha. apply sim_transition; [done|done|done|by rewrite Hb|by unfold effective_state; rewrite Hb, Hs|].
    unfold phase_of, effective_state. rewrite Hb, Hs. apply phase_move_refl. }
  apply apply_transition_spec in Ha as (r' & He & [(-> & -> & _)|[(_ & _ & ?)|(-> & -> & _)]]).
  - by eapply Hfail.
  - congruence.
  - assert (en_drains e2 !! dr_id r = Some (moved s now "blockers cleared" r)) as ->.
    { rewrite He. rewrite lookup_put, dr_id_moved. by rewrite decide_True. }
    eapply Hresume; try done. apply Hs2.
Qed.

Lemma step_drain_drained r now acts e r' :
  engine_wf e → stored r e → dr_state r ≠ DrainState.Drained →
  en_drains (step_drain r now acts e).1 !! dr_id r = Some r' → dr_state r' = DrainState.Drained →
  proved_drained now r' (step_drain r now acts e).1.
Proof.
  intros Hwf Hl Hn. apply (step_drain_cases r now acts e
    (λ e', en_drains e' !! dr_id r = Some r' → dr_state r' = DrainState.Drained → proved_drained now r' e'));
    [done|done|..].
  - intros _. by apply step_state_drained.
  - intros e1 bl Hb Hl1 _ _ _ _ Hl' Hd.
    by destruct (blocked_avoids DrainState.Drained r bl now "stay-blocked" e1 ltac:(done) Hn r' Hl').
  - intros e1 e2 Hb He _ _ _ _ Hl' Hd. rewrite He in Hl'.
    by destruct (put_avoids DrainState.Drained r e1 Hn r' Hl').
  - intros e1 e2 s Hb Hs _ _ _ _ _ He Hwf2 Hl' Hd.
    destruct (ew_record _ Hwf _ _ Hl) as (_ & _ & (_ & _ & _ & Hbl) & _). destruct (Hbl _ Hs) as [_ Hsl].
    apply (step_state_drained (moved s now "blockers cleared" r) now acts e2); [| |by rewrite dr_id_moved|done].
    + unfold stored. rewrite He, lookup_put. by rewrite decide_True.
    + rewrite dr_state_moved. by intros ->.
Qed.

(** C10: a drain is declared complete only against proof: whenever a scheduling
    step leaves a drain in [Drained] that was not there before, no protected
    obligation on its target is outstanding, the target is out of service behind
    the fence this drain closed, the record says so (zero remaining, completed
    now), and, where the policy asks for evidence, the record names a removal
    observation that is fresh, of this drain's generation, and taken after
    admission closed. *)
Theorem completion_is_proved r now acts e r' :
  engine_wf e → stored r e → dr_state r ≠ DrainState.Drained →
  en_drains (step_drain r now acts e).1 !! dr_id r = Some r' → dr_state r' = DrainState.Drained →
  proved_drained now r' (step_drain r now acts e).1.
Proof. apply step_drain_drained. Qed.

Lemma completion_is_proved_witness :
  let e' := (step_drain (record_at 1 Demo.verifying_engine) (35 * Demo.second) no_actions Demo.verifying_engine).1 in
  proved_drained (35 * Demo.second) (record_at 1 e') e'.
Proof.
  apply (completion_is_proved (record_at 1 Demo.verifying_engine));
    [by apply history_wf, verifying_history|vm_compute; reflexivity|vm_compute; discriminate|vm_compute; reflexivity..].
Defined.

(** ** Closing admission *)

Lemma holds_moved next now detail r :
  next ≠ DrainState.Blocked → holds_fence (moved next now detail r) = is_fence_holding_state next.
Proof. intros Hn. by rewrite holds_fence_effective, effective_moved. Qed.

(** A token the registry vouches for at [now]. *)
Record token_in_force (token : AuthorityToken) (now : TimePoint) (a : AuthorityRegistry) : Prop := {
  tf_unrevoked : at_revoked token = false;
  tf_epoch : at_epoch token = ar_epoch a;
  tf_generation : at_generation token = scope_generation (at_scope token) a;
  tf_unexpired : expired_at token now = false;
}.

(** A drain's authority when it closes admission: it names a token, and a token
    the live incarnation issued is in force.  One that an earlier incarnation
    issued is not checked again: after a restart the accepted drain is its own
    authority. *)
Definition authority_holds (r : DrainRecord) (now : TimePoint) (e : engine) : Prop :=
  dr_authority r ≠ 0 ∧
  ∀ token, ar_find (dr_authority r) (en_authority e) = Some token →
    at_incarnation token = ar_incarnation (en_authority e) → token_in_force token now (en_authority e).

Lemma start_authority_nil r now e :
  engine_wf e → start_authority_blockers r now e = [] → authority_holds r now e.
Proof.
  intros Hwf. unfold start_authority_blockers. destruct (Z.eqb_spec (dr_authority r) 0) as [|Hne]; [done|].
  intros H. split; [done|]. intros token Hf Hi. rewrite Hf, (proj2 (Z.eqb_eq _ _) Hi) in H.
  unfold require_authority in H. rewrite (proj2 (Z.eqb_neq _ _) Hne), Hf in H.
  destruct (ar_validate _ _ _) as [[]|] eqn:Hv; [|done].
  assert (at_id token = dr_authority r) as Hid by
    by destruct (ew_authority _ Hwf) as (_ & _ & _ & _ & _ & _ & H7); apply H7 in Hf as [].
  apply ar_validate_ok in Hv as ((t & Ht & Hr) & _ & ? & ? & ?). rewrite Hid, Hf in Ht.
  injection Ht as ->. by split.
Qed.

(** What has been checked when a drain gets hold of its fence. *)
Record may_close (now : TimePoint) (r : DrainRecord) (e : engine) : Prop := {
  mc_authority : authority_holds r now e;
  mc_free : ∀ entry, fence_entry (dr_target r) (en_fence e) = Some entry → fe_closed entry = true →
    fe_drain entry = dr_id r;
  mc_in_service : ∃ n, to_resource (tg_id (dr_target r)) (en_topology e) = Some n ∧ in_service n = true;
  mc_domain : active_drains_in_domain (tg_domain (dr_target r)) (dr_id r) e
    < p_max_concurrent_drains_per_domain (en_policy e);
  mc_order : ∀ front, frontmost_waiting r e = Some front → dr_id r ≤ front;
  mc_safe : removal_safe (en_topology e) (set_add (tg_id (dr_target r)) ∅)
    (p_capacity_headroom_numerator (en_policy e)) (p_capacity_headroom_denominator (en_policy e));
}.

Lemma evaluate_start_may_close r now e :
  engine_wf e → evaluate_start r now e = [] → may_close now r e.
Proof.
  intros Hwf (H1 & H2 & H3 & H4 & H5 & H6)%evaluate_start_nil. split; try done; [by apply start_authority_nil|].
  by apply validate_removal_many_safe; [apply Hwf|].
Qed.

(** What closing leaves behind. *)
Record closed_by (now : TimePoint) (r r' : DrainRecord) (e e' : engine) : Prop := {
  cb_state : dr_state r' = DrainState.AdmissionClosed;
  cb_generation : dr_generation r' = fence_generation (dr_target r) (en_fence e) + 1;
  cb_closed_at : dr_admission_closed_at r' = now;
  cb_fence : ∃ entry, fence_entry (dr_target r) (en_fence e') = Some entry ∧ fe_closed entry = true ∧
    fe_drain entry = dr_id r ∧ fe_generation entry = dr_generation r';
}.

Lemma validating_post r now e r' :
  engine_wf e → fence_generation (dr_target r) (en_fence e) < int_max u64 →
  dr_state r = DrainState.Validating →
  en_drains (step_validating r now e) !! dr_id r = Some r' → holds_fence r' = true →
  evaluate_start r now e = [] ∧ closed_by now r r' e (step_validating r now e).
Proof.
  intros Hwf Hg Hs. unfold step_validating.
  assert (∀ bl act e1, en_drains (enter_blocked r bl now act e1).2 !! dr_id r = Some r' → holds_fence r' = true → False) as Hbl.
  { intros bl act e1 Hl Hh. destruct (blocked_lands r bl now act e1) as (r1 & Hl1 & He & _).
    rewrite Hl1 in Hl. injection Hl as <-. rewrite holds_fence_effective, He in Hh.
    unfold effective_state in Hh. by rewrite Hs in Hh. }
  destruct (evaluate_start r now e) as [|b bl]; cbn [is_nil negb]; [|by intros Hl Hh; destruct (Hbl _ _ _ Hl Hh)].
  destruct (fence_close _ _ _ _ _) as [[g|err] f] eqn:Hc; [|by intros Hl Hh; destruct (Hbl _ _ _ Hl Hh)].
  apply fence_close_cases in Hc as [[? _]|(entry & Hok & _ & -> & Hcl & Hgen & Hd & _)];
    [done| |apply Hwf|lia]. injection Hok as ->.
  intros Hl Hh. split; [done|].
  match type of Hl with context [apply_transition ?a ?b ?c ?d ?f ?g ?h ?i ?j] =>
    destruct (apply_transition a b c d f g h i j) as [b0 e2] eqn:Ha end. cbn [snd] in *.
  apply apply_transition_spec in Ha as (r2 & He & Hcase).
  assert (en_drains e2 !! dr_id r = Some r2 ∧
    (r2 = r <| dr_generation := fence_generation (dr_target r) (en_fence e) + 1 |> ∨
     r2 = moved DrainState.AdmissionClosed now "admission closed"
            (r <| dr_generation := fence_generation (dr_target r) (en_fence e) + 1 |>))) as [Hl2 Hr2].
  { destruct Hcase as [(_ & -> & _)|[(_ & -> & _)|(_ & -> & _)]]; (split; [rewrite He, lookup_put|auto]);
      rewrite ?dr_id_moved; by rewrite decide_True. }
  rewrite Hl2 in Hl. injection Hl as ->. destruct Hr2 as [-> | ->].
  { rewrite holds_fence_effective in Hh. unfold effective_state in Hh. simpl in Hh. by rewrite Hs in Hh. }
  assert (en_fence e2 = <[dr_target r := entry]> (en_fence e)) as Ef by by rewrite He.
  split.
  - apply dr_state_moved.
  - by rewrite dr_generation_moved.
  - by rewrite dr_admission_closed_at_moved.
  - exists entry. rewrite Ef, dr_generation_moved. unfold fence_entry. by rewrite om_lookup_insert_eq.
Qed.

Lemma step_state_waits r now acts e r' :
  stored r e → holds_fence r = false → dr_state r ≠ DrainState.Validating →
  en_drains (step_state r now acts e).1 !! dr_id r = Some r' → holds_fence r' = false.
Proof.
  intros Hl Hh Hv. assert (∀ e', en_drains e' = en_drains e → en_drains e' !! dr_id r = Some r' → holds_fence r' = false) as Hsame.
  { intros e' -> Hl'. rewrite Hl in Hl'. by injection Hl' as <-. }
  unfold step_state. rewrite holds_fence_effective in Hh. unfold effective_state in Hh.
  destruct (dr_state r) eqn:Hs; try done; cbn [fst]; try (by apply Hsame).
  - intros Hl'. unfold step_requested in Hl'.
    match type of Hl' with context [apply_transition ?a ?b ?c ?d ?f ?g ?h ?i ?j] =>
      destruct (transition_lands a b c d f g h i j) as (r1 & Hl1 & Hc) end.
    rewrite Hl1 in Hl'. injection Hl' as <-. destruct Hc as [-> | ->]; [|by rewrite holds_moved].
    rewrite holds_fence_effective. unfold effective_state. by rewrite Hs.
  - unfold step_restoring. destruct (_ <? _); [by apply Hsame|].
    set (e1 := if removal_owned_by r e then _ else e). clearbody e1.
    match goal with |- context [apply_transition ?a ?b ?c ?d ?f ?g ?h ?i ?j] =>
      destruct (transition_lands a b c d f g h i j) as (r1 & Hl1 & Hc);
      destruct (apply_transition a b c d f g h i j) as [[] e2] end; cbn [snd] in Hl1.
    + rewrite Hl1. assert (dr_id r1 = dr_id r ∧ holds_fence r1 = false) as [<- Hn1].
      { destruct Hc as [-> | ->]; [|by rewrite dr_id_moved, holds_moved].
        split; [done|]. rewrite holds_fence_effective. unfold effective_state. by rewrite Hs. }
      rewrite lookup_put, decide_True by done. by intros [= <-].
    + intros Hl'. match type of Hl' with context [enter_blocked ?a ?b ?c ?d ?e] =>
        destruct (blocked_lands a b c d e) as (r2 & Hl2 & Heff & _) end.
      rewrite Hl2 in Hl'. injection Hl' as <-. rewrite holds_fence_effective, Heff. unfold effective_state. by rewrite Hs.
Qed.



(** ** Taking the resource out of service *)

Lemma quiescence_verdict_clean r now e ob :
  quiescence_verdict r now e ob = (None, None) → ob_state ob = ObligationState.Retired.
Proof. unfold quiescence_verdict. destruct (ob_state ob); try done; intros H; repeat case_in H; done. Qed.

Lemma omap_nil {A B} (f : A → option B) l : base.omap f l = [] ↔ ∀ x, x ∈ l → f x = None.
Proof.
  induction l as [|x l IH]; cbn; [split; [by intros _ x ?%not_elem_of_nil|done]|].
  destruct (f x) eqn:E; split.
  - done.
  - intros H. rewrite (H x) in E; [done|by left].
  - intros H y [->|?]%elem_of_cons; [done|]. by apply IH.
  - intros H. apply IH. intros. apply H. by right.
Qed.

(** Nothing to report and nothing to retire: the target is quiescent. *)
Lemma evaluate_quiescence_nil r now e :
  engine_wf e → evaluate_quiescence r now e = ([], []) → outstanding_for (dr_target r) e = [].
Proof.
  intros Hwf. unfold evaluate_quiescence. set (vs := quiescence_verdict r now e <$> _).
  destruct (negb (is_nil (base.omap fst vs)) || negb (is_nil (base.omap snd vs))) eqn:Hb.
  { intros [= E1 E2]. by rewrite E1, E2 in Hb. }
  intros _. apply orb_false_iff in Hb as [H1%negb_false_iff%is_nil_true H2%negb_false_iff%is_nil_true].
  rewrite omap_nil in H1. rewrite omap_nil in H2. destruct (outstanding_for (dr_target r) e) as [|ob l] eqn:Ho; [done|].
  assert (quiescence_verdict r now e ob ∈ vs) as Hv.
  { subst vs. by left. }
  specialize (H1 _ Hv). specialize (H2 _ Hv).
  assert (ob ∈ outstanding_for (dr_target r) e) as Hin by (rewrite Ho; by left).
  apply outstanding_elem in Hin as (id & _ & _ & Hne & _); [|apply Hwf].
  destruct Hne. apply (quiescence_verdict_clean r now e).
  rewrite (surjective_pairing (quiescence_verdict r now e ob)). by rewrite H1, H2.
Qed.

Lemma transition_topology r next now detail oc ins ev rej e :
  en_topology (apply_transition r next now detail oc ins ev rej e).2 = en_topology e.
Proof.
  destruct (apply_transition _ _ _ _ _ _ _ _ _) as [b e'] eqn:Ha; cbn [snd].
  apply apply_transition_spec in Ha as (r' & He & _). by destruct (put_fields _ _ _ He).
Qed.
Lemma blocked_topology r bl now act e : en_topology (enter_blocked r bl now act e).2 = en_topology e.
Proof. destruct (enter_blocked_spec r bl now act e) as (r' & He & _). by destruct (put_fields _ _ _ He). Qed.
Lemma removal_evidence_topology r now e : en_topology (record_removal_evidence r now e).2 = en_topology e.
Proof.
  unfold record_removal_evidence. destruct (increment_checked _ _); [|done]. by destruct (el_record _ _ _ _) as [[] l].
Qed.

(** A drain that reopened admission never owns a removal any more. *)
Lemma leaving_not_owner r e :
  protocol_inv (view_of e) → stored r e → effective_state r = DrainState.Restoring → removal_owned_by r e = false.
Proof.
  intros HI Hl Hs. unfold removal_owned_by. destruct (to_resource _ _) as [n|]; [|done].
  destruct (negb _); [done|]. destruct (fence_entry _ _) as [entry|] eqn:Hf; [|done].
  apply not_true_is_false. intros [Hc Hd%Z.eqb_eq]%andb_true_iff.
  assert (fence_view (en_fence e) (dr_target r) = (fe_generation entry, Some (dr_id r))) as Hv
    by (apply fence_view_closed; by exists entry).
  destruct (pi_left _ HI (dr_id r) (dr_target r) (phase_of r) (dr_generation r)) as [Hno _].
  - simpl. by rewrite Hl.
  - left. unfold phase_of. by rewrite Hs.
  - apply Hno. change (v_fence (view_of e) (dr_target r)) with (fence_view (en_fence e) (dr_target r)). by rewrite Hv.
Qed.

Lemma verifying_topology r now e : en_topology (step_verifying r now e) = en_topology e.
Proof.
  unfold step_verifying. destruct (evaluate_verification r now e) as [bl proof].
  assert (∀ x : list Blocker * EvidenceSeq * engine, en_topology x.2 = en_topology e →
    en_topology (let '(bl, proof, e1) := x in
      if negb (is_nil bl) then (enter_blocked r bl now "verification-blocked" e1).2
      else step_complete r proof now e1) = en_topology e) as Hfin.
  { intros [[b p] e1] <-. destruct (negb _); [apply blocked_topology|]. unfold step_complete.
    destruct (record_completion _ _ _ _ _) as [[] r1]; [|apply blocked_topology]. by rewrite transition_topology. }
  apply Hfin. destruct (_ && _ && _); [|done]. pose proof (removal_evidence_topology r now e).
  destruct (record_removal_evidence r now e) as [[] e1]; cbn [snd] in *; [|done].
  by destruct (evaluate_verification r now e1).
Qed.

(** The removal step, and the only one that changes the topology. *)
Lemma removal_topology r now e :
  en_topology (step_removal r now e) = en_topology e ∨
  (tv_ok (validate_removal (tg_id (dr_target r)) (p_capacity_headroom_numerator (en_policy e))
            (p_capacity_headroom_denominator (en_policy e)) (en_topology e)) = true ∧
   en_topology (step_removal r now e) =
     (to_set_status (tg_id (dr_target r)) ResourceStatus.Unavailable (en_topology e)).2).
Proof.
  unfold step_removal. destruct (to_resource _ _) as [node|]; [|left; apply blocked_topology].
  destruct (_ && _); [left; apply blocked_topology|].
  destruct (in_service node) eqn:Hsv; cbn [andb]; [destruct (tv_ok _) eqn:Hv; cbn [negb]|].
  2: left; apply blocked_topology.
  - right. split; [done|]. pose proof (removal_evidence_topology r now (e <| en_topology :=
      (to_set_status (tg_id (dr_target r)) ResourceStatus.Unavailable (en_topology e)).2 |>)) as Ht.
    destruct (record_removal_evidence _ _ _) as [[] e2]; cbn [snd] in Ht;
      [rewrite transition_topology|rewrite blocked_topology]; exact Ht.
  - left. pose proof (removal_evidence_topology r now e) as Ht.
    destruct (record_removal_evidence _ _ _) as [[] e2]; cbn [snd] in Ht;
      [rewrite transition_topology|rewrite blocked_topology]; exact Ht.
Qed.

(** Why a step changed the topology. *)
Record taken_down (r : DrainRecord) (e : engine) (t' : Topology) : Prop := {
  td_quiet : outstanding_for (dr_target r) e = [];
  td_safe : removal_safe (en_topology e) (set_add (tg_id (dr_target r)) ∅)
    (p_capacity_headroom_numerator (en_policy e)) (p_capacity_headroom_denominator (en_policy e));
  td_only : t' = (to_set_status (tg_id (dr_target r)) ResourceStatus.Unavailable (en_topology e)).2;
}.

Lemma step_state_topology r now acts e :
  engine_wf e → (effective_state r = DrainState.Restoring → removal_owned_by r e = false) →
  en_topology (step_state r now acts e).1 = en_topology e ∨
  taken_down r e (en_topology (step_state r now acts e).1).
Proof.
  intros Hwf Hown. unfold step_state, effective_state in *. destruct (dr_state r) eqn:Hs; cbn [fst]; try (by left).
  - left. apply transition_topology.
  - left. unfold step_validating. destruct (negb _); [apply blocked_topology|].
    destruct (fence_close _ _ _ _ _) as [[g|] f]; [by rewrite transition_topology|by rewrite blocked_topology].
  - left. unfold step_admission_closed. destruct (_ <? _); [done|]. destruct (is_nil _); apply transition_topology.
  - left. unfold step_evacuating. destruct (negb _); [apply transition_topology|].
    destruct (negb _); [apply blocked_topology|]. by destruct (_ && _).
  - unfold step_quiescing. destruct (existsb _ _); [left; apply transition_topology|].
    destruct (evaluate_quiescence r now e) as [bl ids] eqn:Hq.
    destruct bl; cbn [is_nil negb]; [|left; apply blocked_topology].
    destruct ids; cbn [is_nil negb]; [|left; unfold step_retire; by destruct (foldl _ _ _)].
    destruct (removal_topology r now e) as [?|[Hv Ht]]; [by left|right].
    split; [by eapply evaluate_quiescence_nil|by apply validate_removal_many_safe; [apply Hwf|]|done].
  - left. apply verifying_topology.
  - left. unfold step_restoring. destruct (_ <? _); [done|]. rewrite Hown by done.
    match goal with |- context [apply_transition ?a ?b ?c ?d ?f ?g ?h ?i ?j] =>
      pose proof (transition_topology a b c d f g h i j) as Ht;
      destruct (apply_transition a b c d f g h i j) as [[] e2] end; cbn [snd] in Ht.
    + destruct (en_drains e2 !! dr_id r); exact Ht.
    + by rewrite blocked_topology.
Qed.

Lemma step_drain_topology r now acts e :
  engine_wf e → protocol_inv (view_of e) → stored r e →
  en_topology (step_drain r now acts e).1 = en_topology e ∨
  taken_down r e (en_topology (step_drain r now acts e).1).
Proof.
  intros Hwf HI Hl. apply (step_drain_cases r now acts e
    (λ e', en_topology e' = en_topology e ∨ taken_down r e (en_topology e'))); [done|done|..].
  - intros _. apply step_state_topology; [done|]. by apply leaving_not_owner.
  - intros e1 bl _ _ _ _ Et _. left. by rewrite blocked_topology.
  - intros e1 e2 _ He _ _ Et _. left. by rewrite He.
  - intros e1 e2 s Hb Hs Hor _ Eo Et Ef He Hwf2. destruct (put_fields _ _ _ He) as (Et2 & Ef2 & Eo2 & _ & _ & Ep2).
    set (r1 := moved s now "blockers cleared" r) in *.
    assert (dr_target r1 = dr_target r) as Htg by apply dr_target_moved.
    assert (dr_id r1 = dr_id r) as Hid by apply dr_id_moved.
    destruct (step_state_topology r1 now acts e2) as [Ht|[T1 T2 T3]]; [done| |left; congruence|].
    + intros Hs1. assert (effective_state r = DrainState.Restoring) as Hs2.
      { unfold effective_state in *. rewrite Hb, Hs. subst r1. rewrite dr_state_moved, dr_blocked_from_moved in Hs1.
        destruct s; try done. rewrite bool_decide_true in Hs1 by done. simpl in Hs1. by rewrite Hb in Hs1. }
      rewrite <-(leaving_not_owner r e HI Hl Hs2). unfold removal_owned_by. by rewrite Htg, Hid, Et2, Et, Ef2, Ef.
    + destruct Hor as [->|Hv].
      * right. rewrite Htg, Et2, Ep2 in *. split; [|done|done]. unfold outstanding_for in *. by rewrite <-Eo2.
      * left. subst s. unfold step_state. assert (dr_state r1 = DrainState.Verifying) as -> by apply dr_state_moved.
        cbn [fst]. by rewrite verifying_topology, Et2.
Qed.



(** ** Retiring obligations *)

Lemma transition_obligations r next now detail oc ins ev rej e :
  en_obligations (apply_transition r next now detail oc ins ev rej e).2 = en_obligations e.
Proof.
  destruct (apply_transition _ _ _ _ _ _ _ _ _) as [b e'] eqn:Ha; cbn [snd].
  apply apply_transition_spec in Ha as (r' & He & _). by rewrite He.
Qed.
Lemma blocked_obligations r bl now act e : en_obligations (enter_blocked r bl now act e).2 = en_obligations e.
Proof. destruct (enter_blocked_spec r bl now act e) as (r' & He & _). by rewrite He. Qed.
Lemma removal_evidence_obligations r now e : en_obligations (record_removal_evidence r now e).2 = en_obligations e.
Proof.
  unfold record_removal_evidence. destruct (increment_checked _ _); [|done]. by destruct (el_record _ _ _ _) as [[] l].
Qed.

(** The evidence on which an obligation may be retired. *)
Record release_proved (now : TimePoint) (r : DrainRecord) (ob : Obligation) (e : engine) : Prop := {
  rp_dependent : dr_target r ∈ ob_dependencies ob;
  rp_evidence : ∃ ev,
    el_find (MkEvidenceKey EvidenceKind.ObligationReleased (dr_id r) (ob_id ob) "")
      (ob_release_evidence ob) (en_evidence e) = Some ev ∧
    is_fresh ev (evidence_fence now e) (p_evidence_freshness (en_policy e)) = true ∧
    ev_generation ev = dr_generation r ∧ dr_admission_closed_at r ≤ ev_observed_at ev;
}.

Lemma quiescence_verdict_retirable r now e ob id :
  (quiescence_verdict r now e ob).2 = Some id →
  id = ob_id ob ∧ ∃ ev,
    el_find (MkEvidenceKey EvidenceKind.ObligationReleased (dr_id r) (ob_id ob) "")
      (ob_release_evidence ob) (en_evidence e) = Some ev ∧
    is_fresh ev (evidence_fence now e) (p_evidence_freshness (en_policy e)) = true ∧
    ev_generation ev = dr_generation r ∧ dr_admission_closed_at r ≤ ev_observed_at ev.
Proof.
  unfold quiescence_verdict. destruct (ob_state ob); try done;
    (destruct (_ =? 0); [done|]; destruct (el_find _ _ _) as [ev|]; [|done];
     destruct (is_fresh _ _ _) eqn:Hf; [|done]; cbn [negb];
     destruct (Z.eqb_spec (ev_generation ev) (dr_generation r)); [|done]; cbn [negb];
     destruct (Z.ltb_spec (ev_observed_at ev) (dr_admission_closed_at r)); [done|];
     intros [= <-]; split; [done|]; by exists ev).
Qed.

Lemma retirable_proved r now e ids bl id ob :
  engine_wf e → evaluate_quiescence r now e = (bl, ids) → id ∈ ids →
  ot_find id (en_obligations e) = Some ob → release_proved now r ob e.
Proof.
  intros Hwf. unfold evaluate_quiescence. set (vs := quiescence_verdict r now e <$> _). intros Hq Hin Hf.
  assert (id ∈ base.omap snd vs) as Hv.
  { destruct (_ || _); [by injection Hq as _ <-|]. repeat case_in Hq; injection Hq as _ <-; by apply not_elem_of_nil in Hin. }
  apply list_elem_of_omap in Hv as (v & Hv & Hid). subst vs. apply list_elem_of_fmap in Hv as (ob1 & -> & Ho).
  apply quiescence_verdict_retirable in Hid as [-> Hev].
  apply outstanding_elem in Ho as (id1 & Hf1 & _ & _ & Hdep); [|apply Hwf].
  destruct (proj2 (proj2 (ew_obligations _ Hwf)) _ _ Hf1) as (Hid1 & _). rewrite Hid1, Hf1 in Hf.
  injection Hf as <-. by split.
Qed.

Lemma fold_retire now ids t n o ob' :
  ot_find o (foldl (retire_one now) (t, n) ids).1 = Some ob' →
  ∃ ob, ot_find o t = Some ob ∧ (ob' = ob ∨ (o ∈ ids ∧ ob_state ob' = ObligationState.Retired)).
Proof.
  revert t n. induction ids as [|id ids IH]; intros t n; cbn [foldl]; [by eauto|].
  destruct (retire_one now (t, n) id) as [t1 n1] eqn:Hr. intros Hf. apply IH in Hf as (ob1 & Hf1 & Hc).
  assert (∃ ob, ot_find o t = Some ob ∧ (ob1 = ob ∨ (o = id ∧ ob_state ob1 = ObligationState.Retired))) as (ob & Hf & Hc1).
  { revert Hr. unfold retire_one. destruct (ot_find id t) as [ob|] eqn:Hi; [|intros [= <- _]; eauto].
    destruct (apply_state _ _ _ _ _) as [st ob2] eqn:Ha. intros [= <- _]. rewrite ot_find_store in Hf1.
    case_decide as D; [|by eauto]. subst o. injection Hf1 as <-. exists ob. split; [done|].
    apply apply_state_cases in Ha as [->|(_ & _ & _ & _ & ? & _)]; auto. }
  exists ob. split; [done|]. destruct Hc as [->|[? ?]]; [|by right; split; [right|]].
  destruct Hc1 as [->|[-> ?]]; [by left|right; split; [left|done]].
Qed.

Lemma step_state_retires r now acts e o ob' :
  engine_wf e → ot_find o (en_obligations (step_state r now acts e).1) = Some ob' →
  ∃ ob, ot_find o (en_obligations e) = Some ob ∧
        (ob' = ob ∨ (dr_state r = DrainState.Quiescing ∧ ob_state ob' = ObligationState.Retired ∧ release_proved now r ob e)).
Proof.
  intros Hwf. assert (∀ e', en_obligations e' = en_obligations e → ot_find o (en_obligations e') = Some ob' →
    ∃ ob, ot_find o (en_obligations e) = Some ob ∧
      (ob' = ob ∨ (dr_state r = DrainState.Quiescing ∧ ob_state ob' = ObligationState.Retired ∧ release_proved now r ob e)))
    as Hsame by (intros e' -> ?; eauto).
  unfold step_state. destruct (dr_state r) eqn:Hs; cbn [fst]; try (by apply Hsame).
  - apply Hsame, transition_obligations.
  - apply Hsame. unfold step_validating. destruct (negb _); [apply blocked_obligations|].
    destruct (fence_close _ _ _ _ _) as [[g|] f]; [by rewrite transition_obligations|by rewrite blocked_obligations].
  - apply Hsame. unfold step_admission_closed. destruct (_ <? _); [done|]. destruct (is_nil _); apply transition_obligations.
  - apply Hsame. unfold step_evacuating. destruct (negb _); [apply transition_obligations|].
    destruct (negb _); [apply blocked_obligations|]. by destruct (_ && _).
  - unfold step_quiescing. destruct (existsb _ _); [apply Hsame, transition_obligations|].
    destruct (evaluate_quiescence r now e) as [bl ids] eqn:Hq.
    destruct (negb (is_nil bl)); [apply Hsame, blocked_obligations|].
    destruct (negb (is_nil ids)).
    + unfold step_retire. pose proof (fold_retire now ids (en_obligations e) 0 o ob') as Hfold.
      destruct (foldl _ _ _) as [t n]. simpl. intros (ob & Hf & Hc)%Hfold. exists ob. split; [done|].
      destruct Hc as [->|[Hin Hst]]; [by left|right]. split_and!; [done|done|]. by eapply retirable_proved.
    + apply Hsame. unfold step_removal. destruct (to_resource _ _) as [node|]; [|apply blocked_obligations].
      destruct (_ && _); [apply blocked_obligations|]. destruct (_ && _); [apply blocked_obligations|].
      set (e1 := if in_service node then _ else e).
      assert (en_obligations e1 = en_obligations e) as <- by (subst e1; by destruct (in_service node)).
      pose proof (removal_evidence_obligations r now e1) as Ho.
      destruct (record_removal_evidence _ _ _) as [[] e2]; cbn [snd] in Ho;
        [rewrite transition_obligations|rewrite blocked_obligations]; exact Ho.
  - apply Hsame. unfold step_verifying. destruct (evaluate_verification r now e) as [bl proof].
    assert (∀ x : list Blocker * EvidenceSeq * engine, en_obligations x.2 = en_obligations e →
      en_obligations (let '(bl, proof, e1) := x in
        if negb (is_nil bl) then (enter_blocked r bl now "verification-blocked" e1).2
        else step_complete r proof now e1) = en_obligations e) as Hfin.
    { intros [[b p] e1] <-. destruct (negb _); [apply blocked_obligations|]. unfold step_complete.
      destruct (record_completion _ _ _ _ _) as [[] r1]; [|apply blocked_obligations]. by rewrite transition_obligations. }
    apply Hfin. destruct (_ && _ && _); [|done]. pose proof (removal_evidence_obligations r now e).
    destruct (record_removal_evidence r now e) as [[] e1]; cbn [snd] in *; [|done].
    by destruct (evaluate_verification r now e1).
  - apply Hsame. unfold step_restoring. destruct (_ <? _); [done|].
    set (e1 := if removal_owned_by r e then _ else e).
    assert (en_obligations e1 = en_obligations e) as <- by (subst e1; by destruct (removal_owned_by r e)).
    match goal with |- context [apply_transition ?a ?b ?c ?d ?f ?g ?h ?i ?j] =>
      pose proof (transition_obligations a b c d f g h i j) as Ht;
      destruct (apply_transition a b c d f g h i j) as [[] e2] end; cbn [snd] in Ht.
    + destruct (en_drains e2 !! dr_id r); exact Ht.
    + by rewrite blocked_obligations.
Qed.

(** C13: a scheduling step changes an obligation only to retire it, and only on
    proof: the obligation depends on the drain's target and its release evidence
    is recorded for this drain and this obligation, fresh, of this drain's
    generation, and observed after admission closed. *)
Theorem retirement_is_proved r now acts e o ob' :
  engine_wf e → stored r e → ot_find o (en_obligations (step_drain r now acts e).1) = Some ob' →
  ∃ ob, ot_find o (en_obligations e) = Some ob ∧
        (ob' = ob ∨ (ob_state ob' = ObligationState.Retired ∧ release_proved now r ob e)).
Proof.
  intros Hwf Hl. apply (step_drain_cases r now acts e (λ e', ot_find o (en_obligations e') = Some ob' →
    ∃ ob, ot_find o (en_obligations e) = Some ob ∧
      (ob' = ob ∨ (ob_state ob' = ObligationState.Retired ∧ release_proved now r ob e)))); [done|done|..].
  - intros _ Hf. apply step_state_retires in Hf as (ob & ? & Hc); [|done]. exists ob. naive_solver.
  - intros e1 bl _ _ _ Eo _ _. rewrite blocked_obligations, Eo. eauto.
  - intros e1 e2 _ He _ Eo _ _. rewrite He. simpl. rewrite Eo. eauto.
  - intros e1 e2 s Hb Hs Hor _ Eo Et Ef He Hwf2 Hf.
    destruct (put_fields _ _ _ He) as (_ & _ & Eo2 & Ee2 & Ea2 & Ep2).
    apply step_state_retires in Hf as (ob & Hf & Hc); [|done]. exists ob. rewrite Eo2, Eo in Hf. split; [done|].
    destruct Hc as [->|(Hq & Hst & Hp)]; [by left|right]. split; [done|]. rewrite dr_state_moved in Hq. subst s.
    destruct Hor as [->|?]; [|done]. destruct Hp as [P1 P2].
    unfold evidence_fence in P2. rewrite dr_id_moved, dr_target_moved, dr_generation_moved, dr_admission_closed_at_moved,
      Ee2, Ea2, Ep2 in *. by split.
Qed.

Lemma retirement_is_proved_witness :
  let e := exec None OpAdvance (32 * Demo.second) Demo.released_engine in
  let e' := (step_drain (record_at 1 e) (33 * Demo.second) no_actions e).1 in
  ∃ ob, ot_find 1 (en_obligations e) = Some ob ∧
    (default Demo.flow (ot_find 1 (en_obligations e')) = ob ∨
     (ob_state (default Demo.flow (ot_find 1 (en_obligations e'))) = ObligationState.Retired ∧
      release_proved (33 * Demo.second) (record_at 1 e) ob e)).
Proof.
  intros e. apply (retirement_is_proved (record_at 1 e) (33 * Demo.second) no_actions e 1);
    [|vm_compute; reflexivity..].
  apply history_wf. eapply history_app; [by apply released_history|].
  eapply (history_step _ None _ OpAdvance); [done|by apply headroomb_ok; vm_compute|done|apply history_nil].
Defined.
