(* ===== verification/Removal.v ===== *)
(** * Completed targets stay out of service

    A drain completes only when its target has been taken out of service.  No
    operation of the engine puts it back: only a status report of the embedding
    program can.  The audit relies on it. *)

From S2P Require Import Prelude Containers Checked Result Text Identity Lifecycle Obligation Evidence.
From S2P Require Import Authority Admission Topology TopologyFacts Policy Decision Protocol Engine.
From S2P Require Import Snapshot EngineStep EngineOps EngineInv Restart EngineRefine EngineReach Scenario EngineGates.
#[local] Open Scope Z_scope.

(** The resource is known and not in service. *)
Definition out_of_service (id : ResourceId) (t : Topology) : Prop :=
  ∃ node, to_resource id t = Some node ∧ in_service node = false.

Definition drained_removed (e : engine) : Prop :=
  ∀ id r, en_drains e !! id = Some r → dr_state r = DrainState.Drained →
    out_of_service (tg_id (dr_target r)) (en_topology e).

#[export] Instance drained_removed_proper : Proper ((≡) ==> iff) drained_removed.
Proof. intros e e' He. split; intros H id r; [rewrite <-He|rewrite He]; apply H. Qed.

(** [e'] completes no drain that [e] had not completed and puts no resource back
    in service. *)
Record no_revival (e e' : engine) : Prop := {
  nr_drained : ∀ id r', en_drains e' !! id = Some r' → dr_state r' = DrainState.Drained →
    ∃ r, en_drains e !! id = Some r ∧ dr_state r = DrainState.Drained ∧ dr_target r' = dr_target r;
  nr_out : ∀ id, out_of_service id (en_topology e) → out_of_service id (en_topology e');
}.

Lemma no_revival_keeps e e' : no_revival e e' → drained_removed e → drained_removed e'.
Proof.
  intros [H1 H2] Hd id r' Hl Hs. destruct (H1 _ _ Hl Hs) as (r & Hl' & Hs' & ->). apply H2. by eapply Hd.
Qed.

Lemma no_revival_trans e1 e2 e3 : no_revival e1 e2 → no_revival e2 e3 → no_revival e1 e3.
Proof.
  intros [A1 A2] [B1 B2]. split; [|by auto]. intros id r3 Hl Hs. destruct (B1 _ _ Hl Hs) as (r2 & Hl2 & Hs2 & ->).
  destruct (A1 _ _ Hl2 Hs2) as (r1 & ? & ? & ->). by exists r1.
Qed.

Lemma no_revival_log e e1 e2 : e2 ≡ e1 → no_revival e e1 → no_revival e e2.
Proof. intros He [H1 H2]. split; intros *; rewrite He; eauto. Qed.

(** Operations that leave the drains and the resources alone. *)
Lemma no_revival_frame e e' :
  en_drains e' = en_drains e → to_resources (en_topology e') = to_resources (en_topology e) → no_revival e e'.
Proof.
  intros Ed Et. split; [rewrite Ed; by eauto|]. intros id (n & Hn & Hs). exists n. split; [|done].
  unfold to_resource in *. by rewrite Et.
Qed.

Lemma no_revival_refl e : no_revival e e.
Proof. by apply no_revival_frame. Qed.

(** Storing a record of a known drain that is not completed by it. *)
Lemma no_revival_put r r0 e :
  en_drains e !! dr_id r = Some r0 → dr_target r = dr_target r0 →
  (dr_state r = DrainState.Drained → dr_state r0 = DrainState.Drained) → no_revival e (put_drain r e).
Proof.
  intros Hl Ht Hs. split; [|done]. intros id r'. rewrite lookup_put. case_decide as D; [|by eauto].
  intros [= <-] Hd. subst id. exists r0. auto.
Qed.

Lemma no_revival_transition r next now detail oc ins ev rej e :
  stored r e → next ≠ DrainState.Drained → no_revival e (apply_transition r next now detail oc ins ev rej e).2.
Proof.
  intros Hl Hn. destruct (apply_transition _ _ _ _ _ _ _ _ _) as [b e'] eqn:Ha; cbn [snd].
  apply apply_transition_spec in Ha as (r' & He & Hc). eapply no_revival_log; [exact He|].
  destruct Hc as [(_ & -> & _)|[(_ & -> & _)|(_ & -> & _)]]; [by eapply no_revival_put..|].
  apply (no_revival_put _ r); rewrite ?dr_id_moved, ?dr_target_moved, ?dr_state_moved; done.
Qed.

Lemma no_revival_blocked r bl now act e : stored r e → no_revival e (enter_blocked r bl now act e).2.
Proof.
  intros Hl. destruct (enter_blocked_spec r bl now act e) as (r' & He & Hk & _ & _ & Hs).
  eapply no_revival_log; [exact He|]. apply (no_revival_put _ r).
  - by rewrite (kp_id _ _ Hk).
  - apply Hk.
  - by destruct Hs as [-> | ->].
Qed.

(** ** One scheduling step *)

(** A step takes down its own target or leaves the resources as they are; and a
    drain it completes has been taken down. *)
Lemma step_drain_removed r now acts e :
  engine_wf e → protocol_inv (view_of e) → stored r e → dr_state r ≠ DrainState.Drained →
  drained_removed e → drained_removed (step_drain r now acts e).1.
Proof.
  intros Hwf HI Hl Hn Hd. set (e' := (step_drain r now acts e).1).
  assert (∀ id, out_of_service id (en_topology e) → out_of_service id (en_topology e')) as Hout.
  { intros id Ho. destruct (step_drain_topology r now acts e Hwf HI Hl) as [Ht|[_ _ Ht]];
      change (step_drain r now acts e).1 with e' in Ht; rewrite Ht; [done|].
    destruct Ho as (n & Hf & Hs). unfold to_set_status.
    destruct (to_resource (tg_id (dr_target r)) (en_topology e)) as [n'|] eqn:E; [|by exists n].
    unfold out_of_service, to_resource. simpl. destruct (decide (tg_id (dr_target r) = id)) as [<-|Hne].
    - rewrite om_lookup_insert_eq. by eexists.
    - rewrite om_lookup_insert_ne by done. by exists n. }
  intros id r' Hl' Hs'. destruct (decide (id = dr_id r)) as [->|Hne].
  - pose proof (step_drain_drained r now acts e r' Hwf Hl Hn Hl' Hs') as Hp. apply pd_removed in Hp.
    unfold removal_owned_by in Hp. change (step_drain r now acts e).1 with e' in Hp.
    destruct (to_resource (tg_id (dr_target r')) (en_topology e')) as [n|] eqn:E; [|done].
    exists n. split; [done|]. apply bool_decide_eq_false. intros D. by rewrite D in Hp.
  - apply Hout. unfold e' in Hl'. rewrite (tc_others _ _ _ (step_drain_touches r now acts e)) in Hl' by done.
    by eapply Hd.
Qed.

Lemma advance_one_removed now e acts id :
  engine_wf e → protocol_inv (view_of e) → drained_removed e → drained_removed (advance_one now (e, acts) id).1.
Proof.
  intros Hwf HI Hd. unfold advance_one. destruct (en_drains e !! id) as [r|] eqn:Hl; [|done].
  destruct (is_settled (dr_state r)) eqn:Hs; [done|]. apply step_drain_removed; try done.
  - destruct (ew_record _ Hwf _ _ Hl) as (Hid & _). unfold stored. by rewrite Hid.
  - intros E. by rewrite E in Hs.
Qed.

Lemma advance_fold_removed now ids e acts :
  engine_wf e → protocol_inv (view_of e) →
  (∀ t, fence_generation t (en_fence e) + zlength ids ≤ int_max u64) →
  drained_removed e → drained_removed (foldl (advance_one now) (e, acts) ids).1.
Proof.
  revert e acts. induction ids as [|id ids IH]; intros e acts Hwf HI Hg Hd; [done|].
  rewrite zlength_cons in Hg. pose proof (zlength_nonneg ids). cbn [foldl].
  assert (simulates 1 e (advance_one now (e, acts) id).1) as [Hwf1 _ _ (tr & Hr & _) Hg1 _ _].
  { apply sim_advance_one; [done|]. intros t. specialize (Hg t). lia. }
  pose proof (advance_one_removed now e acts id Hwf HI Hd) as Hd1.
  destruct (advance_one now (e, acts) id) as [e1 acts1]. simpl in *.
  apply IH; [done|by eapply arun_inv| |done]. intros t. specialize (Hg t). specialize (Hg1 t). lia.
Qed.

Lemma advance_pass_removed now e :
  engine_wf e → protocol_inv (view_of e) → headroom e → drained_removed e → drained_removed (advance_pass now e).1.
Proof.
  intros Hwf HI [Hg _] Hd. unfold advance_pass. set (e0 := bump _ e).
  assert (engine_wf e0) as Hwf0 by (subst e0; by rewrite bump_log).
  apply (advance_fold_removed now (om_keys (en_drains e0)) e0); [done|done| |done].
  intros t. specialize (Hg t). assert (zlength (om_keys (en_drains e0)) = om_size (en_drains e)) as ->.
  { unfold om_size, om_keys, zlength. by rewrite length_fmap. }
  change (en_fence e0) with (en_fence e). lia.
Qed.

(** ** The other operations *)

Lemma no_revival_with_drain {A} id authority now e (k : DrainRecord → result A * engine) :
  engine_wf e → (∀ r, en_drains e !! id = Some r → stored r e → no_revival e (k r).2) →
  no_revival e (with_drain id authority now e k).2.
Proof.
  intros Hwf Hk. unfold with_drain. destruct (require_authority _ _ _); [|apply no_revival_refl].
  destruct (en_drains e !! id) as [r|] eqn:Hl; [|apply no_revival_refl].
  apply Hk; [done|]. destruct (ew_record _ Hwf _ _ Hl) as (E & _). unfold stored. by rewrite E.
Qed.

Lemma no_revival_cancel id authority reason now e :
  engine_wf e → no_revival e (cancel_drain id authority reason now e).2.
Proof.
  intros Hwf. apply no_revival_with_drain; [done|]. intros r _ Hl.
  pose proof (λ detail oc ins ev rej, no_revival_transition r DrainState.Cancelled now detail oc ins ev rej e Hl
    ltac:(done)) as Ht.
  destruct (dr_state r); try apply no_revival_refl;
    (specialize (Ht (truncate reason) DecisionOutcome.Applied ["reason=" ++s truncate reason] [] ["complete-the-drain"]);
     by destruct (apply_transition _ _ _ _ _ _ _ _ _) as [[] e']).
Qed.

Lemma no_revival_resume id authority now e :
  engine_wf e → no_revival e (resume_drain id authority now e).2.
Proof.
  intros Hwf. apply no_revival_with_drain; [done|]. intros r _ Hl.
  case_bool_decide as Hb; cbn [negb]; [|apply no_revival_refl].
  destruct (ew_record _ Hwf _ _ Hl) as (_ & _ & (_ & _ & _ & Hbl) & _).
  set (resume := default DrainState.Validating (dr_blocked_from r)).
  assert (resume ≠ DrainState.Drained) as Hn.
  { subst resume. destruct (dr_blocked_from r) as [s|]; [|done]. simpl. destruct (Hbl s eq_refl) as [_ Hs].
    by intros ->. }
  destruct (evaluate_state _ _ _ _); [|by apply no_revival_blocked].
  pose proof (no_revival_transition r resume now "operator resume" DecisionOutcome.Applied
    ["operator=" ++s decimal authority] [] [] e Hl Hn) as Ht.
  by destruct (apply_transition _ _ _ _ _ _ _ _ _) as [[] e'].
Qed.

Lemma no_revival_grant id obligation extension authority now e :
  engine_wf e → no_revival e (grant_exception id obligation extension authority now e).2.
Proof.
  intros Hwf. unfold grant_exception. destruct (require_authority _ _ _); [|apply no_revival_refl].
  destruct (_ <=? _); [apply no_revival_refl|].
  destruct (en_drains e !! id) as [r|] eqn:Hl; [|apply no_revival_refl].
  destruct (is_settled _); [apply no_revival_refl|]. destruct (_ && _); [apply no_revival_refl|].
  destruct (_ <=? _); [by apply no_revival_frame|].
  destruct (increment_checked _ _) as [n|]; [|by apply no_revival_frame]. cbn [snd].
  destruct (ew_record _ Hwf _ _ Hl) as (<- & _).
  eapply no_revival_log; [apply record_decision_log|].
  match goal with |- no_revival _ (put_drain _ ?e1) => apply (no_revival_trans _ e1); [by apply no_revival_frame|] end.
  by apply (no_revival_put (reset_evacuation_attempts r) r).
Qed.

Lemma reopen_generation_drains r reason now e :
  en_drains (reopen_generation r reason now e).2 = en_drains e ∧
  en_topology (reopen_generation r reason now e).2 = en_topology e.
Proof. unfold reopen_generation. by repeat (case_match; simpl in * ). Qed.

Lemma no_revival_restore id authority reason now e :
  engine_wf e → no_revival e (restore_drain id authority reason now e).2.
Proof.
  intros Hwf. apply no_revival_with_drain; [done|]. intros r Hlk Hl.
  case_bool_decide; [apply no_revival_refl|]. destruct (is_settled _); [|apply no_revival_refl]. cbn [negb].
  destruct (reusable r); [apply no_revival_refl|].
  pose proof (reopen_generation_drains r reason now e) as [Ed Et].
  destruct (reopen_generation r reason now e) as [[g|err] e1]; cbn [snd] in *;
    [|by apply no_revival_frame; rewrite ?Et].
  assert (no_revival e e1) as H1 by (by apply no_revival_frame; rewrite ?Et).
  assert (stored r e1) as Hl1 by (unfold stored; by rewrite Ed).
  match goal with |- context [apply_transition ?a ?b ?c ?d ?f ?g ?h ?i ?j] =>
    pose proof (no_revival_transition a b c d f g h i j Hl1 ltac:(done)) as H2;
    destruct (transition_lands a b c d f g h i j) as (r2 & Hl2 & Hc);
    destruct (apply_transition a b c d f g h i j) as [[] e2] eqn:Ha end; cbn [snd] in *;
    [|by eapply no_revival_trans].
  destruct (ew_record _ Hwf _ _ Hlk) as (Hid & _). rewrite <-Hid, Hl2. cbn [default from_option Datatypes.id].
  eapply no_revival_trans; [exact H1|]. eapply no_revival_trans; [exact H2|].
  assert (dr_id r2 = dr_id r) as Hid2 by (destruct Hc as [-> | ->]; [done|apply dr_id_moved]).
  apply (no_revival_put _ r2); [by simpl; rewrite Hid2|done|done].
Qed.

Lemma create_members_revival request set now targets e :
  no_revival e (create_members request set now targets e).2.
Proof.
  revert set e. induction targets as [|t targets IH]; intros set e; cbn [create_members]; [apply no_revival_refl|].
  destruct (increment_checked u64 (en_drain_high_water e)) as [next|]; [|apply no_revival_refl].
  eapply no_revival_trans; [|apply IH]. split; [|done]. intros id r'. simpl. unfold emplace.
  destruct (en_drains e !! next) as [r0|] eqn:Hl; simpl; [by eauto|]. intros Hl' Hs. om_cases Hl'; [done|by eauto].
Qed.

Lemma no_revival_request_set request now e : engine_wf e → no_revival e (request_drain_set request now e).2.
Proof.
  intros Hwf. unfold request_drain_set.
  destruct (normalize_targets _ _) as [targets|]; [|apply no_revival_refl].
  destruct (require_authority _ _ _); [|by apply no_revival_frame].
  destruct (_ <? zlength targets); [apply no_revival_refl|]. destruct (_ || _); [apply no_revival_refl|].
  destruct (if dq_nonce request =? 0 then None else _) as [existing|].
  { destruct (en_sets e !! existing); [case_bool_decide|]; apply no_revival_refl. }
  destruct (first_owned e targets) as [[[??]?]|]; [apply no_revival_refl|].
  destruct (correlated_check _ _ _) as [[u|err] e1] eqn:Hc; apply correlated_check_log in Hc as He; cbn [snd];
    [|eapply no_revival_log; [exact He|apply no_revival_refl]].
  assert (no_revival e e1) as H1 by (eapply no_revival_log; [exact He|apply no_revival_refl]).
  eapply no_revival_trans; [exact H1|]. unfold create_set.
  destruct (increment_checked u64 (en_set_high_water e1)) as [ns|]; [|apply no_revival_refl].
  match goal with |- context [create_members ?a ?b ?c ?d ?f] =>
    pose proof (create_members_revival a b c d f) as H2; destruct (create_members a b c d f) as [[set1|] e2] end;
    cbn [snd] in *; (eapply no_revival_trans; [|eapply no_revival_trans; [exact H2|]]); try by apply no_revival_frame.
  eapply no_revival_log; [apply fold_log; intros; apply record_decision_log|].
  eapply no_revival_log; [apply record_decision_log|]. by destruct (negb _); apply no_revival_frame.
Qed.

(** Edits of the fabric that add to it. *)
Lemma add_resource_out n t id : out_of_service id t → out_of_service id (add_resource n t).2.
Proof.
  intros (m & Hm & Hs). unfold add_resource. case_bool_decide; [by exists m|]. destruct (_ <=? _); [by exists m|].
  destruct (emplace _ _ _) as [x []] eqn:He; [|by exists m]. apply emplace_true in He as [Hn ->]. exists m.
  split; [|done]. unfold to_resource in *. simpl. rewrite om_lookup_insert_ne by congruence. done.
Qed.

Lemma add_edge_resources a b t : to_resources (add_edge a b t).2 = to_resources t.
Proof. unfold add_edge. by repeat (case_match; simpl in * ). Qed.
Lemma add_path_resources p t : to_resources (add_path p t).2 = to_resources t.
Proof. unfold add_path. by repeat (case_match; simpl in * ). Qed.
Lemma add_group_resources g t : to_resources (add_diversity_group g t).2 = to_resources t.
Proof. unfold add_diversity_group. by repeat (case_match; simpl in * ). Qed.
Lemma add_pool_resources p t : to_resources (add_capacity_pool p t).2 = to_resources t.
Proof. unfold add_capacity_pool. by repeat (case_match; simpl in * ). Qed.
Lemma add_route_resources r t : to_resources (add_protected_route r t).2 = to_resources t.
Proof. unfold add_protected_route. by repeat (case_match; simpl in * ). Qed.

(** A status report that puts the target of a completed drain back in service. *)
Definition revives (o : op) (e : engine) : bool :=
  match o with
  | OpReportStatus id st =>
      bool_decide (st = ResourceStatus.InService)
      && existsb (λ p, bool_decide (dr_state p.2 = DrainState.Drained)
                       && bool_decide (tg_id (dr_target p.2) = id)) (om_list (en_drains e))
  | _ => false
  end.

Lemma report_status_removed id st now e :
  revives (OpReportStatus id st) e = false → drained_removed e →
  drained_removed (report_resource_status id st now e).2.
Proof.
  intros Hr Hd. assert (∀ e', en_drains e' = en_drains e →
    en_topology e' = (to_set_status id st (en_topology e)).2 → drained_removed e') as H.
  { intros e' Ed Et i r Hl Hs. rewrite Et. rewrite Ed in Hl. destruct (Hd i r Hl Hs) as (n & Hn & Hns).
    unfold to_set_status. destruct (to_resource id (en_topology e)) as [n'|] eqn:E; [|by exists n]. cbn [snd].
    unfold out_of_service, to_resource. simpl. destruct (decide (id = tg_id (dr_target r))) as [->|Hne].
    - rewrite om_lookup_insert_eq. eexists. split; [done|]. apply bool_decide_eq_false. simpl. intros ->.
      unfold revives in Hr. rewrite bool_decide_true in Hr by done. cbn [andb] in Hr.
      pose proof (proj1 (existsb_false_elem _ _) Hr (i, r) (om_lookup_elem _ _ _ Hl)) as Hall. simpl in Hall.
      by rewrite !bool_decide_true in Hall by done.
    - rewrite om_lookup_insert_ne by done. by exists n. }
  unfold report_resource_status. destruct (to_set_status _ _ _) as [[u|err] t]; cbn [snd] in *; by apply H.
Qed.

(** Every operation but such a report keeps completed targets out of service. *)
Lemma exec_drained_removed sink o now e :
  engine_wf e → protocol_inv (view_of e) → headroom e → op_wf o e → revives o e = false →
  drained_removed e → drained_removed (exec sink o now e).
Proof.
  intros Hwf HI Hh [_ Hst] Hr Hd. destruct o; cbn [exec];
    match goal with
    | |- drained_removed (report_resource_status _ _ _ _).2 => by apply report_status_removed
    | |- drained_removed (advance_pass _ _).1 => by apply advance_pass_removed
    | |- drained_removed (advance _ _ _).2 => idtac
    | _ => eapply no_revival_keeps; [|exact Hd]
    end.
  - unfold set_policy. destruct (policy_validate p); by apply no_revival_frame.
  - unfold en_install_incarnation. destruct (install_incarnation _ _ _) as [[] a]; by apply no_revival_frame.
  - unfold install_authority_line. destruct (install_line _ _ _ _ _) as [[] a]; by apply no_revival_frame.
  - unfold en_begin_new_epoch, install_authority_line. destruct (increment_checked _ _); [|apply no_revival_refl].
    destruct (install_line _ _ _ _ _) as [[] a]; by apply no_revival_frame.
  - unfold issue_authority. destruct (ar_issue _ _ _ _) as [[] a]; by apply no_revival_frame.
  - unfold revoke_authority. destruct (ar_revoke _ _ _ _) as [[] a]; by apply no_revival_frame.
  - unfold en_add_resource. pose proof (add_resource_out n (en_topology e)) as Ho.
    destruct (add_resource _ _) as [[] t]; (split; [by eauto|exact Ho]).
  - unfold en_add_edge. pose proof (add_edge_resources a b (en_topology e)) as Ho.
    destruct (add_edge _ _ _) as [[] t]; by apply no_revival_frame.
  - unfold en_add_path. pose proof (add_path_resources p (en_topology e)) as Ho.
    destruct (add_path _ _) as [[] t]; by apply no_revival_frame.
  - unfold en_add_diversity_group. pose proof (add_group_resources g (en_topology e)) as Ho.
    destruct (add_diversity_group _ _) as [[] t]; by apply no_revival_frame.
  - unfold en_add_capacity_pool. pose proof (add_pool_resources p (en_topology e)) as Ho.
    destruct (add_capacity_pool _ _) as [[] t]; by apply no_revival_frame.
  - unfold en_add_protected_route. pose proof (add_route_resources r (en_topology e)) as Ho.
    destruct (add_protected_route _ _) as [[] t]; by apply no_revival_frame.
  - destruct (admit_obligation _ _ _ _ _) as [[ob|err] e1] eqn:Ha; cbn [snd].
    + apply admit_Ok in Ha as (_ & _ & _ & _ & _ & t & _ & He); [|done]. eapply no_revival_log; [exact He|].
      by apply no_revival_frame.
    + apply admit_Err in Ha as He; [|done]. eapply no_revival_log; [exact He|apply no_revival_refl].
  - unfold report_obligation. destruct (ot_find _ _); [|by apply no_revival_frame].
    destruct (report_generation_check _ _); [|by apply no_revival_frame].
    destruct (apply_state _ _ _ _ _) as [[] ob]; by apply no_revival_frame.
  - unfold record_evidence. destruct (el_record _ _ _ _) as [[] l]; by apply no_revival_frame.
  - unfold attest_evidence. destruct (el_attest _ _ _ _) as [[] l]; by apply no_revival_frame.
  - by apply no_revival_request_set.
  - unfold request_drain. pose proof (no_revival_request_set request now e Hwf) as H.
    destruct (request_drain_set request now e) as [[id|] e1]; [|done].
    destruct (en_sets e1 !! id) as [set|]; [|done]. by destruct (ds_members set) as [|? []].
  - by apply no_revival_cancel.
  - unfold restore_drain_and_dispatch. pose proof (no_revival_restore id authority reason now e Hwf) as H.
    destruct (restore_drain id authority reason now e) as [[acts|] e1]; [|done]. unfold dispatch.
    destruct (match sink with Some s => _ | None => _ end). eapply no_revival_log; [apply bump_log|exact H].
  - by apply no_revival_resume.
  - by apply no_revival_grant.
  - unfold advance. pose proof (advance_pass_removed now e Hwf HI Hh Hd) as H.
    destruct (advance_pass now e) as [e1 actions]. destruct (match sink with Some s => _ | None => _ end).
    unfold finish_dispatch. cbn [snd]. by rewrite bump_log.
  - by apply no_revival_restore.
  - by apply no_revival_frame.
  - unfold restore. destruct (restored _ _ _ _) as [e'|] eqn:Hre; cbn [snd]; [|apply no_revival_refl].
    eapply no_revival_log; [by eapply restored_own|]. split; [|done].
    intros id r'. simpl. rewrite om_lookup_map, fmap_Some. intros (r & Hl & ->) Hs. exists r.
    split_and!; [done| |apply recovered_kept]. revert Hs. unfold recovered_drain, blocked_for_recovery.
    change (dr_state (r <| dr_revision := 1 |>)) with (dr_state r).
    destruct (is_transient (dr_state r)); [|done]. set (m := moved _ _ _ _).
    change (dr_state (set_blockers [recovery_blocker (r <| dr_revision := 1 |>) now] m)) with (dr_state m).
    unfold m. by rewrite dr_state_moved.
Qed.
