(* ===== verification/AuditFacts.v ===== *)
(** * The audit finds nothing

    The checks [DrainEngine::audit] makes of the engine's own state follow from
    the invariants of every reachable engine.  Two findings remain possible, and
    the theorem names them: a completion digest that happens to be zero, and a
    drain whose restoration was begun and then given up. *)

From S2P Require Import Prelude Containers Checked Result Text Identity Lifecycle Obligation Evidence.
From S2P Require Import Authority Admission Topology TopologyFacts Policy Decision Protocol Engine Explain.
From S2P Require Import EngineStep EngineOps EngineInv EngineRefine EngineReach Scenario Safety Removal.
#[local] Open Scope Z_scope.

(** The findings the engine does not exclude. *)
Inductive excused (id : DrainId) (r : DrainRecord) : violation → Prop :=
  | excused_digest : dr_state r = DrainState.Drained → dr_completion_digest r = 0 →
      excused id r (DrainedWithoutDigest id (dr_target r))
      (** the restoration had reopened admission before the drain was cancelled *)
  | excused_restoration : dr_state r = DrainState.Cancelled → dr_restored_at r = 0 →
      dr_restore_generation r ≠ 0 → excused id r (CancelledButOpen id (dr_target r)).

Lemma if_nil {A} (b : bool) (l : list A) : (b = true → l = []) → (if b then l else []) = [].
Proof. destruct b; auto. Qed.

Lemma concat_map_nil {A B} (f : A → list B) l : (∀ x, x ∈ l → f x = []) → concat (map f l) = [].
Proof.
  induction l as [|x l IH]; intros Hf; [done|]. simpl. rewrite Hf by set_solver. apply IH. set_solver.
Qed.

Section Audit.
Context (e : engine) (Hwf : engine_wf e) (HI : protocol_inv (view_of e)).

Lemma stored_view id r : en_drains e !! id = Some r → v_drain (view_of e) id = Some (dr_target r, phase_of r, dr_generation r).
Proof. intros Hl. simpl. by rewrite Hl. Qed.

Lemma view_fence t : v_fence (view_of e) t = fence_view (en_fence e) t.
Proof. done. Qed.

(** A closed fence of a target one drain has not given back is that drain's. *)
Lemma holder_is id r entry :
  en_drains e !! id = Some r → phase_of r ≠ Released → fence_entry (dr_target r) (en_fence e) = Some entry →
  fe_closed entry = true → fe_drain entry = id ∧ fe_generation entry = dr_generation r.
Proof.
  intros Hl Hp Hf Hc. assert (fence_view (en_fence e) (dr_target r) = (fe_generation entry, Some (fe_drain entry))) as Hv
    by (apply fence_view_closed; eauto).
  destruct (pi_named _ HI _ _ _ Hv) as (p & Hd). pose proof (stored_view _ _ Hl) as Hs.
  destruct (decide (p = Released)) as [->|Hn].
  - destruct (pi_left _ HI _ _ _ _ Hd) as [Hno _]; [by right|]. destruct Hno. by rewrite view_fence, Hv.
  - pose proof (pi_unique _ HI _ _ _ _ _ _ _ Hs Hd Hp Hn) as E. rewrite <- E, Hs in *. by injection Hd as _ <-.
Qed.

Lemma closed_fence id r :
  en_drains e !! id = Some r → phase_of r = Holding ∨ phase_of r = Done → fence_is_closed (dr_target r) (en_fence e) = true.
Proof.
  intros Hl Hp. pose proof (pi_owned _ HI _ _ _ _ (stored_view _ _ Hl) Hp) as Hv.
  apply fence_view_closed in Hv as (entry & Hf & Hc & _). unfold fence_is_closed, fence_entry in *. by rewrite Hf.
Qed.

Lemma audit_drained_excused id r v :
  en_drains e !! id = Some r → done_is_clear (view_of e) → drained_removed e → dr_state r = DrainState.Drained →
  v ∈ audit_drained id r e → excused id r v.
Proof.
  intros Hl HC HR Hs. unfold audit_drained.
  assert (outstanding_protected_dependents_of (en_obligations e) (dr_target r) = []) as ->
    by by eapply (done_clear_outstanding e r id).
  destruct (ew_record _ Hwf _ _ Hl) as (_ & _ & _ & _ & -> & _).
  rewrite (closed_fence id r Hl) by (right; by rewrite (phase_of_state _ _ Hs)).
  destruct (HR id r Hl Hs) as (node & -> & ->). simpl. unfold flag.
  destruct (Z.eqb_spec (dr_completion_digest r) 0); cbn [app]; intros Hv.
  - apply list_elem_of_singleton in Hv as ->. by constructor.
  - by apply not_elem_of_nil in Hv.
Qed.

Lemma cancelled_phase r :
  dr_state r = DrainState.Cancelled →
  phase_of r = if negb (dr_restored_at r =? 0) then Released
               else if negb (dr_restore_generation r =? 0) then Abandoned else Gone.
Proof. intros Hs. unfold phase_of, effective_state. by rewrite Hs. Qed.

Lemma audit_restored_nil id r :
  en_drains e !! id = Some r → dr_state r = DrainState.Cancelled → dr_restored_at r ≠ 0 → audit_cancelled id r e = [].
Proof.
  intros Hl Hs Hne. unfold audit_cancelled. destruct (ew_record _ Hwf _ _ Hl) as (-> & _).
  rewrite (proj2 (Z.eqb_neq _ _) Hne). cbn [negb].
  destruct (pi_left _ HI _ _ _ _ (stored_view _ _ Hl)) as [Hno Hgt].
  { right. by rewrite (cancelled_phase r Hs), (proj2 (Z.eqb_neq _ _) Hne). }
  pose proof (pi_reached _ HI _ _ _ _ (stored_view _ _ Hl)) as [Hnn _]. rewrite view_fence in *.
  unfold fence_view, fence_generation in *. unfold fence_entry in *.
  destruct (en_fence e !! dr_target r) as [entry|] eqn:Hf; simpl in *; [|lia].
  rewrite (proj2 (Z.leb_gt _ _)) by done. destruct (fe_closed entry); [|done]. simpl.
  destruct (Z.eqb_spec (fe_drain entry) id) as [E|]; [|done]. by rewrite E in Hno.
Qed.

Lemma audit_cancelled_excused id r v :
  en_drains e !! id = Some r → dr_state r = DrainState.Cancelled → v ∈ audit_cancelled id r e → excused id r v.
Proof.
  intros Hl Hs. destruct (decide (dr_restored_at r = 0)) as [Hz|Hne].
  2: { rewrite audit_restored_nil by done. by intros ?%not_elem_of_nil. }
  pose proof (cancelled_phase r Hs) as Hph. rewrite Hz in Hph. cbn in Hph.
  assert (phase_of r ≠ Released) as Hnr by (rewrite Hph; by destruct (negb _)).
  unfold audit_cancelled. destruct (ew_record _ Hwf _ _ Hl) as (-> & _). rewrite Hz. cbn [Z.eqb negb].
  assert (fence_is_closed (dr_target r) (en_fence e) = false → dr_generation r ≠ 0 → dr_restore_generation r ≠ 0) as Hopen.
  { intros Ho Hg Hrg. rewrite Hrg in Hph. pose proof (pi_gone _ HI _ _ _ _ (stored_view _ _ Hl) (or_intror Hph) Hg) as Hv.
    rewrite view_fence in Hv. apply fence_view_closed in Hv as (entry & Hf & Hc & _).
    unfold fence_is_closed, fence_entry in *. rewrite Hf in Ho. congruence. }
  unfold fence_is_closed, fence_entry in Hopen. unfold fence_entry, flag.
  pose proof (λ entry, holder_is id r entry Hl Hnr) as Hh. unfold fence_entry in Hh.
  destruct (Z.eqb_spec (dr_generation r) 0) as [Hg|Hg]; cbn [negb];
    destruct (en_fence e !! dr_target r) as [entry|] eqn:Hf.
  - destruct (fe_closed entry) eqn:Hc; cbn [andb]; [|by intros ?%not_elem_of_nil]. exfalso.
    destruct (Hh entry eq_refl Hc) as [_ Hg']. destruct (ew_fence _ Hwf) as (_ & _ & Hfw).
    destruct (Hfw _ _ Hf) as (_ & ? & _). lia.
  - by intros ?%not_elem_of_nil.
  - destruct (fe_closed entry) eqn:Hc; cbn [negb].
    + destruct (Hh entry eq_refl Hc) as [_ ->]. rewrite Z.eqb_refl. by intros ?%not_elem_of_nil.
    + intros ->%list_elem_of_singleton. constructor; auto.
  - intros ->%list_elem_of_singleton. constructor; auto.
Qed.

Lemma audit_drain_excused id r v :
  en_drains e !! id = Some r → done_is_clear (view_of e) → drained_removed e → v ∈ audit_drain e (id, r) →
  excused id r v.
Proof.
  intros Hl HC HR. unfold audit_drain.
  assert (holds_fence r || is_fence_holding_state (dr_state r) = true → fence_is_closed (dr_target r) (en_fence e) = true) as Hc.
  { intros H. apply (closed_fence id r Hl). left. apply holds_fence_phase. apply orb_true_iff in H as [H|H]; [done|].
    rewrite holds_fence_effective. unfold effective_state. by destruct (dr_state r). }
  rewrite !elem_of_app. intros [Hv|[Hv|[Hv|Hv]]].
  - case_bool_decide; [by apply audit_drained_excused|by apply not_elem_of_nil in Hv].
  - case_bool_decide; [by apply audit_cancelled_excused|by apply not_elem_of_nil in Hv].
  - destruct (holds_fence r || _); [rewrite Hc in Hv by done|]; rewrite ?andb_false_r in Hv; by apply not_elem_of_nil in Hv.
  - case_bool_decide as Hs; [|by apply not_elem_of_nil in Hv].
    destruct (fence_entry _ _) as [entry|] eqn:Hf; [|by apply not_elem_of_nil in Hv].
    destruct (fe_closed entry) eqn:Hcl; [exfalso|by apply not_elem_of_nil in Hv].
    assert (phase_of r = Leaving) as Hlv by (unfold phase_of, effective_state; by rewrite Hs).
    destruct (holder_is id r entry Hl) as [Hh _]; [by rewrite Hlv|done|done|].
    destruct (pi_left _ HI _ _ _ _ (stored_view _ _ Hl)) as [Hno _]; [by left|]. destruct Hno.
    rewrite view_fence. unfold fence_view. by rewrite Hf, Hcl, Hh.
Qed.

Lemma classified_all l c :
  classified (foldl count_drain c l) = classified c + zlength l.
Proof.
  revert c. induction l as [|r l IH]; intros c; simpl; [rewrite zlength_nil; lia|]. rewrite IH, zlength_cons.
  destruct c. unfold count_drain, classified. destruct (dr_state r); simpl; lia.
Qed.

Lemma audit_obligation_nil id ob : ot_find id (en_obligations e) = Some ob → audit_obligation e ob = [].
Proof.
  intros Hf. unfold audit_obligation. apply concat_map_nil. intros t Ht.
  destruct (fence_entry t (en_fence e)) as [entry|] eqn:He; [|done]. destruct (fe_closed entry) eqn:Hc; [|done]. simpl.
  assert (fence_view (en_fence e) t = (fe_generation entry, Some (fe_drain entry))) as Hv
    by (apply fence_view_closed; eauto).
  destruct (pi_bound _ HI id (ob_admission_generation ob) (ob_dependencies ob) (blocks_completion ob) t) as [_ Hlt];
    [simpl; by rewrite Hf|done|]. rewrite view_fence, Hv in Hlt. simpl in Hlt. specialize (Hlt ltac:(done)).
  by rewrite (proj2 (Z.leb_gt _ _)).
Qed.

Lemma audit_fence_nil t entry : fence_entry t (en_fence e) = Some entry → audit_fence e (t, entry) = [].
Proof.
  intros Hf. unfold audit_fence. destruct (fe_closed entry) eqn:Hc; [|done]. simpl.
  assert (fence_view (en_fence e) t = (fe_generation entry, Some (fe_drain entry))) as Hv
    by (apply fence_view_closed; eauto).
  destruct (pi_named _ HI _ _ _ Hv) as (p & Hd). destruct (en_drains e !! fe_drain entry) as [r|] eqn:Hl.
  2: { simpl in Hd. by rewrite Hl in Hd. }
  rewrite (stored_view _ _ Hl) in Hd. injection Hd as <- _ _. apply if_nil.
  intros [Hs%bool_decide_eq_true Hr%negb_true_iff]%andb_true_iff.
  destruct (pi_left _ HI _ _ _ _ (stored_view _ _ Hl)) as [Hno _].
  - right. unfold phase_of, effective_state. by rewrite Hs, Hr.
  - by rewrite view_fence, Hv in Hno.
Qed.
End Audit.

(** Histories in which no retired obligation is reported back and no status
    report puts the target of a completed drain back in service. *)
Definition audited : engine → op → Prop := λ e o, brings_back o e = false ∧ revives o e = false.

Lemma audited_inv e :
  reachable audited e →
  engine_wf e ∧ protocol_inv (view_of e) ∧ done_is_clear (view_of e) ∧ drained_removed e.
Proof.
  intros [p Hh].
  apply (history_inv audited (λ e, done_is_clear (view_of e) ∧ drained_removed e) (new_engine p) e);
    [|apply new_engine_wf|exact (protocol_inv_proper _ _ (symmetry (new_engine_view p)) initial_inv)|by split|done].
  intros sink e0 o now Hwf HI Hroom Ho [Hb Hv] [HC HR]. split; [|by apply exec_drained_removed].
  destruct (exec_refines sink o now e0 Hwf HI Hroom Ho) as [_ _ (tr & Hr & Hn) _ _].
  by eapply arun_clear; [..|exact HC]; [exact Hr|apply Hn|].
Qed.

Lemma audit_violations_excused e v :
  reachable audited e → v ∈ audit_violations e → ∃ id r, en_drains e !! id = Some r ∧ excused id r v.
Proof.
  intros Hr. destruct (audited_inv e Hr) as (Hwf & HI & HC & HR). unfold audit_violations.
  rewrite (concat_map_nil (audit_obligation e)), (concat_map_nil (audit_fence e)).
  - unfold count_drains. rewrite classified_all. unfold om_size, om_values. unfold zlength at 1 2.
    rewrite length_fmap. change (classified _) with 0. rewrite Z.add_0_l, Z.eqb_refl. cbn [negb flag app].
    rewrite app_nil_r. intros (l & Hl & Hv)%list_elem_of_In%in_concat. apply in_map_iff in Hl as ([id r] & <- & Hin).
    apply list_elem_of_In, om_elem_lookup in Hin; [|apply Hwf]. exists id, r. split; [done|].
    eapply audit_drain_excused; [exact Hwf|exact HI|done..|by apply list_elem_of_In].
  - intros [t entry] Ht. eapply audit_fence_nil; [done|]. by apply om_elem_lookup; [apply Hwf|].
  - intros ob Hob. apply om_values_elem in Hob as [id Hid%om_elem_lookup]; [|apply Hwf].
    by eapply audit_obligation_nil.
Qed.

(** C38: the audit of every engine whose history reports no retired obligation
    back and puts no completed drain's target back in service finds nothing,
    whatever operations succeeded or failed: the counts close; no drained target has
    dependents, an open fence, a remaining count or a resource in service; a
    cancelled drain that closed admission still holds it closed; no obligation is
    bound behind a fence; every closed fence names a drain that still owns it; and
    no restored drain holds one.  Only two findings are possible, and each names its
    record: a completed drain whose digest is the number zero, and a cancelled drain
    whose restoration had already reopened admission. *)
Theorem audit_is_clean e :
  reachable audited e →
  (∀ v, v ∈ audit_violations e → ∃ id r, en_drains e !! id = Some r ∧ excused id r v) ∧
  ((∀ id r, en_drains e !! id = Some r →
      (dr_state r = DrainState.Drained → dr_completion_digest r ≠ 0) ∧
      (dr_state r = DrainState.Cancelled → dr_restored_at r = 0 → dr_restore_generation r = 0)) →
   clean (audit e) = true).
Proof.
  intros Hr. split; [by intros v; apply (audit_violations_excused e v Hr)|]. intros Hok.
  assert (audit_violations e = []) as Hv; [|unfold clean, audit; cbn [ac_violations]; by rewrite Hv].
  destruct (audit_violations e) as [|v l] eqn:E; [done|].
  destruct (audit_violations_excused e v Hr) as (id & r & Hl & Hx); [rewrite E; by left|].
  destruct (Hok id r Hl) as [H1 H2]. destruct Hx; [by destruct H1|by destruct H2; auto].
Qed.


Lemma audit_is_clean_witness : clean (audit Demo.drained_engine) = true.
Proof.
  apply (audit_is_clean Demo.drained_engine).
  - eapply reachable_history, drained_history. intros e o Hb _ Hs. split; [done|]. destruct o; try done.
    by destruct (Hs id st).
  - intros id r Hl%om_lookup_elem. vm_compute in Hl. apply list_elem_of_singleton in Hl. injection Hl as _ ->.
    by split; vm_compute.
Defined.

(** Cancelling a drain while its restoration settles leaves it cancelled behind
    an open fence, which the audit reports. *)
Example cancelled_restoration_is_flagged :
  let e := exec None (OpCancel 1 1 "operator") (26 * Demo.second) Demo.restoring_engine in
  (dr_state (record_at 1 e), audit_violations e) = (DrainState.Cancelled, [CancelledButOpen 1 Demo.port_a]).
Proof. vm_compute. reflexivity. Qed.
