(* ===== verification/Operations.v ===== *)
(** * What the public operations promise

    One theorem per promise: who may act, what success means, what a refusal
    leaves behind. *)

From S2P Require Import Prelude Containers Checked Result Text Identity Lifecycle Obligation Evidence.
From S2P Require Import Authority Admission Topology TopologyFacts Policy Decision Protocol Engine.
From S2P Require Import EngineStep EngineOps EngineInv EngineRefine EngineReach Scenario EngineGates.

(** ** The scheduler *)

Lemma advance_one_keeps now e acts id id' r :
  engine_wf e → en_drains e !! id = Some r → is_settled (dr_state r) = true →
  en_drains (advance_one now (e, acts) id').1 !! id = Some r.
Proof.
  intros Hwf Hl Hs. unfold advance_one. destruct (en_drains e !! id') as [r'|] eqn:Hl'; [|done].
  destruct (is_settled (dr_state r')) eqn:Hs'; [done|].
  destruct (ew_record _ Hwf _ _ Hl') as (Hid & _).
  rewrite (tc_others _ _ _ (step_drain_touches r' now acts e)); [done|]. rewrite Hid. intros ->. congruence.
Qed.

(** The scheduler never moves a settled drain: a completed, cancelled or
    failed record comes out of a whole pass exactly as it went in. *)
Theorem settled_drains_untouched now e id r :
  engine_wf e → (∀ t, fence_generation t (en_fence e) + om_size (en_drains e) ≤ int_max u64) →
  en_drains e !! id = Some r → is_settled (dr_state r) = true →
  en_drains (advance_pass now e).1 !! id = Some r.
Proof.
  intros Hwf Hg Hl Hs. unfold advance_pass. set (e0 := bump _ e).
  assert (engine_wf e0) as Hwf0 by (subst e0; by rewrite bump_log). assert (en_drains e0 !! id = Some r) as Hl0 by done.
  assert (om_size (en_drains e) = zlength (om_keys (en_drains e0))) as Hk.
  { unfold om_size, om_keys, zlength. by rewrite length_fmap. }
  change (en_fence e) with (en_fence e0) in Hg. rewrite Hk in Hg. clear Hk. clearbody e0.
  generalize no_actions. revert Hwf0 Hl0 Hg. generalize (om_keys (en_drains e0)) as ids.
  intros ids. revert e0. induction ids as [|i ids IH]; intros e0 Hwf0 Hl0 Hg acts; [done|]. cbn [foldl].
  rewrite zlength_cons in Hg. pose proof (zlength_nonneg ids).
  assert (simulates 1 e0 (advance_one now (e0, acts) i).1) as Hsim.
  { apply sim_advance_one; [done|]. intros t. specialize (Hg t). lia. }
  pose proof (advance_one_keeps now e0 acts id i r Hwf0 Hl0 Hs) as Hl1.
  destruct (advance_one now (e0, acts) i) as [e1 acts1]. cbn [fst] in *.
  apply IH; [apply Hsim|done|]. intros t. specialize (Hg t). pose proof (sm_gens _ _ _ Hsim t). lia.
Qed.

Lemma settled_drains_untouched_witness :
  en_drains (advance_pass (50 * Demo.second) Demo.drained_engine).1 !! 1 = Some (record_at 1 Demo.drained_engine).
Proof.
  apply settled_drains_untouched; [by apply history_wf, drained_history| |vm_compute; reflexivity..].
  intros t. assert (headroom Demo.drained_engine) as [H _] by by apply headroomb_ok; vm_compute.
  specialize (H t). lia.
Defined.

(** What the scheduler asks of an adjacent runtime. *)
Record justified_request (r : DrainRecord) (now : TimePoint) (e : engine) (q : EvacuationRequest) (ob : Obligation)
  : Prop := {
  jr_drain : er_drain q = dr_id r;
  jr_generation : er_generation q = dr_generation r;
  jr_obligation : er_obligation q = ob_id ob;
  jr_revision : er_expected_revision q = ob_revision ob;
  jr_attempt : er_attempt q = wrap u32 (dr_evacuation_requests r + 1);
  jr_at : er_at q = now;
  jr_outstanding : ob ∈ outstanding_for (dr_target r) e;
  jr_movable : is_movable ob = true;
  jr_in_grace : now ≤ grace_deadline_for r ob e;
}.

Lemma evaluate_evacuation_nil r now e :
  evaluate_evacuation r now e = [] →
  (∀ ob, ob ∈ outstanding_for (dr_target r) e →
     ob_state ob ≠ ObligationState.Failed ∧ now ≤ grace_deadline_for r ob e) ∧
  (existsb is_movable (outstanding_for (dr_target r) e) = true →
     dr_evacuation_requests r < p_max_evacuation_attempts (en_policy e)).
Proof.
  unfold evaluate_evacuation. set (bl := mjoin _). intros H.
  assert (bl = [] ∧ (existsb is_movable (outstanding_for (dr_target r) e) = true →
    dr_evacuation_requests r < p_max_evacuation_attempts (en_policy e))) as [Hbl Hmax].
  { destruct (existsb _ _); cbn [andb] in H; [|done].
    destruct (Z.leb_spec (p_max_evacuation_attempts (en_policy e)) (dr_evacuation_requests r)); [|by split].
    by destruct (app_eq_nil _ _ H). }
  split; [|done]. intros ob Hin. subst bl. clear H Hmax. 
  assert ((if bool_decide (ob_state ob = ObligationState.Failed) then
      [make_blocker BlockerCode.ObligationFailed (obligation_label ob)
         "the adjacent runtime reported that evacuation failed" now 0]
    else
      if grace_deadline_for r ob e <? now then
        [make_blocker BlockerCode.ObligationGraceExpired (obligation_label ob)
           "the policy grace window expired without a release report" now (grace_deadline_for r ob e)]
      else []) = []) as Hob.
  { revert Hbl Hin. generalize (outstanding_for (dr_target r) e) as obs. induction obs as [|ob1 obs IH]; cbn; intros Hbl Hin.
    - by apply not_elem_of_nil in Hin.
    - apply app_eq_nil in Hbl as [H1 H2]. apply elem_of_cons in Hin as [->|Hin]; [exact H1|by apply IH]. }
  case_bool_decide as Hf; [done|]. destruct (Z.ltb_spec (grace_deadline_for r ob e) now); [done|]. by split.
Qed.


(** ** Admission *)

(** C16: a dependency is bound only in the open: a successful admission needs a
    valid authority, at least one and at most the permitted number of targets,
    every one of them open at exactly the generation the caller presented; the
    obligation stored is the caller's draft (kind, protection, holder, mode,
    dependencies, capacity, grace, state) under the next identifier, with that
    generation and the admission time and nothing else changed, and no other
    obligation, fence, drain or resource changes. *)
Theorem admission_binds_in_the_open draft presented authority now e ob e' :
  engine_wf e → admit_obligation draft presented authority now e = (Ok ob, e') →
  require_authority authority now e = ok_status ∧
  0 < zlength (ob_dependencies ob) ≤ kMaxDependenciesPerObligation ∧
  (∀ t, t ∈ ob_dependencies ob →
     fence_is_closed t (en_fence e) = false ∧ fence_generation t (en_fence e) = presented) ∧
  ob = draft <| ob_admitted_at := now |> <| ob_admission_generation := presented |>
             <| ob_id := ot_high_water (en_obligations e) + 1 |> ∧
  ot_find (ob_id ob) (en_obligations e) = None ∧
  (∀ o, ot_find o (en_obligations e') = if decide (o = ob_id ob) then Some ob else ot_find o (en_obligations e)) ∧
  en_fence e' = en_fence e ∧ en_drains e' = en_drains e ∧ en_topology e' = en_topology e.
Proof.
  intros Hwf Ha. apply admit_Ok in Ha as (Hau & Hne & Hmax & Hf & -> & t & Hi & He); [|done].
  destruct (ot_insert_Ok _ _ _ _ (ew_obligations _ Hwf) Hi) as (Hfresh & _ & _ & _ & _ & Et & _).
  split_and!; try done; try (by rewrite He).
  - simpl. assert (zlength (ob_dependencies draft) ≠ 0) by by rewrite zlength_zero.
    pose proof (zlength_nonneg (ob_dependencies draft)). lia.
  - intros d Hd. by destruct (Hf d Hd) as [? ->].
  - intros o. rewrite He. unfold ot_find. simpl. rewrite Et. case_decide as D; [subst o; apply om_lookup_insert_eq|].
    by apply om_lookup_insert_ne.
Qed.

Definition demo_admission : result Obligation * engine :=
  Eval vm_compute in
    admit_obligation (new_obligation ObligationKind.Reservation "holder-2" [Demo.port_b]) 0 1
      (4 * Demo.second) Demo.requested_engine.

Definition admitted : Obligation := match demo_admission.1 with Ok ob => ob | Err _ => Demo.flow end.

Lemma admission_binds_in_the_open_witness :
  ot_find (ob_id admitted) (en_obligations demo_admission.2) = Some admitted ∧
  fence_is_closed Demo.port_b (en_fence Demo.requested_engine) = false.
Proof.
  destruct (admission_binds_in_the_open (new_obligation ObligationKind.Reservation "holder-2" [Demo.port_b]) 0 1
    (4 * Demo.second) Demo.requested_engine admitted demo_admission.2) as (_ & _ & Hopen & _ & _ & Hfind & _);
    [by apply history_wf, requested_history|vm_compute; reflexivity|].
  split; [rewrite Hfind; by rewrite decide_True|]. apply Hopen. vm_compute. apply list_elem_of_here.
Defined.

(** A closed fence refuses every caller: an admission that names a target
    whose fence is closed, or presents a generation other than the target's, fails,
    whatever authority it carries, and changes nothing but the log. *)
Theorem closed_fence_refuses draft presented authority now e t :
  engine_wf e → t ∈ ob_dependencies draft →
  fence_is_closed t (en_fence e) = true ∨ presented ≠ fence_generation t (en_fence e) →
  is_ok (admit_obligation draft presented authority now e).1 = false ∧
  (admit_obligation draft presented authority now e).2 ≡ e.
Proof.
  intros Hwf Ht Hc. destruct (admit_obligation draft presented authority now e) as [[ob|err] e'] eqn:Ha.
  - apply admit_Ok in Ha as (_ & _ & _ & Hf & _); [|done]. destruct (Hf t Ht). destruct Hc; congruence.
  - split; [done|]. by apply admit_Err in Ha.
Qed.

Lemma closed_fence_refuses_witness :
  is_ok (admit_obligation Demo.flow 1 1 (36 * Demo.second) Demo.drained_engine).1 = false ∧
  (admit_obligation Demo.flow 1 1 (36 * Demo.second) Demo.drained_engine).2 ≡ Demo.drained_engine.
Proof.
  apply (closed_fence_refuses _ _ _ _ _ Demo.port_a).
  - by apply history_wf, drained_history.
  - vm_compute. apply list_elem_of_here.
  - left. vm_compute. reflexivity.
Defined.

(** ** Cancelling and restoring *)

(** Cancelling stops the work and keeps the fence: no fence, obligation or
    resource changes whatever the outcome; a drained target is never cancelled;
    and success leaves the drain [Cancelled]. *)
Theorem cancel_keeps_fence id authority reason now e :
  let st := (cancel_drain id authority reason now e).1 in
  let e' := (cancel_drain id authority reason now e).2 in
  en_fence e' = en_fence e ∧ en_obligations e' = en_obligations e ∧ en_topology e' = en_topology e ∧
  (∀ r, en_drains e !! id = Some r → dr_id r = id →
     (dr_state r = DrainState.Drained → is_ok st = false) ∧
     (is_ok st = true → ∃ r', en_drains e' !! id = Some r' ∧ dr_state r' = DrainState.Cancelled)).
Proof.
  unfold cancel_drain, with_drain. destruct (require_authority _ _ _) as [u|err]; cbn [fst snd];
    [|by split_and!; try done; intros r _ _; split].
  destruct (en_drains e !! id) as [r|] eqn:Hl; [|by split_and!].
  assert (∀ detail oc ins ev rej (m : error), dr_state r ≠ DrainState.Drained →
    let x := apply_transition r DrainState.Cancelled now detail oc ins ev rej e in
    let y := match x with (true, e') => (ok_status, e') | (false, e') => (Err m, e') end in
    en_fence y.2 = en_fence e ∧ en_obligations y.2 = en_obligations e ∧ en_topology y.2 = en_topology e ∧
    (∀ r0, Some r = Some r0 → dr_id r0 = id →
      (dr_state r0 = DrainState.Drained → is_ok y.1 = false) ∧
      (is_ok y.1 = true → ∃ r', en_drains y.2 !! id = Some r' ∧ dr_state r' = DrainState.Cancelled))) as Hgen.
  { intros detail oc ins ev rej m Hd. destruct (apply_transition _ _ _ _ _ _ _ _ _) as [b e'] eqn:Ha.
    apply apply_transition_spec in Ha as (r' & He & Hc). destruct (put_fields _ _ _ He) as (Et & Ef & Eo & _).
    destruct b; cbn zeta; cbn [fst snd]; (split_and!; [done..|]); intros r0 [= <-] Hid; split; try done.
    intros _. exists r'. destruct Hc as [(? & _)|[(_ & -> & Hs)|(_ & -> & _)]]; [done| |];
      (split; [rewrite He, lookup_put, ?dr_id_moved; by rewrite decide_True|]); [done|apply dr_state_moved]. }
  destruct (dr_state r) eqn:Hs; try (by apply Hgen).
  - by split_and!.
  - split_and!; try done. intros r0 [= <-] _. split; [congruence|]. intros _. by exists r.
Qed.

(** The record and the fence after [restore_drain] reopened admission. *)
Lemma restore_post {A} r now detail oc ins ev rej e f g (fail : result A)
    (done_ : DrainRecord → engine → result A) res e' :
  dr_revision r < int_max u64 → is_legal_drain_transition (dr_state r) DrainState.Restoring = true →
  DrainState.Restoring ≠ dr_state r →
  (match apply_transition r DrainState.Restoring now detail oc ins ev rej (e <| en_fence := f |>) with
   | (false, e) => (fail, e)
   | (true, e) =>
       let record := default r (en_drains e !! dr_id r) in
       let record := record <| dr_restore_generation := g |> in
       let e := put_drain record e in
       (done_ record e, e)
   end) = (res, e') →
  ∃ r', en_drains e' !! dr_id r = Some r' ∧ dr_state r' = DrainState.Restoring ∧
    dr_restore_generation r' = g ∧ dr_target r' = dr_target r ∧ en_fence e' = f ∧ res = done_ r' e'.
Proof.
  intros Hrev Hleg Hne. destruct (apply_transition _ _ _ _ _ _ _ _ _) as [b e2] eqn:Ha.
  apply apply_transition_spec in Ha as (m & He & [(_ & _ & _ & [?|?])|[(_ & _ & ?)|(-> & E & _)]]);
    [congruence|lia|congruence|].
  assert (dr_state m = DrainState.Restoring ∧ dr_id m = dr_id r ∧ dr_target m = dr_target r) as (Em & Ei & Et)
    by (rewrite E, dr_state_moved, dr_id_moved, dr_target_moved; done).
  clear E. assert (en_drains e2 !! dr_id r = Some m) as Hm.
  { rewrite He, <-Ei. apply om_lookup_insert_eq. }
  assert (en_fence e2 = f) as Ef by by rewrite He.
  rewrite Hm. cbn zeta. cbn [default from_option id]. intros [= <- <-].
  exists (m <| dr_restore_generation := g |>). rewrite <-Ei.
  split_and!; [|exact Em|reflexivity|exact Et|exact Ef|reflexivity]. apply om_lookup_insert_eq.
Qed.

(** C19: restoring reopens admission under a strictly newer generation: when
    [restore_drain] acts on a settled drain that has not given its target back, the
    fence is open afterwards at a generation above the one the drain closed, the
    record and the request handed to the adjacent runtimes carry it, and a caller
    who still presents the closed generation is refused. *)
Theorem restore_reopens_newer id authority reason now e r acts e' :
  engine_wf e → protocol_inv (view_of e) → headroom e →
  en_drains e !! id = Some r → is_settled (dr_state r) = true → reusable r = false →
  restore_drain id authority reason now e = (Ok acts, e') →
  ∃ g r', fence_is_closed (dr_target r) (en_fence e') = false ∧
    fence_generation (dr_target r) (en_fence e') = g ∧ dr_generation r < g ∧
    check_admission (dr_target r) (dr_generation r) (en_fence e') ≠ ok_status ∧
    en_drains e' !! id = Some r' ∧ dr_state r' = DrainState.Restoring ∧ dr_restore_generation r' = g ∧
    pa_reopens acts = [MkAdmissionReopenRequest (dr_target r) g now (truncate reason)].
Proof.
  intros Hwf HI [Hg Hrev] Hlk Hs Hru. destruct (ew_record _ Hwf _ _ Hlk) as (Hid & _).
  assert (stored r e) as Hl by (unfold stored; by rewrite Hid).
  destruct (restorable_phase r e Hwf Hl Hs Hru) as (Hp & Hleg & Hne & Hcr).
  unfold restore_drain, with_drain. destruct (require_authority _ _ _); [|done]. rewrite Hlk.
  rewrite bool_decide_false by congruence. rewrite Hs, Hru. cbn [negb].
  assert (dr_generation r ≤ fence_generation (dr_target r) (en_fence e)) as Hle.
  { apply (pi_reached _ HI (dr_id r) (dr_target r) (phase_of r) (dr_generation r)). simpl. by rewrite Hl. }
  assert (fence_generation (dr_target r) (en_fence e) + 2 ≤ int_max u64) as Hmax.
  { specialize (Hg (dr_target r)). pose proof (om_size_nonneg (en_drains e)). lia. }
  destruct (reopen_generation r reason now e) as [res e1] eqn:Hro.
  apply reopen_generation_spec in Hro as [[? ->]|(g & f & -> & -> & Hro)]; [by destruct res| |done..].
  intros Hr. subst id. apply (restore_post r now _ _ _ _ _ e f g _ (λ record e,
      Ok (MkPendingActions []
            ((λ ob, MkRestorationRequest (dr_id record) (dr_target record) (ob_id ob) (dr_generation record)
                      g now (truncate reason)) <$> outstanding_for (dr_target record) e)
            [MkAdmissionReopenRequest (dr_target record) g now (truncate reason)])))
    in Hr as (r' & Hl' & Hst & Hrg & Htg & Ef & [= ->]); [|by eapply Hrev|done|done].
  pose proof (ro_view _ _ _ _ Hro (dr_target r)) as Hv. rewrite decide_True in Hv by done.
  apply fence_view_open in Hv as [Hopen Hgen]. pose proof (ro_newer _ _ _ _ Hro) as Hnew.
  exists g, r'. rewrite Ef. split_and!; try done.
  - rewrite check_admission_ok, Hgen. intros [_ ?]. lia.
  - simpl. by rewrite Htg.
Qed.

Lemma restore_reopens_newer_witness :
  let res := restore_drain 1 1 "maintenance done" (40 * Demo.second) Demo.drained_engine in
  ∃ g r', fence_is_closed Demo.port_a (en_fence res.2) = false ∧
    fence_generation Demo.port_a (en_fence res.2) = g ∧ 1 < g ∧
    check_admission Demo.port_a 1 (en_fence res.2) ≠ ok_status ∧
    en_drains res.2 !! 1 = Some r' ∧ dr_state r' = DrainState.Restoring ∧ dr_restore_generation r' = g ∧
    pa_reopens (match res.1 with Ok a => a | Err _ => no_actions end)
      = [MkAdmissionReopenRequest Demo.port_a g (40 * Demo.second) (truncate "maintenance done")].
Proof.
  apply (restore_reopens_newer 1 1 "maintenance done" (40 * Demo.second) Demo.drained_engine
           (record_at 1 Demo.drained_engine)).
  - by apply history_wf, drained_history.
  - by apply history_protocol, drained_history.
  - by apply headroomb_ok; vm_compute.
  - vm_compute; reflexivity.
  - vm_compute; reflexivity.
  - vm_compute; reflexivity.
  - vm_compute; reflexivity.
Defined.

(** ** Requests *)

(** A request nonce is idempotent: repeating a request whose nonce is known
    and whose normalised targets are the set's returns the same set and changes
    nothing; with other targets it is refused as a duplicate. *)
Theorem nonce_is_idempotent request now e set_id set targets :
  dq_nonce request ≠ 0 → en_nonce_sets e !! dq_nonce request = Some set_id → en_sets e !! set_id = Some set →
  normalize_targets (dq_targets request) (p_max_targets_per_request (en_policy e)) = Ok targets →
  require_authority (dq_authority request) now e = ok_status →
  zlength targets ≤ p_max_drains_in_set (en_policy e) →
  om_size (en_sets e) < kMaxDrainSets → om_size (en_drains e) + zlength targets ≤ kMaxDrains →
  (targets = ds_targets set → request_drain_set request now e = (Ok set_id, e)) ∧
  (targets ≠ ds_targets set →
     result_code (request_drain_set request now e).1 = ErrorCode.DuplicateIdentity ∧
     (request_drain_set request now e).2 = e).
Proof.
  intros Hn Hnonce Hset Hnorm Hauth Hmax Hs1 Hs2. unfold request_drain_set.
  rewrite Hnorm, Hauth, (proj2 (Z.ltb_ge _ _)), (proj2 (Z.leb_gt _ _)), (proj2 (Z.ltb_ge _ _)), (proj2 (Z.eqb_neq _ _)) by done.
  cbn [orb]. rewrite Hnonce, Hset.
  split; intros D; [by rewrite bool_decide_true|]. by rewrite bool_decide_false.
Qed.

Lemma nonce_is_idempotent_witness :
  request_drain_set Demo.request (6 * Demo.second) Demo.requested_engine = (Ok 1, Demo.requested_engine).
Proof.
  apply (nonce_is_idempotent Demo.request (6 * Demo.second) Demo.requested_engine 1
           (default (MkDrainSet 0 "" 0 0 0 0 [] []) (en_sets Demo.requested_engine !! 1)) [Demo.port_a]);
    vm_compute; reflexivity || discriminate.
Defined.

Lemma create_members_spec request now targets set e set' e' :
  engine_wf e → NoDup targets → om_size (en_drains e) + zlength targets ≤ kMaxDrains →
  (∀ id r, en_drains e !! id = Some r → dr_target r ∈ targets → phase_of r = Released) →
  create_members request set now targets e = (Ok set', e') →
  set' = set <| ds_members := ds_members set ++ seqZ (en_drain_high_water e + 1) (zlength targets) |> ∧
  (∀ id, id ≤ en_drain_high_water e → en_drains e' !! id = en_drains e !! id) ∧
  (∀ i t, targets !! i = Some t →
     en_drains e' !! (en_drain_high_water e + 1 + Z.of_nat i) =
       Some (member_record request (ds_id set) (ds_reason set) now (en_drain_high_water e + 1 + Z.of_nat i) t)).
Proof.
  revert set e. induction targets as [|t targets IH]; intros set e Hwf Hnd Hroom Hfree.
  { intros [= <- <-]. rewrite zlength_nil. split_and!; [|done|by intros [] ?].
    change (seqZ (en_drain_high_water e + 1) 0) with (@nil Z). rewrite app_nil_r. by destruct set. }
  apply NoDup_cons in Hnd as [Hnt Hnd]. rewrite zlength_cons in *. pose proof (zlength_nonneg targets).
  destruct (increment_checked u64 (en_drain_high_water e)) as [next|] eqn:Hn;
    [|cbn [create_members]; by rewrite Hn].
  rewrite (create_members_cons _ _ _ _ _ _ _ Hwf Hn). set (r1 := member_record _ _ _ _ _ _).
  assert (refines false e (add_drain r1 e)) as Hs.
  { apply add_drain_refines; [done|done|lia|]. intros id r Hl <-. eapply Hfree; [done|by left]. }
  assert (next = en_drain_high_water e + 1) as En
    by (apply increment_checked_Some in Hn as [-> _]; [done|apply it_wf_u64|apply Hwf]).
  assert (en_drains e !! next = None) as Hf by (apply high_water_fresh; [done|lia]).
  assert (en_drain_high_water (add_drain r1 e) = next) as Eh by done.
  assert (en_drains (add_drain r1 e) = <[next := r1]> (en_drains e)) as Ed by done.
  intros Hc. apply IH in Hc as (-> & Hold & Hnew); [|apply Hs|done| |].
  - rewrite Eh in *. split_and!.
    + simpl. rewrite <-app_assoc. simpl. do 2 f_equal.
      rewrite (seqZ_cons (en_drain_high_water e + 1)) by lia. f_equal; [done|]. f_equal; lia.
    + intros id Hid. rewrite Hold, Ed by lia. apply om_lookup_insert_ne. lia.
    + intros [|i] t' Ht'; simpl in Ht'.
      * injection Ht' as <-. replace (en_drain_high_water e + 1 + Z.of_nat 0) with next by lia.
        rewrite Hold, Ed by lia. apply om_lookup_insert_eq.
      * replace (en_drain_high_water e + 1 + Z.of_nat (S i)) with (next + 1 + Z.of_nat i) by lia. by apply Hnew.
  - rewrite Ed, om_size_insert_None by done. lia.
  - intros id r Hl Hin. rewrite Ed in Hl. om_cases Hl; [done|]. eapply Hfree; [done|by right].
Qed.

Lemma create_set_spec request targets now e id e' :
  engine_wf e → NoDup targets → om_size (en_drains e) + zlength targets ≤ kMaxDrains →
  (∀ id r, en_drains e !! id = Some r → dr_target r ∈ targets → phase_of r = Released) →
  create_set request targets now e = (Ok id, e') →
  id = en_set_high_water e + 1 ∧
  (dq_nonce request ≠ 0 → en_nonce_sets e !! dq_nonce request = None →
     en_nonce_sets e' !! dq_nonce request = Some id) ∧
  ∃ set, en_sets e' !! id = Some set ∧ ds_targets set = targets ∧
    ds_members set = seqZ (en_drain_high_water e + 1) (zlength targets) ∧
    (∀ i, i ≤ en_drain_high_water e → en_drains e' !! i = en_drains e !! i) ∧
    (∀ i t, targets !! i = Some t →
       en_drains e' !! (en_drain_high_water e + 1 + Z.of_nat i) =
         Some (member_record request id (truncate (dq_reason request)) now
                 (en_drain_high_water e + 1 + Z.of_nat i) t)).
Proof.
  intros Hwf Hnd Hroom Hfree. unfold create_set.
  destruct (increment_checked u64 (en_set_high_water e)) as [ns|] eqn:Hn; [|done].
  apply increment_checked_Some in Hn as [-> Hr]; [|apply it_wf_u64|apply Hwf].
  set (e0 := e <| en_set_high_water := _ |>). set (set0 := MkDrainSet _ _ _ _ _ _ _ _).
  assert (engine_wf e0) as Hwf0.
  { pose proof (ew_set _ Hwf) as Hset. destruct Hwf. split; try done. simpl. intros i s Hl.
    destruct (Hset _ _ Hl). split; [done|lia]. }
  destruct (create_members _ _ _ _ _) as [[set1|] e1] eqn:Hc; [|done].
  pose proof (create_members_refines _ _ _ _ _ _ _ Hwf0 Hnd Hroom Hfree Hc) as (_ & _ & Es & En & _).
  apply create_members_spec in Hc as (-> & Hold & Hnew); [|done..].
  intros [= <- <-]. split; [done|].
  match goal with |- context [foldl ?f ?x ?l] =>
    assert (foldl f x l ≡ x) as He by (apply fold_log; intros; apply record_decision_log) end.
  set (s1 := set0 <| ds_members := ds_members set0 ++ seqZ (en_drain_high_water e0 + 1) (zlength targets) |>) in *.
  split.
  { intros Hnz Hnone. rewrite He, record_decision_log, (proj2 (Z.eqb_neq _ _) Hnz). simpl. unfold emplace. rewrite En.
    change (en_nonce_sets e0) with (en_nonce_sets e). rewrite Hnone. apply om_lookup_insert_eq. }
  exists s1.
  assert (en_sets e1 !! ds_id s1 = None) as Hfresh.
  { rewrite Es. change (en_sets e0) with (en_sets e).
    destruct (en_sets e !! ds_id s1) as [s|] eqn:Hl; [|done]. apply (ew_set _ Hwf) in Hl as [_ Hl]. simpl in Hl. lia. }
  split_and!; [|done|done| |].
  - rewrite He, record_decision_log. destruct (negb _); simpl; unfold emplace; simpl in Hfresh; rewrite Hfresh;
      apply om_lookup_insert_eq.
  - intros i Hi. rewrite He, record_decision_log. etrans; [|exact (Hold i Hi)]. by destruct (negb _).
  - intros i t Ht. rewrite He, record_decision_log. etrans; [|exact (Hnew i t Ht)]. by destruct (negb _).
Qed.

(** The per-domain counters count. *)
Definition in_domain (d : DomainId) (t : DrainTarget) : bool := bool_decide (tg_domain t = d).

Lemma per_domain_count targets d :
  default 0 (per_domain targets !! d) = zlength (List.filter (in_domain d) targets).
Proof.
  unfold per_domain.
  assert (∀ m : omap DomainId Z, default 0 (foldl (λ m t, <[tg_domain t := default 0 (m !! tg_domain t) + 1]> m) m targets !! d)
    = default 0 (m !! d) + zlength (List.filter (in_domain d) targets)) as H.
  { induction targets as [|t targets IH]; intros m; cbn [foldl];
      [change (zlength (List.filter (in_domain d) [])) with 0; lia|].
    rewrite IH. simpl. unfold in_domain at 2. case_bool_decide as D.
    - subst d. rewrite om_lookup_insert_eq, zlength_cons. simpl. lia.
    - by rewrite om_lookup_insert_ne. }
  by rewrite H.
Qed.

Lemma correlated_check_Ok targets now e e' :
  correlated_check targets now e = (ok_status, e') →
  e' = e ∧
  ((∀ t, t ∈ targets → is_Some (to_resource (tg_id t) (en_topology e))) →
     tv_ok (validate_removal_many (set_of_list (tg_id <$> targets)) (p_capacity_headroom_numerator (en_policy e))
              (p_capacity_headroom_denominator (en_policy e)) (en_topology e)) = true) ∧
  (∀ t, t ∈ targets → zlength (List.filter (in_domain (tg_domain t)) targets)
                        ≤ p_max_concurrent_drains_per_domain (en_policy e)).
Proof.
  unfold correlated_check. set (ct := forallb _ targets). set (v := validate_removal_many _ _ _ _).
  destruct (ct && negb (tv_ok v)) eqn:Hc; [done|].
  destruct (List.find _ _) as [[dom c]|] eqn:Hf; [done|]. intros [= <-]. split; [done|]. split.
  - intros Hall. assert (ct = true) as Hct.
    { subst ct. apply forallb_forall. intros t Ht%list_elem_of_In. by destruct (Hall t Ht) as [n ->]. }
    rewrite Hct in Hc. by destruct (tv_ok v).
  - intros t Ht. rewrite <-per_domain_count.
    destruct (per_domain targets !! tg_domain t) as [c|] eqn:Hp; simpl.
    + pose proof (find_none _ _ Hf (tg_domain t, c)) as Hn. simpl in Hn. apply Z.ltb_ge, Hn, list_elem_of_In.
      by apply om_lookup_elem.
    + pose proof (per_domain_count targets (tg_domain t)) as Hz. rewrite Hp in Hz. simpl in Hz. symmetry in Hz.
      rewrite zlength_zero in Hz. assert (t ∈ List.filter (in_domain (tg_domain t)) targets) as Hin.
      { apply list_elem_of_In, filter_In. split; [by apply list_elem_of_In|]. by apply bool_decide_eq_true. }
      rewrite Hz in Hin. by apply not_elem_of_nil in Hin.
Qed.

(** Everything an accepted request has been checked for. *)
Record request_admissible (request : DrainRequest) (targets : list DrainTarget) (now : TimePoint) (e : engine)
  : Prop := {
  ra_targets : normalize_targets (dq_targets request) (p_max_targets_per_request (en_policy e)) = Ok targets;
  ra_authority : require_authority (dq_authority request) now e = ok_status;
  ra_members : zlength targets ≤ p_max_drains_in_set (en_policy e);
  ra_free : ∀ id r, en_drains e !! id = Some r → dr_target r ∈ targets → reusable r = true;
  ra_safe : (∀ t, t ∈ targets → is_Some (to_resource (tg_id t) (en_topology e))) →
    removal_safe (en_topology e) (set_of_list (tg_id <$> targets))
      (p_capacity_headroom_numerator (en_policy e)) (p_capacity_headroom_denominator (en_policy e));
  ra_domains : ∀ t, t ∈ targets → zlength (List.filter (in_domain (tg_domain t)) targets)
    ≤ p_max_concurrent_drains_per_domain (en_policy e);
}.

(** A request the engine has accepted before: nothing happens, and the answer is
    the set the nonce named. *)
Record replayed (request : DrainRequest) (id : DrainSetId) (e e' : engine) : Prop := {
  rp_nonce : dq_nonce request ≠ 0;
  rp_known : en_nonce_sets e !! dq_nonce request = Some id;
  rp_unchanged : e' = e;
}.

(** A set of new drains for [targets]. *)
Record drains_created (request : DrainRequest) (targets : list DrainTarget) (set : DrainSet) (id : DrainSetId)
    (now : TimePoint) (e e' : engine) : Prop := {
  dc_nonce : dq_nonce request = 0 ∨
    en_nonce_sets e !! dq_nonce request = None ∧ en_nonce_sets e' !! dq_nonce request = Some id;
  dc_admissible : request_admissible request targets now e;
  dc_id : id = en_set_high_water e + 1;
  dc_members : ds_members set = seqZ (en_drain_high_water e + 1) (zlength targets);
  dc_old : ∀ i, i ≤ en_drain_high_water e → en_drains e' !! i = en_drains e !! i;
  dc_new : ∀ i t, targets !! i = Some t →
    en_drains e' !! (en_drain_high_water e + 1 + Z.of_nat i) =
      Some (member_record request id (truncate (dq_reason request)) now
              (en_drain_high_water e + 1 + Z.of_nat i) t);
}.


Definition second_request : DrainRequest := MkDrainRequest [Demo.port_b] "second" 1 "node-1" 9.
Definition demo_request : result DrainSetId * engine :=
  Eval vm_compute in request_drain_set second_request (6 * Demo.second) Demo.requested_engine.


(** One target the topology does not know switches the correlated check off: alone,
    the drain of [port_b] is refused because of the capacity committed on it;
    together with an unknown target it is accepted. *)
Definition committed_engine : engine :=
  (en_add_capacity_pool (MkCapacityPool "pool" "rack-1" 190 ["port-a"; "port-b"]) (6 * Demo.second) Demo.requested_engine).2.
Definition unknown_port : DrainTarget := MkTarget TargetKind.Port "port-z" "rack-9".

Example unknown_target_skips_the_check :
  let ask := λ targets, is_ok (request_drain_set (MkDrainRequest targets "maintenance" 1 "node-1" 9)
                                 (7 * Demo.second) committed_engine).1 in
  (ask [Demo.port_b], ask [Demo.port_b; unknown_port]) = (false, true).
Proof. vm_compute. reflexivity. Qed.

(** ** Reports *)

(** A stale report changes nothing: a report on an obligation whose revision
    has moved on, or that names a drain at a generation which is neither the
    drain's nor the one it was restored under, is refused and leaves every
    obligation as it was. *)
Theorem stale_report_refused report now e ob :
  ot_find (op_obligation report) (en_obligations e) = Some ob →
  op_expected_revision report ≠ ob_revision ob ∨
  (∃ r, op_drain report ≠ 0 ∧ en_drains e !! op_drain report = Some r ∧
        op_generation report ≠ dr_generation r ∧
        (dr_restore_generation r = 0 ∨ op_generation report ≠ dr_restore_generation r)) →
  is_ok (report_obligation report now e).1 = false ∧
  ∀ o, ot_find o (en_obligations (report_obligation report now e).2) = ot_find o (en_obligations e).
Proof.
  intros Hf Hst. unfold report_obligation. rewrite Hf.
  destruct (report_generation_check report e) as [u|err] eqn:Hg; [|done].
  destruct Hst as [Hrev|(r & Hd & Hl & Hg1 & Hg2)].
  - destruct (apply_state_stale (op_expected_revision report) (op_next report) (op_evidence report) now ob Hrev) as [Ho Hc].
    destruct (apply_state _ _ _ _ _) as [[[]|err] ob'] eqn:Ha; cbn [fst snd] in *; subst ob'.
    + done.
    + split; [done|]. intros o. cbn [fst snd reject_report bump en_obligations]. simpl. rewrite ot_find_store.
      case_decide; congruence.
  - exfalso. unfold report_generation_check in Hg. rewrite (proj2 (Z.eqb_neq _ _) Hd), Hl in Hg.
    rewrite (proj2 (Z.eqb_neq _ _) Hg1) in Hg. cbn [negb andb] in Hg.
    destruct Hg2 as [Hg2|Hg2]; [by rewrite Hg2 in Hg|]. rewrite (proj2 (Z.eqb_neq _ _) Hg2), andb_false_r in Hg. done.
Qed.

Lemma stale_report_refused_witness :
  is_ok (report_obligation Demo.release_report (50 * Demo.second) Demo.drained_engine).1 = false ∧
  ∀ o, ot_find o (en_obligations (report_obligation Demo.release_report (50 * Demo.second) Demo.drained_engine).2)
       = ot_find o (en_obligations Demo.drained_engine).
Proof.
  apply (stale_report_refused _ _ _ (default Demo.flow (ot_find 1 (en_obligations Demo.drained_engine))));
    [vm_compute; reflexivity|]. left. vm_compute. discriminate.
Defined.

(** ** Restart *)

(** C23: the restart fence: installing an authority line refuses every token the
    engine had issued, keeps every evidence record, latest or superseded, but as
    unattested, so that none is fresh by any path until it is attested again,
    advances the incarnation without rewinding the epoch, and leaves drains, fences,
    obligations and topology alone. *)
Theorem authority_line_is_a_fence incarnation epoch now reason e e' :
  install_authority_line incarnation epoch now reason e = (ok_status, e') →
  (∀ token at_, ar_validate token at_ (en_authority e') ≠ ok_status) ∧
  (∀ key seq, el_find key seq (en_evidence e')
      = (λ ev, ev <| ev_attested := false |>) <$> el_find key seq (en_evidence e)) ∧
  (∀ key seq ev fence freshness, el_find key seq (en_evidence e') = Some ev →
     is_fresh ev fence freshness = false) ∧
  (∀ key fence freshness, el_fresh key fence freshness (en_evidence e') = None) ∧
  ar_incarnation (en_authority e') = incarnation ∧ ar_epoch (en_authority e') = epoch ∧
  (ar_incarnation (en_authority e) = 0 ∨ ar_incarnation (en_authority e) < incarnation) ∧
  ar_epoch (en_authority e) ≤ epoch ∧
  en_drains e' = en_drains e ∧ en_fence e' = en_fence e ∧ en_obligations e' = en_obligations e ∧
  en_topology e' = en_topology e.
Proof.
  unfold install_authority_line. destruct (install_line _ _ _ _ _) as [[[]|] a] eqn:Hl; [|done]. intros [= <-].
  apply install_line_cases in Hl as Hc. destruct Hc as [[? _]|(_ & _ & _ & Hi & He & ->)]; [done|].
  split_and!; try done; simpl.
  - intros token at_. by eapply install_line_fences.
  - intros. apply el_find_quarantine.
  - intros key seq ev fence freshness. rewrite el_find_quarantine, fmap_Some. by intros (ev0 & _ & ->).
  - intros. apply el_fresh_quarantine.
Qed.

Lemma authority_line_is_a_fence_witness :
  let e' := (install_authority_line 2 2 (50 * Demo.second) "restart" Demo.drained_engine).2 in
  ar_validate (new_authority_token 1 "" 0 1 1 Demo.second 0) (60 * Demo.second) (en_authority e') ≠ ok_status ∧
  ar_epoch (en_authority e') = 2.
Proof.
  destruct (authority_line_is_a_fence 2 2 (50 * Demo.second) "restart" Demo.drained_engine
    (install_authority_line 2 2 (50 * Demo.second) "restart" Demo.drained_engine).2)
    as (Ht & _ & _ & _ & _ & He & _); [vm_compute; reflexivity|].
  split; [apply Ht|apply He].
Defined.

(** ** Exceptions *)

(** Exceptions are bounded and do what they say: a successful grant has a
    positive extension and a live drain, uses one of the policy's permitted
    extensions, and moves the grace deadline of exactly the obligations it covers
    by that extension (saturating at the end of time). *)
Theorem exception_extends_grace id obligation extension authority now e e' :
  grant_exception id obligation extension authority now e = (ok_status, e') →
  0 < extension ∧ require_authority authority now e = ok_status ∧
  zlength (default [] (en_exceptions e' !! id)) = zlength (default [] (en_exceptions e !! id)) + 1 ∧
  zlength (default [] (en_exceptions e' !! id)) ≤ p_max_exception_extensions (en_policy e) ∧
  ∃ r, en_drains e !! id = Some r ∧ is_settled (dr_state r) = false ∧
    (dr_id r = id → ∀ ob, grace_deadline_for r ob e' =
       if (obligation =? 0) || (obligation =? ob_id ob)
       then saturating_add (grace_deadline_for r ob e) extension else grace_deadline_for r ob e).
Proof.
  unfold grant_exception. destruct (require_authority _ _ _) as [[]|] eqn:Ha; [|done].
  destruct (Z.leb_spec extension 0); [done|]. destruct (en_drains e !! id) as [r|] eqn:Hl; [|done].
  destruct (is_settled _) eqn:Hs; [done|]. destruct (_ && _); [done|]. cbv zeta.
  set (grants := default [] (en_exceptions e !! id)).
  destruct (Z.leb_spec (p_max_exception_extensions (en_policy (e <| en_exceptions := <[id := grants]> (en_exceptions e) |>)))
    (zlength grants)) as [|Hroom]; [done|]. simpl in Hroom.
  destruct (increment_checked _ _) as [n|]; [|done]. intros [= <-].
  assert (∀ x : list ExceptionGrant, zlength (grants ++ x) = zlength grants + zlength x) as Hz by (intros; apply zlength_app).
  simpl. rewrite !om_lookup_insert_eq. simpl. rewrite Hz. change (zlength [_]) with 1.
  split_and!; [lia|done|done|lia|]. exists r. split_and!; [done|done|]. intros Hid ob.
  unfold grace_deadline_for; simpl. rewrite Hid, om_lookup_insert_eq. simpl.
  rewrite foldl_app. simpl. done.
Qed.

Lemma exception_extends_grace_witness :
  zlength (default [] (en_exceptions (grant_exception 1 0 (60 * Demo.second) 1 (22 * Demo.second)
                                        Demo.evacuating_engine).2 !! 1))
  = zlength (default [] (en_exceptions Demo.evacuating_engine !! 1)) + 1.
Proof.
  apply (exception_extends_grace 1 0 (60 * Demo.second) 1 (22 * Demo.second) Demo.evacuating_engine).
  vm_compute. reflexivity.
Defined.

(** ** Authority *)

(** C25: nothing happens without authority: when the presented authority is not
    valid, admission, request, cancel, restore, resume and exception grants all
    fail and leave the engine as it was up to the log. *)
Theorem authority_is_required authority now e :
  is_ok (require_authority authority now e) = false →
  (∀ draft presented, is_ok (admit_obligation draft presented authority now e).1 = false ∧
     (admit_obligation draft presented authority now e).2 ≡ e) ∧
  (∀ request, dq_authority request = authority → is_ok (request_drain_set request now e).1 = false ∧
     (request_drain_set request now e).2 ≡ e) ∧
  (∀ id reason, is_ok (cancel_drain id authority reason now e).1 = false ∧
     (cancel_drain id authority reason now e).2 = e) ∧
  (∀ id reason, is_ok (restore_drain id authority reason now e).1 = false ∧
     (restore_drain id authority reason now e).2 = e) ∧
  (∀ id, is_ok (resume_drain id authority now e).1 = false ∧ (resume_drain id authority now e).2 = e) ∧
  (∀ id obligation extension, is_ok (grant_exception id obligation extension authority now e).1 = false ∧
     (grant_exception id obligation extension authority now e).2 = e).
Proof.
  intros Ha. destruct (require_authority authority now e) as [|err] eqn:Hr; [done|]. split_and!.
  - intros. unfold admit_obligation. by rewrite Hr.
  - intros request Hq. unfold request_drain_set. destruct (normalize_targets _ _); [|done]. rewrite Hq, Hr.
    split; [done|]. unfold reject_request. cbn [snd]. apply record_decision_log.
  - intros. unfold cancel_drain, with_drain. by rewrite Hr.
  - intros. unfold restore_drain, with_drain. by rewrite Hr.
  - intros. unfold resume_drain, with_drain. by rewrite Hr.
  - intros. unfold grant_exception. by rewrite Hr.
Qed.

Lemma authority_is_required_witness :
  is_ok (cancel_drain 1 99 "no authority" (36 * Demo.second) Demo.evacuating_engine).1 = false.
Proof. apply (authority_is_required 99 (36 * Demo.second) Demo.evacuating_engine). vm_compute. reflexivity. Defined.

(** An operator cannot talk a drain out of its blockers: [resume_drain]
    succeeds only on a blocked drain whose held state evaluates without a blocker,
    and then returns it to exactly that state; otherwise the drain still holds what
    it held. *)
Theorem resume_respects_blockers id authority now e r :
  engine_wf e → en_drains e !! id = Some r →
  let st := (resume_drain id authority now e).1 in
  let e' := (resume_drain id authority now e).2 in
  (is_ok st = true → ∃ s, dr_state r = DrainState.Blocked ∧ dr_blocked_from r = Some s ∧
     evaluate_state r s now e = [] ∧ ∃ r', en_drains e' !! id = Some r' ∧ dr_state r' = s) ∧
  (is_ok st = false → ∃ r', en_drains e' !! id = Some r' ∧ effective_state r' = effective_state r).
Proof.
  intros Hwf Hl. destruct (ew_record _ Hwf _ _ Hl) as (Hid & _ & (_ & _ & Hbf & Hbl) & _). subst id.
  unfold resume_drain, with_drain. destruct (require_authority _ _ _); [|by split; [|exists r]]. rewrite Hl.
  case_bool_decide as Hb; cbn [negb]; [|by split; [|exists r]].
  destruct (proj1 Hbf Hb) as [s Hs]. rewrite Hs. change (default DrainState.Validating (Some s)) with s.
  destruct (evaluate_state r s now e) as [|b bl] eqn:Hev.
  - destruct (apply_transition _ _ _ _ _ _ _ _ _) as [b0 e2] eqn:Ha.
    apply apply_transition_spec in Ha as (r' & He & Hc).
    assert (en_drains e2 !! dr_id r' = Some r') as Hl' by (rewrite He; apply om_lookup_insert_eq).
    destruct Hc as [(-> & -> & _)|[(_ & _ & E)|(-> & E & _)]]; cbn [fst snd].
    + split; [done|]. intros _. by exists r.
    + destruct (Hbl _ Hs). congruence.
    + split; [|done]. intros _. exists s. split_and!; [done|done|done|]. exists r'.
      assert (dr_id r' = dr_id r ∧ dr_state r' = s) as [<- Est] by (rewrite E, dr_id_moved, dr_state_moved; done). done.
  - cbn [fst snd]. split; [done|]. intros _.
    destruct (blocked_lands r (b :: bl) now "resume-rejected" e) as (r' & Hl' & He & _). by exists r'.
Qed.

(** The grace window of the flow runs out; an exception then buys more time. *)
Definition grace_ops : list (op * TimePoint) :=
  [(OpAdvance, 4000 * Demo.second); (OpGrant 1 0 (3600 * Demo.second) 1, 4001 * Demo.second)].
Definition excused_engine : engine := Eval vm_compute in Demo.run_from Demo.evacuating_engine grace_ops.

Lemma excused_history : history any_op (new_engine default_policy) excused_engine.
Proof.
  eapply history_app; [by apply evacuating_history|].
  apply (demo_history any_op (λ _ _ _ _ _, I) grace_ops); [by repeat constructor|vm_compute; reflexivity].
Qed.

Lemma resume_respects_blockers_witness :
  dr_state (record_at 1 excused_engine) = DrainState.Blocked ∧
  ∃ r', en_drains (resume_drain 1 1 (4002 * Demo.second) excused_engine).2 !! 1 = Some r' ∧
        dr_state r' = DrainState.Evacuating.
Proof.
  split; [vm_compute; reflexivity|].
  destruct (resume_respects_blockers 1 1 (4002 * Demo.second) excused_engine (record_at 1 excused_engine)) as [Hok _];
    [by apply history_wf, excused_history|vm_compute; reflexivity|].
  destruct Hok as (s & _ & Hs & _ & r' & Hl & Hst); [vm_compute; reflexivity|].
  exists r'. split; [exact Hl|]. revert Hs Hst. vm_compute. intros [= <-] Hst. exact Hst.
Defined.
