(* ===== verification/Progress.v ===== *)
(** * Progress of the scheduler

    The gates of [step_drain] say when a drain must not move; this file says
    when it does.  [turn] is one iteration of the loop of [advance]
    ([src/engine.cpp]): the drain [id] takes its step at time [now]. *)

From S2P Require Import Prelude Containers Checked Result Text Identity Lifecycle Obligation Evidence.
From S2P Require Import Authority Admission Topology TopologyFacts Policy Decision Protocol Engine.
From S2P Require Import EngineStep EngineOps EngineInv EngineRefine EngineReach Scenario EngineGates.

Definition turn (now : TimePoint) (id : DrainId) (e : engine) : engine :=
  (advance_one now (e, no_actions) id).1.

(** ** The calls a step makes succeed when there is room *)

Lemma fence_close_succeeds target drain at_ reason f :
  fence_wf f → drain ≠ 0 → fence_generation target f < int_max u64 → om_size f < kMaxFencedTargets →
  ∃ e, fence_close target drain at_ reason f = (Ok (fence_generation target f + 1), <[target := e]> f) ∧
       fe_closed e = true ∧ fe_generation e = fence_generation target f + 1 ∧ fe_drain e = drain.
Proof.
  intros Hwf Hd Hg Hsz. destruct (fence_close target drain at_ reason f) as [res f'] eqn:Hc.
  pose proof Hc as Hc'. apply fence_close_cases in Hc as [[Hr ->]|(en & -> & _ & -> & ? & ? & ? & _)];
    [|by exists en|done|lia].
  exfalso. revert Hc'. unfold fence_close. rewrite (proj2 (Z.eqb_neq _ _) Hd), fence_entry_default.
  rewrite increment_checked_exact by (apply it_wf_u64 || by apply fence_generation_range).
  rewrite decide_True by lia.
  assert (om_size (<[target := default default_fence_entry (f !! target)]> f) ≤ kMaxFencedTargets) as Hle.
  { destruct (f !! target) as [v|] eqn:E; [|rewrite om_size_insert_None by done; lia].
    erewrite om_size_insert_Some; [lia|apply Hwf|done]. }
  rewrite (proj2 (Z.ltb_ge _ _) Hle). intros [= <- _]. done.
Qed.

Lemma el_record_succeeds draft fence live l :
  ledger_wf l → ev_observed_at draft ≤ saturating_add (ef_now fence) (ef_allowed_skew fence) →
  ev_epoch draft = ef_live_epoch fence → ev_producer draft = ef_live_incarnation fence →
  el_high_water (ev_key draft) l < ev_seq draft → om_size (el_records l) < el_max_records l →
  ∃ l', el_record draft fence live l = (Ok (draft <| ev_attested := true |>), l').
Proof.
  intros Hwf Hobs Hep Hpr Hseq Hroom. unfold el_record.
  rewrite (proj2 (Z.ltb_ge _ _) Hobs), Hep, Z.eqb_refl, Hpr, Z.eqb_refl, andb_false_r. cbn [negb].
  assert (∀ s, el_latest_seq l !! ev_key draft = Some s → s < ev_seq draft) as Hnew.
  { intros s Hs. unfold el_high_water in Hseq. by rewrite Hs in Hseq. }
  assert (match el_latest_seq l !! ev_key draft with
          | Some s => if ev_seq draft <=? s then Some s else None
          | None => None
          end = None) as ->.
  { destruct (el_latest_seq l !! ev_key draft) as [s|] eqn:E; [|done]. specialize (Hnew s eq_refl).
    by rewrite (proj2 (Z.leb_gt _ _)). }
  rewrite (proj2 (Z.leb_gt _ _) Hroom).
  destruct (el_store_spec draft l l Hwf (retired_for_refl _ _ Hwf) Hnew) as (l2 & -> & _). by exists l2.
Qed.

Lemma transition_moves r next now detail oc ins ev rej e :
  next ≠ dr_state r → is_legal_drain_transition (dr_state r) next = true → dr_revision r ≠ int_max u64 →
  (apply_transition r next now detail oc ins ev rej e).2 ≡ put_drain (moved next now detail r) e.
Proof.
  intros Hne Hl Hm. destruct (apply_transition _ _ _ _ _ _ _ _ _) as [b e'] eqn:Ha; cbn [snd].
  apply apply_transition_spec in Ha as (r' & He & [(_ & _ & _ & [?|?])|[(_ & _ & ?)|(_ & -> & _)]]); [congruence..|done].
Qed.

(** ** The four turns of a drain with nothing to evacuate *)

Lemma turn_stored r now e :
  stored r e → is_settled (dr_state r) = false → dr_state r ≠ DrainState.Blocked →
  turn now (dr_id r) e = (step_state r now no_actions e).1.
Proof.
  unfold turn, advance_one, step_drain. intros -> -> Hb. by rewrite bool_decide_false.
Qed.

Lemma turn_validating r now e g f :
  stored r e → dr_state r = DrainState.Validating → dr_revision r ≠ int_max u64 →
  evaluate_start r now e = [] →
  fence_close (dr_target r) (dr_id r) now (dr_reason r) (en_fence e) = (Ok g, f) →
  turn now (dr_id r) e ≡
    put_drain (moved DrainState.AdmissionClosed now "admission closed" (r <| dr_generation := g |>))
      (e <| en_fence := f |>).
Proof.
  intros Hl Hs Hm Hev Hc. rewrite (turn_stored r) by (done || by rewrite Hs). unfold step_state. rewrite Hs. cbn [fst].
  unfold step_validating. rewrite Hev, Hc. cbn [is_nil negb]. cbv zeta.
  apply transition_moves; change (dr_state (r <| dr_generation := g |>)) with (dr_state r); by rewrite ?Hs.
Qed.

Lemma turn_admission_closed r now e :
  stored r e → dr_state r = DrainState.AdmissionClosed → dr_revision r ≠ int_max u64 →
  saturating_add (dr_admission_closed_at r) (p_admission_fence_settle (en_policy e)) ≤ now →
  outstanding_for (dr_target r) e = [] →
  turn now (dr_id r) e ≡
    put_drain (moved DrainState.Quiescing now "no protected dependencies depend on the target" r) e.
Proof.
  intros Hl Hs Hm Ht Ho. rewrite (turn_stored r) by (done || by rewrite Hs). unfold step_state. rewrite Hs. cbn [fst].
  unfold step_admission_closed. rewrite (proj2 (Z.ltb_ge _ _) Ht). cbv zeta. rewrite Ho. cbn [is_nil].
  apply transition_moves; by rewrite ?Hs.
Qed.

Definition take_down (target : DrainTarget) (e : engine) : engine :=
  e <| en_topology := (to_set_status (tg_id target) ResourceStatus.Unavailable (en_topology e)).2 |>.

Lemma turn_quiescing r now e e1 n :
  stored r e → dr_state r = DrainState.Quiescing → dr_revision r ≠ int_max u64 →
  outstanding_for (dr_target r) e = [] →
  to_resource (tg_id (dr_target r)) (en_topology e) = Some n → in_service n = true →
  tv_ok (validate_removal (tg_id (dr_target r)) (p_capacity_headroom_numerator (en_policy e))
           (p_capacity_headroom_denominator (en_policy e)) (en_topology e)) = true →
  record_removal_evidence r now (take_down (dr_target r) e) = (ok_status, e1) →
  turn now (dr_id r) e ≡ put_drain (moved DrainState.Verifying now "removal step completed" r) e1.
Proof.
  intros Hl Hs Hm Ho Hn Hin Hv Hr. rewrite (turn_stored r) by (done || by rewrite Hs).
  unfold step_state. rewrite Hs. cbn [fst]. unfold step_quiescing. rewrite Ho. cbn [existsb].
  assert (rn_status n = ResourceStatus.InService) as Hst by (unfold in_service in Hin; by case_bool_decide).
  assert (evaluate_quiescence r now e = ([], [])) as ->.
  { unfold evaluate_quiescence. rewrite Ho. cbn [fmap list_fmap base.omap list_omap is_nil negb orb].
    rewrite Hn, bool_decide_true, Hv by done. done. }
  cbn [is_nil negb]. unfold step_removal. rewrite Hn, bool_decide_true, Hin, Hv by done. cbn [negb andb].
  cbv zeta. fold (take_down (dr_target r) e). rewrite Hr. apply transition_moves; by rewrite ?Hs.
Qed.

Lemma turn_verifying r now e proof :
  stored r e → dr_state r = DrainState.Verifying → dr_revision r ≠ int_max u64 →
  evaluate_verification r now e = ([], proof) →
  ∃ r', turn now (dr_id r) e ≡ put_drain r' e ∧ dr_id r' = dr_id r ∧ dr_state r' = DrainState.Drained ∧
        dr_remaining_protected r' = 0 ∧ dr_completion_digest r' = authoritative_digest e ∧
        dr_completed_at r' = now ∧ dr_generation r' = dr_generation r.
Proof.
  intros Hl Hs Hm Hev. rewrite (turn_stored r) by (done || by rewrite Hs). unfold step_state. rewrite Hs. cbn [fst].
  unfold step_verifying. rewrite Hev. cbn [is_nil negb andb].
  destruct (evaluate_verification_nil _ _ _ _ Hev) as (Hout & _). unfold step_complete. rewrite Hout.
  set (r1 := r <| dr_completed_at := now |> <| dr_remaining_protected := 0 |>
               <| dr_completion_digest := authoritative_digest e |> <| dr_completion_evidence := proof |>).
  change (record_completion now (wrap u32 (zlength (@nil Obligation))) (authoritative_digest e) proof r)
    with (ok_status, r1).
  cbv beta iota. eexists. split.
  { rewrite transition_moves by (change (dr_state r1) with (dr_state r); by rewrite ?Hs).
    rewrite bump_log, put_put by apply dr_id_moved. reflexivity. }
  by autorewrite with drain.
Qed.

Lemma verification_clean r now e :
  outstanding_for (dr_target r) e = [] → removal_owned_by r e = true →
  (∃ ev, el_fresh (removal_key r) (evidence_fence now e) (p_evidence_freshness (en_policy e)) (en_evidence e)
           = Some ev ∧ ev_generation ev = dr_generation r ∧ dr_admission_closed_at r ≤ ev_observed_at ev) →
  ∃ proof, evaluate_verification r now e = ([], proof).
Proof.
  intros Ho Hown (ev & Hf & Hg & Hc). unfold evaluate_verification. rewrite Ho. cbn [fmap list_fmap is_nil negb].
  assert (is_Some (to_resource (tg_id (dr_target r)) (en_topology e))) as [n Hn].
  { unfold removal_owned_by in Hown. by destruct (to_resource _ _). }
  rewrite Hn, Hown, Hf, Hg, Z.eqb_refl, (proj2 (Z.ltb_ge _ _) Hc). cbn [negb].
  destruct (p_require_quiescence_evidence _); eauto.
Qed.

(** The removal observation is accepted, and stays fresh for the window the
    policy grants. *)
Lemma removal_observed r now e :
  ledger_wf (en_evidence e) → in_range i64 now → in_range i64 (p_evidence_clock_skew (en_policy e)) →
  0 ≤ p_evidence_clock_skew (en_policy e) → 0 ≤ el_high_water (removal_key r) (en_evidence e) < int_max u64 →
  om_size (el_records (en_evidence e)) < el_max_records (en_evidence e) →
  ∃ l ev, record_removal_evidence r now e = (ok_status, e <| en_evidence := l |>) ∧
          el_latest (removal_key r) l = Some ev ∧ ev_attested ev = true ∧
          ev_epoch ev = ar_epoch (en_authority e) ∧ ev_observed_at ev = now ∧
          ev_generation ev = dr_generation r.
Proof.
  intros Hwf Hnow Hskr Hsk Hseq Hroom. unfold record_removal_evidence. cbv zeta.
  rewrite increment_checked_exact by (apply it_wf_u64 || (split; change (int_min u64) with 0; lia)).
  rewrite decide_True by lia.
  match goal with |- context [el_record ?d _ _ _] => set (draft := d) end.
  assert (now ≤ saturating_add now (p_evidence_clock_skew (en_policy e))) as Hle.
  { rewrite saturating_add_clamp by done. destruct Hnow. lia. }
  destruct (el_record_succeeds draft (evidence_fence now e)
    (p_evidence_requires_live_incarnation (en_policy e)) (en_evidence e)) as [l Hr];
    [done|exact Hle|done|done|simpl; lia|done|].
  rewrite Hr. exists l, (draft <| ev_attested := true |>). split; [done|].
  apply el_record_cases in Hr as [[? _]|(_ & _ & _ & _ & _ & _ & _ & _ & Hlat)]; [done| |done].
  rewrite Hlat, decide_True by done. by split_and!.
Qed.

(** A drain whose validation is clean, with nothing protected on its target and
    room in the fence, the ledger and the revision space; the clock moves on
    between its turns by at least the settle time, and verification follows the
    removal within the freshness window. *)
Record undisturbed (r : DrainRecord) (t1 t2 t3 t4 : TimePoint) (e : engine) : Prop := {
  ud_wf : engine_wf e;
  ud_policy : policy_validate (en_policy e) = ok_status;
  ud_stored : stored r e;
  ud_state : dr_state r = DrainState.Validating;
  ud_start : evaluate_start r t1 e = [];
  ud_clear : outstanding_for (dr_target r) e = [];
  ud_revision : dr_revision r + 4 ≤ int_max u64;
  ud_generation : fence_generation (dr_target r) (en_fence e) < int_max u64;
  ud_fence : om_size (en_fence e) < kMaxFencedTargets;
  ud_sequence : 0 ≤ el_high_water (removal_key r) (en_evidence e) < int_max u64;
  ud_ledger : om_size (el_records (en_evidence e)) < el_max_records (en_evidence e);
  ud_range : in_range i64 t3 ∧ in_range i64 t4 ∧ in_range i64 (p_evidence_clock_skew (en_policy e));
  ud_settle : saturating_add t1 (p_admission_fence_settle (en_policy e)) ≤ t2;
  ud_clock : t1 ≤ t3 ≤ t4;
  ud_fresh : t4 ≤ saturating_add t3 (p_evidence_freshness (en_policy e));
}.

(** The record on its way: [s] is reached after [k] changes, behind the fence
    generation [g] closed at [t]. *)
Record at_stage (r : DrainRecord) (t : TimePoint) (g : Generation) (s : DrainState.t) (k : Z)
    (r' : DrainRecord) (e' : engine) : Prop := {
  sg_stored : stored r' e';
  sg_id : dr_id r' = dr_id r;
  sg_target : dr_target r' = dr_target r;
  sg_state : dr_state r' = s;
  sg_revision : dr_revision r' = dr_revision r + k;
  sg_generation : dr_generation r' = g;
  sg_closed_at : dr_admission_closed_at r' = t;
}.

(** Only the record and the parts named differ from the engine at the start. *)
Record alongside (e e' : engine) (f : AdmissionFence) (t : Topology) (l : EvidenceLedger) : Prop := {
  as_topology : en_topology e' = t;
  as_fence : en_fence e' = f;
  as_obligations : en_obligations e' = en_obligations e;
  as_evidence : en_evidence e' = l;
  as_authority : en_authority e' = en_authority e;
  as_policy : en_policy e' = en_policy e;
}.

Lemma stored_put r e e' : e' ≡ put_drain r e → stored r e'.
Proof. intros He. unfold stored. rewrite He. apply om_lookup_insert_eq. Qed.

Lemma alongside_put r e0 e e' f t l : e' ≡ put_drain r e → alongside e0 e f t l → alongside e0 e' f t l.
Proof. intros (Et & Ef & Eo & Ee & Ea & Ep)%put_fields []. split; congruence. Qed.

Lemma revision_moved next now detail r :
  0 ≤ dr_revision r < int_max u64 → dr_revision (moved next now detail r) = dr_revision r + 1.
Proof.
  intros H. rewrite dr_revision_moved. apply next_id_exact; [split; change (int_min u64) with 0|]; lia.
Qed.

Lemma stage_move r t g s k r' e0 e' e'' next now detail :
  at_stage r t g s k r' e0 → 0 ≤ dr_revision r + k < int_max u64 → next ≠ DrainState.AdmissionClosed →
  e'' ≡ put_drain (moved next now detail r') e' → at_stage r t g next (k + 1) (moved next now detail r') e''.
Proof.
  intros [Hl Hi Ht Hs Hv Hg Hc] Hr Hn He. split; [by eapply stored_put|..]; autorewrite with drain; try done.
  - rewrite <-dr_revision_moved with (next := next) (at_ := now) (detail := detail), revision_moved; lia.
  - by rewrite dr_admission_closed_at_moved, bool_decide_false.
Qed.

Section Undisturbed.
Context (r : DrainRecord) (t1 t2 t3 t4 : TimePoint) (e : engine) (H : undisturbed r t1 t2 t3 t4 e).

Notation g := (fence_generation (dr_target r) (en_fence e) + 1).

Lemma ud_revision_pos : 0 ≤ dr_revision r ∧ dr_id r ≠ 0.
Proof. destruct (ew_record _ (ud_wf _ _ _ _ _ _ H) _ _ (ud_stored _ _ _ _ _ _ H)) as (_ & ? & (_ & ? & _) & _). lia. Qed.

Lemma undisturbed_closes :
  ∃ en r1, at_stage r t1 g DrainState.AdmissionClosed 1 r1 (turn t1 (dr_id r) e) ∧
    alongside e (turn t1 (dr_id r) e) (<[dr_target r := en]> (en_fence e)) (en_topology e) (en_evidence e) ∧
    fe_closed en = true ∧ fe_drain en = dr_id r.
Proof.
  destruct ud_revision_pos as [Hp Hid]. pose proof (ud_revision _ _ _ _ _ _ H).
  destruct (fence_close_succeeds (dr_target r) (dr_id r) t1 (dr_reason r) (en_fence e)) as (en & Hc & En1 & En2 & En3);
    [apply (ud_wf _ _ _ _ _ _ H)|done|apply H|apply H|].
  pose proof (turn_validating r t1 e _ _ (ud_stored _ _ _ _ _ _ H) (ud_state _ _ _ _ _ _ H) ltac:(lia)
    (ud_start _ _ _ _ _ _ H) Hc) as He.
  eexists en, _. split_and!; [|by eapply alongside_put; [exact He|split]|done|done].
  split; [by eapply stored_put|..]; autorewrite with drain; try done.
  - rewrite <-dr_revision_moved with (next := DrainState.AdmissionClosed) (at_ := t1) (detail := "").
    rewrite revision_moved; simpl; lia.
Qed.

Lemma undisturbed_quiesces e1 r1 f :
  at_stage r t1 g DrainState.AdmissionClosed 1 r1 e1 → alongside e e1 f (en_topology e) (en_evidence e) →
  ∃ r2, at_stage r t1 g DrainState.Quiescing 2 r2 (turn t2 (dr_id r) e1) ∧
        alongside e (turn t2 (dr_id r) e1) f (en_topology e) (en_evidence e).
Proof.
  destruct ud_revision_pos as [Hp _]. pose proof (ud_revision _ _ _ _ _ _ H). intros Hs Ha.
  assert (turn t2 (dr_id r) e1 ≡ put_drain (moved DrainState.Quiescing t2
    "no protected dependencies depend on the target" r1) e1) as He.
  { destruct Hs as [Hl Hi Ht Hs Hv Hg Hc]. rewrite <-Hi. apply turn_admission_closed; try done; [lia|..].
    - rewrite Hc, (as_policy _ _ _ _ _ Ha). apply H.
    - unfold outstanding_for. rewrite Ht, (as_obligations _ _ _ _ _ Ha). apply H. }
  eexists. split; [by eapply (stage_move _ _ _ _ 1); [exact Hs|lia| |exact He]|by eapply alongside_put].
Qed.

Lemma undisturbed_removes e2 r2 f :
  at_stage r t1 g DrainState.Quiescing 2 r2 e2 → alongside e e2 f (en_topology e) (en_evidence e) →
  ∃ r3 l ev, at_stage r t1 g DrainState.Verifying 3 r3 (turn t3 (dr_id r) e2) ∧
    alongside e (turn t3 (dr_id r) e2) f
      (to_set_status (tg_id (dr_target r)) ResourceStatus.Unavailable (en_topology e)).2 l ∧
    el_latest (removal_key r) l = Some ev ∧ ev_attested ev = true ∧
    ev_epoch ev = ar_epoch (en_authority e) ∧ ev_observed_at ev = t3 ∧ ev_generation ev = g.
Proof.
  destruct ud_revision_pos as [Hp _]. pose proof (ud_revision _ _ _ _ _ _ H). intros Hs Ha.
  destruct (evaluate_start_nil _ _ _ (ud_start _ _ _ _ _ _ H)) as (_ & _ & (n & Hn & Hin) & _ & _ & Hv).
  destruct (ud_range _ _ _ _ _ _ H) as (Ht3 & _ & Hskr).
  destruct (pb_durations _ (policy_validate_bounded _ (ud_policy _ _ _ _ _ _ H))) as (_ & _ & _ & Hsk & _).
  destruct Ha as [Et Ef Eo Ee Ea Ep]. pose proof Hs as [Hl Hi Ht Hst Hrev Hg Hc].
  assert (removal_key r2 = removal_key r) as Hk by (unfold removal_key; by rewrite Hi, Ht).
  destruct (removal_observed r2 t3 (take_down (dr_target r) e2)) as (l & ev & Hrec & Hlat & Hatt & Hep & Hobs & Hgen);
    rewrite ?Hk; unfold take_down; cbn [en_evidence en_policy update upd_en_topology]; rewrite ?Ee, ?Ep; try done;
    [apply (ud_wf _ _ _ _ _ _ H)|apply H|apply H|].
  assert (turn t3 (dr_id r) e2 ≡ put_drain (moved DrainState.Verifying t3 "removal step completed" r2)
    (take_down (dr_target r) e2 <| en_evidence := l |>)) as He.
  { rewrite <-Hi. eapply turn_quiescing; rewrite ?Ht, ?Et, ?Ep; try done; [lia|].
    unfold outstanding_for. rewrite Eo. apply H. }
  eexists _, l, ev. split; [by eapply (stage_move _ _ _ _ 2); [exact Hs|lia| |exact He]|].
  split; [eapply alongside_put; [exact He|]; split; simpl; congruence|].
  rewrite <-Hk. unfold take_down in Hep; cbn [en_authority update upd_en_topology] in Hep.
  split_and!; congruence.
Qed.

Lemma undisturbed_verifies e3 r3 en l ev :
  at_stage r t1 g DrainState.Verifying 3 r3 e3 →
  alongside e e3 (<[dr_target r := en]> (en_fence e))
    (to_set_status (tg_id (dr_target r)) ResourceStatus.Unavailable (en_topology e)).2 l →
  fe_closed en = true → fe_drain en = dr_id r →
  el_latest (removal_key r) l = Some ev → ev_attested ev = true →
  ev_epoch ev = ar_epoch (en_authority e) → ev_observed_at ev = t3 → ev_generation ev = g →
  ∃ proof, evaluate_verification r3 t4 e3 = ([], proof).
Proof.
  intros [Hl Hi Ht Hst Hrev Hg Hc] [Et Ef Eo Ee Ea Ep] En1 En2 Hlat Hatt Hep Hobs Hgen.
  destruct (evaluate_start_nil _ _ _ (ud_start _ _ _ _ _ _ H)) as (_ & _ & (n & Hn & Hin) & _).
  destruct (ud_range _ _ _ _ _ _ H) as (Ht3 & Ht4 & Hskr).
  destruct (pb_durations _ (policy_validate_bounded _ (ud_policy _ _ _ _ _ _ H))) as (_ & Hfr & _ & Hsk & _).
  pose proof (ud_clock _ _ _ _ _ _ H). apply verification_clean.
  - unfold outstanding_for. rewrite Ht, Eo. apply H.
  - unfold removal_owned_by. rewrite Ht, Hi, Et, Ef. unfold to_set_status. rewrite Hn. cbn [snd].
    unfold to_resource. cbn [to_resources update upd_to_resources]. rewrite om_lookup_insert_eq. cbn.
    unfold fence_entry. by rewrite om_lookup_insert_eq, En1, En2, Z.eqb_refl.
  - exists ev. rewrite Hc, Hg, Hobs, Hgen. split_and!; [|done|lia]. apply el_fresh_Some.
    assert (removal_key r3 = removal_key r) as -> by (unfold removal_key; by rewrite Hi, Ht).
    unfold evidence_fence. cbn [ef_live_epoch ef_now ef_allowed_skew]. rewrite Ee, Ea, Ep, Hobs.
    rewrite saturating_add_clamp by done.
    split_and!; try done; [destruct Ht4; lia|apply H].
Qed.
End Undisturbed.

(** C27: a validating drain with a clean evaluation, nothing protected on its
    target and room to record what it does is [Drained] after four turns spaced
    as the policy asks, whatever else the engine holds; the completion record
    says that nothing remained. *)
Theorem clear_drain_completes r t1 t2 t3 t4 e :
  undisturbed r t1 t2 t3 t4 e →
  ∃ r', en_drains (foldl (λ e t, turn t (dr_id r) e) e [t1; t2; t3; t4]) !! dr_id r = Some r' ∧
        dr_state r' = DrainState.Drained ∧ dr_remaining_protected r' = 0 ∧ dr_completed_at r' = t4 ∧
        dr_generation r' = fence_generation (dr_target r) (en_fence e) + 1.
Proof.
  intros H. cbn [foldl]. pose proof (ud_revision _ _ _ _ _ _ H). pose proof (ud_revision_pos _ _ _ _ _ _ H).
  destruct (undisturbed_closes _ _ _ _ _ _ H) as (en & r1 & S1 & A1 & Hc & Hd).
  destruct (undisturbed_quiesces _ _ _ _ _ _ H _ _ _ S1 A1) as (r2 & S2 & A2).
  destruct (undisturbed_removes _ _ _ _ _ _ H _ _ _ S2 A2) as (r3 & l & ev & S3 & A3 & Hl & Ha & Hp & Ho & Hg).
  destruct (undisturbed_verifies _ _ _ _ _ _ H _ _ _ _ _ S3 A3 Hc Hd Hl Ha Hp Ho Hg) as [proof Hev].
  destruct S3 as [L3 I3 _ St3 V3 G3 _].
  destruct (turn_verifying r3 t4 _ proof L3 St3 ltac:(lia) Hev) as (r' & He & I' & S' & R' & _ & T' & G').
  exists r'. rewrite I3 in He. rewrite He, lookup_put, decide_True by congruence. split_and!; congruence.
Qed.

(** The second port of the small fabric carries nothing: a drain of it, once
    validating, completes. *)
Definition idle_engine : engine := Eval vm_compute in
  Demo.run_from Demo.requested_engine
    [(OpCancel 1 1 "wrong port", 4 * Demo.second);
     (OpRequest (MkDrainRequest [Demo.port_b] "maintenance" 1 "node-1" 8), 5 * Demo.second);
     (OpAdvance, 6 * Demo.second)].

Lemma idle_history : history any_op (new_engine default_policy) idle_engine.
Proof.
  eapply history_app; [by apply requested_history|].
  apply (demo_history any_op (λ _ _ _ _ _, I)
    [(OpCancel 1 1 "wrong port", 4 * Demo.second);
     (OpRequest (MkDrainRequest [Demo.port_b] "maintenance" 1 "node-1" 8), 5 * Demo.second);
     (OpAdvance, 6 * Demo.second)]); [by repeat constructor|vm_compute; reflexivity].
Qed.

Lemma clear_drain_completes_witness :
  ∃ r', en_drains (foldl (λ e t, turn t 2 e) idle_engine
          [7 * Demo.second; 20 * Demo.second; 21 * Demo.second; 22 * Demo.second]) !! 2 = Some r' ∧
        dr_state r' = DrainState.Drained ∧ dr_remaining_protected r' = 0 ∧ dr_completed_at r' = 22 * Demo.second ∧
        dr_generation r' = fence_generation Demo.port_b (en_fence idle_engine) + 1.
Proof.
  apply (clear_drain_completes (record_at 2 idle_engine)). split; [apply history_wf, idle_history|..].
  all: vm_compute; repeat split; discriminate.
Defined.
