(* ===== verification/Components.v ===== *)
(** * The components, by themselves

    What the engine relies on from the modules it is built of: the evidence
    streams ([src/evidence.cpp]), the topology and its route search
    ([src/topology.cpp]), target texts and their canonical order
    ([src/identity.cpp], [src/drain_set.cpp]) and checked arithmetic
    ([include/drain/checked.hpp]); and one consequence of how the engine combines
    the fence with the topology. *)

From S2P Require Import Prelude Containers Checked Result Text Json JsonFacts JsonText JsonBounds JsonCanonical.
From S2P Require Import Identity Lifecycle Obligation Evidence.
From S2P Require Import Authority Admission Topology TopologyFacts RouteSearch Policy Decision Protocol Engine.
From S2P Require Import EngineStep EngineOps EngineInv EngineRefine EngineReach Scenario EngineGates.

(** ** Evidence *)

(** C28: an evidence report is refused without any effect on the ledger, or it is
    accepted: then it was not observed in the future, it was produced in the live
    epoch (by the live incarnation where the policy asks), it is strictly newer
    than everything on its stream, it becomes the latest of that stream, and the
    latest of every other stream stays.  Of the records themselves all stay as they
    are, except that a full ledger gives up one: a record of the same stream, or one
    superseded on its own.  Either way only the ledger and the log are touched. *)
Theorem evidence_is_a_stream draft now e res e' :
  engine_wf e → record_evidence draft now e = (res, e') →
  e' ≡ e <| en_evidence := en_evidence e' |> ∧
  ((is_ok res = false ∧ en_evidence e' = en_evidence e) ∨
   (res = Ok (draft <| ev_attested := true |>) ∧
    ev_observed_at draft ≤ saturating_add now (p_evidence_clock_skew (en_policy e)) ∧
    ev_epoch draft = ar_epoch (en_authority e) ∧
    (p_evidence_requires_live_incarnation (en_policy e) = true →
       ev_producer draft = ar_incarnation (en_authority e)) ∧
    (∀ s, el_latest_seq (en_evidence e) !! ev_key draft = Some s → s < ev_seq draft) ∧
    (∀ k, el_latest k (en_evidence e') =
            if decide (k = ev_key draft) then Some (draft <| ev_attested := true |>)
            else el_latest k (en_evidence e)) ∧
    ∃ lost, displaced (ev_key draft) (en_evidence e) lost ∧
    ∀ k s, el_find k s (en_evidence e') =
      if decide ((k, s) = (ev_key draft, ev_seq draft)) then Some (draft <| ev_attested := true |>)
      else if decide (lost = Some (k, s)) then None else el_find k s (en_evidence e))).
Proof.
  intros Hwf. unfold record_evidence. destruct (el_record _ _ _ _) as [r l] eqn:Hr.
  assert (∀ d, r = Ok d → ∃ lost, displaced (ev_key draft) (en_evidence e) lost ∧
    ∀ k s, el_find k s l =
      if decide ((k, s) = (ev_key draft, ev_seq draft)) then Some (draft <| ev_attested := true |>)
      else if decide (lost = Some (k, s)) then None else el_find k s (en_evidence e)) as Hf.
  { intros d ->. by eapply el_record_find; [apply Hwf|]. }
  apply el_record_cases in Hr as [[Hok ->]|(-> & _ & Ho & Hp & Hl & Hs & _ & _ & Hk)]; [..|apply Hwf].
  - destruct r as [?|err]; [done|]. intros [= <- <-]. split; [done|]. by left.
  - intros [= <- <-]. split; [done|]. right. split_and!; try done. by eapply Hf.
Qed.

Lemma evidence_is_a_stream_witness :
  let e' := (record_evidence Demo.release_proof (30 * Demo.second) Demo.evacuating_engine).2 in
  el_latest Demo.release_key (en_evidence e') = Some (Demo.release_proof <| ev_attested := true |>).
Proof.
  destruct (evidence_is_a_stream Demo.release_proof (30 * Demo.second) Demo.evacuating_engine
    (Ok (Demo.release_proof <| ev_attested := true |>))
    (record_evidence Demo.release_proof (30 * Demo.second) Demo.evacuating_engine).2)
    as [_ [[? _]|(_ & _ & _ & _ & _ & Hk & _)]];
    [by apply history_wf, evacuating_history|vm_compute; reflexivity|discriminate|].
  cbv zeta. rewrite Hk. vm_compute. reflexivity.
Defined.

(** ** Restoration *)

Lemma restoring_topology r now e :
  removal_owned_by r e = false → en_topology (step_restoring r now e) = en_topology e.
Proof.
  intros Hown. unfold step_restoring. destruct (_ <? _); [done|]. rewrite Hown.
  match goal with |- context [apply_transition ?a ?b ?c ?d ?f ?g ?h ?i ?j] =>
    pose proof (transition_topology a b c d f g h i j) as Ht; destruct (apply_transition a b c d f g h i j) as [[] e2] end;
    cbn [snd] in Ht; [|by rewrite blocked_topology].
  by destruct (en_drains e2 !! dr_id r).
Qed.

(** No step of a drain in [Restoring] puts its target back in service:
    ownership of the removal requires the closed fence that the restore request
    has already reopened, so the branch that would set the resource to
    [InService] is never taken. *)
Theorem restoration_leaves_topology e id r now acts :
  reachable any_op e → en_drains e !! id = Some r → dr_state r = DrainState.Restoring →
  removal_owned_by r e = false ∧ en_topology (step_drain r now acts e).1 = en_topology e.
Proof.
  intros Hr Hl Hs. destruct (reachable_inv any_op e Hr) as [Hwf HI].
  assert (stored r e) as Hst by (destruct (ew_record _ Hwf _ _ Hl) as (<- & _); exact Hl).
  assert (removal_owned_by r e = false) as Hown.
  { apply leaving_not_owner; [done|done|]. unfold effective_state. by rewrite Hs. }
  split; [done|]. unfold step_drain, step_state. rewrite Hs. cbn. by apply restoring_topology.
Qed.

Lemma restoration_leaves_topology_witness :
  en_topology (step_drain (record_at 1 Demo.restoring_engine) (60 * Demo.second) no_actions
                 Demo.restoring_engine).1 = en_topology Demo.restoring_engine.
Proof.
  apply (restoration_leaves_topology Demo.restoring_engine 1);
    [by eapply reachable_history, restoring_history|vm_compute; reflexivity..].
Defined.

(** ** Routes *)

(** C30: the depth-first search of [enumerate_routes] is exact.  It reports no
    route twice and no more than asked; and unless it stopped at one of its two
    budgets, what it reports is exactly the set of simple routes of at most the
    given length through in-service resources that are not excluded. *)
Theorem routes_are_enumerated from to exclude max_routes max_depth t :
  topology_wf t → from ≠ to → 0 ≤ max_routes → 0 ≤ max_depth →
  let routes := enumerate_routes from to exclude max_routes max_depth t in
  NoDup routes ∧ zlength routes ≤ Z.min max_routes kMaxRoutesPerQuery ∧
  (zlength routes < Z.min max_routes kMaxRoutesPerQuery →
   route_expansions from to exclude max_routes max_depth t < kMaxRouteExpansions →
   ∀ r, r ∈ routes ↔
     valid_route t exclude (Z.min max_depth kMaxRouteDepth) from to r ∧ usable_node t exclude from = true).
Proof. apply enumerate_routes_complete. Qed.

(** A square of four ports. *)
Definition square : Topology :=
  let port id := MkResourceNode (MkTarget TargetKind.Port id "rack-1") 100 0 ResourceStatus.InService in
  let t := foldl (λ t id, (add_resource (port id) t).2) empty_topology ["a"; "b"; "c"; "d"] in
  foldl (λ t e, (add_edge e.1 e.2 t).2) t [("a", "b"); ("b", "d"); ("a", "c"); ("c", "d")].

Lemma square_wf : topology_wf square.
Proof.
  unfold square. cbn [foldl fst snd].
  repeat match goal with
  | |- topology_wf (add_edge ?a ?b ?t).2 =>
      apply (add_edge_wf a b t (add_edge a b t).1); [|apply surjective_pairing]
  | |- topology_wf (add_resource ?n ?t).2 =>
      apply (add_resource_wf n t (add_resource n t).1); [|apply surjective_pairing]
  end. apply empty_topology_wf.
Qed.

Lemma routes_are_enumerated_witness :
  let routes := enumerate_routes "a" "d" ∅ 8 8 square in
  routes = [["a"; "b"; "d"]; ["a"; "c"; "d"]] ∧
  (∀ r, r ∈ routes ↔ valid_route square ∅ 8 "a" "d" r ∧ usable_node square ∅ "a" = true).
Proof.
  split; [vm_compute; reflexivity|].
  destruct (routes_are_enumerated "a" "d" ∅ 8 8 square) as (_ & _ & H);
    [apply square_wf|discriminate|lia|lia|].
  apply H; vm_compute; reflexivity.
Defined.

(** ** JSON *)

(** C31: the parser always answers.  A value it returns respects every limit:
    nesting, string and container sizes, node count; its integers are of 64 bits,
    its reals finite, and no object repeats a key.  A refusal is a protocol error
    or an exceeded bound. *)
Theorem json_parse_is_bounded limits text :
  limits_wf limits = true →
  ∃ r, json_parse limits text = Some r ∧
    match r with
    | Ok v => json_within limits 0 v = true ∧ json_nodes v ≤ jl_max_nodes limits
    | Err err => err_code err = ErrorCode.ProtocolError ∨ err_code err = ErrorCode.BoundsExceeded
    end.
Proof. intros Hl. by apply json_parse_outcome. Qed.

Lemma json_parse_is_bounded_witness :
  json_parse default_limits "[1,[-2]]" = Some (Ok (JArray [JUint 1; JArray [JInt (-2)]])) ∧
  json_within default_limits 0 (JArray [JUint 1; JArray [JInt (-2)]]) = true.
Proof.
  assert (json_parse default_limits "[1,[-2]]" = Some (Ok (JArray [JUint 1; JArray [JInt (-2)]]))) as E
    by (vm_compute; reflexivity).
  destruct (json_parse_is_bounded default_limits "[1,[-2]]" eq_refl) as (r & Hr & Hv).
  rewrite E in Hr. injection Hr as <-. split; [exact E|apply Hv].
Defined.

(** C32: what the writer writes, compact or indented, the parser reads back, for
    every value without reals that respects the limits.  It reads back the same
    value, except that a non-negative integer held as signed ([JsonValue(7)]) comes
    back as the unsigned one: the text is the same and does not tell.  So the value
    read back is the value written wherever its signed integers are all negative; it
    has no non-negative signed integer left, prints as the same text, and answers
    [as_uint] and [as_int] as the value written does. *)
Theorem json_written_is_read limits indent v :
  json_within limits 0 v = true → no_reals v = true → json_nodes v ≤ jl_max_nodes limits →
  string_length (dump indent v) ≤ jl_max_total_bytes limits →
  json_parse limits (dump indent v) = Some (Ok (canonical v)) ∧
  (negative_ints v = true → canonical v = v) ∧ negative_ints (canonical v) = true ∧
  (∀ n, dump n (canonical v) = dump n v) ∧
  (∀ fallback, as_uint fallback (canonical v) = as_uint fallback v ∧ as_int fallback (canonical v) = as_int fallback v).
Proof.
  intros Hw Hr Hn Hs. split_and!; [by apply json_dump_parse_canonical|apply canonical_id|apply canonical_negative
    |intros n; apply dump_canonical|]. intros fallback. split; [apply as_uint_canonical|].
  apply as_int_canonical. intros z ->. apply andb_true_iff in Hw as [_ [_ Hz]%andb_true_iff]. by apply Z.leb_le.
Qed.

Lemma json_written_is_read_witness :
  let v n := JObject [("targets", JArray [JString "port-a"; JNull]); ("id", n); ("at", JInt (-3))] in
  json_parse default_limits (dump 2 (v (JInt 7))) = Some (Ok (v (JUint 7))) ∧
  json_parse default_limits (dump 2 (v (JUint 7))) = Some (Ok (v (JUint 7))).
Proof.
  intros v. split.
  - apply (json_written_is_read default_limits 2 (v (JInt 7))); vm_compute; [reflexivity|reflexivity|discriminate|discriminate].
  - apply (json_written_is_read default_limits 2 (v (JUint 7))); vm_compute; [reflexivity|reflexivity|discriminate|discriminate].
Defined.

(** ** Target texts *)

(** The text form of targets is faithful.  Everything the parser accepts is a
    well-formed target, and every well-formed target prints to a text that parses
    back to it, so the printed form identifies the target. *)
Theorem target_text_roundtrip text t :
  (target_parse text = Some t → target_wf t) ∧
  (target_wf t → target_parse (target_to_string t) = Some t).
Proof. split; [apply target_parse_wf|apply target_parse_to_string]. Qed.

(** ** Checked arithmetic *)

(** Over every integral type of at least a byte, signed or unsigned, the
    checked operations return the mathematical result exactly when the type can
    represent it and nothing otherwise, and the saturating addition of times is
    the exact sum clamped to 64 bits. *)
Theorem checked_arithmetic_is_exact T a b :
  it_wf T → in_range T a → in_range T b →
  add_checked T a b = (if decide (in_range T (a + b)) then Some (a + b) else None) ∧
  sub_checked T a b = (if decide (in_range T (a - b)) then Some (a - b) else None) ∧
  mul_checked T a b = (if decide (in_range T (a * b)) then Some (a * b) else None) ∧
  increment_checked T a = (if decide (a < int_max T) then Some (a + 1) else None) ∧
  (T = i64 → saturating_add a b = Z.max (int_min i64) (Z.min (int_max i64) (a + b))).
Proof.
  intros HT Ha Hb. split_and!; [by apply add_checked_exact|by apply sub_checked_exact|by apply mul_checked_exact
    |by apply increment_checked_exact|]. intros ->. by apply saturating_add_clamp.
Qed.

Lemma checked_arithmetic_is_exact_witness :
  add_checked i64 (2 ^ 63 - 1) 1 = None ∧ mul_checked u8 (16) 15 = Some 240.
Proof.
  destruct (checked_arithmetic_is_exact i64 (2 ^ 63 - 1) 1) as (-> & _);
    [unfold it_wf; simpl; lia|split; vm_compute; discriminate|split; vm_compute; discriminate|].
  destruct (checked_arithmetic_is_exact u8 16 15) as (_ & _ & -> & _);
    [unfold it_wf; simpl; lia|split; vm_compute; discriminate|split; vm_compute; discriminate|].
  split; vm_compute; reflexivity.
Defined.
