(* ===== verification/Transport.v ===== *)
(** * Claims about the wire

    Frames arrive whole and in order however the socket cuts them up, and no image
    with a corrupted byte is ever accepted. *)

From S2P Require Import Prelude Containers Checked Result Text Json JsonFacts JsonText JsonBounds JsonCanonical Codec Crc Bytes Wire WireFacts.
#[local] Open Scope Z_scope.

(** A frame the receiving end can read: the header fields in the range of their
    words, and a payload within the parser's limits (nesting, strings, containers,
    nodes) and without reals.  [encode_frame] itself only checks the size. *)
Definition frame_readable (max : Z) (f : Frame) : bool :=
  (0 <=? fr_type f) && (fr_type f <? 256 ^ 2) && (0 <=? fr_sequence f) && (fr_sequence f <? 256 ^ 4)
  && json_within (payload_limits max) 0 (fr_payload f) && no_reals (fr_payload f)
  && (json_nodes (fr_payload f) <=? jl_max_nodes default_limits).

(** The frame that comes out: its payload with the signedness the text keeps. *)
Definition frame_received (f : Frame) : Frame := MkFrame (fr_type f) (fr_sequence f) (canonical (fr_payload f)).

Lemma encode_received f max : encode_frame (frame_received f) max = encode_frame f max.
Proof. unfold encode_frame, frame_received. cbn [fr_type fr_sequence fr_payload]. by rewrite dump_canonical. Qed.

Lemma readable_sendable max f : frame_readable max f = true → frame_sendable max (frame_received f) = true.
Proof.
  unfold frame_readable, frame_sendable, frame_received. cbn [fr_type fr_sequence fr_payload].
  intros [[[H1 Hw]%andb_true_iff Hr]%andb_true_iff Hn]%andb_true_iff.
  by rewrite H1, within_fits, json_nodes_canonical, Hn.
Qed.

(** C39: frames are reassembled.  Let a frame be one the receiver can read: header
    fields in range, a payload without reals and within the parser's limits of
    nesting, strings, entries and nodes, which [encode_frame] does not check (it
    checks the size).  Whatever pieces a live socket delivers, if the bytes received
    and in flight begin with the image of that frame, the next call that is given
    any time returns it and leaves exactly the bytes after it, with the stream open
    for the next call; so a sequence of frames sent is the sequence received.  The
    frame returned has the type, the sequence number and the payload that were
    encoded, except that a non-negative signed integer of the payload comes back as
    the unsigned integer of the same value; with no such integer it is exactly the
    frame that was encoded.  The number of turns is bounded by the length of the
    image. *)
Theorem frames_are_reassembled {S} (sock : SocketOps S) (inflight : S → list Z)
    `{!Delivers sock inflight, !Live sock inflight} max f data rest wait_ms fuel (st : FrameStream S) :
  0 ≤ max ≤ int_max u64 → frame_readable max f = true → encode_frame f max = Ok data →
  fs_max_payload_bytes st = max → fs_closed st = false → so_valid sock (fs_socket st) = true →
  outstanding_bytes inflight st = data ++ rest → wait_ms ≠ 0 → (length data < fuel)%nat →
  (∃ st', receive_frame sock fuel wait_ms st = Some ((StreamOutcome.Frame_, Some (frame_received f), ""), st') ∧
    outstanding_bytes inflight st' = rest ∧ fs_max_payload_bytes st' = max ∧ fs_closed st' = false ∧
    so_valid sock (fs_socket st') = true) ∧
  (negative_ints (fr_payload f) = true → frame_received f = f).
Proof.
  intros Hmax Hs%readable_sendable He Hm Hc Hv Ho Hw Hf. rewrite <- encode_received in He. split.
  2: { intros Hneg. unfold frame_received. rewrite canonical_id by done. by destruct f. }
  unfold receive_frame. rewrite Hc, Hv. cbn [negb].
  destruct (receive_loop_gets sock inflight max Hmax (frame_received f) data Hs He fuel wait_ms (slice_of wait_ms) wait_ms
    (grown st) rest) as (st' & H1 & H2 & H3 & H4 & H5); try done; [|lia|cbn; lia|].
  - cbn. rewrite Hm. destruct (Z.ltb_spec (fs_capacity st) (kFrameHeaderBytes + max)); lia.
  - exists st'. cbn in H4, H5. rewrite Hc in H4. rewrite Hv in H5. done.
Qed.

(** A socket that delivers a few bytes at a time. *)
Definition drip : SocketOps (list Z) := {|
  so_valid _ := true;
  so_wait_readable _ s := (if is_nil s then AcceptOutcome.TimedOut else AcceptOutcome.Accepted, "", s);
  so_receive_some n s := (Ok (take (Z.to_nat (Z.min n 7)) s), drop (Z.to_nat (Z.min n 7)) s);
  so_send_all bytes s := (ok_status, s ++ bytes);
  so_close s := (ok_status, s);
|}.

#[export] Instance drip_delivers : Delivers drip (λ s, s).
Proof.
  split.
  - intros n s o err s'. simpl. by intros [= _ _ <-].
  - intros n s bs s'. simpl. intros [= <- <-]. rewrite take_drop. unfold zlength. rewrite length_take.
    split_and!; [done|lia|done].
Qed.

#[export] Instance drip_live : Live drip (λ s, s).
Proof.
  split.
  - intros n s Hne. simpl. exists "", s. by destruct s.
  - intros n s Hne Hn. simpl. do 2 eexists. split; [done|]. destruct s as [|b s]; [done|].
    destruct (Z.to_nat (Z.min n 7)) eqn:E; [lia|done].
Qed.

Definition hello : Frame := MkFrame 1 7 (JObject [("agent", JString "rack-1"); ("at", JInt (-3))]).
Definition hello_data : list Z := match encode_frame hello kMaxFramePayloadBytes with Ok data => data | Err _ => [] end.

(** The sender counts in signed integers. *)
Definition counted : Frame := MkFrame 1 7 (JObject [("agent", JString "rack-1"); ("seen", JInt 4); ("at", JInt (-3))]).
Definition counted_data : list Z := match encode_frame counted kMaxFramePayloadBytes with Ok data => data | Err _ => [] end.

Lemma frames_are_reassembled_witness :
  frame_received counted = MkFrame 1 7 (JObject [("agent", JString "rack-1"); ("seen", JUint 4); ("at", JInt (-3))]) ∧
  frame_received hello = hello ∧
  ∃ st', receive_frame drip 200 10 (new_stream (counted_data ++ [1; 2; 3]) kMaxFramePayloadBytes)
         = Some ((StreamOutcome.Frame_, Some (frame_received counted), ""), st') ∧
    outstanding_bytes (λ s, s) st' = [1; 2; 3] ∧ fs_max_payload_bytes st' = kMaxFramePayloadBytes ∧
    fs_closed st' = false ∧ so_valid drip (fs_socket st') = true.
Proof.
  split; [reflexivity|]. split.
  - apply (frames_are_reassembled drip (λ s, s) kMaxFramePayloadBytes hello hello_data [] 10 200
      (new_stream hello_data kMaxFramePayloadBytes)); vm_compute; try reflexivity; try discriminate; try lia.
    split; discriminate.
  - apply (frames_are_reassembled drip (λ s, s) kMaxFramePayloadBytes counted counted_data [1; 2; 3] 10 200);
      vm_compute; try reflexivity; try discriminate; try lia.
    split; discriminate.
Defined.

(** C40: corruption is detected.  An image that decodes, with any one of its bytes
    replaced by another, header or payload, checksum or content, does not decode. *)
Theorem corrupted_frame_is_refused max data f k b b' :
  Forall byte_ok data → decode_frame data max = Ok f → data !! k = Some b → byte_ok b' → b ≠ b' →
  ∃ err, decode_frame (<[k := b']> data) max = Err err.
Proof. apply corrupted_image. Qed.

Lemma corrupted_frame_is_refused_witness :
  ∃ err, decode_frame (<[30%nat := 0]> hello_data) kMaxFramePayloadBytes = Err err.
Proof.
  apply (corrupted_frame_is_refused kMaxFramePayloadBytes hello_data hello 30 (default 0 (hello_data !! 30%nat))).
  - repeat (constructor; [vm_compute; split; [discriminate|reflexivity]|]). constructor.
  - vm_compute. reflexivity.
  - vm_compute. reflexivity.
  - vm_compute. split; [discriminate|reflexivity].
  - vm_compute. discriminate.
Defined.
