(* ===== verification/Durability.v ===== *)
(** * Claims about the snapshot file

    A save that is cut short anywhere leaves the old snapshot or the new one. *)

From S2P Require Import Prelude Containers Checked Result Text Json JsonFacts JsonText Codec Crc Bytes Wire WireFacts.
From S2P Require Import Identity Snapshot Store StoreFacts.
#[local] Open Scope Z_scope.

(** C29: saving is atomic, under four conditions the code does not establish
    itself: rename replaces the target in one step and succeeds ([ft_rename]); the
    snapshot is one the loader accepts ([saveable]: encoded with its numbers in
    range, within the limits the loader enforces and the writer does not check);
    the sequence number is in range; and the live file is good or absent ([sound]:
    with a corrupt live file, what loads is the backup, which the save overwrites).
    Whichever other calls fail and wherever the process is killed, every state the
    disk goes through then loads exactly what it loaded before, or exactly the
    snapshot being saved; a save that answers success has installed the new one
    under the next sequence number and its incarnation, and one that fails has
    changed nothing that is loaded. *)
Theorem save_is_atomic ft snapshot incarnation p d st p' trace :
  save ft snapshot incarnation p d = (st, p', trace) → ft_rename ft = false →
  saveable (pe_limits p) snapshot incarnation → in_range u64 (pe_written_sequence p) → sound (read_live p d) →
  (∀ d', d' ∈ trace → load_now p d' = load_now p d ∨ ∃ info, load_now p d' = Ok (snapshot, info)) ∧
  (is_ok st = false → load_now p (last_disk d trace) = load_now p d) ∧
  (is_ok st = true → ∃ info, load_now p (last_disk d trace) = Ok (snapshot, info) ∧
     si_sequence info = pe_written_sequence p + 1 ∧ si_incarnation info = incarnation).
Proof.
  intros Hs Hren Hsv Hseq Hsound. rewrite (load_live p d Hsound).
  apply save_steps in Hs as [E|[E|(Hlen & Hr & [_ Hst Hok Herr])]]; try done.
  1, 2: injection E as -> _ ->; split_and!; [|intros _; by apply load_same|done];
    intros d' ->%list_elem_of_singleton; left; by apply load_same.
  split_and!.
  - intros d' Hin. destruct (Hst d' Hin) as [E|E]; [left; by apply load_same|right].
    destruct (load_image p d' snapshot incarnation _ Hsv Hr Hlen E) as (info & ? & _). by exists info.
  - intros Hno. apply load_same; auto.
  - intros Hyes. by apply (load_image p _ snapshot incarnation _ Hsv Hr Hlen), Hok.
Qed.

(** ** Examples *)

Definition demo_store : Persistence := new_persistence "state" default_persistence_limits.
Definition saved (ft : Faults) (v : json) (p : Persistence) (d : disk) : Persistence * list disk :=
  let '(_, p, t) := save ft v 1 p d in (p, t).
Definition first_disk : disk := last_disk ∅ (saved no_faults (JUint 1) demo_store ∅).2.
Definition second_store : Persistence := (saved no_faults (JUint 1) demo_store ∅).1.

Lemma demo_saveable v : v = JUint 1 ∨ v = JUint 2 → saveable (pe_limits second_store) v 1.
Proof. intros [-> | ->]; split; by vm_compute. Qed.

Lemma save_is_atomic_witness :
  let trace := (saved no_faults (JUint 2) second_store first_disk).2 in
  (∀ d', d' ∈ trace → load_now second_store d' = load_now second_store first_disk ∨
     ∃ info, load_now second_store d' = Ok (JUint 2, info)) ∧
  ∃ info, load_now second_store (last_disk first_disk trace) = Ok (JUint 2, info) ∧
    si_sequence info = 1 + 1 ∧ si_incarnation info = 1.
Proof.
  cbv zeta.
  destruct (save_is_atomic no_faults (JUint 2) 1 second_store first_disk ok_status
    (MkPersistence "state" default_persistence_limits 2) (saved no_faults (JUint 2) second_store first_disk).2) as (H1 & _ & H3).
  - vm_compute. reflexivity.
  - reflexivity.
  - apply demo_saveable. by right.
  - vm_compute. split; discriminate.
  - vm_compute. exact I.
  - split; [exact H1|]. apply H3. reflexivity.
Defined.

(** Where rename cannot replace, the live file is removed first: a crash there
    leaves a disk that loads nothing, although the backup is intact. *)
Example replaced_by_removal_is_not_atomic :
  let trace := (saved (MkFaults false None false false false false None true false) (JUint 2) second_store first_disk).2 in
  existsb (λ d, negb (is_ok (load_now second_store d)) && is_ok (read_file no_read_faults (backup_path second_store) true second_store d))
    trace = true.
Proof. vm_compute. reflexivity. Qed.

(** When the live file is corrupt and only the backup loads, a save rotates the
    corrupt file over the backup before the new one is installed. *)
Example corrupt_live_overwrites_backup :
  let good := first_disk in
  let d := <["state" := [0]]> (<["state.bak" := default [] (good !! "state")]> good) in
  is_ok (load_now second_store d) = true ∧
  existsb (λ d', negb (is_ok (load_now second_store d'))) (saved no_faults (JUint 2) second_store d).2 = true.
Proof. vm_compute. split; reflexivity. Qed.
