(* ===== verification/Queries.v ===== *)
(** * What the engine can be asked ([engine.cpp], the const operations)

    Each query copies part of the state under the engine's lock and changes nothing.
    The lemmas relate the queries with each other in well-formed engines: looking one
    record up agrees with listing all of them, and the decisions handed out are the
    newest ones in order. *)

From S2P Require Import Prelude Containers Checked Result Text Identity Lifecycle Obligation Evidence.
From S2P Require Import Authority Admission Topology Policy Decision Engine EngineInv.

Module Query.
Definition policy (e : engine) : DrainPolicy := en_policy e.
Definition incarnation (e : engine) : IncarnationId := ar_incarnation (en_authority e).
Definition epoch (e : engine) : Epoch := ar_epoch (en_authority e).
Definition obligations (e : engine) : list Obligation := ot_all (en_obligations e).
Definition obligation (id : ObligationId) (e : engine) : option Obligation := ot_find id (en_obligations e).
Definition evidence_records (e : engine) : list Evidence := om_values (el_records (en_evidence e)).
Definition drains (e : engine) : list DrainRecord := om_values (en_drains e).
Definition drain (id : DrainId) (e : engine) : option DrainRecord := en_drains e !! id.
Definition drain_sets (e : engine) : list DrainSet := om_values (en_sets e).
Definition drain_set (id : DrainSetId) (e : engine) : option DrainSet := en_sets e !! id.

Definition blockers (id : DrainId) (e : engine) : list Blocker :=
  match en_drains e !! id with None => [] | Some record => dr_blockers record end.

Definition exceptions (id : DrainId) (e : engine) : list ExceptionGrant :=
  match en_exceptions e !! id with None => [] | Some grants => grants end.

Definition outstanding_protected_count (target : DrainTarget) (e : engine) : Z :=
  zlength (outstanding_protected_dependents_of (en_obligations e) target).

Definition outstanding_obligations (target : DrainTarget) (e : engine) : list Obligation :=
  outstanding_protected_dependents_of (en_obligations e) target.

Definition decisions (limit : Z) (e : engine) : list Decision :=
  let count := Z.min limit (zlength (en_decisions e)) in
  drop (Z.to_nat (zlength (en_decisions e) - count)) (en_decisions e).

Definition stats (e : engine) : EngineStats := en_stats e.
End Query.

(** The log handed out is its newest part, as much as asked for, oldest first. *)
Lemma decisions_are_newest limit e :
  0 ≤ limit →
  (∃ older, en_decisions e = older ++ Query.decisions limit e) ∧
  zlength (Query.decisions limit e) = Z.min limit (zlength (en_decisions e)).
Proof.
  intros Hl. unfold Query.decisions. split.
  - eexists. symmetry. apply take_drop.
  - unfold zlength. rewrite length_drop. lia.
Qed.

(** In a well-formed engine listing and looking up agree. *)
Lemma listed_drain e r : engine_wf e → r ∈ Query.drains e ↔ Query.drain (dr_id r) e = Some r.
Proof.
  intros Hwf. split; [|apply om_lookup_values]. intros (id & Hl)%om_values_lookup; [|apply Hwf].
  by destruct (ew_record _ Hwf _ _ Hl) as [-> _].
Qed.

Lemma listed_set e s : engine_wf e → s ∈ Query.drain_sets e ↔ Query.drain_set (ds_id s) e = Some s.
Proof.
  intros Hwf. split; [|apply om_lookup_values]. intros (id & Hl)%om_values_lookup; [|apply Hwf].
  by destruct (ew_set _ Hwf _ _ Hl) as [-> _].
Qed.

(** The completion gate lists exactly the obligations of the table that are protected,
    not retired and depend on the target. *)
Lemma listed_outstanding target e ob :
  ob ∈ Query.outstanding_obligations target e ↔
  ob ∈ Query.obligations e ∧ blocks_completion ob = true ∧ depends_on ob target = true.
Proof.
  unfold Query.outstanding_obligations, outstanding_protected_dependents_of, Query.obligations.
  rewrite !list_elem_of_In, filter_In, andb_true_iff. done.
Qed.

Lemma nothing_outstanding target e :
  Query.outstanding_protected_count target e = 0 ↔ ∀ ob, ob ∉ Query.outstanding_obligations target e.
Proof.
  unfold Query.outstanding_protected_count, Query.outstanding_obligations. rewrite zlength_zero. 
  split; [intros ->; by intros ? ?%elem_of_nil|apply elem_of_nil_inv].
Qed.
