(* ===== verification/Runtime.v ===== *)
(** * The runtime

    [src/runtime.cpp]: the boot marker beside the snapshot, and the sequence that
    turns a disk into a running engine under a strictly newer authority line.  As in
    [Store], which file-system calls fail is an argument, and what writes to the disk
    returns every state the disk goes through. *)

From S2P Require Import Prelude Containers Checked Result Text Json Codec Crc Bytes Identity Authority Policy.
From S2P Require Import Engine Snapshot Store EngineStep EngineOps.
#[local] Open Scope Z_scope.

(** ** Options and state *)

(** [drain::RuntimeOptions]. *)
Record RuntimeOptions := MkRuntimeOptions {
  ro_policy : DrainPolicy;
  ro_state_path : string;
  ro_boot_id : Z;
  ro_persistence_limits : PersistenceLimits;
  ro_override_policy : bool;
  ro_load_on_start : bool;
}.

(** [drain::Runtime::BootRecord]. *)
Record BootRecord := MkBootRecord { br_incarnation : Z; br_epoch : Z }.
Definition no_boot_record : BootRecord := MkBootRecord 0 0.

#[export] Instance BootRecord_eq_dec : EqDecision BootRecord.
Proof. solve_decision. Defined.

(** [drain::Runtime]. *)
Record Runtime := MkRuntime {
  rt_options : RuntimeOptions;
  rt_engine : engine;
  rt_persistence : option Persistence;
  rt_incarnation : IncarnationId;
  rt_boot_id : Z;
  rt_started : bool;
}.

#[export] Instance eta_Runtime : Eta Runtime := λ r,
  MkRuntime (rt_options r) (rt_engine r) (rt_persistence r) (rt_incarnation r) (rt_boot_id r) (rt_started r).
#[export] Instance upd_rt_engine : Update rt_engine := ltac:(solve_update rt_engine).
#[export] Instance upd_rt_persistence : Update rt_persistence := ltac:(solve_update rt_persistence).
#[export] Instance upd_rt_incarnation : Update rt_incarnation := ltac:(solve_update rt_incarnation).
#[export] Instance upd_rt_boot_id : Update rt_boot_id := ltac:(solve_update rt_boot_id).
#[export] Instance upd_rt_started : Update rt_started := ltac:(solve_update rt_started).
Arguments upd_rt_engine f r /.
Arguments upd_rt_persistence f r /.
Arguments upd_rt_incarnation f r /.
Arguments upd_rt_boot_id f r /.
Arguments upd_rt_started f r /.

(** The constructor. *)
Definition new_runtime (options : RuntimeOptions) : Runtime :=
  MkRuntime options (new_engine (ro_policy options))
    (if String.eqb (ro_state_path options) "" then None
     else Some (new_persistence (ro_state_path options) (ro_persistence_limits options)))
    0 0 false.

(** ** The boot marker *)

Definition boot_marker_path (state_path : string) : string := state_path ++s ".boot".
Definition kBootMarkerPrefix : string := "DRNFBOOT 2".
Definition newline_char : Ascii.ascii := Ascii.ascii_of_nat 10.

(** The loop of [parse_decimal], with the value so far. *)
Fixpoint parse_digits (value : Z) (digits : string) : result Z :=
  match digits with
  | EmptyString => Ok value
  | String character digits =>
      if (char_code character <? 48) || (57 <? char_code character) then
        fail ErrorCode.PersistenceCorrupt "boot marker value is not numeric"
      else
        let! next := mul_checked u64 value 10
          else fail ErrorCode.BoundsExceeded "boot marker value overflows" in
        let! sum := add_checked u64 next (char_code character - 48)
          else fail ErrorCode.BoundsExceeded "boot marker value overflows" in
        parse_digits sum digits
  end.

(** [parse_decimal]. *)
Definition parse_decimal (digits : string) : result Z :=
  if String.eqb digits "" then fail ErrorCode.PersistenceCorrupt "boot marker line is empty"
  else parse_digits 0 digits.

(** The text before the next newline, and the text after it: what the calls of
    [text.find] and [text.substr] with that position select. *)
Fixpoint cut_line (text : string) : option (string * string) :=
  match text with
  | EmptyString => None
  | String c text =>
      if decide (c = newline_char) then Some ("", text)
      else match cut_line text with Some (line, rest) => Some (String c line, rest) | None => None end
  end.

(** The checksum line covers both numbers. *)
Definition marker_checksum (incarnation_digits epoch_digits : string) : string :=
  hex_u32 (crc32c (bytes_of (incarnation_digits ++s " " ++s epoch_digits)) 0).

(** The part of [peek_boot_record] that reads the text. *)
Definition parse_marker (text : string) : result BootRecord :=
  let unexpected := fail ErrorCode.PersistenceCorrupt "boot marker has an unexpected prefix" in
  let truncated := fail ErrorCode.PersistenceCorrupt "boot marker is truncated" in
  let! (prefix, text) := cut_line text else unexpected in
  if negb (String.eqb prefix kBootMarkerPrefix) then unexpected
  else
    let! (incarnation_digits, text) := cut_line text else truncated in
    let! (epoch_digits, text) := cut_line text else truncated in
    let! (checksum_text, _) := cut_line text else truncated in
    let? incarnation := parse_decimal incarnation_digits in
    let? epoch := parse_decimal epoch_digits in
    if negb (String.eqb checksum_text (marker_checksum incarnation_digits epoch_digits)) then
      fail ErrorCode.PersistenceCorrupt "boot marker checksum does not match"
    else Ok (MkBootRecord incarnation epoch).

(** The text [write_boot_marker] writes. *)
Definition marker_text (record : BootRecord) : string :=
  let incarnation_digits := decimal (br_incarnation record) in
  let epoch_digits := decimal (br_epoch record) in
  kBootMarkerPrefix ++s String newline_char (incarnation_digits ++s String newline_char
    (epoch_digits ++s String newline_char
      (marker_checksum incarnation_digits epoch_digits ++s String newline_char ""))).

(** Which calls of one boot fail.  [bf_read] and [bf_write] are the number of bytes a
    short [fread] or [fwrite] handled. *)
Record BootFaults := MkBootFaults {
  bf_stat : bool;
  bf_open : bool;
  bf_read : option nat;
  bf_exists : bool;
  bf_load : ReadFaults;
  bf_load_backup : ReadFaults;
  bf_create : bool;
  bf_write : option nat;
  bf_flush : bool;
}.
Definition no_boot_faults : BootFaults :=
  MkBootFaults false false None false no_read_faults no_read_faults false None false.

(** [Runtime::peek_boot_record]. *)
Definition peek_boot_record (ft : BootFaults) (state_path : string) (d : disk) : result BootRecord :=
  if String.eqb state_path "" then Ok no_boot_record
  else
    match d !! boot_marker_path state_path with
    | None => Ok no_boot_record
    | Some bytes =>
        if bf_stat ft then Ok no_boot_record
        else if bf_open ft then fail ErrorCode.PersistenceIo "cannot read the boot marker"
        else
          let buffer := take 192 bytes in
          parse_marker (text_of match bf_read ft with Some n => take n buffer | None => buffer end)
    end.

(** [Runtime::write_boot_marker].  The file is truncated when it is opened; until the
    flush returns any part of the text may have reached it. *)
Definition write_boot_marker (ft : BootFaults) (state_path : string) (record : BootRecord) (d : disk)
  : status * list disk :=
  let marker := boot_marker_path state_path in
  let bytes := bytes_of (marker_text record) in
  let holding (n : nat) : disk := <[marker := take n bytes]> d in
  if bf_create ft then (fail ErrorCode.PersistenceIo "cannot write the boot marker", [d])
  else
    match bf_write ft with
    | Some n =>
        (fail ErrorCode.PersistenceIo "failed to write the boot marker", d :: (holding <$> seq 0 (S n)))
    | None =>
        let trace := d :: (holding <$> seq 0 (S (length bytes))) in
        if bf_flush ft then (fail ErrorCode.PersistenceIo "failed to write the boot marker", trace)
        else (ok_status, trace)
    end.

(** ** The boot sequence *)

(** The first half of [Runtime::start]: the highest incarnation and epoch found, and
    whether a snapshot was restored. *)
Definition recover (ft : BootFaults) (now : TimePoint) (r : Runtime) (d : disk)
  : result (Z * Z * bool) * Runtime :=
  let highest := ro_boot_id (rt_options r) in
  match rt_persistence r with
  | None => (Ok (highest, 0, false), r)
  | Some p =>
      match peek_boot_record ft (ro_state_path (rt_options r)) d with
      | Err err => (Err err, r)
      | Ok marker =>
          let highest := if highest <? br_incarnation marker then br_incarnation marker else highest in
          let highest_epoch := if 0 <? br_epoch marker then br_epoch marker else 0 in
          if ro_load_on_start (rt_options r) && exists_ (bf_exists ft) p d then
            match load (bf_load ft) (bf_load_backup ft) p d with
            | Err err => (Err err, r)
            | Ok (loaded, info) =>
                match restore loaded (si_incarnation info) now (rt_engine r) with
                | (Err err, e) => (Err err, r <| rt_engine := e |>)
                | (Ok _, e) =>
                    let highest := if highest <? si_incarnation info then si_incarnation info else highest in
                    let epoch := ar_epoch (en_authority e) in
                    let highest_epoch := if highest_epoch <? epoch then epoch else highest_epoch in
                    (Ok (highest, highest_epoch, true), r <| rt_engine := e |>)
                end
            end
          else (Ok (highest, highest_epoch, false), r)
      end
  end.

(** [Runtime::start]. *)
Definition runtime_start (ft : BootFaults) (now : TimePoint) (r : Runtime) (d : disk)
  : status * Runtime * list disk :=
  if rt_started r then (ok_status, r, [d])
  else
    match recover ft now r d with
    | (Err err, r) => (Err err, r, [d])
    | (Ok (highest, highest_epoch, recovered), r) =>
        match increment_checked u64 highest with
        | None => (fail ErrorCode.BoundsExceeded "incarnation space exhausted", r, [d])
        | Some next =>
            match increment_checked u64 highest_epoch with
            | None => (fail ErrorCode.BoundsExceeded "authority epoch space exhausted", r, [d])
            | Some next_epoch =>
                let r := r <| rt_boot_id := next |> <| rt_incarnation := next |> in
                let '(marker_written, trace) :=
                  match rt_persistence r with
                  | None => (ok_status, [d])
                  | Some _ =>
                      write_boot_marker ft (ro_state_path (rt_options r)) (MkBootRecord next next_epoch) d
                  end in
                match marker_written with
                | Err err => (Err err, r, trace)
                | Ok _ =>
                    match install_authority_line (rt_incarnation r) next_epoch now
                            "start: previous incarnation authority is void" (rt_engine r) with
                    | (Err err, e) => (Err err, r <| rt_engine := e |>, trace)
                    | (Ok _, e) =>
                        let '(applied, e) :=
                          if negb recovered || ro_override_policy (rt_options r)
                          then set_policy (ro_policy (rt_options r)) now e else (ok_status, e) in
                        let r := r <| rt_engine := e |> in
                        match applied with
                        | Err err => (Err err, r, trace)
                        | Ok _ => (ok_status, r <| rt_started := true |>, trace)
                        end
                    end
                end
            end
        end
    end.

(** ** A running daemon *)

(** [Runtime::save]. *)
Definition runtime_save (ft : Faults) (r : Runtime) (d : disk) : status * Runtime * list disk :=
  match rt_persistence r with
  | None => (ok_status, r, [d])
  | Some p =>
      let '(saved, p, trace) := save ft (snapshot (rt_engine r)) (rt_incarnation r) p d in
      (saved, r <| rt_persistence := Some p |>, trace)
  end.

(** [Runtime::tick]: the snapshot is written whatever [advance] answered. *)
Definition runtime_tick (bf : BootFaults) (ft : Faults) (sink : option EvacuationSink) (now : TimePoint)
    (r : Runtime) (d : disk) : status * Runtime * list disk :=
  let '(started, r, trace) := if rt_started r then (ok_status, r, [d]) else runtime_start bf now r d in
  match started with
  | Err err => (Err err, r, trace)
  | Ok _ =>
      let '(advanced, e) := advance sink now (rt_engine r) in
      let '(saved, r, trace') := runtime_save ft (r <| rt_engine := e |>) (last_disk d trace) in
      (match advanced with Err err => Err err | Ok _ => saved end, r, trace ++ trace')
  end.

(** The loop of [stop] over the tokens as they were. *)
Fixpoint revoke_tokens (tokens : list AuthorityToken) (now : TimePoint) (e : engine) : status * engine :=
  match tokens with
  | [] => (ok_status, e)
  | token :: tokens =>
      if negb (at_revoked token) then
        match revoke_authority (at_id token) "runtime shutdown" now e with
        | (Err err, e) => (Err err, e)
        | (Ok _, e) => revoke_tokens tokens now e
        end
      else revoke_tokens tokens now e
  end.

(** [Runtime::stop]. *)
Definition runtime_stop (ft : Faults) (now : TimePoint) (r : Runtime) (d : disk) : status * Runtime * list disk :=
  match revoke_tokens (ar_all_tokens (en_authority (rt_engine r))) now (rt_engine r) with
  | (Err err, e) => (Err err, r <| rt_engine := e |>, [d])
  | (Ok _, e) =>
      let '(saved, r, trace) := runtime_save ft (r <| rt_engine := e |>) d in
      (saved, r <| rt_started := false |>, trace)
  end.

(** [Runtime::reset_state]. *)
Definition runtime_reset_state (r : Runtime) (d : disk) : status * Runtime * disk :=
  match rt_persistence r with
  | None => (ok_status, r, d)
  | Some p =>
      let '(cleared, p, d) := reset p d in
      let r := r <| rt_persistence := Some p |> in
      match cleared with
      | Err err => (Err err, r, d)
      | Ok _ => (ok_status, r, delete (boot_marker_path (ro_state_path (rt_options r))) d)
      end
  end.
