(* ===== verification/RuntimeFacts.v ===== *)
(** * The boot marker survives crashes

    What is written is read back; what a crash leaves of it is refused.  A save never
    touches the marker. *)

From S2P Require Import Prelude Containers Checked Result Text Json JsonFacts JsonText JsonBounds Codec Crc Bytes Wire WireFacts.
From S2P Require Import CodecTables Identity Authority Policy Engine Snapshot Store StoreFacts EngineStep EngineOps Runtime.
#[local] Open Scope Z_scope.

(** ** Lines *)

Definition one_line (s : string) : Prop := string_all (λ c, negb (bool_decide (c = newline_char))) s = true.

Lemma cut_line_app a b : one_line a → cut_line (a ++s String newline_char b) = Some (a, b).
Proof.
  unfold one_line. induction a as [|c a IH]; [done|].
  intros [Hc%negb_true_iff%bool_decide_eq_false Ha]%andb_true_iff. simpl. rewrite decide_False by done. by rewrite IH.
Qed.

(** Cutting a proper prefix of a line and more: there is no newline, or the line is
    the same and a proper prefix of the rest remains. *)
Lemma cut_line_prefix a b p rest :
  one_line a → p ++s rest = a ++s String newline_char b →
  cut_line p = None ∨ ∃ p', cut_line p = Some (a, p') ∧ p' ++s rest = b.
Proof.
  unfold one_line. revert p. induction a as [|c a IH]; intros [|x p] Ha E; simpl in *; try by left.
  - injection E as -> E. right. exists p. by rewrite decide_True.
  - injection E as -> E. apply andb_true_iff in Ha as [Hc%negb_true_iff%bool_decide_eq_false Ha].
    rewrite decide_False by done.
    destruct (IH p Ha E) as [->|(p' & -> & Hp')]; [by left|right]. by exists p'.
Qed.

Lemma one_line_digits s : string_all is_digit s = true → one_line s.
Proof.
  unfold one_line. induction s as [|c s IH]; [done|]. simpl. intros [Hc Hs]%andb_true_iff. rewrite IH by done.
  rewrite andb_true_r, negb_true_iff, bool_decide_eq_false. intros ->. done.
Qed.

Lemma one_line_hex n v out : one_line out → one_line (hex_loop n v out).
Proof.
  unfold one_line. revert v out. induction n as [|n IH]; intros v out Ho; cbn [hex_loop]; [done|]. apply IH. simpl. rewrite Ho.
  rewrite andb_true_r, negb_true_iff, bool_decide_eq_false. generalize (Z.land v 15). intros k.
  unfold kHex. intros Hk. assert (k ≤ 15 ∨ 16 ≤ k) as [H|H] by lia.
  - destruct (decide (0 ≤ k)) as [H0|H0].
    + assert (Forall (λ k, default Ascii.zero (String.get (Z.to_nat k) "0123456789abcdef") ≠ newline_char) (seqZ 0 16)) as Hall
        by (vm_compute; repeat (constructor; [discriminate|]); constructor).
      rewrite Forall_forall in Hall. apply (Hall k); [|done]. apply elem_of_seqZ. lia.
    + replace (Z.to_nat k) with 0%nat in Hk by lia. by vm_compute in Hk.
  - assert (∀ m s, (String.length s ≤ m)%nat → String.get m s = None) as Hget.
    { intros m s. revert m. induction s as [|c s IHs]; intros m Hm; [done|]. destruct m; simpl in *; [lia|]. apply IHs. lia. }
    rewrite Hget in Hk by (simpl; lia). by vm_compute in Hk.
Qed.

Lemma decimal_digits z : 0 ≤ z → string_all is_digit (decimal z) = true ∧ decimal z ≠ "" ∧ digits_value 0 (decimal z) = z.
Proof.
  intros Hz. destruct (decide (z = 0)) as [->|]; [by split_and!|].
  destruct (decimal_pos z ltac:(lia)) as (c & ds & -> & [_ D2 D3 _]). split_and!; [done|done|]. rewrite D3. lia.
Qed.

(** ** Numbers *)

Lemma digits_value_mono acc s : string_all is_digit s = true → 0 ≤ acc → acc ≤ digits_value acc s.
Proof.
  revert acc. induction s as [|c s IH]; intros acc Hs Ha; simpl in *; [lia|]. apply andb_true_iff in Hs as [Hc Hs].
  unfold is_digit in Hc. etrans; [|apply IH; [done|lia]]. lia.
Qed.

Lemma u64_range z : in_range u64 z ↔ 0 ≤ z ≤ int_max u64.
Proof. done. Qed.

Lemma parse_digits_value acc s :
  string_all is_digit s = true → 0 ≤ acc → digits_value acc s ≤ int_max u64 → parse_digits acc s = Ok (digits_value acc s).
Proof.
  revert acc. induction s as [|c s IH]; intros acc Hs Ha Hv; [done|]. cbn [digits_value] in Hv |- *. simpl in Hs.
  rewrite (Z.mul_comm 10 acc) in *.
  apply andb_true_iff in Hs as [Hc Hs]. cbn [parse_digits].
  assert (acc * 10 + (char_code c - 48) ≤ digits_value (acc * 10 + (char_code c - 48)) s) as Hm.
  { apply digits_value_mono; [done|]. unfold is_digit in Hc. lia. }
  unfold is_digit in Hc. assert (48 ≤ char_code c ≤ 57) as Hr by lia. clear Hc.
  assert (int_max u64 = 18446744073709551615) as Emax by done.
  assert ((char_code c <? 48) || (57 <? char_code c) = false) as -> by lia.
  rewrite mul_checked_exact by (apply it_wf_u64 || (apply u64_range; lia)).
  rewrite decide_True by (apply u64_range; lia).
  rewrite add_checked_exact by (apply it_wf_u64 || (apply u64_range; lia)).
  rewrite decide_True by (apply u64_range; lia). apply IH; [done|lia|done].
Qed.

Lemma parse_decimal_roundtrip z : in_range u64 z → parse_decimal (decimal z) = Ok z.
Proof.
  intros [Hz1 Hz2]. change (int_min u64) with 0 in Hz1. destruct (decimal_digits z Hz1) as (Hd & Hne & Hv).
  unfold parse_decimal. destruct (String.eqb_spec (decimal z) ""); [done|].
  rewrite parse_digits_value; [by rewrite Hv|done|done|by rewrite Hv].
Qed.

Lemma parse_digits_range acc s v : in_range u64 acc → parse_digits acc s = Ok v → in_range u64 v.
Proof.
  revert acc. induction s as [|c s IH]; intros acc Ha; cbn [parse_digits]; [by intros [= <-]|].
  destruct (_ || _) eqn:Ec; [done|]. assert (48 ≤ char_code c ≤ 57) as Hc by lia.
  assert (int_max u64 = 18446744073709551615) as Emax by done.
  rewrite mul_checked_exact by (apply it_wf_u64 || done || (apply u64_range; lia)).
  destruct (decide (in_range u64 (acc * 10))) as [Hm|]; [|done].
  rewrite add_checked_exact by (apply it_wf_u64 || done || (apply u64_range; lia)).
  destruct (decide (in_range u64 (acc * 10 + (char_code c - 48)))) as [Hs|]; [|done]. by apply IH.
Qed.

(** ** The marker *)

Definition record_wf (record : BootRecord) : Prop := in_range u64 (br_incarnation record) ∧ in_range u64 (br_epoch record).

Lemma parse_marker_wf text record : parse_marker text = Ok record → record_wf record.
Proof.
  unfold parse_marker. destruct (cut_line text) as [[prefix t1]|]; [|done]. destruct (String.eqb _ _); [|done]. cbn [negb].
  destruct (cut_line t1) as [[l1 t2]|]; [|done]. destruct (cut_line t2) as [[l2 t3]|]; [|done].
  destruct (cut_line t3) as [[l3 t4]|]; [|done]. unfold parse_decimal.
  destruct (String.eqb l1 ""); [done|]. destruct (parse_digits 0 l1) as [i|] eqn:E1; [|done]. cbn [result_bind].
  destruct (String.eqb l2 ""); [done|]. destruct (parse_digits 0 l2) as [k|] eqn:E2; [|done]. cbn [result_bind].
  destruct (String.eqb l3 _); [|done]. cbn [negb]. intros [= <-]. split; (eapply parse_digits_range; [|done]); done.
Qed.

Section Marker.
Context (record : BootRecord) (Hwf : record_wf record).

Lemma marker_lines :
  one_line kBootMarkerPrefix ∧ one_line (decimal (br_incarnation record)) ∧ one_line (decimal (br_epoch record)) ∧
  one_line (marker_checksum (decimal (br_incarnation record)) (decimal (br_epoch record))).
Proof.
  destruct Hwf as [[Hi _] [He _]]. split_and!; [done| | |by apply one_line_hex].
  - by apply one_line_digits, decimal_digits.
  - by apply one_line_digits, decimal_digits.
Qed.

Lemma parse_marker_text : parse_marker (marker_text record) = Ok record.
Proof.
  destruct marker_lines as (H0 & H1 & H2 & H3). unfold parse_marker, marker_text. cbv zeta.
  rewrite (cut_line_app _ _ H0), String.eqb_refl. cbn [negb].
  rewrite (cut_line_app _ _ H1), (cut_line_app _ _ H2), (cut_line_app _ _ H3).
  rewrite (parse_decimal_roundtrip _ (proj1 Hwf)), (parse_decimal_roundtrip _ (proj2 Hwf)).
  cbn [result_bind]. rewrite String.eqb_refl. by destruct record.
Qed.

(** A proper prefix of the marker is refused. *)
Lemma parse_torn_marker p rest :
  p ++s rest = marker_text record → rest ≠ "" → ∃ m, parse_marker p = fail ErrorCode.PersistenceCorrupt m.
Proof.
  destruct marker_lines as (H0 & H1 & H2 & H3). unfold marker_text. cbv zeta. intros E Hne. unfold parse_marker.
  destruct (cut_line_prefix _ _ _ _ H0 E) as [->|(p1 & -> & E1)]; [by eexists|]. rewrite String.eqb_refl. cbn [negb].
  destruct (cut_line_prefix _ _ _ _ H1 E1) as [->|(p2 & -> & E2)]; [by eexists|].
  destruct (cut_line_prefix _ _ _ _ H2 E2) as [->|(p3 & -> & E3)]; [by eexists|].
  destruct (cut_line_prefix _ _ _ _ H3 E3) as [->|(p4 & _ & E4)]; [by eexists|]. by destruct p4, rest.
Qed.

Lemma marker_fits : (length (bytes_of (marker_text record)) ≤ 192)%nat.
Proof.
  assert (∀ z, in_range u64 z → string_length (decimal z) ≤ 20) as Hdec.
  { intros z [Hz1 Hz2]. change (int_min u64) with 0 in Hz1. change (int_max u64) with 18446744073709551615 in Hz2.
    destruct (size_bound z 20) as [?| ->]; try done; [lia|]. by apply (integer_part z "" Hz1). }
  assert (∀ n v out, String.length (hex_loop n v out) = (n + String.length out)%nat) as Hhex.
  { intros n. induction n as [|n IH]; intros v out; cbn [hex_loop]; [done|]. rewrite IH. simpl. lia. }
  pose proof (Hdec _ (proj1 Hwf)) as H1. pose proof (Hdec _ (proj2 Hwf)) as H2. unfold string_length in *.
  pose proof (bytes_of_length (marker_text record)) as Hl. unfold zlength, string_length, marker_text in *. cbv zeta in *.
  rewrite !string_length_app in Hl. cbn [String.length] in Hl. rewrite !string_length_app in Hl. cbn [String.length] in Hl.
  rewrite !string_length_app in Hl. cbn [String.length] in Hl. rewrite !string_length_app in Hl.
  assert (String.length (marker_checksum (decimal (br_incarnation record)) (decimal (br_epoch record))) = 8%nat) as Hc
    by apply Hhex. rewrite Hc in Hl.
  change (String.length kBootMarkerPrefix) with 10%nat in Hl. cbn [String.length] in Hl. lia.
Qed.
End Marker.

(** What is left of a text after its first bytes. *)
Lemma text_take n s :
  (length (bytes_of s) ≤ n)%nat ∧ text_of (take n (bytes_of s)) = s ∨
  ∃ rest, rest ≠ "" ∧ text_of (take n (bytes_of s)) ++s rest = s.
Proof.
  revert n. induction s as [|c s IH]; intros n; [left; split; [simpl; lia|by destruct n]|].
  destruct n as [|n]; [right; by exists (String c s)|]. simpl bytes_of. rewrite firstn_cons.
  assert (∀ l, text_of (char_code c :: l) = String c (text_of l)) as Hc.
  { intros l. simpl. unfold char_code. by rewrite N2Z.id, Ascii.ascii_N_embedding. }
  rewrite Hc.
  destruct (IH n) as [[Hl E]|(rest & Hr & E)]; [left; split; [simpl; lia|by rewrite E]|right]. exists rest. split; [done|].
  change (String c (text_of (take n (bytes_of s)) ++s rest) = String c s). by rewrite E.
Qed.

(** ** Reading what may be on the disk *)

Section Peek.
Context (path : string) (Hpath : path ≠ "").

(** The marker file is absent, or a possibly torn image of a record. *)
Definition marker_of (d : disk) (record : option BootRecord) : Prop :=
  match record with
  | None => d !! boot_marker_path path = None
  | Some record => record_wf record ∧ ∃ n, d !! boot_marker_path path = Some (take n (bytes_of (marker_text record)))
  end.

Lemma peek_marker ft d record :
  marker_of d record → bf_stat ft = false →
  (∃ err, peek_boot_record ft path d = Err err) ∨ peek_boot_record ft path d = Ok (default no_boot_record record).
Proof.
  intros Hm Hst. unfold peek_boot_record. destruct (String.eqb_spec path "") as [?|_]; [done|].
  destruct record as [record|]; [|right; cbn in Hm; by rewrite Hm]. destruct Hm as (Hwf & n & ->). rewrite Hst.
  destruct (bf_open ft); [by left; eexists|].
  assert (∃ k, match bf_read ft with
     | Some m => take m (take 192 (take n (bytes_of (marker_text record))))
     | None => take 192 (take n (bytes_of (marker_text record))) end = take k (bytes_of (marker_text record))) as [k Hk].
  { generalize (bytes_of (marker_text record)). intros l. destruct (bf_read ft); rewrite !take_take; eauto. }
  lazy beta iota zeta. rewrite Hk.
  destruct (text_take k (marker_text record)) as [[_ ->]|(rest & Hr & E)]; [right; by rewrite parse_marker_text|left].
  destruct (parse_torn_marker record Hwf _ _ E Hr) as [m ->]. by eexists.
Qed.

Lemma peek_whole_marker d record :
  record_wf record → d !! boot_marker_path path = Some (bytes_of (marker_text record)) →
  peek_boot_record no_boot_faults path d = Ok record.
Proof.
  intros Hwf Hd. unfold peek_boot_record. destruct (String.eqb_spec path "") as [?|_]; [done|]. rewrite Hd. cbn [bf_stat bf_open bf_read no_boot_faults].
  rewrite take_ge by (by apply marker_fits). by rewrite text_bytes, parse_marker_text.
Qed.

(** ** Writing it *)

Lemma write_boot_marker_trace ft record d st trace :
  write_boot_marker ft path record d = (st, trace) →
  (∀ d', d' ∈ trace → d' = d ∨ ∃ n, d' = <[boot_marker_path path := take n (bytes_of (marker_text record))]> d) ∧
  trace ≠ [] ∧
  (is_ok st = true → last_disk d trace = <[boot_marker_path path := bytes_of (marker_text record)]> d).
Proof.
  unfold write_boot_marker. cbv zeta. set (bytes := bytes_of _). set (holding := λ n : nat, _).
  assert (∀ n d', d' ∈ d :: (holding <$> seq 0 n) → d' = d ∨ ∃ n, d' = holding n) as Hin.
  { intros n d' [->|(k & -> & _)%list_elem_of_fmap]%elem_of_cons; [by left|right; eauto]. }
  destruct (bf_create ft).
  { intros [= <- <-]. split_and!; [by intros d' ->%list_elem_of_singleton; left|done|done]. }
  destruct (bf_write ft) as [n|].
  { generalize (S n). intros k [= <- <-]. split_and!; [intros d' Hd; exact (Hin _ _ Hd)|done|done]. }
  remember (S (length bytes)) as k eqn:Hk.
  destruct (bf_flush ft); intros [= <- <-]; (split_and!; [intros d' Hd; exact (Hin _ _ Hd)|done|]); [done|intros _].
  rewrite Hk, seq_S, fmap_app, app_comm_cons. simpl fmap. unfold last_disk. rewrite last_snoc. simpl. unfold holding.
  by rewrite take_ge.
Qed.

(** A save leaves the marker alone. *)
Lemma marker_distinct p : pe_path p = path →
  boot_marker_path path ≠ pe_path p ∧ boot_marker_path path ≠ backup_path p ∧ boot_marker_path path ≠ temporary_path p.
Proof.
  intros E. unfold boot_marker_path, backup_path, temporary_path. rewrite E. split_and!.
  - by apply not_eq_sym, append_ne.
  - by intros ?%append_inj_l.
  - by intros ?%append_inj_l.
Qed.
End Peek.

(** ** Saves touch three paths *)

(** All states of a trace agree on a path. *)
Definition keeps (k : string) (d : disk) (trace : list disk) : Prop :=
  trace ≠ [] ∧ ∀ d', d' ∈ trace → d' !! k = d !! k.

Lemma keeps_last k d t : keeps k d t → last_disk d t !! k = d !! k.
Proof. intros [Hne Ht]. by apply Ht, last_disk_in. Qed.

Lemma keeps_app k d t1 t2 : keeps k d t1 → keeps k (last_disk d t1) t2 → keeps k d (t1 ++ t2).
Proof.
  intros [Hne1 H1] [Hne2 H2]. split; [by destruct t1|]. intros d' [Hin|Hin]%elem_of_app; [by apply H1|].
  rewrite (H2 d' Hin). by apply H1, last_disk_in.
Qed.

Lemma keeps_trans k d d0 t : d0 !! k = d !! k → keeps k d0 t → keeps k d t.
Proof. intros E [Hne Ht]. split; [done|]. intros d' Hin. by rewrite (Ht d' Hin). Qed.

Section Elsewhere.
Context (p : Persistence) (k : string).
Context (Hlive : k ≠ pe_path p) (Hbak : k ≠ backup_path p) (Htmp : k ≠ temporary_path p).

(** Reads of [k] under writes to the three paths. *)
Ltac elsewhere :=
  repeat first [rewrite om_lookup_delete_ne by (by apply not_eq_sym) | rewrite om_lookup_insert_ne by (by apply not_eq_sym)].

Lemma rename_elsewhere d : rename (temporary_path p) (pe_path p) d !! k = d !! k.
Proof. unfold rename. destruct (d !! temporary_path p); by elsewhere. Qed.

Lemma rotate_elsewhere ft d st t : rotate ft p d = (st, t) → keeps k d t.
Proof.
  unfold rotate. destruct (exists_ _ _ _); cbn [negb].
  - destruct (ft_copy ft); intros [= <- <-]; (split; [done|]); intros d'; rewrite !elem_of_cons, elem_of_nil;
      intros Hin; destruct_or!; subst; by elsewhere.
  - intros [= <- <-]. split; [done|]. by intros d' ->%list_elem_of_singleton.
Qed.

Lemma install_elsewhere ft d st t : install ft p d = (st, t) → keeps k d t.
Proof.
  unfold install. destruct (ft_rename ft), (ft_rename_again ft); cbn [negb]; intros [= <- <-]; (split; [done|]);
    intros d'; rewrite !elem_of_cons, elem_of_nil; intros Hin; destruct_or!; subst; rewrite ?rename_elsewhere; by elsewhere.
Qed.

Lemma save_elsewhere ft snapshot incarnation d st p' t : save ft snapshot incarnation p d = (st, p', t) → keeps k d t.
Proof.
  assert (keeps k d [d]) as Hone by (split; [done|by intros d' ->%list_elem_of_singleton]).
  unfold save. destruct (_ <? _); [by intros [= _ _ <-]|]. destruct (increment_checked _ _) as [next|]; [|by intros [= _ _ <-]].
  set (bytes := snapshot_image _ _ _). set (removed := delete (temporary_path p) d).
  destruct (write_whole_file ft (temporary_path p) bytes removed) as [written t1] eqn:Hw.
  apply write_trace in Hw as (Hne1 & Hk1 & _).
  assert (keeps k d (d :: removed :: t1)) as H1.
  { split; [done|]. intros d' [->|[->|Hin]%elem_of_cons]%elem_of_cons; [done|unfold removed; by elsewhere|].
    rewrite (Hk1 d' k Hin Htmp). unfold removed. by elsewhere. }
  set (t0 := d :: removed :: t1) in *. clearbody t0.
  destruct written; [|by intros [= _ _ <-]]. destruct (rotate ft p (last_disk d t0)) as [rotated t2] eqn:Hr.
  apply rotate_elsewhere in Hr as H2. destruct rotated; [|intros [= _ _ <-]; by apply keeps_app].
  destruct (install ft p (last_disk d t2)) as [installed t3] eqn:Hi. apply install_elsewhere in Hi as H3.
  assert (keeps k d (t0 ++ t2 ++ t3)) as Hall.
  { apply keeps_app; [done|]. apply keeps_app; [done|].
    assert (last_disk (last_disk d t0) t2 = last_disk d t2) as ->; [|done].
    unfold last_disk. destruct (last t2) eqn:E; [done|]. destruct H2 as [? _]. by apply last_None in E. }
  destruct installed; by intros [= _ _ <-].
Qed.
End Elsewhere.

(** ** What a snapshot can bring *)

(** The contents of files are bytes. *)
Definition disk_ok (d : disk) : Prop := ∀ k bytes, d !! k = Some bytes → Forall byte_ok bytes.

Lemma get_u64_range from bytes : Forall byte_ok bytes → in_range u64 (get_u64 from bytes).
Proof.
  intros Hb. unfold get_u64.
  assert (∀ l, Forall byte_ok l → 0 ≤ get_le l < 256 ^ Z.of_nat (length l)) as Hl.
  { intros l. induction 1 as [|b l Hb' _ IH]; [by simpl|]. cbn [get_le length]. rewrite lor_byte by done.
    rewrite Nat2Z.inj_succ, Z.pow_succ_r by lia. unfold byte_ok in Hb'. lia. }
  specialize (Hl _ (slice_bytes from 8 bytes Hb)).
  assert ((length (slice from 8 bytes) ≤ 8)%nat) as Hlen by (unfold slice; rewrite length_take; lia).
  assert (256 ^ Z.of_nat (length (slice from 8 bytes)) ≤ 256 ^ 8) by (apply Z.pow_le_mono_r; lia).
  split; [apply Hl|]. change (int_max u64) with (256 ^ 8 - 1). lia.
Qed.

Lemma read_file_range ft file from_backup p d v info :
  disk_ok d → in_range u64 (pl_max_snapshot_bytes (pe_limits p)) → read_file ft file from_backup p d = Ok (v, info) →
  in_range u64 (si_incarnation info) ∧ ∃ limits, json_within limits 0 v = true.
Proof.
  intros Hd Hlim. unfold read_file, read_whole_file. destruct (rf_stat ft); [done|].
  destruct (d !! file) as [bytes|] eqn:Hb; [|done]. apply Hd in Hb.
  destruct (rf_size ft); [done|]. destruct (_ <? _); [done|]. destruct (rf_open ft); [done|]. destruct (rf_short ft); [done|].
  cbn [result_bind]. unfold decode_snapshot. repeat (destruct (negb _); [done|]).
  destruct (_ <? _); [done|]. repeat (destruct (negb _); [done|]). destruct (_ <? _); [done|].
  repeat (destruct (negb _); [done|]).
  set (limits := payload_limits _). set (text := text_of _). unfold json_parsed.
  assert (limits_wf limits = true) as Hwf.
  { destruct Hlim as [H1%Z.leb_le H2%Z.leb_le]. change (int_min u64) with 0 in H1. unfold limits, limits_wf. cbn -[int_max].
    by rewrite H1, H2. }
  destruct (json_parse_outcome limits Hwf text) as (r & -> & Hr). simpl. destruct r as [parsed|]; [|done].
  intros [= <- <-]. split; [exact (get_u64_range 24 bytes Hb)|]. exists limits. apply Hr.
Qed.

Lemma load_range ft ft' p d v info :
  disk_ok d → in_range u64 (pl_max_snapshot_bytes (pe_limits p)) → load ft ft' p d = Ok (v, info) →
  in_range u64 (si_incarnation info) ∧ ∃ limits, json_within limits 0 v = true.
Proof.
  intros Hd Hlim. unfold load. destruct (read_file ft _ _ p d) as [[v' info']|err] eqn:H1.
  - intros [= <- <-]. by eapply read_file_range.
  - destruct (bool_decide _); [done|]. destruct (read_file ft' _ _ p d) as [[v' info']|err'] eqn:H2; [|done].
    intros [= <- <-]. by eapply read_file_range.
Qed.

Lemma load_all_keeps {A B C} (f : B → C) (dec : json → result A) (add : A → B → result B) items s s' :
  (∀ a s s', add a s = Ok s' → f s' = f s) → load_all dec add items s = Ok s' → f s' = f s.
Proof.
  intros Hadd. revert s. induction items as [|i items IH]; intros s; simpl; [by intros [= <-]|].
  destruct (dec i) as [a|]; [|done]. cbn [result_bind]. destruct (add a s) as [s1|] eqn:Ha; [|done]. cbn [result_bind].
  intros Hl. rewrite (IH _ Hl). by eapply Hadd.
Qed.

Lemma stage_authority doc p s :
  stage doc p = Ok s → load_part "authority" registry_load_from_json new_authority_registry doc = Ok (sg_authority s).
Proof.
  unfold stage. intros Hs. repeat (apply result_bind_Ok in Hs as (? & ? & Hs)). by injection Hs as <-.
Qed.

(** The epoch of a restored engine is the one the document records. *)
Lemma restored_epoch_range doc previous now e e' :
  (∃ limits, json_within limits 0 doc = true) → restored doc previous now e = Ok e' →
  in_range u64 (ar_epoch (en_authority e')).
Proof.
  intros [limits Hw]. unfold restored. destruct (negb (is_object doc)); [done|]. destruct (negb (_ =? _)); [done|].
  destruct (_ && _); [done|]. destruct (stage doc (en_policy e)) as [s|] eqn:Hs; [|done]. cbn [result_bind].
  destruct (narrow_checked _ _ _) as [mark|]; [|done]. destruct (recover_drains _ _); [|done]. cbn [result_bind]. intros [= <-].
  change (in_range u64 (ar_epoch (sg_authority s))). apply stage_authority in Hs. unfold load_part in Hs.
  destruct (json_find "authority" doc) as [value|] eqn:Hv; [|by injection Hs as <-].
  unfold registry_load_from_json in Hs. destruct (negb (is_object value)); [done|].
  assert (in_range u64 (read_u64_or "epoch" 1 value)) as Hr.
  { unfold read_u64_or. destruct (json_find "epoch" value) as [x|] eqn:Hx; [|done]. destruct (is_number x); [|done].
    eapply as_uint_range; [|done]. eapply within_find; [|exact Hx]. by eapply within_find. }
  destruct (_ =? 0); [done|]. apply result_bind_Ok in Hs as (staged & Hst & Hs).
  assert (ar_epoch staged = read_u64_or "epoch" 1 value) as Est.
  { destruct (array_member _ _); [|by injection Hst as <-]. destruct (_ <? _); [done|].
    apply (load_all_keeps ar_epoch) in Hst; [done|]. by intros [] r0 r1 [= <-]. }
  assert (ar_epoch (sg_authority s) = ar_epoch staged) as ->; [|by rewrite Est].
  destruct (array_member "tokens" value); [|by injection Hs as <-]. destruct (_ <? _); [done|].
  apply (load_all_keeps ar_epoch) in Hs; [done|]. intros t r0 r1. unfold load_token. intros [= <-]. by destruct (_ <? _).
Qed.
