(* ===== verification/Boot.v ===== *)
(** * Claims about the runtime

    However often and wherever the daemon is killed, every start installs an
    authority line no earlier start used; what was saved comes back; a stop leaves no
    authority behind. *)

From S2P Require Import Prelude Containers Checked Result Text Json JsonFacts JsonText JsonBounds Codec CodecTables Crc Bytes Wire WireFacts.
From S2P Require Import Identity Lifecycle Authority Policy Decision Protocol Engine Snapshot Store StoreFacts EngineStep EngineOps EngineInv Restart.
From S2P Require Import EngineRefine EngineReach Scenario Runtime RuntimeFacts.
#[local] Open Scope Z_scope.

(** ** What a start does to the line *)

Definition newer (a b : BootRecord) : Prop := br_incarnation a < br_incarnation b ∧ br_epoch a < br_epoch b.
Definition line_of (e : engine) : BootRecord := MkBootRecord (ar_incarnation (en_authority e)) (ar_epoch (en_authority e)).

Lemma newer_trans a b c : newer a b → newer b c → newer a c.
Proof. unfold newer. lia. Qed.

(** The values the options' C++ types can hold. *)
Record options_wf (options : RuntimeOptions) : Prop := {
  ow_path : ro_state_path options ≠ "";
  ow_boot_id : in_range u64 (ro_boot_id options);
  ow_limits : in_range u64 (pl_max_snapshot_bytes (ro_persistence_limits options));
}.

Lemma peek_wf ft path d record : peek_boot_record ft path d = Ok record → record_wf record.
Proof.
  unfold peek_boot_record. destruct (String.eqb path ""); [by intros [= <-]|]. destruct (d !! _); [|by intros [= <-]].
  destruct (bf_stat ft); [by intros [= <-]|]. destruct (bf_open ft); [done|]. apply parse_marker_wf.
Qed.

Lemma max_if a b : (if a <? b then b else a) = Z.max a b.
Proof. destruct (Z.ltb_spec a b); lia. Qed.

(** What the first half of a start reports. *)
Record recovered_line (ft : BootFaults) (r : Runtime) (d : disk) (h he : Z) (r' : Runtime) : Prop := {
  rl_frame : rt_options r' = rt_options r ∧ rt_persistence r' = rt_persistence r ∧ rt_started r' = rt_started r;
  rl_marker : ∃ m, peek_boot_record ft (ro_state_path (rt_options r)) d = Ok m ∧ br_incarnation m ≤ h ∧ br_epoch m ≤ he;
  rl_range : in_range u64 h ∧ in_range u64 he;
}.

Lemma recover_line ft now r p d h he b r' :
  rt_persistence r = Some p → options_wf (rt_options r) → pe_limits p = ro_persistence_limits (rt_options r) → disk_ok d →
  recover ft now r d = (Ok (h, he, b), r') → recovered_line ft r d h he r'.
Proof.
  intros Hp [_ Hboot Hlim] El Hd. rewrite <- El in Hlim. unfold recover. rewrite Hp.
  destruct (peek_boot_record _ _ _) as [m|] eqn:Hm; [|done]. destruct (peek_wf _ _ _ _ Hm) as [Hi He].
  rewrite !max_if. assert (∀ a b, in_range u64 a → in_range u64 b → in_range u64 (Z.max a b)) as Hmax.
  { intros x y [??] [??]. split; lia. }
  destruct (_ && _).
  - destruct (load _ _ _ _) as [[v info]|] eqn:Hl; [|done]. destruct (load_range _ _ _ _ _ _ Hd Hlim Hl) as [Hinc Hw].
    unfold restore. destruct (restored _ _ _ _) as [e'|] eqn:Hr; [|done]. pose proof (restored_epoch_range _ _ _ _ _ Hw Hr) as Hep.
    rewrite !max_if. intros [= <- <- _ <-]. split; [done| |].
    + exists m. split; [done|]. lia.
    + split; [by apply Hmax; [apply Hmax|]|]. apply Hmax; [|done]. by apply Hmax.
  - intros [= <- <- _ <-]. split; [done| |].
    + exists m. split; [done|]. lia.
    + split; by apply Hmax.
Qed.

Lemma install_line_Ok i ep now reason e st e' :
  install_authority_line i ep now reason e = (st, e') → is_ok st = true →
  line_of e' = MkBootRecord i ep ∧ en_policy e' = en_policy e ∧ en_drains e' = en_drains e ∧ en_obligations e' = en_obligations e ∧
  en_fence e' = en_fence e ∧ ∀ id t, ar_find id (en_authority e') = Some t → at_revoked t = true.
Proof.
  unfold install_authority_line, install_line. repeat (destruct (_ =? 0); [by intros [= <- _]|]).
  destruct (_ && _); [by intros [= <- _]|]. destruct (_ <? _); [by intros [= <- _]|]. intros [= _ <-] _.
  split_and!; try reflexivity. intros id t Ht.
  change (om_map (λ t, if negb (at_revoked t) then token_revoke now reason t else t) (ar_tokens (en_authority e)) !! id = Some t) in Ht.
  rewrite om_lookup_map in Ht. apply fmap_Some in Ht as (t0 & _ & ->). by destruct (at_revoked t0) eqn:E.
Qed.

Lemma set_policy_frame p now e st e' :
  set_policy p now e = (st, e') → en_authority e' = en_authority e.
Proof. unfold set_policy. destruct (policy_validate p); by intros [= _ <-]. Qed.

(** Every state of the disk a start goes through, and the line it installs. *)
Record started_line (path : string) (m : BootRecord) (d : disk) (st : status) (r' : Runtime) (trace : list disk) : Prop := {
  sl_trace : trace ≠ [] ∧ ∀ d', d' ∈ trace → d' = d ∨ ∃ record n, record_wf record ∧ newer m record ∧
    d' = <[boot_marker_path path := take n (bytes_of (marker_text record))]> d;
  sl_line : is_ok st = true → record_wf (line_of (rt_engine r')) ∧ newer m (line_of (rt_engine r')) ∧
    rt_incarnation r' = br_incarnation (line_of (rt_engine r')) ∧
    last_disk d trace = <[boot_marker_path path := bytes_of (marker_text (line_of (rt_engine r')))]> d ∧
    ∀ id t, ar_find id (en_authority (rt_engine r')) = Some t → at_revoked t = true;
}.

Lemma start_line ft now r p d m st r' trace :
  rt_started r = false → rt_persistence r = Some p → options_wf (rt_options r) →
  pe_limits p = ro_persistence_limits (rt_options r) → disk_ok d →
  (∀ x, peek_boot_record ft (ro_state_path (rt_options r)) d = Ok x → x = m) →
  runtime_start ft now r d = (st, r', trace) → started_line (ro_state_path (rt_options r)) m d st r' trace.
Proof.
  intros Hst Hp Hopt El Hd Hm. unfold runtime_start. rewrite Hst.
  assert (∀ err rt, started_line (ro_state_path (rt_options r)) m d (Err err) rt [d]) as Hno.
  { intros err rt. split; [|done]. split; [done|]. intros d' ->%list_elem_of_singleton. by left. }
  destruct (recover ft now r d) as [[[[h he] b]|err] r1] eqn:Hr; [|intros [= <- <- <-]; apply Hno].
  destruct (recover_line _ _ _ _ _ _ _ _ _ Hp Hopt El Hd Hr) as [(Eo & Ep & _) (m0 & Hm0 & Hmi & Hme) [Hh Hhe]].
  apply Hm in Hm0 as ->.
  destruct (increment_checked u64 h) as [next|] eqn:Hn; [|intros [= <- <- <-]; apply Hno].
  destruct (increment_checked u64 he) as [nexte|] eqn:Hne; [|intros [= <- <- <-]; apply Hno].
  apply increment_checked_Some in Hn as [-> Hn]; [|apply it_wf_u64|done].
  apply increment_checked_Some in Hne as [-> Hne]; [|apply it_wf_u64|done].
  cbn [rt_persistence rt_options update upd_rt_boot_id upd_rt_incarnation]. rewrite Ep, Hp, Eo.
  destruct (write_boot_marker _ _ _ _) as [written t] eqn:Hw. apply write_boot_marker_trace in Hw as (Ht & Hnet & Hlast).
  set (record := MkBootRecord (h + 1) (he + 1)) in *.
  assert (record_wf record) as Hwf by done. assert (newer m record) as Hnew by (unfold newer, record; simpl; lia).
  assert (t ≠ [] ∧ ∀ d', d' ∈ t → d' = d ∨ ∃ record n, record_wf record ∧ newer m record ∧
    d' = <[boot_marker_path (ro_state_path (rt_options r)) := take n (bytes_of (marker_text record))]> d) as Htr.
  { split; [done|]. intros d' Hin. destruct (Ht d' Hin) as [->|[n ->]]; [by left|right]. by exists record, n. }
  destruct written as [u|err]; [|intros [= <- <- <-]; by split]. specialize (Hlast eq_refl).
  destruct (install_authority_line _ _ _ _ _) as [installed e] eqn:Hi.
  destruct installed as [u'|err]; [|intros [= <- <- <-]; by split]. apply install_line_Ok in Hi as (Hl & _ & _ & _ & _ & Hrev); [|done].
  match goal with |- context [if ?c then set_policy ?q ?n ?x else ?y] =>
    destruct (if c then set_policy q n x else y) as [applied e'] eqn:Ha end.
  assert (en_authority e' = en_authority e) as Eau.
  { destruct (_ || _); [by eapply set_policy_frame|]. by injection Ha as _ <-. }
  destruct applied as [u''|err]; intros [= <- <- <-]; [|by split].
  split; [done|]. intros _. cbn. unfold line_of in *. rewrite Eau, Hl. fold record. split_and!; try done.
  by injection Hl.
Qed.

(** ** Lives of the daemon *)

Section Lives.
Context (path : string).

(** Snapshots written by a running process, which may be killed between any two
    calls. *)
Inductive saves : disk → disk → Prop :=
  | saves_nil d : saves d d
  | saves_step ft snapshot incarnation p d st p' trace d' d'' :
      pe_path p = path → save ft snapshot incarnation p d = (st, p', trace) → d' ∈ trace →
      saves d' d'' → saves d d''.

(** A process that starts on this path with 64-bit options, on a disk of bytes, and
    whose check for the marker's presence does not fail. *)
Record boots (ft : BootFaults) (options : RuntimeOptions) (d : disk) : Prop := {
  bt_path : ro_state_path options = path;
  bt_options : options_wf options;
  bt_stat : bf_stat ft = false;
  bt_disk : disk_ok d;
}.

(** A sequence of processes: one is killed during its start or answers an error, or it
    starts, uses the line it installed, and is killed while it saves.  The list has
    the lines in use, oldest first. *)
Inductive lives : disk → list BootRecord → disk → Prop :=
  | lives_nil d : lives d [] d
  | lives_killed ft options now d st r trace d' lines d'' :
      boots ft options d → runtime_start ft now (new_runtime options) d = (st, r, trace) → d' ∈ trace →
      lives d' lines d'' → lives d lines d''
  | lives_run ft options now d r trace d' lines d'' :
      boots ft options d → runtime_start ft now (new_runtime options) d = (ok_status, r, trace) →
      saves (last_disk d trace) d' →
      lives d' lines d'' → lives d (line_of (rt_engine r) :: lines) d''.

Lemma saves_marker d d' : saves d d' → d' !! boot_marker_path path = d !! boot_marker_path path.
Proof.
  induction 1 as [|ft snapshot incarnation p d st p' trace d' d'' Hp Hs Hin _ IH]; [done|]. rewrite IH.
  destruct (marker_distinct path p Hp) as (H1 & H2 & H3).
  apply (save_elsewhere p (boot_marker_path path) H1 H2 H3) in Hs as [_ Hk]. by apply Hk.
Qed.

(** A process on a disk whose marker is a possibly torn image of [m]. *)
Lemma boots_line ft options now d m st r trace :
  boots ft options d → marker_of path d m → runtime_start ft now (new_runtime options) d = (st, r, trace) →
  started_line path (default no_boot_record m) d st r trace.
Proof.
  intros [Hp Hopt Hstat Hd] Hm Hs. pose proof (ow_path _ Hopt) as Hne. rewrite <- Hp.
  apply (start_line ft now (new_runtime options) (new_persistence (ro_state_path options) (ro_persistence_limits options)));
    try done.
  - unfold new_runtime. simpl. by destruct (String.eqb_spec (ro_state_path options) "").
  - rewrite Hp in Hne. intros x Hx. simpl in Hx. rewrite Hp in Hx.
    destruct (peek_marker path Hne ft d m Hm Hstat) as [[err E]|E]; congruence.
Qed.

Lemma marker_insert d record n :
  record_wf record → marker_of path (<[boot_marker_path path := take n (bytes_of (marker_text record))]> d) (Some record).
Proof. intros Hwf. split; [done|]. exists n. apply om_lookup_insert_eq. Qed.

(** What the lines and the marker have in common along the lives. *)
Lemma lives_newer d lines d' m :
  lives d lines d' → marker_of path d m →
  Forall (newer (default no_boot_record m)) lines ∧ StronglySorted newer lines.
Proof.
  intros Hl. revert m. induction Hl as [d|ft options now d st r trace d1 lines d2 Hb Hs Hin _ IH
    |ft options now d r trace d1 lines d2 Hb Hs Hsv _ IH]; intros m Hm; [split; constructor|..];
    destruct (boots_line _ _ _ _ _ _ _ _ Hb Hm Hs) as [[_ Ht] Hline].
  - destruct (Ht d1 Hin) as [->|(record & n & Hwf & Hnew & ->)]; [by apply IH|].
    destruct (IH (Some record) (marker_insert d record n Hwf)) as [Hall Hsort]. split; [|done].
    eapply Forall_impl; [exact Hall|]. intros x Hx. by eapply newer_trans.
  - destruct (Hline eq_refl) as (Hwf & Hnew & _ & Hlast & _).
    destruct (IH (Some (line_of (rt_engine r)))) as [Hall Hsort].
    { split; [done|]. exists (length (bytes_of (marker_text (line_of (rt_engine r))))).
      rewrite (saves_marker _ _ Hsv), Hlast, firstn_all. apply om_lookup_insert_eq. }
    split; [constructor; [done|]|by constructor]. eapply Forall_impl; [exact Hall|]. intros x Hx. by eapply newer_trans.
Qed.
End Lives.

(** C14: however often the daemon is started on a state path, wherever each process
    is killed (between any two file-system calls, in the middle of the marker, in the
    middle of a snapshot) and whichever reads and writes fail, the authority lines of
    the processes that came up are strictly newer from one to the next, in
    incarnation and in epoch, whatever boot ids they were given and whatever the
    snapshots say. *)
Theorem boots_never_rewind path d lines d' :
  lives path d lines d' → d !! boot_marker_path path = None →
  StronglySorted newer lines ∧ Forall (newer no_boot_record) lines.
Proof. intros Hl Hd. by destruct (lives_newer path d lines d' None Hl Hd). Qed.

(** Three processes on an empty disk: the first runs, the second is killed while it
    writes the marker's last byte, the third refuses the torn marker. *)
Definition demo_options : RuntimeOptions :=
  MkRuntimeOptions default_policy "state" 0 default_persistence_limits false true.
Definition demo_boot (ft : BootFaults) (d : disk) : status * Runtime * list disk :=
  runtime_start ft 0 (new_runtime demo_options) d.
Definition disk_after (n : nat) (d : disk) : disk := default d ((demo_boot no_boot_faults d).2 !! n).
Definition whole_disk : disk := last_disk ∅ (demo_boot no_boot_faults ∅).2.

Lemma demo_boots d : forallb (λ p : string * list Z, forallb (λ b, (0 <=? b) && (b <? 256)) p.2) (om_list d) = true →
  boots "state" no_boot_faults demo_options d.
Proof.
  intros Hd. split; [done|split; [done|by split|by split]|done|]. intros k bytes Hk%om_lookup_elem.
  rewrite forallb_forall in Hd. specialize (Hd _ (proj1 (list_elem_of_In _ _) Hk)). simpl in Hd.
  rewrite forallb_forall in Hd. apply Forall_forall. intros b Hb%list_elem_of_In%Hd. unfold byte_ok. lia.
Qed.

Lemma demo_boot_run d : (demo_boot no_boot_faults d).1.1 = ok_status →
  demo_boot no_boot_faults d = (ok_status, (demo_boot no_boot_faults d).1.2, (demo_boot no_boot_faults d).2).
Proof. destruct (demo_boot no_boot_faults d) as [[st r] t]. by intros [= ->]. Qed.

Definition demo_disks : list disk := Eval vm_compute in
  let d1 := last_disk ∅ (demo_boot no_boot_faults ∅).2 in
  let d2 := last_disk d1 (demo_boot no_boot_faults d1).2 in
  let d3 := last_disk d2 (demo_boot no_boot_faults d2).2 in [d1; d2; d3; disk_after 5 d3].
Abbreviation demo_disk n := (nth n demo_disks ∅).

Lemma demo_life d line lines d' n :
  forallb (λ p : string * list Z, forallb (λ b, (0 <=? b) && (b <? 256)) p.2) (om_list d) = true →
  (demo_boot no_boot_faults d).1.1 = ok_status → last_disk d (demo_boot no_boot_faults d).2 = demo_disk n →
  line_of (rt_engine (demo_boot no_boot_faults d).1.2) = line →
  lives "state" (demo_disk n) lines d' → lives "state" d (line :: lines) d'.
Proof.
  intros Hd Hr Hl <- Hlives. eapply lives_run; [by apply demo_boots|by apply demo_boot_run| |exact Hlives].
  rewrite Hl. apply saves_nil.
Qed.

Lemma boots_never_rewind_witness :
  let lines := [MkBootRecord 1 1; MkBootRecord 2 2; MkBootRecord 3 3] in
  lives "state" ∅ lines (demo_disk 3) ∧ StronglySorted newer lines ∧ Forall (newer no_boot_record) lines.
Proof.
  intros lines. assert (lives "state" ∅ lines (demo_disk 3)) as Hl.
  { apply (demo_life ∅ (MkBootRecord 1 1) [MkBootRecord 2 2; MkBootRecord 3 3] (demo_disk 3) 0); [vm_compute; reflexivity..|].
    apply (demo_life (demo_disk 0) (MkBootRecord 2 2) [MkBootRecord 3 3] (demo_disk 3) 1); [vm_compute; reflexivity..|].
    apply (demo_life (demo_disk 1) (MkBootRecord 3 3) [] (demo_disk 3) 2); [vm_compute; reflexivity..|].
    apply (lives_killed "state" no_boot_faults demo_options 0 _ ok_status _ _ (demo_disk 3) [] _
      (demo_boots (demo_disk 2) ltac:(vm_compute; reflexivity))
      (demo_boot_run (demo_disk 2) ltac:(vm_compute; reflexivity))); [|apply lives_nil].
    apply (list_elem_of_lookup_2 _ 5). vm_compute. reflexivity. }
  split; [exact Hl|]. by apply (boots_never_rewind "state" ∅ lines _ Hl).
Defined.

(** A marker torn anywhere is refused, not misread. *)
Example torn_marker_stops_the_start :
  forallb (λ n, negb (is_ok (demo_boot no_boot_faults (disk_after n whole_disk)).1.1)) [1; 12; 24]%nat = true ∧
  is_ok (demo_boot no_boot_faults (disk_after 0 whole_disk)).1.1 = true.
Proof. vm_compute. split; reflexivity. Qed.

(** Where the check for the marker's presence fails, the marker is taken to be absent
    and the line is installed again. *)
Example unreadable_directory_rewinds :
  let ft := MkBootFaults true false None false no_read_faults no_read_faults false None false in
  is_ok (demo_boot ft whole_disk).1.1 = true ∧
  line_of (rt_engine (demo_boot ft whole_disk).1.2) = line_of (rt_engine (demo_boot no_boot_faults ∅).1.2).
Proof. vm_compute. split; reflexivity. Qed.

(** ** Saved state comes back *)

Lemma install_line_succeeds i ep now reason e :
  0 < i → 0 < ep → ar_incarnation (en_authority e) < i → ar_epoch (en_authority e) ≤ ep →
  ∃ e', install_authority_line i ep now reason e = (ok_status, e').
Proof.
  intros Hi He Hinc Hep. unfold install_authority_line, install_line.
  rewrite (proj2 (Z.eqb_neq i 0)), (proj2 (Z.eqb_neq ep 0)), (proj2 (Z.leb_gt _ _) Hinc), andb_false_r, (proj2 (Z.ltb_ge _ _) Hep) by lia.
  by eexists.
Qed.

Section ComesBack.
Context (e : engine) (Hwf : engine_wf e) (Hst : engine_storable e = true).
Context (options : RuntimeOptions) (Hopt : options_wf options).
Context (Hload : ro_load_on_start options = true) (Hkeep : ro_override_policy options = false).
Context (d : disk) (info : SnapshotInfo) (m : BootRecord) (now : TimePoint).
#[local] Abbreviation fresh := (new_persistence (ro_state_path options) (ro_persistence_limits options)).
Context (Hlive : is_Some (d !! ro_state_path options)).
Context (Hsaved : load_now fresh d = Ok (snapshot e, info)).
Context (Hinc : si_incarnation info = ar_incarnation (en_authority e)).
Context (Hmark : peek_boot_record no_boot_faults (ro_state_path options) d = Ok m).
Context (Hroom : Z.max (ro_boot_id options) (Z.max (br_incarnation m) (ar_incarnation (en_authority e))) < int_max u64).
Context (Hroom' : Z.max (br_epoch m) (ar_epoch (en_authority e)) < int_max u64).

Lemma recover_saved :
  ∃ e1 h he, recover no_boot_faults now (new_runtime options) d = (Ok (h, he, true), new_runtime options <| rt_engine := e1 |>) ∧
    e1 ≡ restarted now e ∧
    h = Z.max (ro_boot_id options) (Z.max (br_incarnation m) (ar_incarnation (en_authority e))) ∧
    he = Z.max (br_epoch m) (ar_epoch (en_authority e)).
Proof.
  unfold recover. cbn [rt_persistence new_runtime rt_options]. destruct (String.eqb_spec (ro_state_path options) "") as [E|_]; [by destruct (ow_path _ Hopt)|].
  rewrite Hmark, Hload. unfold exists_. cbn [bf_exists no_boot_faults negb pe_path new_persistence]. rewrite (bool_decide_true _ Hlive).
  cbn [andb bf_load bf_load_backup no_boot_faults]. rewrite Hsaved.
  destruct (restored_snapshot e (rt_engine (new_runtime options)) (si_incarnation info) now Hwf Hst (or_intror Hinc)) as (e1 & He1 & Heq).
  unfold restore. cbn [rt_engine new_runtime] in *. rewrite He1. rewrite !max_if. exists e1. eexists _, _. split; [reflexivity|].
  assert (ar_epoch (en_authority e1) = ar_epoch (en_authority e)) as -> by (rewrite Heq; done).
  rewrite Hinc. destruct (peek_wf _ _ _ _ Hmark) as [_ [? _]]. change (int_min u64) with 0 in *.
  split; [done|]. split; lia.
Qed.

Lemma start_saved :
  ∃ r2 trace, runtime_start no_boot_faults now (new_runtime options) d = (ok_status, r2, trace) ∧ rt_started r2 = true ∧
    engine_wf (rt_engine r2) ∧ view_of (rt_engine r2) ≡ view_of e ∧ en_policy (rt_engine r2) = en_policy e ∧
    newer (line_of e) (line_of (rt_engine r2)) ∧ newer m (line_of (rt_engine r2)) ∧
    (∀ id t, ar_find id (en_authority (rt_engine r2)) = Some t → at_revoked t = true) ∧
    (∀ id x, en_drains (rt_engine r2) !! id = Some x → is_transient (dr_state x) = false).
Proof.
  destruct recover_saved as (e1 & h & he & Hr & Heq & Eh & Ehe). destruct (peek_wf _ _ _ _ Hmark) as [[? _] [? _]].
  destruct (ew_authority _ Hwf) as (_ & _ & _ & [? _] & [? _] & _). destruct (ow_boot_id _ Hopt) as [? _]. change (int_min u64) with 0 in *.
  unfold runtime_start. cbn [rt_started new_runtime]. fold (new_runtime options). rewrite Hr.
  rewrite !increment_checked_exact by (apply it_wf_u64 || (apply u64_range; lia)). rewrite !decide_True by lia.
  assert (rt_persistence (new_runtime options <| rt_engine := e1 |>) = Some fresh) as Hp.
  { cbn. destruct (String.eqb_spec (ro_state_path options) ""); [|done]. by destruct (ow_path _ Hopt). }
  cbn [rt_persistence rt_options rt_engine rt_incarnation update upd_rt_boot_id upd_rt_incarnation] in *. rewrite Hp.
  destruct (write_boot_marker _ _ _ _) as [written trace] eqn:Hw.
  assert (written = ok_status) as -> by (by injection Hw).
  assert (ar_incarnation (en_authority e1) = ar_incarnation (en_authority e)) as Ei by (rewrite Heq; done).
  assert (ar_epoch (en_authority e1) = ar_epoch (en_authority e)) as Ee by (rewrite Heq; done).
  destruct (install_line_succeeds (h + 1) (he + 1) now "start: previous incarnation authority is void" e1) as [e2 Hi]; try lia.
  cbn [rt_engine rt_options update upd_rt_engine new_runtime]. rewrite Hi. cbn [rt_options]. rewrite Hkeep. cbn [negb orb].
  destruct (install_line_Ok _ _ _ _ _ _ _ Hi eq_refl) as (Hl & Hpol & Hdr & Hob & Hfe & Hrev).
  eexists _, trace. split; [reflexivity|]. cbn [rt_engine rt_started update upd_rt_engine upd_rt_started]. split; [done|].
  assert (engine_wf e1) as Hwf1 by (rewrite Heq; by apply restarted_wf).
  split; [|split; [|split; [|split; [|split; [|split]]]]].
  - pose proof (install_line_refines (h + 1) (he + 1) "start: previous incarnation authority is void" now e1 Hwf1) as Href.
    rewrite Hi in Href. apply Href; apply u64_range; lia.
  - assert (view_of e2 = view_of e1) as -> by (unfold view_of; by rewrite Hdr, Hob, Hfe). rewrite Heq. apply restarted_view.
  - rewrite Hpol, Heq. done.
  - rewrite Hl. split; simpl; lia.
  - rewrite Hl. split; simpl; lia.
  - exact Hrev.
  - intros id x. rewrite Hdr, Heq. cbn [en_drains restarted]. rewrite om_lookup_map, fmap_Some. intros (x0 & _ & ->). apply recovered_settles.
Qed.
End ComesBack.

(** A runtime, what it can save, and the options of the process that comes after it. *)
Record stored_runtime (r : Runtime) (p : Persistence) : Prop := {
  sr_reachable : reachable any_op (rt_engine r);
  sr_storable : engine_storable (rt_engine r) = true;
  sr_persistence : rt_persistence r = Some p;
  sr_sequence : in_range u64 (pe_written_sequence p);
  sr_incarnation : rt_incarnation r = ar_incarnation (en_authority (rt_engine r));
  sr_saveable : saveable (pe_limits p) (snapshot (rt_engine r)) (rt_incarnation r);
}.

Record successor (p : Persistence) (options : RuntimeOptions) : Prop := {
  sc_options : options_wf options;
  sc_path : ro_state_path options = pe_path p;
  sc_limits : ro_persistence_limits options = pe_limits p;
  sc_load : ro_load_on_start options = true;
  sc_policy : ro_override_policy options = false;
}.

(** C18: a snapshot that was saved, and that the loader accepts, comes back.  The
    code does not establish the condition: it saves with success an engine larger
    than its loader takes.  So the runtime is assumed to be one whose engine is
    reachable, within the loader's limits and with its numbers in the range of the
    file's fields ([stored_runtime]: [engine_storable], [saveable]); rename replaces
    the live file; the next process uses the same path and limits, loads on start
    and does not override the policy ([successor]); the boot marker is readable and
    the calls of that start succeed; and the incarnation and epoch counters are not
    exhausted.  Then, after a save that answered success the process
    may die; the next one starts, and its engine is the saved one to the drain
    protocol: same policy, and every drain, fence and obligation as it was.  It runs
    under an incarnation and an epoch newer than those of the saved engine and of
    the marker; no token of the old process is valid and no drain is in a state only
    the old process could vouch for. *)
Theorem saved_state_comes_back ft r p d r1 trace options m now :
  stored_runtime r p → runtime_save ft r d = (ok_status, r1, trace) → ft_rename ft = false → successor p options →
  peek_boot_record no_boot_faults (pe_path p) d = Ok m →
  Z.max (ro_boot_id options) (Z.max (br_incarnation m) (rt_incarnation r)) < int_max u64 →
  Z.max (br_epoch m) (ar_epoch (en_authority (rt_engine r))) < int_max u64 →
  ∃ r2 trace2, runtime_start no_boot_faults now (new_runtime options) (last_disk d trace) = (ok_status, r2, trace2) ∧
    rt_started r2 = true ∧ engine_wf (rt_engine r2) ∧ view_of (rt_engine r2) ≡ view_of (rt_engine r) ∧
    en_policy (rt_engine r2) = en_policy (rt_engine r) ∧
    newer (line_of (rt_engine r)) (line_of (rt_engine r2)) ∧ newer m (line_of (rt_engine r2)) ∧
    (∀ id t, ar_find id (en_authority (rt_engine r2)) = Some t → at_revoked t = true) ∧
    (∀ id x, en_drains (rt_engine r2) !! id = Some x → is_transient (dr_state x) = false).
Proof.
  intros [Hreach Hst Hp Hseq Hinc Hsv] Hsave Hren [Hopt Epath Elim Hload Hpol] Hm Hr1 Hr2. rewrite Hinc in Hr1.
  destruct (reachable_inv _ _ Hreach) as [Hwf _]. unfold runtime_save in Hsave. rewrite Hp in Hsave.
  destruct (save ft _ _ p d) as [[st p'] t] eqn:Hs. injection Hsave as -> _ ->.
  destruct (marker_distinct (pe_path p) p eq_refl) as (H1 & H2 & H3).
  pose proof (save_elsewhere p (boot_marker_path (pe_path p)) H1 H2 H3 _ _ _ _ _ _ _ Hs) as Hk%keeps_last.
  apply save_steps in Hs as [E|[E|(Hlen & Hrng & [_ _ Hok _])]]; try done. specialize (Hok eq_refl).
  destruct (load_image (new_persistence (ro_state_path options) (ro_persistence_limits options)) (last_disk d trace)
    (snapshot (rt_engine r)) (rt_incarnation r) (pe_written_sequence p + 1)) as (info & Hl & _ & Hi);
    [cbn [pe_limits new_persistence]; rewrite Elim; exact Hsv|exact Hrng|cbn [pe_limits new_persistence]; rewrite Elim; exact Hlen
    |cbn [pe_path new_persistence]; rewrite Epath; exact Hok|].
  eapply (start_saved (rt_engine r) Hwf Hst options Hopt Hload Hpol (last_disk d trace) info m now).
  - rewrite Epath, Hok. by eexists.
  - exact Hl.
  - by rewrite Hi.
  - rewrite Epath, <- Hm. unfold peek_boot_record. by rewrite Hk.
  - exact Hr1.
  - exact Hr2.
Qed.

(** The engine in the middle of an evacuation, saved and booted. *)
Definition evacuating_runtime : Runtime :=
  MkRuntime demo_options Demo.evacuating_engine (Some (new_persistence "state" default_persistence_limits)) 1 1 true.
Definition evacuating_save : status * Runtime * list disk := runtime_save no_faults evacuating_runtime (demo_disk 0).

Lemma evacuating_save_ok : evacuating_save = (ok_status, evacuating_save.1.2, evacuating_save.2).
Proof.
  assert (evacuating_save.1.1 = ok_status) as <- by (vm_compute; reflexivity). by destruct evacuating_save as [[st r] t].
Qed.

Lemma saved_state_comes_back_witness :
  ∃ r2 trace2, runtime_start no_boot_faults 0 (new_runtime demo_options) (last_disk (demo_disk 0) evacuating_save.2) = (ok_status, r2, trace2) ∧
    rt_started r2 = true ∧ engine_wf (rt_engine r2) ∧ view_of (rt_engine r2) ≡ view_of Demo.evacuating_engine ∧
    en_policy (rt_engine r2) = en_policy Demo.evacuating_engine ∧
    newer (line_of Demo.evacuating_engine) (line_of (rt_engine r2)) ∧ newer (MkBootRecord 1 1) (line_of (rt_engine r2)) ∧
    (∀ id t, ar_find id (en_authority (rt_engine r2)) = Some t → at_revoked t = true) ∧
    (∀ id x, en_drains (rt_engine r2) !! id = Some x → is_transient (dr_state x) = false).
Proof.
  apply (saved_state_comes_back no_faults evacuating_runtime (new_persistence "state" default_persistence_limits) (demo_disk 0)
    evacuating_save.1.2).
  - split; [by eapply reachable_history, evacuating_history|vm_compute; reflexivity|reflexivity|by split|vm_compute; reflexivity|].
    split; [by split|by split|vm_compute; reflexivity|vm_compute; discriminate].
  - apply evacuating_save_ok.
  - reflexivity.
  - split; try reflexivity. split; [discriminate|by split|by split].
  - vm_compute. reflexivity.
  - vm_compute. reflexivity.
  - vm_compute. reflexivity.
Defined.

(** ** Stopping *)

(** One revocation. *)
Lemma revoke_step id reason now e :
  is_Some (ar_find id (en_authority e)) →
  ∃ e1, revoke_authority id reason now e = (ok_status, e1) ∧ (∀ k, is_Some (ar_find k (en_authority e)) → is_Some (ar_find k (en_authority e1))) ∧
    (∀ k t, ar_find k (en_authority e1) = Some t → at_revoked t = true ∨ k ≠ id ∧ ar_find k (en_authority e) = Some t) ∧
    view_of e1 = view_of e.
Proof.
  intros [t0 Ht0]. unfold revoke_authority, ar_revoke. unfold ar_find in Ht0. rewrite Ht0. eexists. split; [reflexivity|].
  split_and!; [| |reflexivity].
  - intros k Hk. change (is_Some (<[id := token_revoke now reason t0]> (ar_tokens (en_authority e)) !! k)).
    destruct (decide (id = k)) as [->|Hne]; [rewrite om_lookup_insert_eq; by eexists|by rewrite om_lookup_insert_ne].
  - intros k t Ht. change (<[id := token_revoke now reason t0]> (ar_tokens (en_authority e)) !! k = Some t) in Ht.
    destruct (decide (id = k)) as [->|Hne].
    + rewrite om_lookup_insert_eq in Ht. injection Ht as <-. by left.
    + rewrite om_lookup_insert_ne in Ht by done. right. by split; [apply not_eq_sym|].
Qed.

Lemma revoke_tokens_spec tokens now e :
  Forall (λ t, is_Some (ar_find (at_id t) (en_authority e))) tokens →
  ∃ e', revoke_tokens tokens now e = (ok_status, e') ∧ view_of e' = view_of e ∧
    ∀ k t, ar_find k (en_authority e') = Some t → at_revoked t = true ∨
      ar_find k (en_authority e) = Some t ∧ Forall (λ x, at_revoked x = true ∨ at_id x ≠ k) tokens.
Proof.
  revert e. induction tokens as [|token tokens IH]; intros e Hall; cbn [revoke_tokens].
  - exists e. split; [done|]. split; [done|]. intros k t Ht. right. by split; [|constructor].
  - apply Forall_cons in Hall as [H1 Hall]. destruct (at_revoked token) eqn:Er; cbn [negb].
    + destruct (IH e Hall) as (e' & He' & Hv & Hk). exists e'. split; [done|]. split; [done|]. intros k t Ht.
      destruct (Hk k t Ht) as [?|[? ?]]; [by left|right]. split; [done|]. constructor; [by left|done].
    + destruct (revoke_step (at_id token) "runtime shutdown" now e H1) as (e1 & -> & Hkeep & Hkk & Hv1).
      destruct (IH e1) as (e' & He' & Hv & Hk).
      { eapply Forall_impl; [exact Hall|]. intros x Hx. by apply Hkeep. }
      exists e'. split; [done|]. split; [by rewrite Hv|]. intros k t Ht.
      destruct (Hk k t Ht) as [?|[Hk1 Hf]]; [by left|]. destruct (Hkk k t Hk1) as [?|[Hne Hk2]]; [by left|right].
      split; [done|]. constructor; [by right; apply not_eq_sym|done].
Qed.

(** A stop revokes every token, whatever the final save does, and changes nothing else
    the drain protocol sees; the runtime must be started again before it ticks. *)
Theorem stop_leaves_no_authority ft now r d st r' trace :
  engine_wf (rt_engine r) → runtime_stop ft now r d = (st, r', trace) →
  rt_started r' = false ∧ view_of (rt_engine r') = view_of (rt_engine r) ∧
  ∀ id t, ar_find id (en_authority (rt_engine r')) = Some t → at_revoked t = true.
Proof.
  intros Hwf. unfold runtime_stop. destruct (ew_authority _ Hwf) as (Hom & _ & _ & _ & _ & _ & Hids).
  assert (∀ t, t ∈ ar_all_tokens (en_authority (rt_engine r)) → ar_find (at_id t) (en_authority (rt_engine r)) = Some t) as Hin.
  { intros t. unfold ar_all_tokens, om_values. intros ([id x] & -> & Hx)%list_elem_of_fmap.
    apply om_elem_lookup in Hx; [|done]. destruct (Hids id x Hx) as [E _]. simpl. by rewrite E. }
  destruct (revoke_tokens_spec (ar_all_tokens (en_authority (rt_engine r))) now (rt_engine r)) as (e' & -> & Hv & Hk).
  { apply Forall_forall. intros t Ht. rewrite (Hin t Ht). by eexists. }
  assert (∀ id t, ar_find id (en_authority e') = Some t → at_revoked t = true) as Hrev.
  { intros id t Ht. destruct (Hk id t Ht) as [?|[Ht' Hf]]; [done|]. rewrite Forall_forall in Hf.
    destruct (Hf t) as [?|Hne]; [|done|].
    - by eapply om_lookup_values.
    - destruct Hne. by apply (Hids id t). }
  unfold runtime_save. cbn [rt_persistence rt_engine rt_incarnation update upd_rt_engine].
  destruct (rt_persistence r) as [p|]; [destruct (save _ _ _ _ _) as [[sv p'] t]|]; by intros [= _ <- _].
Qed.
