(* ===== verification/Server.v ===== *)
(** * The controller server

    [src/server.cpp]: sessions over framed streams, the dispatch of one frame, the
    polling loop, and the server as the engine's evacuation sink.  Sockets and the
    listener are parameters.  So are the clock (its [n]-th reading) and the other
    threads, as far as this one can tell: whether its [n]-th [std::try_to_lock] of a
    session fails. *)

From S2P Require Import Prelude Containers Checked Result Text Json Codec CodecTables CodecFabric CodecPolicy Bytes Wire.
From S2P Require Import Identity Lifecycle Obligation Evidence Authority Admission Topology Policy Decision Engine.
From S2P Require Import Snapshot Explain EngineStep EngineOps Queries.
#[local] Open Scope Z_scope.

(** ** Data *)

(** The enumerators of [MessageType]. *)
Module Msg.
Definition Hello : MessageType := 1.
Definition Welcome : MessageType := 2.
Definition Failure : MessageType := 3.
Definition DrainRequest : MessageType := 10.
Definition DrainResponse : MessageType := 11.
Definition StatusRequest : MessageType := 12.
Definition StatusResponse : MessageType := 13.
Definition CancelRequest : MessageType := 14.
Definition CancelResponse : MessageType := 15.
Definition RestoreRequest : MessageType := 16.
Definition RestoreResponse : MessageType := 17.
Definition ExplainRequest : MessageType := 18.
Definition ExplainResponse : MessageType := 19.
Definition ObligationQuery : MessageType := 20.
Definition ObligationQueryResponse : MessageType := 21.
Definition ObligationAdmit : MessageType := 26.
Definition ObligationAdmitResponse : MessageType := 27.
Definition ObligationReport : MessageType := 22.
Definition ObligationReportResponse : MessageType := 23.
Definition EvidenceReport : MessageType := 24.
Definition EvidenceResponse : MessageType := 25.
Definition EvacuationRequest : MessageType := 30.
Definition EvacuationResponse : MessageType := 31.
Definition AdmissionReopen : MessageType := 32.
Definition AdmissionReopenResponse : MessageType := 33.
Definition AuditRequest : MessageType := 34.
Definition AuditResponse : MessageType := 35.
Definition Shutdown : MessageType := 40.
Definition ShutdownResponse : MessageType := 41.
End Msg.

(** [drain::ServerOptions]. *)
Record ServerOptions := MkServerOptions {
  so_bind_host : string;
  so_port : Z;
  so_max_connections : Z;
  so_max_worker_threads : Z;
  so_max_pending_work : Z;
  so_max_frame_bytes : Z;
  so_accept_wait_ms : Z;
  so_read_wait_ms : Z;
  so_authority_validity : Duration;
}.
Definition default_server_options : ServerOptions :=
  MkServerOptions "127.0.0.1" 0 16 4 256 kMaxFramePayloadBytes 20 20 3600000000000.

Module SessionRole.
Inductive t : Set := Client | Agent.

#[export] Instance t_eq_dec : EqDecision t.
Proof. solve_decision. Defined.

Definition to_string (role : t) : string := match role with Client => "client" | Agent => "agent" end.
End SessionRole.
Export (hints) SessionRole.

Definition session_role_from_string (text : string) : option SessionRole.t :=
  if String.eqb text "client" then Some SessionRole.Client
  else if String.eqb text "agent" then Some SessionRole.Agent
  else None.

(** [ControllerServer::Connection]; its mutex is an argument of the steps. *)
Record Connection (S : Type) := MkConnection {
  cn_stream : FrameStream S;
  cn_peer : string;
  cn_node : NodeId;
  cn_role : SessionRole.t;
  cn_greeted : bool;
  cn_closing : bool;
  cn_authority : AuthorityId;
  cn_last_sequence : Z;
}.
Arguments MkConnection {S}.
Arguments cn_stream {S}.
Arguments cn_peer {S}.
Arguments cn_node {S}.
Arguments cn_role {S}.
Arguments cn_greeted {S}.
Arguments cn_closing {S}.
Arguments cn_authority {S}.
Arguments cn_last_sequence {S}.

#[export] Instance eta_Connection {S} : Eta (Connection S) := λ c,
  MkConnection (cn_stream c) (cn_peer c) (cn_node c) (cn_role c) (cn_greeted c) (cn_closing c) (cn_authority c)
    (cn_last_sequence c).
#[export] Instance upd_cn_stream {S} : Update (@cn_stream S) := ltac:(solve_update (@cn_stream S)).
#[export] Instance upd_cn_node {S} : Update (@cn_node S) := ltac:(solve_update (@cn_node S)).
#[export] Instance upd_cn_role {S} : Update (@cn_role S) := ltac:(solve_update (@cn_role S)).
#[export] Instance upd_cn_greeted {S} : Update (@cn_greeted S) := ltac:(solve_update (@cn_greeted S)).
#[export] Instance upd_cn_closing {S} : Update (@cn_closing S) := ltac:(solve_update (@cn_closing S)).
#[export] Instance upd_cn_authority {S} : Update (@cn_authority S) := ltac:(solve_update (@cn_authority S)).
Arguments upd_cn_stream {S} f r /.
Arguments upd_cn_node {S} f r /.
Arguments upd_cn_role {S} f r /.
Arguments upd_cn_greeted {S} f r /.
Arguments upd_cn_closing {S} f r /.
Arguments upd_cn_authority {S} f r /.

(** A default-constructed connection around a stream. *)
Definition new_connection {S} (stream : FrameStream S) (peer : string) : Connection S :=
  MkConnection stream peer "" SessionRole.Client false false 0 0.

(** What the server calls of the listening socket.  An accepted socket, or the
    outcome and the error. *)
Record ListenerOps (S L : Type) := {
  lo_listen_on : string → Z → Z → result (L * Z);
  lo_valid : L → bool;
  lo_accept_one : Z → L → (S + AcceptOutcome.t * string) * L;
  lo_close : L → status * L;
}.
Arguments lo_listen_on {S L}.
Arguments lo_valid {S L}.
Arguments lo_accept_one {S L}.
Arguments lo_close {S L}.

(** [ControllerServer], with the engine it serves.  [sv_reads] and [sv_tries] count
    the readings of the clock and the attempts to lock a session; [sv_sink] is whether
    the engine's sink is this server; [sv_workers] the number of worker threads. *)
Record server (S L : Type) := MkServer {
  sv_options : ServerOptions;
  sv_engine : engine;
  sv_sink : bool;
  sv_listener : option L;
  sv_port : Z;
  sv_connections : list (Connection S);
  sv_stopping : bool;
  sv_served_requests : Z;
  sv_rejected_frames : Z;
  sv_workers : Z;
  sv_reads : nat;
  sv_tries : nat;
}.
Arguments MkServer {S L}.
Arguments sv_options {S L}.
Arguments sv_engine {S L}.
Arguments sv_sink {S L}.
Arguments sv_listener {S L}.
Arguments sv_port {S L}.
Arguments sv_connections {S L}.
Arguments sv_stopping {S L}.
Arguments sv_served_requests {S L}.
Arguments sv_rejected_frames {S L}.
Arguments sv_workers {S L}.
Arguments sv_reads {S L}.
Arguments sv_tries {S L}.

#[export] Instance eta_server {S L} : Eta (server S L) := λ v,
  MkServer (sv_options v) (sv_engine v) (sv_sink v) (sv_listener v) (sv_port v) (sv_connections v) (sv_stopping v)
    (sv_served_requests v) (sv_rejected_frames v) (sv_workers v) (sv_reads v) (sv_tries v).
#[export] Instance upd_sv_engine {S L} : Update (@sv_engine S L) := ltac:(solve_update (@sv_engine S L)).
#[export] Instance upd_sv_listener {S L} : Update (@sv_listener S L) := ltac:(solve_update (@sv_listener S L)).
#[export] Instance upd_sv_port {S L} : Update (@sv_port S L) := ltac:(solve_update (@sv_port S L)).
#[export] Instance upd_sv_connections {S L} : Update (@sv_connections S L) := ltac:(solve_update (@sv_connections S L)).
#[export] Instance upd_sv_stopping {S L} : Update (@sv_stopping S L) := ltac:(solve_update (@sv_stopping S L)).
#[export] Instance upd_sv_served_requests {S L} : Update (@sv_served_requests S L) := ltac:(solve_update (@sv_served_requests S L)).
#[export] Instance upd_sv_rejected_frames {S L} : Update (@sv_rejected_frames S L) := ltac:(solve_update (@sv_rejected_frames S L)).
#[export] Instance upd_sv_workers {S L} : Update (@sv_workers S L) := ltac:(solve_update (@sv_workers S L)).
#[export] Instance upd_sv_reads {S L} : Update (@sv_reads S L) := ltac:(solve_update (@sv_reads S L)).
#[export] Instance upd_sv_tries {S L} : Update (@sv_tries S L) := ltac:(solve_update (@sv_tries S L)).
Arguments upd_sv_engine {S L} f r /.
Arguments upd_sv_listener {S L} f r /.
Arguments upd_sv_port {S L} f r /.
Arguments upd_sv_connections {S L} f r /.
Arguments upd_sv_stopping {S L} f r /.
Arguments upd_sv_served_requests {S L} f r /.
Arguments upd_sv_rejected_frames {S L} f r /.
Arguments upd_sv_workers {S L} f r /.
Arguments upd_sv_reads {S L} f r /.
Arguments upd_sv_tries {S L} f r /.

(** The constructor. *)
Definition new_server {S L} (e : engine) (options : ServerOptions) (sink : bool) : server S L :=
  MkServer options e sink None 0 [] false 0 0 0 0 0.

(** ** Payloads *)

Definition ok_payload : json := obj [("ok", JBool true)].

Definition failure_payload (code : ErrorCode.t) (message : string) : json :=
  obj [("ok", JBool false); ("code", JString (ErrorCode.to_string code)); ("message", JString message)].

Definition parse_node (payload : json) (key : string) : result NodeId :=
  let text := get_string key "" payload in
  if String.eqb text "" then Ok ""
  else
    let! parsed := slug_parse text else fail ErrorCode.MalformedIdentity "malformed node identity" in
    Ok parsed.

Definition parse_targets (payload : json) : result (list DrainTarget) :=
  match json_find "targets" payload with
  | Some (JArray targets) =>
      if zlength targets =? 0 then fail ErrorCode.InvalidArgument "drain request must list at least one target"
      else if kHardMaxTargetsPerRequest <? zlength targets then
        fail ErrorCode.BoundsExceeded "drain request exceeds the maximum target count"
      else decode_all drain_target_from_json targets
  | _ => fail ErrorCode.InvalidArgument "drain request must list at least one target"
  end.

Definition drain_summary (record : DrainRecord) : json :=
  obj ([("id", JUint (dr_id record)); ("set", JUint (dr_set record)); ("target", target_to_json (dr_target record));
        ("state", JString (DrainState.to_string (dr_state record))); ("generation", JUint (dr_generation record));
        ("revision", JUint (dr_revision record))]
       ++ match dr_blocked_from record with
          | Some from => [("blocked_from", JString (DrainState.to_string from))]
          | None => []
          end
       ++ [("blockers", JArray (map blocker_to_json (dr_blockers record)))]).

Definition evacuation_payload (request : EvacuationRequest) : json :=
  obj [("drain", JUint (er_drain request)); ("target", target_to_json (er_target request));
       ("obligation", JUint (er_obligation request)); ("expected_revision", JUint (er_expected_revision request));
       ("evidence_seq", JUint (er_evidence_seq request));
       ("kind", JString (ObligationKind.to_string (er_kind request)));
       ("mode", JString (EvacuationMode.to_string (er_mode request))); ("generation", JUint (er_generation request));
       ("attempt", JUint (er_attempt request)); ("at_ns", ns (er_at request)); ("reason", JString (er_reason request));
       ("node", JString "")].

Definition reopen_payload (request : AdmissionReopenRequest) : json :=
  obj [("target", target_to_json (ao_target request)); ("generation", JUint (ao_generation request));
       ("at_ns", ns (ao_at request)); ("reason", JString (ao_reason request))].

Section Serving.
Context {S L : Type} (sock : SocketOps S) (lsn : ListenerOps S L).
Context (clock : nat → TimePoint) (contended : nat → bool).
#[local] Abbreviation server := (server S L).
#[local] Abbreviation Connection := (Connection S).

(** ** The environment *)

(** [clock_.now()]. *)
Definition read_clock (v : server) : TimePoint * server :=
  (clock (sv_reads v), v <| sv_reads := Datatypes.S (sv_reads v) |>).

(** [std::unique_lock lock(connection->mutex, std::try_to_lock)]: whether it was taken. *)
Definition try_lock (v : server) : bool * server :=
  (negb (contended (sv_tries v)), v <| sv_tries := Datatypes.S (sv_tries v) |>).

(** The connection a pointer of the registry's snapshot refers to. *)
Definition update_connection (i : nat) (f : Connection → Connection) (v : server) : server :=
  v <| sv_connections := alter f i (sv_connections v) |>.

(** [FrameStream::valid]. *)
Definition stream_valid (stream : FrameStream S) : bool := so_valid sock (fs_socket stream).

(** ** Sending *)

Definition send_to (frame : Frame) (c : Connection) : status * Connection :=
  let '(sent, stream) := send_frame sock frame (cn_stream c) in (sent, c <| cn_stream := stream |>).

(** [ControllerServer::send_frame].  The pointer of a session being served is never
    null; the first branch is not reached. *)
Definition server_send (i : nat) (type : MessageType) (sequence : Z) (payload : json) (v : server) : status * server :=
  match sv_connections v !! i with
  | None => (fail ErrorCode.Internal "no such session", v)
  | Some c =>
      let '(sent, c) := send_to (MkFrame type sequence payload) c in
      (sent, v <| sv_connections := <[i := c]> (sv_connections v) |>)
  end.

(** [ControllerServer::send_failure]. *)
Definition send_failure (i : nat) (sequence : Z) (code : ErrorCode.t) (message : string) (v : server) : status * server :=
  server_send i Msg.Failure sequence (failure_payload code message) v.

(** ** The evacuation sink *)

(** The loop of [push_to_agents]: the sessions, the lock attempts so far, and how
    many agents the frame reached. *)
Fixpoint push_loop (frame : Frame) (connections : list Connection) (tries : nat) : Z * list Connection * nat :=
  match connections with
  | [] => (0, [], tries)
  | c :: connections =>
      if bool_decide (cn_role c ≠ SessionRole.Agent) || negb (cn_greeted c) then
        let '(delivered, connections, tries) := push_loop frame connections tries in
        (delivered, c :: connections, tries)
      else if contended tries then
        let '(delivered, connections, tries) := push_loop frame connections (Datatypes.S tries) in
        (delivered, c :: connections, tries)
      else
        let '(sent, c) := send_to frame c in
        let '(delivered, connections, tries) := push_loop frame connections (Datatypes.S tries) in
        (if is_ok sent then delivered + 1 else delivered, c :: connections, tries)
  end.

(** [ControllerServer::push_to_agents]. *)
Definition push_to_agents (type : MessageType) (payload : json) (k : list Connection * nat)
  : status * (list Connection * nat) :=
  let '(delivered, connections, tries) := push_loop (MkFrame type 0 payload) k.1 k.2 in
  (if delivered =? 0 then fail ErrorCode.TransportError "no agent session is available to receive the request"
   else ok_status, (connections, tries)).

(** The server as the engine's sink: [on_evacuation_request],
    [on_restoration_request] and [on_admission_reopen]. *)
Definition server_sink (v : server) : EvacuationSink :=
  MkSink (list Connection * nat) (sv_connections v, sv_tries v)
    (λ request, push_to_agents Msg.EvacuationRequest (evacuation_payload request))
    (λ _ k, (ok_status, k))
    (λ request, push_to_agents Msg.AdmissionReopen (reopen_payload request)).

Definition sink_of (v : server) : option EvacuationSink := if sv_sink v then Some (server_sink v) else None.

(** The sessions after the engine handed these requests over. *)
Definition handed_over (actions : PendingActions) (v : server) : server :=
  if sv_sink v then
    let '(connections, tries) := (hand_over (server_sink v) actions).2 in
    v <| sv_connections := connections |> <| sv_tries := tries |>
  else v.

(** ** Authority *)

(** [ControllerServer::resolve_authority]. *)
Definition resolve_authority (i : nat) (payload : json) (v : server) : result AuthorityId * server :=
  match json_find "authority" payload with
  | None =>
      match cn_authority <$> sv_connections v !! i with
      | Some authority =>
          if authority =? 0 then (fail ErrorCode.AuthorityRequired "this session has no authority", v)
          else (Ok authority, v)
      | None => (fail ErrorCode.AuthorityRequired "this session has no authority", v)
      end
  | Some presented =>
      match token_from_presentation_json presented with
      | Err err => (Err err, v)
      | Ok token =>
          let '(now, v) := read_clock v in
          (match validate_authority token now (sv_engine v) with Err err => Err err | Ok _ => Ok (at_id token) end, v)
      end
  end.

(** ** One request *)

Section Handlers.
Context (i : nat) (frame : Frame).
#[local] Abbreviation payload := (fr_payload frame).

Definition reply (type : MessageType) (body : json) (v : server) : status * server :=
  server_send i type (fr_sequence frame) body v.
Definition refuse (err : error) (v : server) : status * server :=
  send_failure i (fr_sequence frame) (err_code err) (err_message err) v.

(** The failures that end a session: the answer is not looked at. *)
Definition dismiss (code : ErrorCode.t) (message : string) (v : server) : status * server :=
  let '(_, v) := send_failure i (fr_sequence frame) code message v in
  (ok_status, update_connection i (λ c, c <| cn_closing := true |>) v).

Definition handle_hello (v : server) : status * server :=
  if negb (get_uint "protocol_version" 0 payload =? kWireProtocolVersion) then
    dismiss ErrorCode.ProtocolError "wire protocol version mismatch" v
  else
    let! role := session_role_from_string (get_string "role" "client" payload)
      else dismiss ErrorCode.ProtocolError "unknown session role" v in
    match parse_node payload "node" with
    | Err err => dismiss ErrorCode.MalformedIdentity (err_message err) v
    | Ok node =>
        let '(now, v) := read_clock v in
        match issue_authority "" (so_authority_validity (sv_options v)) now (sv_engine v) with
        | (Err err, e) => dismiss (err_code err) (err_message err) (v <| sv_engine := e |>)
        | (Ok authority, e) =>
            let v := v <| sv_engine := e |> in
            let v := update_connection i (λ c, c <| cn_role := role |> <| cn_node := node |>
                                                 <| cn_authority := at_id authority |> <| cn_greeted := true |>) v in
            reply Msg.Welcome
              (obj [("ok", JBool true); ("protocol_version", JUint kWireProtocolVersion);
                    ("incarnation", JUint (ar_incarnation (en_authority e))); ("epoch", JUint (ar_epoch (en_authority e)));
                    ("authority", JUint (at_id authority)); ("authority_token", token_to_json authority);
                    ("role", JString (SessionRole.to_string role))]) v
        end
    end.

(** A request that needs the caller's authority. *)
Definition with_authority (v : server) (k : AuthorityId → server → status * server) : status * server :=
  match resolve_authority i payload v with
  | (Err err, v) => refuse err v
  | (Ok authority, v) => k authority v
  end.

Definition handle_drain_request (v : server) : status * server :=
  match parse_targets payload with
  | Err err => refuse err v
  | Ok targets =>
      match parse_node payload "node" with
      | Err err => refuse err v
      | Ok node =>
          with_authority v (λ authority v,
            let request := MkDrainRequest targets (get_string "reason" "" payload) authority node
                             (get_uint "nonce" 0 payload) in
            let '(now, v) := read_clock v in
            match request_drain_set request now (sv_engine v) with
            | (Err err, e) => refuse err (v <| sv_engine := e |>)
            | (Ok set, e) =>
                let members := match Query.drain_set set e with Some stored => ds_members stored | None => [] end in
                reply Msg.DrainResponse
                  (obj [("ok", JBool true); ("set", JUint set); ("drains", JArray (map JUint members))])
                  (v <| sv_engine := e |>)
            end)
      end
  end.

Definition handle_status_request (v : server) : status * server :=
  let wanted := get_uint "drain" 0 payload in
  let e := sv_engine v in
  let answer (drains : list json) :=
    let '(_, v) := read_clock v in
    reply Msg.StatusResponse
      (obj [("ok", JBool true); ("drains", JArray drains); ("accounting", accounting_to_json (audit e));
            ("incarnation", JUint (Query.incarnation e)); ("epoch", JUint (Query.epoch e))]) v in
  if negb (wanted =? 0) then
    match Query.drain wanted e with
    | None => send_failure i (fr_sequence frame) ErrorCode.NotFound "no such drain" v
    | Some record => answer [drain_summary record]
    end
  else answer (map drain_summary (Query.drains e)).

Definition handle_cancel_request (v : server) : status * server :=
  let wanted := get_uint "drain" 0 payload in
  with_authority v (λ authority v,
    let '(now, v) := read_clock v in
    match cancel_drain wanted authority (get_string "reason" "" payload) now (sv_engine v) with
    | (Err err, e) => refuse err (v <| sv_engine := e |>)
    | (Ok _, e) => reply Msg.CancelResponse ok_payload (v <| sv_engine := e |>)
    end).

(** [engine_.restore_drain], whose requests reach the agents before it returns. *)
Definition restore_and_push (id : DrainId) (authority : AuthorityId) (reason : string) (now : TimePoint) (v : server)
  : status * server :=
  match restore_drain id authority reason now (sv_engine v) with
  | (Err err, e) => (Err err, v <| sv_engine := e |>)
  | (Ok actions, e) =>
      let '(restored, e) := dispatch (sink_of v) actions e in (restored, handed_over actions v <| sv_engine := e |>)
  end.

Definition handle_restore_request (v : server) : status * server :=
  let wanted := get_uint "drain" 0 payload in
  with_authority v (λ authority v,
    let '(now, v) := read_clock v in
    match restore_and_push wanted authority (get_string "reason" "" payload) now v with
    | (Err err, v) => refuse err v
    | (Ok _, v) => reply Msg.RestoreResponse ok_payload v
    end).

Definition handle_explain_request (v : server) : status * server :=
  let explanation := explain (get_uint "drain" 0 payload) (sv_engine v) in
  reply Msg.ExplainResponse
    (obj [("ok", JBool true); ("explanation", explanation_to_json explanation);
          ("text", JString (explanation_render explanation))]) v.

Definition handle_obligation_query (v : server) : status * server :=
  let answer (obligations : list Obligation) :=
    reply Msg.ObligationQueryResponse
      (obj [("ok", JBool true); ("obligations", JArray (map obligation_to_json obligations))]) v in
  match json_find "target" payload with
  | Some value =>
      match drain_target_from_json value with
      | Err err => refuse err v
      | Ok target => answer (Query.outstanding_obligations target (sv_engine v))
      end
  | None => answer (Query.obligations (sv_engine v))
  end.

Definition handle_obligation_admit (v : server) : status * server :=
  match json_find "obligation" payload with
  | None => send_failure i (fr_sequence frame) ErrorCode.InvalidArgument "admission frame lacks an obligation body" v
  | Some body =>
      match obligation_from_json body with
      | Err err => refuse err v
      | Ok obligation =>
          let generation := get_uint "generation" 0 payload in
          with_authority v (λ authority v,
            let '(now, v) := read_clock v in
            match admit_obligation obligation generation authority now (sv_engine v) with
            | (Err err, e) => refuse err (v <| sv_engine := e |>)
            | (Ok stored, e) =>
                reply Msg.ObligationAdmitResponse (obj [("ok", JBool true); ("obligation", JUint (ob_id stored))])
                  (v <| sv_engine := e |>)
            end)
      end
  end.

(** The report a frame carries; [attempt] keeps its default. *)
Definition report_of (body : json) (next : ObligationState.t) : ObligationReport :=
  MkObligationReport (get_uint "obligation" 0 body) (get_uint "expected_revision" 0 body) next
    (get_uint "evidence" 0 body) (get_uint "drain" 0 body) (get_uint "generation" 0 body) 0 (get_string "note" "" body).

Definition handle_obligation_report (v : server) : status * server :=
  match json_find "report" payload with
  | None => send_failure i (fr_sequence frame) ErrorCode.InvalidArgument "obligation report frame lacks a report body" v
  | Some body =>
      match obligation_state_from_string (get_string "next" "" body) with
      | None => send_failure i (fr_sequence frame) ErrorCode.InvalidArgument "obligation report carries an unknown state" v
      | Some next =>
          let '(now, v) := read_clock v in
          match report_obligation (report_of body next) now (sv_engine v) with
          | (Err err, e) => refuse err (v <| sv_engine := e |>)
          | (Ok _, e) => reply Msg.ObligationReportResponse ok_payload (v <| sv_engine := e |>)
          end
      end
  end.

Definition handle_evidence_report (v : server) : status * server :=
  match json_find "evidence" payload with
  | None => send_failure i (fr_sequence frame) ErrorCode.InvalidArgument "evidence frame lacks an evidence body" v
  | Some body =>
      match evidence_from_json body with
      | Err err => refuse err v
      | Ok evidence =>
          let '(now, v) := read_clock v in
          match record_evidence evidence now (sv_engine v) with
          | (Err err, e) => refuse err (v <| sv_engine := e |>)
          | (Ok recorded, e) =>
              reply Msg.EvidenceResponse (obj [("ok", JBool true); ("seq", JUint (ev_seq recorded))])
                (v <| sv_engine := e |>)
          end
      end
  end.

Definition handle_audit_request (v : server) : status * server :=
  let e := sv_engine v in
  let '(_, v) := read_clock v in
  reply Msg.AuditResponse
    (obj [("ok", JBool true); ("accounting", accounting_to_json (audit e)); ("stats", stats_to_json (en_stats e))]) v.

Definition handle_shutdown (v : server) : status * server :=
  let '(_, v) := reply Msg.ShutdownResponse ok_payload v in (ok_status, v <| sv_stopping := true |>).

Definition handle_other (v : server) : status * server :=
  send_failure i (fr_sequence frame) ErrorCode.ProtocolError "message type is not accepted by a controller session"
    (v <| sv_rejected_frames := u64_inc (sv_rejected_frames v) |>).

(** The [switch] of [handle_frame]. *)
Definition dispatch_frame (v : server) : status * server :=
  let type := fr_type frame in
  if type =? Msg.Hello then handle_hello v
  else if type =? Msg.DrainRequest then handle_drain_request v
  else if type =? Msg.StatusRequest then handle_status_request v
  else if type =? Msg.CancelRequest then handle_cancel_request v
  else if type =? Msg.RestoreRequest then handle_restore_request v
  else if type =? Msg.ExplainRequest then handle_explain_request v
  else if type =? Msg.ObligationQuery then handle_obligation_query v
  else if type =? Msg.ObligationAdmit then handle_obligation_admit v
  else if type =? Msg.ObligationReport then handle_obligation_report v
  else if type =? Msg.EvidenceReport then handle_evidence_report v
  else if type =? Msg.AuditRequest then handle_audit_request v
  else if type =? Msg.Shutdown then handle_shutdown v
  else handle_other v.

(** [ControllerServer::handle_frame]. *)
Definition handle_frame (v : server) : status * server :=
  if negb (default false (cn_greeted <$> sv_connections v !! i)) && negb (fr_type frame =? Msg.Hello) then
    dismiss ErrorCode.ProtocolError "the first frame on a session must be a hello"
      (v <| sv_rejected_frames := u64_inc (sv_rejected_frames v) |>)
  else
    dispatch_frame
      (if negb (fr_type frame =? Msg.Hello)
       then v <| sv_served_requests := u64_inc (sv_served_requests v) |> else v).
End Handlers.

(** ** The polling loop *)

Definition close_connection (c : Connection) : Connection :=
  let '(_, stream) := close_stream sock (cn_stream c) in c <| cn_stream := stream |>.

(** [connection->closing = true; connection->stream.close()]. *)
Definition drop_connection (c : Connection) : Connection := close_connection (c <| cn_closing := true |>).

(** What follows [handle_frame]: the session is closed if its lock is free. *)
Definition close_if_closing (i : nat) (v : server) : server :=
  let '(locked, v) := try_lock v in
  if locked && default false (cn_closing <$> sv_connections v !! i) then update_connection i close_connection v else v.

(** [ControllerServer::service_connection]; the lock is released before the frame is
    handled. *)
Definition service_connection (i : nat) (v : server) : status * server :=
  let '(locked, v) := try_lock v in
  if negb locked then (ok_status, v)
  else
    match sv_connections v !! i with
    | None => (ok_status, v)
    | Some c =>
        if cn_closing c || negb (stream_valid (cn_stream c)) then (ok_status, v)
        else
          let '((outcome, received, _), stream) := receive_now sock (so_read_wait_ms (sv_options v)) (cn_stream c) in
          let v := v <| sv_connections := <[i := c <| cn_stream := stream |>]> (sv_connections v) |> in
          match outcome, received with
          | StreamOutcome.Frame_, Some frame =>
              let '(handled, v) := handle_frame i frame v in (handled, close_if_closing i v)
          | StreamOutcome.Closed, _ => (ok_status, update_connection i drop_connection v)
          | StreamOutcome.Failed, _ | StreamOutcome.ProtocolError, _ =>
              (ok_status, update_connection i drop_connection
                            (v <| sv_rejected_frames := u64_inc (sv_rejected_frames v) |>))
          | _, _ => (ok_status, v)
          end
    end.

Definition service_all (v : server) : server :=
  foldl (λ v i, (service_connection i v).2) v (seq 0 (length (sv_connections v))).

(** [ControllerServer::reap_connections]. *)
Definition reap_connections (v : server) : server :=
  v <| sv_connections := List.filter (λ c, negb (cn_closing c || negb (stream_valid (cn_stream c)))) (sv_connections v) |>.

Definition connection_count (v : server) : Z := zlength (sv_connections v).
Definition agent_count (v : server) : Z :=
  zlength (List.filter (λ c, bool_decide (cn_role c = SessionRole.Agent)) (sv_connections v)).

(** [engine_.advance(clock_.now())]. *)
Definition advance_and_push (v : server) : server :=
  let '(now, v) := read_clock v in
  let actions := (advance_pass now (sv_engine v)).2 in
  let '(_, e) := advance (sink_of v) now (sv_engine v) in
  handed_over actions v <| sv_engine := e |>.

(** The first half of [poll_once]. *)
Definition accept_connection (v : server) : status * server :=
  match sv_listener v with
  | None => (fail ErrorCode.ShuttingDown "controller server is not listening", v)
  | Some l =>
      if negb (lo_valid lsn l) then (fail ErrorCode.ShuttingDown "controller server is not listening", v)
      else
        match lo_accept_one lsn (so_accept_wait_ms (sv_options v)) l with
        | (inl accepted, l) =>
            let v := v <| sv_listener := Some l |> in
            let stream := new_stream accepted (so_max_frame_bytes (sv_options v)) in
            if so_max_connections (sv_options v) <=? connection_count v then
              let '(_, stream) :=
                send_frame sock (MkFrame Msg.Failure 0 (failure_payload ErrorCode.Busy "connection limit reached")) stream in
              let '(_, _) := close_stream sock stream in
              (ok_status, v <| sv_rejected_frames := u64_inc (sv_rejected_frames v) |>)
            else
              (ok_status, v <| sv_connections := sv_connections v ++ [new_connection stream (so_bind_host (sv_options v))] |>)
        | (inr (AcceptOutcome.Failed, error), l) => (fail ErrorCode.TransportError error, v <| sv_listener := Some l |>)
        | (inr _, l) => (ok_status, v <| sv_listener := Some l |>)
        end
  end.

(** [ControllerServer::poll_once]. *)
Definition poll_once (v : server) : status * server :=
  match accept_connection v with
  | (Err err, v) => (Err err, v)
  | (Ok _, v) => (ok_status, reap_connections (advance_and_push (service_all v)))
  end.

(** [ControllerServer::run_until]; [None] when the fuel runs out. *)
Fixpoint run_until (fuel : nat) (request_budget : Z) (v : server) : option (status * server) :=
  match fuel with
  | O => None
  | Datatypes.S fuel =>
      if sv_stopping v then Some (ok_status, v)
      else if negb (request_budget =? 0) && (request_budget <=? sv_served_requests v) then Some (ok_status, v)
      else
        match poll_once v with
        | (Err err, v) => Some (Err err, v)
        | (Ok _, v) => run_until fuel request_budget v
        end
  end.

(** ** Starting and stopping *)

(** [ControllerServer::start]. *)
Definition server_start (v : server) : status * server :=
  if match sv_listener v with Some l => lo_valid lsn l | None => false end then (ok_status, v)
  else
    match lo_listen_on lsn (so_bind_host (sv_options v)) (so_port (sv_options v)) (wrap i32 (so_max_connections (sv_options v))) with
    | Err err => (Err err, v)
    | Ok (l, bound) => (ok_status, v <| sv_listener := Some l |> <| sv_port := bound |> <| sv_stopping := false |>)
    end.

(** [ControllerServer::stop]: every session is closed and forgotten. *)
Definition server_stop (v : server) : status * server :=
  let v := v <| sv_stopping := true |> in
  let v := v <| sv_connections := map drop_connection (sv_connections v) |> in
  let listener := match sv_listener v with Some l => Some (lo_close lsn l).2 | None => None end in
  (ok_status, v <| sv_listener := listener |> <| sv_connections := [] |>).

(** [ControllerServer::start_workers]: each worker runs [poll_once] until the server
    stops or a poll fails; [Workers] interleaves them. *)
Definition start_workers (count : Z) (v : server) : status * server :=
  if so_max_worker_threads (sv_options v) <? count then
    (fail ErrorCode.BoundsExceeded "worker count exceeds the configured limit", v)
  else if negb (sv_workers v =? 0) then (fail ErrorCode.Busy "workers are already running", v)
  else (ok_status, v <| sv_workers := count |>).

(** [ControllerServer::stop_workers]. *)
Definition stop_workers (v : server) : status * server := (ok_status, v <| sv_stopping := true |> <| sv_workers := 0 |>).
End Serving.
