(* ===== verification/ServerFacts.v ===== *)
(** * Frames as engine operations

    What a frame asks of the engine, stated as a relation; that handling the frame
    does exactly that; and that a poll is a sequence of public operations of the
    engine. *)

From S2P Require Import Prelude Containers Checked Result Text Json JsonFacts JsonText JsonBounds Codec CodecTables CodecFabric CodecPolicy.
From S2P Require Import Bytes Wire WireFacts Identity Lifecycle Obligation Evidence Authority Admission Topology Policy Decision.
From S2P Require Import Protocol Engine Snapshot Explain EngineStep EngineOps EngineInv EngineRefine EngineReach Queries Server.
#[local] Open Scope Z_scope.

(** ** Decoded payloads *)

(** The payload came out of the parser. *)
Definition parsed (v : json) : Prop := ∃ limits depth, json_within limits depth v = true.

Lemma parsed_find v key found : parsed v → json_find key v = Some found → parsed found.
Proof. intros (limits & depth & Hv) Hf. exists limits, (depth + 1). by eapply within_find. Qed.

Lemma decode_frame_parsed data max f : in_range u64 max → decode_frame data max = Ok f → parsed (fr_payload f).
Proof.
  intros Hmax. unfold decode_frame. cbv zeta. repeat (case_step; try done). intros [= <-]. cbn [fr_payload].
  match goal with H : json_parsed ?l ?t = Ok _ |- _ =>
    assert (limits_wf l = true) as Hwf; [|destruct (json_parse_outcome l Hwf t) as (r & Hr & Hout);
      unfold json_parsed in H; rewrite Hr in H; cbn in H; subst r; exists l, 0; apply Hout] end.
  destruct Hmax as [H1%Z.leb_le H2%Z.leb_le]. change (int_min u64) with 0 in H1. unfold limits_wf, payload_limits. cbn -[int_max].
  by rewrite H1, H2.
Qed.

(** A received obligation is what the constructor and the setters make. *)
Lemma obligation_from_json_wf v o : parsed v → obligation_from_json v = Ok o → obligation_wf o.
Proof.
  intros Hp Ho. assert (in_range u64 (read_u64_or "revision" 1 v)) as Hr.
  { destruct Hp as (limits & depth & Hw). unfold read_u64_or. destruct (json_find "revision" v) as [x|] eqn:Hx; [|done].
    destruct (is_number x); [|done]. eapply as_uint_range; [|done]. by eapply within_find. }
  revert Ho. unfold obligation_from_json, result_bind. cbv zeta. repeat (case_step; try done). intros [= <-].
  match goal with H : decode_all _ _ = Ok ?a |- _ => destruct (new_obligation_wf t s a) as [Hsorted _] end.
  match goal with H : (_ =? 0) = false |- _ => apply Z.eqb_neq in H end.
  split; [exact Hsorted|]. cbn [ob_revision]. split; [done|]. destruct Hr as [? _]. change (int_min u64) with 0 in *. lia.
Qed.

(** ** What stays the same *)

Section Facts.
Context {S L : Type} (sock : SocketOps S) (lsn : ListenerOps S L).
Context (clock : nat → TimePoint) (contended : nat → bool).
#[local] Abbreviation server := (server S L).

(** A stream keeps its bound. *)
Definition same_bound (c c' : Connection S) : Prop :=
  fs_max_payload_bytes (cn_stream c') = fs_max_payload_bytes (cn_stream c).

(** Options and sink are the same, and so are the sessions but for their state. *)
Record same_sessions (v v' : server) : Prop := {
  ss_options : sv_options v' = sv_options v;
  ss_sink : sv_sink v' = sv_sink v;
  ss_connections : Forall2 same_bound (sv_connections v) (sv_connections v');
}.

#[export] Instance same_bound_preorder : PreOrder same_bound.
Proof. split; [done|]. intros a b c H1 H2. unfold same_bound in *. congruence. Qed.
#[export] Instance same_sessions_preorder : PreOrder same_sessions.
Proof.
  split; [done|]. intros a b c [H1 H2 H3] [H4 H5 H6]. split; [congruence|congruence|]. by etrans.
Qed.

Lemma same_count v v' : same_sessions v v' → length (sv_connections v') = length (sv_connections v).
Proof. intros [_ _ H]. symmetry. by eapply Forall2_length. Qed.

Lemma same_lookup v v' i c : same_sessions v v' → sv_connections v !! i = Some c →
  ∃ c', sv_connections v' !! i = Some c' ∧ same_bound c c'.
Proof. intros [_ _ H] Hc. eapply Forall2_lookup_l in H as (c' & ? & ?); [|done]. by exists c'. Qed.

(** An update of the fields that are not the sessions. *)
Lemma same_fields (v v' : server) :
  sv_options v' = sv_options v → sv_sink v' = sv_sink v → sv_connections v' = sv_connections v → same_sessions v v'.
Proof. intros H1 H2 H3. split; try done. by rewrite H3. Qed.

Lemma same_insert (v : server) i c c' :
  sv_connections v !! i = Some c → same_bound c c' →
  same_sessions v (v <| sv_connections := <[i := c']> (sv_connections v) |>).
Proof.
  intros Hc Hb. split; try done. cbn. rewrite <- (list_insert_id _ _ _ Hc) at 1. by apply Forall2_insert.
Qed.

Lemma same_update i f (v : server) : (∀ c, same_bound c (f c)) → same_sessions v (update_connection i f v).
Proof.
  intros Hf. split; try done. cbn. apply Forall2_same_length_lookup. rewrite length_alter. split; [done|].
  intros k c c' Hc Hc'. rewrite list_lookup_alter in Hc'. case_decide; [subst|by simplify_eq].
  rewrite Hc in Hc'. by injection Hc' as <-.
Qed.

Lemma send_frame_bound f (st : FrameStream S) : fs_max_payload_bytes (send_frame sock f st).2 = fs_max_payload_bytes st.
Proof. unfold send_frame. destruct (encode_frame _ _); [|done]. by destruct (so_send_all _ _ _). Qed.
Lemma close_stream_bound (st : FrameStream S) : fs_max_payload_bytes (close_stream sock st).2 = fs_max_payload_bytes st.
Proof. unfold close_stream. by destruct (so_close _ _). Qed.

Lemma send_to_bound f c : same_bound c (send_to sock f c).2.
Proof.
  unfold send_to. pose proof (send_frame_bound f (cn_stream c)) as H. destruct (send_frame _ _ _) as [sent st]. exact H.
Qed.

Lemma push_loop_bound f cs tries : Forall2 same_bound cs (push_loop sock contended f cs tries).1.2.
Proof.
  revert tries. induction cs as [|c cs IH]; intros tries; cbn [push_loop]; [constructor|]. pose proof (send_to_bound f c) as Hb.
  destruct (_ || _); [|destruct (contended tries)].
  - specialize (IH tries). destruct (push_loop _ _ _ _ _) as [[? ?] ?]. by constructor.
  - specialize (IH (Datatypes.S tries)). destruct (push_loop _ _ _ _ _) as [[? ?] ?]. by constructor.
  - destruct (send_to sock f c) as [sent c']. specialize (IH (Datatypes.S tries)).
    destruct (push_loop _ _ _ _ _) as [[? ?] ?]. by constructor.
Qed.

Lemma push_bound type body k : Forall2 same_bound k.1 (push_to_agents sock contended type body k).2.1.
Proof.
  unfold push_to_agents. pose proof (push_loop_bound (MkFrame type 0 body) k.1 k.2) as H.
  destruct (push_loop _ _ _ _ _) as [[? ?] ?]. exact H.
Qed.

Lemma send_all_bound {A} (send : A → list (Connection S) * nat → status * (list (Connection S) * nat)) reqs acc :
  (∀ a k, Forall2 same_bound k.1 (send a k).2.1) → Forall2 same_bound acc.2.1 (hand_over_all send reqs acc).2.1.
Proof.
  intros Hs. revert acc. induction reqs as [|a reqs IH]; intros acc; [done|]. unfold hand_over_all in *. cbn [foldl].
  etrans; [|apply IH]. destruct acc as [[o n] k]. specialize (Hs a k). by destruct (send a k) as [[]?].
Qed.

Lemma handed_over_same actions v : same_sessions v (handed_over sock contended actions v).
Proof.
  unfold handed_over. destruct (sv_sink v) eqn:Hs; [|done].
  assert (Forall2 same_bound (sv_connections v) (hand_over (server_sink sock contended v) actions).2.1) as Hb.
  { unfold hand_over. pose proof (send_all_bound (on_evacuation_request (server_sink sock contended v)) (pa_evacuations actions)
      (ok_status, 0, sk_current (server_sink sock contended v)) (λ a k, push_bound _ _ k)) as H1.
    destruct (hand_over_all _ (pa_evacuations actions) _) as [[o1 n1] k1].
    pose proof (send_all_bound (on_restoration_request (server_sink sock contended v)) (pa_restorations actions)
      (o1, 0, k1) (λ a k, reflexivity _)) as H2.
    destruct (hand_over_all _ (pa_restorations actions) _) as [[o2 n2] k2].
    pose proof (send_all_bound (on_admission_reopen (server_sink sock contended v)) (pa_reopens actions)
      (o2, 0, k2) (λ a k, push_bound _ _ k)) as H3.
    destruct (hand_over_all _ (pa_reopens actions) _) as [[o3 n3] k3]. cbn in *. by do 2 (etrans; [eassumption|]). }
  destruct (hand_over _ _).2 as [cs tries]. by split.
Qed.

(** ** What a frame asks for *)

(** The authority a frame speaks with: its session's own, or that of a token it
    presents and the engine accepts now. *)
Definition caller_authority (i : nat) (payload : json) (v : server) (a : AuthorityId) : Prop :=
  match json_find "authority" payload with
  | None => (cn_authority <$> sv_connections v !! i) = Some a ∧ a ≠ 0
  | Some presented => ∃ token, token_from_presentation_json presented = Ok token ∧
      validate_authority token (clock (sv_reads v)) (sv_engine v) = ok_status ∧ a = at_id token
  end.

Definition greeted (i : nat) (v : server) : Prop := (cn_greeted <$> sv_connections v !! i) = Some true.

(** The operation of the engine that a frame on session [i] is a request for. *)
Inductive frame_op (i : nat) (frame : Frame) (v : server) : op → Prop :=
  | fo_hello role node : fr_type frame = Msg.Hello → get_uint "protocol_version" 0 (fr_payload frame) = kWireProtocolVersion →
      session_role_from_string (get_string "role" "client" (fr_payload frame)) = Some role →
      parse_node (fr_payload frame) "node" = Ok node →
      frame_op i frame v (OpIssue "" (so_authority_validity (sv_options v)))
  | fo_drain targets node a : greeted i v → fr_type frame = Msg.DrainRequest →
      parse_targets (fr_payload frame) = Ok targets → parse_node (fr_payload frame) "node" = Ok node →
      caller_authority i (fr_payload frame) v a →
      frame_op i frame v (OpRequestSet (MkDrainRequest targets (get_string "reason" "" (fr_payload frame)) a node
                                          (get_uint "nonce" 0 (fr_payload frame))))
  | fo_cancel a : greeted i v → fr_type frame = Msg.CancelRequest → caller_authority i (fr_payload frame) v a →
      frame_op i frame v (OpCancel (get_uint "drain" 0 (fr_payload frame)) a (get_string "reason" "" (fr_payload frame)))
  | fo_restore a : greeted i v → fr_type frame = Msg.RestoreRequest → caller_authority i (fr_payload frame) v a →
      frame_op i frame v (OpRestore (get_uint "drain" 0 (fr_payload frame)) a (get_string "reason" "" (fr_payload frame)))
  | fo_admit body draft a : greeted i v → fr_type frame = Msg.ObligationAdmit →
      json_find "obligation" (fr_payload frame) = Some body → obligation_from_json body = Ok draft →
      caller_authority i (fr_payload frame) v a →
      frame_op i frame v (OpAdmit draft (get_uint "generation" 0 (fr_payload frame)) a)
  | fo_report body next : greeted i v → fr_type frame = Msg.ObligationReport →
      json_find "report" (fr_payload frame) = Some body →
      obligation_state_from_string (get_string "next" "" body) = Some next →
      frame_op i frame v (OpReport (report_of body next))
  | fo_evidence body draft : greeted i v → fr_type frame = Msg.EvidenceReport →
      json_find "evidence" (fr_payload frame) = Some body → evidence_from_json body = Ok draft →
      frame_op i frame v (OpEvidence draft).

(** The engine does what the frame is a request for, and nothing when it is not a
    request for anything. *)
Definition does (i : nat) (frame : Frame) (v v' : server) : Prop :=
  same_sessions v v' ∧
  ((∃ o sink n, frame_op i frame v o ∧ sv_engine v' = exec sink o (clock n) (sv_engine v)) ∨
   (sv_engine v' = sv_engine v ∧ ∀ o, ¬ frame_op i frame v o)).

(** *** Answers leave the engine alone *)

Definition answers (v v' : server) : Prop := same_sessions v v' ∧ sv_engine v' = sv_engine v.

#[export] Instance answers_preorder : PreOrder answers.
Proof.
  split; [done|]. intros a b c [H1 H2] [H3 H4]. split; [by etrans|congruence].
Qed.

Lemma server_send_answers i type seq body v : answers v (server_send sock i type seq body v).2.
Proof.
  unfold server_send. destruct (sv_connections v !! i) as [c|] eqn:Hc; [|done].
  pose proof (send_to_bound (MkFrame type seq body) c) as Hb. destruct (send_to _ _ _) as [sent c'].
  split; [|done]. by apply (same_insert v i c c').
Qed.

Lemma dismiss_answers i frame code msg v : answers v (dismiss sock i frame code msg v).2.
Proof.
  unfold dismiss, send_failure. pose proof (server_send_answers i Msg.Failure (fr_sequence frame) (failure_payload code msg) v) as Ha.
  destruct (server_send _ _ _ _ _ _) as [sent v1]. etrans; [exact Ha|]. split; [by apply same_update|done].
Qed.

Lemma engine_answers v v' e : answers (v <| sv_engine := e |>) v' → same_sessions v v' ∧ sv_engine v' = e.
Proof. intros [[H1 H2 H3] H4]. split; [by split|done]. Qed.

Lemma resolve_authority_spec i payload v r v1 :
  resolve_authority clock i payload v = (r, v1) →
  answers v v1 ∧ match r with Ok a => caller_authority i payload v a | Err _ => ∀ a, ¬ caller_authority i payload v a end.
Proof.
  unfold resolve_authority, caller_authority. destruct (json_find "authority" payload) as [presented|].
  - destruct (token_from_presentation_json presented) as [token|err].
    + cbn [read_clock]. intros [= <- <-]. split; [split; [by apply same_fields|done]|].
      change (sv_engine (v <| sv_reads := _ |>)) with (sv_engine v).
      destruct (validate_authority _ _ _) as [[]|err] eqn:Hv; [by exists token|]. intros a (t & [= <-] & Ht & _). congruence.
    + intros [= <- <-]. split; [done|]. by intros a (t & ? & _).
  - destruct (cn_authority <$> sv_connections v !! i) as [a|].
    + destruct (Z.eqb_spec a 0) as [->|Hne]; intros [= <- <-]; (split; [done|]); [by intros a [[= <-] ?]|done].
    + intros [= <- <-]. split; [done|]. by intros a [? _].
Qed.

(** Two requests of a frame are the same kind of request. *)
Ltac wrong_frame :=
  unfold Msg.Hello, Msg.DrainRequest, Msg.StatusRequest, Msg.CancelRequest, Msg.RestoreRequest, Msg.ExplainRequest,
    Msg.ObligationQuery, Msg.ObligationAdmit, Msg.ObligationReport, Msg.EvidenceReport, Msg.AuditRequest, Msg.Shutdown in *;
  simplify_eq; try lia; try congruence; try naive_solver.

Section OneFrame.
Context (i : nat) (frame : Frame) (v : server).

(** The frame is refused, or asks for nothing, whatever else it would need. *)
Lemma does_nothing v' : answers v v' → (∀ o, ¬ frame_op i frame v o) → does i frame v v'.
Proof. intros [H1 H2] Hno. split; [done|]. by right. Qed.

Lemma does_op v' o sink n e :
  answers (v <| sv_engine := e |>) v' → frame_op i frame v o → e = exec sink o (clock n) (sv_engine v) → does i frame v v'.
Proof. intros [H1 H2]%engine_answers Ho ->. split; [done|]. left. by exists o, sink, n. Qed.

(** The same when the engine was reached with other state changed on the way. *)
Lemma does_later v1 v' o sink n e :
  answers v v1 → answers (v1 <| sv_engine := e |>) v' → frame_op i frame v o →
  e = exec sink o (clock n) (sv_engine v1) → does i frame v v'.
Proof.
  intros [H1 E1] [H2 H3]%engine_answers Ho ->. rewrite E1 in H3. split; [by etrans|]. left. by exists o, sink, n.
Qed.

Lemma reads_answers : answers v (v <| sv_reads := Datatypes.S (sv_reads v) |>).
Proof. split; [by apply same_fields|done]. Qed.

(** Closes a branch that never reaches the engine. *)
Ltac asks_nothing :=
  apply does_nothing; [first [apply dismiss_answers | apply server_send_answers | done]|intros ? Ho; inversion Ho; wrong_frame].

Lemma hello_does : fr_type frame = Msg.Hello → does i frame v (handle_hello sock clock i frame v).2.
Proof.
  intros Ht. unfold handle_hello. destruct (Z.eqb_spec (get_uint "protocol_version" 0 (fr_payload frame)) kWireProtocolVersion) as [Hver|Hver];
    cbn [negb]; [|asks_nothing].
  destruct (session_role_from_string _) as [role|] eqn:Hrole; [|asks_nothing].
  destruct (parse_node _ _) as [node|] eqn:Hnode; [|asks_nothing]. cbn [read_clock].
  change (sv_engine (v <| sv_reads := _ |>)) with (sv_engine v). change (sv_options (v <| sv_reads := _ |>)) with (sv_options v).
  destruct (issue_authority _ _ _ _) as [[token|err] e] eqn:He;
    (eapply (does_later (v <| sv_reads := Datatypes.S (sv_reads v) |>) _ _ None (sv_reads v) e);
      [apply reads_answers| |by eapply fo_hello|change (sv_engine (v <| sv_reads := _ |>)) with (sv_engine v); cbn [exec]; by rewrite He]).
  - unfold reply. etrans; [|apply server_send_answers]. split; [by apply same_update|done].
  - apply dismiss_answers.
Qed.

(** The frames that need authority: everything after it is resolved. *)
Lemma with_authority_does (k : AuthorityId → server → status * server) :
  (∀ a v1, answers v v1 → caller_authority i (fr_payload frame) v a → does i frame v (k a v1).2) →
  ((∀ a, ¬ caller_authority i (fr_payload frame) v a) → ∀ o, ¬ frame_op i frame v o) →
  does i frame v (with_authority sock clock i frame v k).2.
Proof.
  intros Hk Hno. unfold with_authority. destruct (resolve_authority _ _ _ _) as [r v1] eqn:Hr.
  apply resolve_authority_spec in Hr as [Ha Hr]. destruct r as [a|err]; [by apply Hk|].
  apply does_nothing; [|by apply Hno]. etrans; [exact Ha|]. apply server_send_answers.
Qed.

(** The engine ran on [v1] at the next reading of the clock, with result [e]. *)
Ltac engine_ran v1 e He ctor :=
  (eapply (does_later v1 _ _ None (sv_reads v1) e); [assumption| |by eapply ctor|by cbn [exec]; rewrite He]);
  (etrans; [|apply server_send_answers]); (split; [by apply same_fields|done]).

Lemma drain_request_does :
  greeted i v → fr_type frame = Msg.DrainRequest → does i frame v (handle_drain_request sock clock i frame v).2.
Proof.
  intros Hg Ht. unfold handle_drain_request. destruct (parse_targets _) as [targets|] eqn:Htg; [|asks_nothing].
  destruct (parse_node _ _) as [node|] eqn:Hn; [|asks_nothing]. apply with_authority_does.
  2: { intros Hno o Ho. inversion Ho; wrong_frame. }
  intros a v1 Ha Hc. cbn [read_clock]. change (sv_engine (v1 <| sv_reads := _ |>)) with (sv_engine v1).
  destruct (request_drain_set _ _ _) as [[set|err] e] eqn:He; engine_ran v1 e He fo_drain.
Qed.

Lemma cancel_request_does :
  greeted i v → fr_type frame = Msg.CancelRequest → does i frame v (handle_cancel_request sock clock i frame v).2.
Proof.
  intros Hg Ht. unfold handle_cancel_request. apply with_authority_does.
  2: { intros Hno o Ho. inversion Ho; wrong_frame. }
  intros a v1 Ha Hc. cbn [read_clock]. change (sv_engine (v1 <| sv_reads := _ |>)) with (sv_engine v1).
  destruct (cancel_drain _ _ _ _ _) as [[[]|err] e] eqn:He; engine_ran v1 e He fo_cancel.
Qed.

Lemma admit_does :
  greeted i v → fr_type frame = Msg.ObligationAdmit → does i frame v (handle_obligation_admit sock clock i frame v).2.
Proof.
  intros Hg Ht. unfold handle_obligation_admit. destruct (json_find "obligation" _) as [body|] eqn:Hb; [|asks_nothing].
  destruct (obligation_from_json body) as [draft|] eqn:Hd; [|asks_nothing]. apply with_authority_does.
  2: { intros Hno o Ho. inversion Ho; wrong_frame. }
  intros a v1 Ha Hc. cbn [read_clock]. change (sv_engine (v1 <| sv_reads := _ |>)) with (sv_engine v1).
  destruct (admit_obligation _ _ _ _ _) as [[stored|err] e] eqn:He; engine_ran v1 e He fo_admit.
Qed.

Lemma report_does :
  greeted i v → fr_type frame = Msg.ObligationReport → does i frame v (handle_obligation_report sock clock i frame v).2.
Proof.
  intros Hg Ht. unfold handle_obligation_report. destruct (json_find "report" _) as [body|] eqn:Hb; [|asks_nothing].
  destruct (obligation_state_from_string _) as [next|] eqn:Hn; [|asks_nothing].
  assert (answers v v) as Ha by done. cbn [read_clock]. change (sv_engine (v <| sv_reads := _ |>)) with (sv_engine v).
  destruct (report_obligation _ _ _) as [[[]|err] e] eqn:He; engine_ran v e He fo_report.
Qed.

Lemma evidence_does :
  greeted i v → fr_type frame = Msg.EvidenceReport → does i frame v (handle_evidence_report sock clock i frame v).2.
Proof.
  intros Hg Ht. unfold handle_evidence_report. destruct (json_find "evidence" _) as [body|] eqn:Hb; [|asks_nothing].
  destruct (evidence_from_json body) as [draft|] eqn:Hd; [|asks_nothing].
  assert (answers v v) as Ha by done. cbn [read_clock]. change (sv_engine (v <| sv_reads := _ |>)) with (sv_engine v).
  destruct (record_evidence _ _ _) as [[recorded|err] e] eqn:He; engine_ran v e He fo_evidence.
Qed.

(** [restore_drain] with its hand-over, run by the server. *)
Lemma restore_and_push_exec id a reason now v1 :
  let r := restore_and_push sock contended id a reason now v1 in
  same_sessions v1 r.2 ∧ sv_engine r.2 = exec (sink_of sock contended v1) (OpRestore id a reason) now (sv_engine v1) ∧
  is_ok r.1 = is_ok (restore_drain_and_dispatch (sink_of sock contended v1) id a reason now (sv_engine v1)).1.
Proof.
  cbn [exec]. unfold restore_and_push, restore_drain_and_dispatch.
  destruct (restore_drain id a reason now (sv_engine v1)) as [[actions|err] e]; [|by split_and!; [apply same_fields|..]].
  destruct (dispatch _ actions e) as [restored e']. split_and!; try done.
  etrans; [apply (handed_over_same actions)|]. by apply same_fields.
Qed.

Lemma restore_request_does :
  greeted i v → fr_type frame = Msg.RestoreRequest → does i frame v (handle_restore_request sock clock contended i frame v).2.
Proof.
  intros Hg Ht. unfold handle_restore_request. apply with_authority_does.
  2: { intros Hno o Ho. inversion Ho; wrong_frame. }
  intros a v1 [Ha Ea] Hc. cbn [read_clock]. set (v2 := v1 <| sv_reads := _ |>).
  pose proof (restore_and_push_exec (get_uint "drain" 0 (fr_payload frame)) a (get_string "reason" "" (fr_payload frame))
    (clock (sv_reads v1)) v2) as Hr. cbv zeta in Hr.
  destruct (restore_and_push _ _ _ _ _ _ v2) as [st v3]. cbn [fst snd] in Hr. destruct Hr as (H1 & H2 & _).
  change (sv_engine v2) with (sv_engine v1) in H2. rewrite Ea in H2.
  assert (∀ v4, answers v3 v4 → does i frame v v4) as Hdone.
  { intros v4 [H3 H4]. split; [etrans; [exact Ha|]; etrans; [|etrans; [exact H1|exact H3]]; by apply same_fields|].
    left. exists (OpRestore (get_uint "drain" 0 (fr_payload frame)) a (get_string "reason" "" (fr_payload frame))),
      (sink_of sock contended v2), (sv_reads v1). split; [by eapply fo_restore|]. by rewrite H4. }
  destruct st as [[]|err]; apply Hdone, server_send_answers.
Qed.

(** Queries and everything else. *)
Lemma quiet_does :
  fr_type frame ≠ Msg.Hello → fr_type frame ≠ Msg.DrainRequest → fr_type frame ≠ Msg.CancelRequest →
  fr_type frame ≠ Msg.RestoreRequest → fr_type frame ≠ Msg.ObligationAdmit → fr_type frame ≠ Msg.ObligationReport →
  fr_type frame ≠ Msg.EvidenceReport → ∀ v', answers v v' → does i frame v v'.
Proof. intros ??????? v' Ha. apply does_nothing; [done|]. intros o Ho. by inversion Ho. Qed.

Lemma query_answers :
  answers v (handle_status_request sock clock i frame v).2 ∧ answers v (handle_explain_request sock i frame v).2 ∧
  answers v (handle_obligation_query sock i frame v).2 ∧ answers v (handle_audit_request sock clock i frame v).2 ∧
  answers v (handle_shutdown sock i frame v).2 ∧ answers v (handle_other sock i frame v).2.
Proof.
  split_and!.
  - unfold handle_status_request. cbv zeta. cbn [read_clock].
    assert (∀ l, answers v (reply sock i frame Msg.StatusResponse l (v <| sv_reads := Datatypes.S (sv_reads v) |>)).2) as Hr.
    { intros l. etrans; [apply reads_answers|]. apply server_send_answers. }
    destruct (negb _); [|apply Hr]. destruct (Query.drain _ _); [apply Hr|apply server_send_answers].
  - apply server_send_answers.
  - unfold handle_obligation_query. destruct (json_find "target" _); [|apply server_send_answers].
    destruct (drain_target_from_json _); apply server_send_answers.
  - unfold handle_audit_request. cbn [read_clock]. etrans; [apply reads_answers|]. apply server_send_answers.
  - unfold handle_shutdown, reply. pose proof (server_send_answers i Msg.ShutdownResponse (fr_sequence frame) ok_payload v) as Ha.
    destruct (server_send _ _ _ _ _ _) as [sent v1]. etrans; [exact Ha|]. split; [by apply same_fields|done].
  - unfold handle_other. etrans; [|apply server_send_answers]. split; [by apply same_fields|done].
Qed.

(** A frame of a type the engine is not asked about. *)
Ltac other_frame Ht := apply quiet_does; first [assumption | rewrite Ht; discriminate].

Lemma dispatch_does :
  greeted i v ∨ fr_type frame = Msg.Hello → does i frame v (dispatch_frame sock clock contended i frame v).2.
Proof.
  intros Hg. unfold dispatch_frame. cbv zeta. destruct query_answers as (Q1 & Q2 & Q3 & Q4 & Q5 & Q6).
  assert (∀ t, fr_type frame = t → t ≠ Msg.Hello → greeted i v) as Hgr by (intros t ? ?; destruct Hg; [done|congruence]).
  destruct (Z.eqb_spec (fr_type frame) Msg.Hello) as [Ht|?]; [by apply hello_does|].
  destruct (Z.eqb_spec (fr_type frame) Msg.DrainRequest) as [Ht|?]; [by apply drain_request_does; [eapply Hgr|]|].
  destruct (Z.eqb_spec (fr_type frame) Msg.StatusRequest) as [Ht|?]; [other_frame Ht|].
  destruct (Z.eqb_spec (fr_type frame) Msg.CancelRequest) as [Ht|?]; [by apply cancel_request_does; [eapply Hgr|]|].
  destruct (Z.eqb_spec (fr_type frame) Msg.RestoreRequest) as [Ht|?]; [by apply restore_request_does; [eapply Hgr|]|].
  destruct (Z.eqb_spec (fr_type frame) Msg.ExplainRequest) as [Ht|?]; [other_frame Ht|].
  destruct (Z.eqb_spec (fr_type frame) Msg.ObligationQuery) as [Ht|?]; [other_frame Ht|].
  destruct (Z.eqb_spec (fr_type frame) Msg.ObligationAdmit) as [Ht|?]; [by apply admit_does; [eapply Hgr|]|].
  destruct (Z.eqb_spec (fr_type frame) Msg.ObligationReport) as [Ht|?]; [by apply report_does; [eapply Hgr|]|].
  destruct (Z.eqb_spec (fr_type frame) Msg.EvidenceReport) as [Ht|?]; [by apply evidence_does; [eapply Hgr|]|].
  destruct (Z.eqb_spec (fr_type frame) Msg.AuditRequest) as [Ht|?]; [other_frame Ht|].
  destruct (Z.eqb_spec (fr_type frame) Msg.Shutdown) as [Ht|?]; [other_frame Ht|].
  apply quiet_does; assumption.
Qed.
End OneFrame.

(** Requests depend on the sessions, the engine, the options and the clock only. *)
Lemma frame_op_ext i frame (v v' : server) o :
  sv_connections v' = sv_connections v → sv_engine v' = sv_engine v → sv_options v' = sv_options v → sv_reads v' = sv_reads v →
  frame_op i frame v o → frame_op i frame v' o.
Proof.
  intros Ec Ee Eo Er. assert (greeted i v → greeted i v') as Hg by (unfold greeted; by rewrite Ec).
  assert (∀ p a, caller_authority i p v a → caller_authority i p v' a) as Ha.
  { intros p a. unfold caller_authority. by rewrite Ec, Ee, Er. }
  destruct 1; [rewrite <- Eo|..]; econstructor; eauto.
Qed.

Lemma handle_frame_does i frame v : does i frame v (handle_frame sock clock contended i frame v).2.
Proof.
  unfold handle_frame.
  destruct (negb (default false _) && negb (fr_type frame =? Msg.Hello)) eqn:E.
  - apply andb_true_iff in E as [Hg%negb_true_iff Ht%negb_true_iff%Z.eqb_neq]. apply does_nothing.
    + etrans; [|apply dismiss_answers]. split; [by apply same_fields|done].
    + intros o Ho. assert (greeted i v ∨ fr_type frame = Msg.Hello) as [H|H] by (destruct Ho; auto); [|done].
      unfold greeted in H. by rewrite H in Hg.
  - set (v1 := if negb (fr_type frame =? Msg.Hello) then _ else v).
    assert (sv_connections v1 = sv_connections v ∧ sv_engine v1 = sv_engine v ∧ sv_options v1 = sv_options v ∧
      sv_reads v1 = sv_reads v ∧ sv_sink v1 = sv_sink v) as (Ec & Ee & Eo & Er & Es) by (unfold v1; destruct (negb (fr_type frame =? Msg.Hello)); by split_and!).
    destruct (dispatch_does i frame v1) as [Hs Hop].
    { apply andb_false_iff in E as [Hg%negb_false_iff|Ht%negb_false_iff%Z.eqb_eq]; [left|by right].
      unfold greeted. rewrite Ec. destruct (cn_greeted <$> sv_connections v !! i) as [[]|]; done. }
    split; [etrans; [by apply (same_fields v v1)|exact Hs]|]. rewrite Ee in Hop.
    destruct Hop as [(o & sink & n & Ho & He)|[He Hno]]; [left|right].
    + exists o, sink, n. split; [|done]. by eapply frame_op_ext; [..|exact Ho].
    + split; [done|]. intros o Ho. apply (Hno o). by eapply frame_op_ext; [..|exact Ho].
Qed.

(** ** Calls of the engine *)

Record call := MkCall { ca_sink : option EvacuationSink; ca_op : op; ca_now : TimePoint }.

Definition run_call (c : call) (e : engine) : engine := exec (ca_sink c) (ca_op c) (ca_now c) e.
Definition replay (calls : list call) (e : engine) : engine := foldl (λ e c, run_call c e) e calls.

(** The counters have room for each of the calls. *)
Fixpoint roomy (calls : list call) (e : engine) : Prop :=
  match calls with [] => True | c :: calls => headroom e ∧ roomy calls (run_call c e) end.

(** A scheduling pass, or what a decoded frame on some session asked for. *)
Definition caused (o : op) : Prop :=
  o = OpAdvance ∨ ∃ i frame (v : server), parsed (fr_payload frame) ∧ frame_op i frame v o.

Lemma caused_wf o e : caused o → op_wf o e.
Proof.
  intros [->|(i & frame & v & Hp & Ho)]; [done|]. destruct Ho; try done. split; [|done].
  eapply obligation_from_json_wf; [|done]. by eapply parsed_find.
Qed.

(** Calls with arguments the engine's types allow, while the counters have room. *)
Lemma replay_wf_history calls e :
  Forall (λ c, ∀ e, op_wf (ca_op c) e) calls → roomy calls e → history any_op e (replay calls e).
Proof.
  revert e. induction calls as [|c calls IH]; intros e Hc Hr; [constructor|]. apply Forall_cons in Hc as [Hc1 Hc].
  destruct Hr as [Hh Hr]. eapply (history_step _ (ca_sink c) _ (ca_op c) (ca_now c)); [apply Hc1|done|done|].
  by apply IH.
Qed.

Lemma replay_history calls e :
  Forall (λ c, caused (ca_op c)) calls → roomy calls e → history any_op e (replay calls e).
Proof.
  intros Hc. apply replay_wf_history. eapply Forall_impl; [exact Hc|]. intros c Hk e'. by apply caused_wf.
Qed.

Lemma replay_app c1 c2 e : replay (c1 ++ c2) e = replay c2 (replay c1 e).
Proof. apply foldl_app. Qed.

(** ** A poll *)

Definition server_wf (v : server) : Prop :=
  in_range u64 (so_max_frame_bytes (sv_options v)) ∧
  Forall (λ c, in_range u64 (fs_max_payload_bytes (cn_stream c))) (sv_connections v).

Lemma same_wf v v' : same_sessions v v' → server_wf v → server_wf v'.
Proof.
  intros [Ho _ Hc] [H1 H2]. split; [by rewrite Ho|]. clear Ho H1. revert H2.
  induction Hc as [|c c' cs cs' Hb _ IH]; [done|]. rewrite !Forall_cons. intros [H1 H2]. split; [by rewrite Hb|by apply IH].
Qed.

(** A part of a poll: sessions kept, engine moved on by calls that frames caused. *)
Definition serves (v v' : server) (n : nat) : Prop :=
  same_sessions v v' ∧
  ∃ calls, sv_engine v' = replay calls (sv_engine v) ∧ Forall (λ c, caused (ca_op c)) calls ∧ (length calls ≤ n)%nat.

Lemma answers_serves v v' : answers v v' → serves v v' 0.
Proof. intros [H1 H2]. split; [done|]. exists []. by split_and!. Qed.

Lemma serves_trans v1 v2 v3 n m : serves v1 v2 n → serves v2 v3 m → serves v1 v3 (n + m).
Proof.
  intros [H1 (c1 & E1 & F1 & L1)] [H2 (c2 & E2 & F2 & L2)]. split; [by etrans|]. exists (c1 ++ c2).
  split_and!; [by rewrite replay_app, E2, E1|by apply Forall_app|rewrite length_app; lia].
Qed.

Lemma serves_weaken v v' n m : (n ≤ m)%nat → serves v v' n → serves v v' m.
Proof. intros Hle [H1 (c & E & F & Hl)]. split; [done|]. exists c. split_and!; try done. lia. Qed.

Lemma wait_and_read_bound wait_ms sl rem (st : FrameStream S) :
  match wait_and_read sock wait_ms sl rem st with
  | Answer (_, f, _) st' => f = None ∧ fs_max_payload_bytes st' = fs_max_payload_bytes st
  | Continue _ st' => fs_max_payload_bytes st' = fs_max_payload_bytes st
  end.
Proof.
  unfold wait_and_read. destruct (_ && _); [done|]. destruct (so_wait_readable _ _ _) as [[o err] s1]. destruct o; try done.
  destruct (_ =? 0); [done|]. destruct (so_receive_some _ _ _) as [[bs|e] s2]; [|done]. by destruct bs.
Qed.

Lemma receive_now_spec wait_ms (st : FrameStream S) :
  let '((o, f, err), st') := receive_now sock wait_ms st in
  fs_max_payload_bytes st' = fs_max_payload_bytes st ∧
  ∀ frame, f = Some frame → ∃ img, decode_frame img (fs_max_payload_bytes st) = Ok frame.
Proof.
  unfold receive_now, receive_frame. destruct (fs_closed st); [done|]. destruct (negb _); [done|].
  generalize (receive_fuel wait_ms st) (slice_of wait_ms). intros fuel sl.
  assert (∀ st0 : FrameStream S, fs_max_payload_bytes st0 = fs_max_payload_bytes st → ∀ rem,
    let '((o, f, err), st') := default ((StreamOutcome.Failed, None, "receive loop out of fuel"), st) (receive_loop sock fuel wait_ms sl rem st0) in
    fs_max_payload_bytes st' = fs_max_payload_bytes st ∧
    ∀ frame, f = Some frame → ∃ img, decode_frame img (fs_max_payload_bytes st) = Ok frame) as H; [|by apply (H (grown st))].
  induction fuel as [|fuel IH]; intros st0 E rem; cbn [receive_loop]; [done|].
  destruct (try_decode st0) as [[[[o f] err] st1]|] eqn:Ht.
  - cbn. assert (fs_max_payload_bytes st1 = fs_max_payload_bytes st0) as Eb.
    { revert Ht. unfold try_decode. repeat (destruct (_ <? _); try done); try (by intros [= <- <- <- <-]).
      destruct (decode_frame _ _); by intros [= <- <- <- <-]. }
    apply try_decode_spec in Ht. rewrite Eb, E. split; [done|]. intros frame ->. destruct Ht as (img & Hd & _).
    exists img. by rewrite <- E.
  - pose proof (wait_and_read_bound wait_ms sl rem st0) as Hb.
    destruct (wait_and_read sock wait_ms sl rem st0) as [[[o f] err] st1|rem1 st1].
    + cbn. destruct Hb as [-> Hb]. by rewrite Hb, E.
    + apply IH. by rewrite Hb.
Qed.

Lemma does_serves i frame v v' : parsed (fr_payload frame) → does i frame v v' → serves v v' 1.
Proof.
  intros Hp [Hs [(o & sink & n & Ho & He)|[He _]]]; [|eapply (serves_weaken _ _ 0); [lia|by apply answers_serves]].
  split; [done|]. exists [MkCall sink o (clock n)]. split_and!; [done| |done].
  constructor; [|constructor]. right. by exists i, frame, v.
Qed.

Lemma try_lock_answers (v : server) : answers v (try_lock contended v).2.
Proof. split; [by apply same_fields|done]. Qed.

Lemma close_connection_bound c : same_bound c (close_connection sock c).
Proof.
  unfold close_connection. pose proof (close_stream_bound (cn_stream c)) as H. destruct (close_stream _ _). exact H.
Qed.
Lemma drop_connection_bound c : same_bound c (drop_connection sock c).
Proof. unfold drop_connection. etrans; [|apply close_connection_bound]. done. Qed.

Lemma update_answers i f (v : server) : (∀ c, same_bound c (f c)) → answers v (update_connection i f v).
Proof. intros Hf. split; [by apply same_update|done]. Qed.

Lemma close_if_closing_answers i (v : server) : answers v (close_if_closing sock contended i v).
Proof.
  unfold close_if_closing. etrans; [apply try_lock_answers|]. cbn [try_lock snd].
  destruct (_ && _); [|done]. apply update_answers, close_connection_bound.
Qed.

Lemma service_connection_serves i v :
  server_wf v → serves v (service_connection sock clock contended i v).2 1.
Proof.
  intros Hwf. assert (∀ v', answers v v' → serves v v' 1) as Hq.
  { intros v' Ha. eapply (serves_weaken _ _ 0); [lia|by apply answers_serves]. }
  unfold service_connection. cbn [try_lock]. set (v1 := v <| sv_tries := _ |>).
  assert (answers v v1) as H1 by (split; [by apply same_fields|done]).
  destruct (negb _); [by apply Hq|]. destruct (sv_connections v1 !! i) as [c|] eqn:Hc; [|by apply Hq].
  destruct (_ || _); [by apply Hq|].
  pose proof (receive_now_spec (so_read_wait_ms (sv_options v1)) (cn_stream c)) as Hr.
  destruct (receive_now _ _ _) as [[[o f] err] st]. destruct Hr as [Hb Hf].
  set (v2 := v1 <| sv_connections := _ |>).
  assert (answers v v2) as H2 by (etrans; [exact H1|]; split; [by apply (same_insert v1 i c)|done]).
  assert (∀ v3, answers v3 (update_connection i (drop_connection sock) v3)) as Hd by (intros v3; apply update_answers, drop_connection_bound).
  assert (answers v2 (v2 <| sv_rejected_frames := u64_inc (sv_rejected_frames v2) |>)) as Hrej by (split; [by apply same_fields|done]).
  destruct o; try (apply Hq; first [done | etrans; [exact H2|apply Hd] | etrans; [exact H2|]; etrans; [exact Hrej|apply Hd]]).
  destruct f as [frame|]; [|by apply Hq].
  pose proof (handle_frame_does i frame v2) as Hdoes. destruct (handle_frame _ _ _ _ _ v2) as [handled v3]. cbn [snd] in *.
  assert (parsed (fr_payload frame)) as Hp.
  { destruct (Hf frame eq_refl) as [img Himg]. eapply decode_frame_parsed; [|exact Himg].
    destruct Hwf as [_ Hall]. change (sv_connections v1) with (sv_connections v) in Hc.
    by apply (proj1 (Forall_lookup _ _) Hall i c). }
  apply (serves_trans v v2 _ 0 1); [by apply answers_serves|].
  apply (serves_trans v2 v3 _ 1 0); [by eapply does_serves|]. apply answers_serves, close_if_closing_answers.
Qed.

Lemma service_all_serves v : server_wf v → serves v (service_all sock clock contended v) (length (sv_connections v)).
Proof.
  unfold service_all. rewrite <- (length_seq (length (sv_connections v)) 0) at 2.
  generalize (seq 0 (length (sv_connections v))). intros l. revert v.
  induction l as [|i l IH]; intros v Hwf; cbn [foldl length]; [by apply answers_serves|].
  pose proof (service_connection_serves i v Hwf) as H1.
  apply (serves_trans _ (service_connection sock clock contended i v).2 _ 1); [done|]. apply IH.
  destruct H1 as [H1 _]. by eapply same_wf.
Qed.

Lemma advance_serves v : serves v (advance_and_push sock clock contended v) 1.
Proof.
  unfold advance_and_push. cbn [read_clock]. set (v1 := v <| sv_reads := _ |>). cbv zeta.
  destruct (advance (sink_of sock contended v1) (clock (sv_reads v)) (sv_engine v1)) as [st e] eqn:Ha. split.
  - etrans; [by apply (same_fields v v1)|]. etrans; [apply (handed_over_same (advance_pass (clock (sv_reads v)) (sv_engine v1)).2)|].
    by apply same_fields.
  - exists [MkCall (sink_of sock contended v1) OpAdvance (clock (sv_reads v))]. split_and!; [|by constructor; [left|]|done].
    cbn. change (sv_engine v1) with (sv_engine v) in *. by rewrite Ha.
Qed.

(** *** Sessions come and go *)

Lemma accept_spec v st v' :
  accept_connection sock lsn v = (st, v') → server_wf v →
  server_wf v' ∧ sv_engine v' = sv_engine v ∧ sv_options v' = sv_options v ∧
  (length (sv_connections v') ≤ Datatypes.S (length (sv_connections v)))%nat ∧
  (connection_count v ≤ so_max_connections (sv_options v) → connection_count v' ≤ so_max_connections (sv_options v)).
Proof.
  unfold accept_connection. intros Ha Hwf. destruct (sv_listener v) as [l|]; [|injection Ha as _ <-; split_and!; try done; lia].
  destruct (negb _); [injection Ha as _ <-; split_and!; try done; lia|].
  destruct (lo_accept_one _ _ l) as [[s|[o err]] l'].
  - change (connection_count (v <| sv_listener := _ |>)) with (connection_count v) in Ha.
    change (sv_options (v <| sv_listener := _ |>)) with (sv_options v) in Ha.
    destruct (Z.leb_spec (so_max_connections (sv_options v)) (connection_count v)) as [_|Hlt].
    + destruct (send_frame _ _ _) as [? st1]. destruct (close_stream _ _) as [? ?]. injection Ha as _ <-.
      split_and!; try done; cbn; lia.
    + injection Ha as _ <-. destruct Hwf as [H1 H2]. split_and!; try done.
      * split; [done|]. cbn. apply Forall_app. split; [done|]. constructor; [done|constructor].
      * cbn. rewrite length_app. cbn. lia.
      * intros _. unfold connection_count, zlength in *. cbn. rewrite length_app. cbn. lia.
  - destruct o; injection Ha as _ <-; split_and!; try done; cbn; lia.
Qed.

Lemma reap_spec v :
  let v' := reap_connections sock v in
  (server_wf v → server_wf v') ∧ sv_engine v' = sv_engine v ∧ sv_options v' = sv_options v ∧ connection_count v' ≤ connection_count v.
Proof.
  cbn. unfold reap_connections. set (keep := λ c : Connection S, _). split_and!; try done.
  - intros [H1 H2]. split; [done|]. cbn. apply Forall_forall. intros c Hc. rewrite Forall_forall in H2. apply H2.
    apply list_elem_of_In in Hc. apply list_elem_of_In. by apply filter_In in Hc as [? _].
  - unfold connection_count, zlength. cbn. apply Nat2Z.inj_le. apply filter_length_le.
Qed.

(** What one poll does. *)
Record polled (v : server) (v' : server) : Prop := {
  po_wf : server_wf v';
  po_options : sv_options v' = sv_options v;
  po_count : connection_count v ≤ so_max_connections (sv_options v) → connection_count v' ≤ so_max_connections (sv_options v);
  po_calls : ∃ calls, sv_engine v' = replay calls (sv_engine v) ∧ Forall (λ c, caused (ca_op c)) calls ∧
    (length calls ≤ length (sv_connections v) + 2)%nat;
}.

Lemma poll_once_polled v st v' :
  poll_once sock lsn clock contended v = (st, v') → server_wf v → polled v v'.
Proof.
  unfold poll_once. destruct (accept_connection _ _ v) as [accepted v1] eqn:Ha. intros Hp Hwf.
  apply accept_spec in Ha as (Hwf1 & Ee & Eo & Hlen & Hcount); [|done]. destruct accepted as [[]|err]; [|].
  2: { injection Hp as _ <-. split; try done. exists []. split_and!; [done|done|simpl; lia]. }
  injection Hp as _ <-.
  destruct (serves_trans _ _ _ _ _ (service_all_serves v1 Hwf1) (advance_serves _)) as [Hs (calls & E & F & Hl)].
  set (v2 := advance_and_push _ _ _ _) in *. destruct (reap_spec v2) as (Hw & Er & Ero & Hrc).
  pose proof (same_count _ _ Hs) as Hsc. destruct Hs as [Hso Hss Hsc'].
  split.
  - apply Hw. eapply same_wf; [|exact Hwf1]. by split.
  - by rewrite Ero, Hso, Eo.
  - intros Hle. etrans; [exact Hrc|]. unfold connection_count, zlength in *. rewrite Hsc. by apply Hcount.
  - exists calls. rewrite Er, E, Ee. split_and!; [done|done|lia].
Qed.
End Facts.
