(* ===== verification/Client.v ===== *)
(** * The wire client and the node agent

    [WireClient] of [src/server.cpp], which numbers its requests and waits for the
    reply with the same number, and [AgentSession] of [src/agent.cpp], which answers
    evacuation requests with evidence and a report.  Where a loop ends only when the
    peer answers, it takes fuel and [None] is running out of it. *)

From S2P Require Import Prelude Containers Checked Result Text Json Codec Bytes Wire.
From S2P Require Import Identity Lifecycle Obligation Evidence Authority Server.
#[local] Open Scope Z_scope.

(** ** [WireClient] *)

Record WireClient (S : Type) := MkWireClient {
  cl_stream : FrameStream S;
  cl_welcome : json;
  cl_sequence : Z;
  cl_authority : AuthorityId;
  cl_session_token : AuthorityToken;
  cl_server_incarnation : Z;
  cl_server_epoch : Z;
}.
Arguments MkWireClient {S}.
Arguments cl_stream {S}.
Arguments cl_welcome {S}.
Arguments cl_sequence {S}.
Arguments cl_authority {S}.
Arguments cl_session_token {S}.
Arguments cl_server_incarnation {S}.
Arguments cl_server_epoch {S}.

#[export] Instance eta_WireClient {S} : Eta (WireClient S) := λ c,
  MkWireClient (cl_stream c) (cl_welcome c) (cl_sequence c) (cl_authority c) (cl_session_token c)
    (cl_server_incarnation c) (cl_server_epoch c).
#[export] Instance upd_cl_stream {S} : Update (@cl_stream S) := ltac:(solve_update (@cl_stream S)).
#[export] Instance upd_cl_welcome {S} : Update (@cl_welcome S) := ltac:(solve_update (@cl_welcome S)).
#[export] Instance upd_cl_sequence {S} : Update (@cl_sequence S) := ltac:(solve_update (@cl_sequence S)).
#[export] Instance upd_cl_authority {S} : Update (@cl_authority S) := ltac:(solve_update (@cl_authority S)).
#[export] Instance upd_cl_session_token {S} : Update (@cl_session_token S) := ltac:(solve_update (@cl_session_token S)).
#[export] Instance upd_cl_server_incarnation {S} : Update (@cl_server_incarnation S) := ltac:(solve_update (@cl_server_incarnation S)).
#[export] Instance upd_cl_server_epoch {S} : Update (@cl_server_epoch S) := ltac:(solve_update (@cl_server_epoch S)).
Arguments upd_cl_stream {S} f r /.
Arguments upd_cl_welcome {S} f r /.
Arguments upd_cl_sequence {S} f r /.
Arguments upd_cl_authority {S} f r /.
Arguments upd_cl_session_token {S} f r /.
Arguments upd_cl_server_incarnation {S} f r /.
Arguments upd_cl_server_epoch {S} f r /.

(** A default-constructed token. *)
Definition no_token : AuthorityToken := new_authority_token 0 "" 0 0 0 0 0.

(** The constructor. *)
Definition new_client {S} (stream : FrameStream S) (welcome : json) : WireClient S :=
  MkWireClient stream welcome 0 (get_uint "authority" 0 welcome) no_token (get_uint "incarnation" 0 welcome)
    (get_uint "epoch" 0 welcome).

(** The enumerators of [ErrorCode] in the order of their values, which the loop of
    [call] goes through. *)
Definition error_codes : list ErrorCode.t :=
  [ErrorCode.Ok; ErrorCode.InvalidArgument; ErrorCode.MalformedIdentity; ErrorCode.NotFound; ErrorCode.AlreadyExists;
   ErrorCode.DuplicateIdentity; ErrorCode.StaleGeneration; ErrorCode.StaleAuthority; ErrorCode.StaleEpoch;
   ErrorCode.StaleIncarnation; ErrorCode.StaleEvidence; ErrorCode.StaleRevision; ErrorCode.AdmissionClosed;
   ErrorCode.IllegalTransition; ErrorCode.PolicyViolation; ErrorCode.RedundancyViolation; ErrorCode.CapacityViolation;
   ErrorCode.DomainLimitViolation; ErrorCode.ProtectedObligationRemains; ErrorCode.AuthorityRequired;
   ErrorCode.PersistenceCorrupt; ErrorCode.PersistenceIo; ErrorCode.BoundsExceeded; ErrorCode.Cancelled;
   ErrorCode.Unsupported; ErrorCode.ProtocolError; ErrorCode.TransportError; ErrorCode.Busy; ErrorCode.ShuttingDown;
   ErrorCode.Internal; ErrorCode.Blocked].

Example error_codes_ranks : map ErrorCode.rank error_codes = seqZ 0 31.
Proof. reflexivity. Qed.

Definition mapped_code (code : string) : ErrorCode.t :=
  default ErrorCode.Internal (List.find (λ c, String.eqb code (ErrorCode.to_string c)) error_codes).

(** What [call] returns for the frame it waited for. *)
Definition frame_answer (frame : Frame) : result json :=
  if fr_type frame =? Msg.Failure then
    Err (Error (mapped_code (get_string "code" "" (fr_payload frame))) (get_string "message" "" (fr_payload frame)))
  else Ok (fr_payload frame).

Section Client.
Context {S : Type} (sock : SocketOps S) (connect : string → Z → result S).
#[local] Abbreviation WireClient := (WireClient S).

Definition client_valid (c : WireClient) : bool := so_valid sock (fs_socket (cl_stream c)).

(** [WireClient::send]. *)
Definition client_send (type : MessageType) (payload : json) (c : WireClient) : status * WireClient :=
  let c := c <| cl_sequence := wrap u32 (cl_sequence c + 1) |> in
  let '(sent, stream) := send_frame sock (MkFrame type (cl_sequence c) payload) (cl_stream c) in
  (sent, c <| cl_stream := stream |>).

(** [WireClient::receive]. *)
Definition client_receive (wait_ms : Z) (c : WireClient) : answer * WireClient :=
  let '(a, stream) := receive_now sock wait_ms (cl_stream c) in (a, c <| cl_stream := stream |>).

(** [WireClient::close]. *)
Definition client_close (c : WireClient) : status * WireClient :=
  let '(closed, stream) := close_stream sock (cl_stream c) in (closed, c <| cl_stream := stream |>).

(** The hello a client opens its session with. *)
Definition hello_payload (role : SessionRole.t) (node : string) : json :=
  obj [("protocol_version", JUint kWireProtocolVersion); ("role", JString (SessionRole.to_string role)); ("node", JString node)].

(** What the client keeps of the welcome. *)
Definition welcomed (payload : json) (c : WireClient) : WireClient :=
  let c := c <| cl_welcome := payload |> <| cl_authority := get_uint "authority" 0 payload |> in
  let c :=
    match json_find "authority_token" payload with
    | Some token => match token_from_presentation_json token with Ok t => c <| cl_session_token := t |> | Err _ => c end
    | None => c
    end in
  c <| cl_server_incarnation := get_uint "incarnation" 0 payload |> <| cl_server_epoch := get_uint "epoch" 0 payload |>.

(** [WireClient::connect_to]. *)
Definition wire_connect_to (host : string) (port : Z) (role : SessionRole.t) (node : string) (max_frame_bytes wait_ms : Z)
  : result WireClient :=
  let? socket := connect host port in
  let client := new_client (new_stream socket max_frame_bytes) jobject in
  match client_send Msg.Hello (hello_payload role node) client with
  | (Err err, _) => Err err
  | (Ok _, client) =>
      let '((outcome, received, error), client) := client_receive wait_ms client in
      match outcome, received with
      | StreamOutcome.Frame_, Some response =>
          if fr_type response =? Msg.Failure then
            fail ErrorCode.ProtocolError (get_string "message" "handshake refused" (fr_payload response))
          else if negb (fr_type response =? Msg.Welcome) then
            fail ErrorCode.ProtocolError "handshake did not produce a welcome frame"
          else Ok (welcomed (fr_payload response) client)
      | _, _ =>
          fail ErrorCode.TransportError
            ("no welcome frame from the controller: " ++s StreamOutcome.to_string outcome ++s " " ++s error)
      end
  end.

(** The loop of [WireClient::call]: frames with another number are dropped. *)
Fixpoint call_loop (fuel : nat) (wanted wait_ms : Z) (c : WireClient) : option (result json * WireClient) :=
  match fuel with
  | O => None
  | Datatypes.S fuel =>
      let '((outcome, received, error), c) := client_receive wait_ms c in
      match outcome, received with
      | StreamOutcome.Frame_, Some frame =>
          if negb (fr_sequence frame =? wanted) then call_loop fuel wanted wait_ms c else Some (frame_answer frame, c)
      | _, _ =>
          Some (fail ErrorCode.TransportError
                  ("no response frame: " ++s StreamOutcome.to_string outcome ++s " " ++s error), c)
      end
  end.

(** [WireClient::call]. *)
Definition client_call (fuel : nat) (type : MessageType) (payload : json) (wait_ms : Z) (c : WireClient)
  : option (result json * WireClient) :=
  match client_send type payload c with
  | (Err err, c) => Some (Err err, c)
  | (Ok _, c) => call_loop fuel (cl_sequence c) wait_ms c
  end.
End Client.

(** ** [AgentSession] *)

(** [drain::AgentOptions]. *)
Record AgentOptions := MkAgentOptions {
  ao_host : string;
  ao_port : Z;
  ao_node : string;
  ao_obligations : list Obligation;
  ao_max_frame_bytes : Z;
  ao_wait_ms : Z;
  ao_fail_evacuations : bool;
  ao_ignore_evacuations : bool;
}.

(** [drain::AgentSession]; a client that was never connected is [None]. *)
Record AgentSession (S : Type) := MkAgentSession {
  ag_options : AgentOptions;
  ag_client : option (WireClient S);
  ag_registered_ids : list ObligationId;
  ag_evacuations_handled : Z;
  ag_admissions_registered : Z;
  ag_reopens_handled : Z;
  ag_stopping : bool;
}.
Arguments MkAgentSession {S}.
Arguments ag_options {S}.
Arguments ag_client {S}.
Arguments ag_registered_ids {S}.
Arguments ag_evacuations_handled {S}.
Arguments ag_admissions_registered {S}.
Arguments ag_reopens_handled {S}.
Arguments ag_stopping {S}.

#[export] Instance eta_AgentSession {S} : Eta (AgentSession S) := λ a,
  MkAgentSession (ag_options a) (ag_client a) (ag_registered_ids a) (ag_evacuations_handled a) (ag_admissions_registered a)
    (ag_reopens_handled a) (ag_stopping a).
#[export] Instance upd_ag_client {S} : Update (@ag_client S) := ltac:(solve_update (@ag_client S)).
#[export] Instance upd_ag_registered_ids {S} : Update (@ag_registered_ids S) := ltac:(solve_update (@ag_registered_ids S)).
#[export] Instance upd_ag_evacuations_handled {S} : Update (@ag_evacuations_handled S) := ltac:(solve_update (@ag_evacuations_handled S)).
#[export] Instance upd_ag_admissions_registered {S} : Update (@ag_admissions_registered S) := ltac:(solve_update (@ag_admissions_registered S)).
#[export] Instance upd_ag_reopens_handled {S} : Update (@ag_reopens_handled S) := ltac:(solve_update (@ag_reopens_handled S)).
#[export] Instance upd_ag_stopping {S} : Update (@ag_stopping S) := ltac:(solve_update (@ag_stopping S)).
Arguments upd_ag_client {S} f r /.
Arguments upd_ag_registered_ids {S} f r /.
Arguments upd_ag_evacuations_handled {S} f r /.
Arguments upd_ag_admissions_registered {S} f r /.
Arguments upd_ag_reopens_handled {S} f r /.
Arguments upd_ag_stopping {S} f r /.

(** The constructor. *)
Definition new_agent {S} (options : AgentOptions) : AgentSession S := MkAgentSession options None [] 0 0 0 false.

(** The report and the acknowledgement an agent sends. *)
Definition agent_report (obligation expected_revision evidence drain generation : Z) (next : ObligationState.t) (note : string) : json :=
  obj [("report",
        obj [("obligation", JUint obligation); ("expected_revision", JUint expected_revision);
             ("next", JString (ObligationState.to_string next)); ("evidence", JUint evidence); ("drain", JUint drain);
             ("generation", JUint generation); ("note", JString note)])].
Definition acknowledgement (released : bool) : json := obj [("ok", JBool true); ("released", JBool released)].

(** The evidence an agent records for a release. *)
Definition release_evidence (seq drain obligation generation epoch producer : Z) (now : TimePoint) : Evidence :=
  MkEvidence seq (MkEvidenceKey EvidenceKind.ObligationReleased drain obligation "") generation epoch producer 0 now 0 true 0
    "agent released the obligation on request from the controller" false.

Section Agent.
Context {S : Type} (sock : SocketOps S) (connect : string → Z → result S).
#[local] Abbreviation AgentSession := (AgentSession S).

(** Steps that call the controller: out of fuel, or a result and the session. *)
Definition agent_run (A : Type) : Type := option (result A * AgentSession).
Definition and_then {A B} (m : agent_run A) (k : A → AgentSession → agent_run B) : agent_run B :=
  match m with
  | None => None
  | Some (Err err, a) => Some (Err err, a)
  | Some (Ok x, a) => k x a
  end.

(** [client_.valid()]. *)
Definition connected (a : AgentSession) : bool :=
  match ag_client a with Some c => client_valid sock c | None => false end.

(** [client_.call] and [client_.send] with the session's wait; a default-constructed
    client has no socket to send on. *)
Definition agent_call (fuel : nat) (type : MessageType) (payload : json) (a : AgentSession) : agent_run json :=
  match ag_client a with
  | None => Some (fail ErrorCode.TransportError "the agent session is not connected", a)
  | Some c =>
      match client_call sock fuel type payload (ao_wait_ms (ag_options a)) c with
      | None => None
      | Some (r, c) => Some (r, a <| ag_client := Some c |>)
      end
  end.
Definition agent_send (type : MessageType) (payload : json) (a : AgentSession) : status * AgentSession :=
  match ag_client a with
  | None => (fail ErrorCode.TransportError "the agent session is not connected", a)
  | Some c => let '(sent, c) := client_send sock type payload c in (sent, a <| ag_client := Some c |>)
  end.

(** [AgentSession::connect]. *)
Definition agent_connect (a : AgentSession) : status * AgentSession :=
  let o := ag_options a in
  match wire_connect_to sock connect (ao_host o) (ao_port o) SessionRole.Agent (ao_node o) (ao_max_frame_bytes o) (ao_wait_ms o) with
  | Err err => (Err err, a)
  | Ok client => (ok_status, a <| ag_client := Some client |>)
  end.

Definition session_token (a : AgentSession) : AuthorityToken :=
  match ag_client a with Some c => cl_session_token c | None => no_token end.

(** The admissions of [register_obligations]. *)
Fixpoint register_all (fuel : nat) (obligations : list Obligation) (a : AgentSession) : agent_run unit :=
  match obligations with
  | [] => Some (ok_status, a)
  | obligation :: obligations =>
      let payload := obj [("obligation", obligation_to_json obligation); ("generation", JUint 0);
                          ("authority", token_to_json (session_token a))] in
      and_then (agent_call fuel Msg.ObligationAdmit payload a) (λ response a,
        let a := a <| ag_registered_ids := ag_registered_ids a ++ [get_uint "obligation" 0 response] |> in
        register_all fuel obligations (a <| ag_admissions_registered := u64_inc (ag_admissions_registered a) |>))
  end.

(** [AgentSession::register_obligations]: the answer to the last call is not looked
    at. *)
Definition register_obligations (fuel : nat) (a : AgentSession) : agent_run unit :=
  if negb (connected a) then Some (fail ErrorCode.TransportError "the agent session is not connected", a)
  else
    and_then (register_all fuel (ao_obligations (ag_options a)) a) (λ _ a,
      if negb (is_nil (ag_registered_ids a)) then
        match agent_call fuel Msg.AdmissionReopen (obj [("node", JString (ao_node (ag_options a)))]) a with
        | None => None
        | Some (_, a) => Some (ok_status, a)
        end
      else Some (ok_status, a)).

(** [AgentSession::handle_evacuation]. *)
Definition handle_evacuation (fuel : nat) (now : TimePoint) (frame : Frame) (a : AgentSession) : agent_run unit :=
  let a := a <| ag_evacuations_handled := u64_inc (ag_evacuations_handled a) |> in
  let drain_id := get_uint "drain" 0 (fr_payload frame) in
  let obligation_id := get_uint "obligation" 0 (fr_payload frame) in
  let generation := get_uint "generation" 0 (fr_payload frame) in
  let expected_revision := get_uint "expected_revision" 0 (fr_payload frame) in
  let reserved_evidence := get_uint "evidence_seq" 0 (fr_payload frame) in
  let acknowledge (released : bool) (a : AgentSession) : agent_run unit :=
    Some (agent_send Msg.EvacuationResponse (acknowledgement released) a) in
  if ao_fail_evacuations (ag_options a) then
    and_then (agent_call fuel Msg.ObligationReport
                (agent_report obligation_id expected_revision 0 drain_id generation ObligationState.Failed
                   "the adjacent runtime reported evacuation failure") a)
      (λ _ a, acknowledge false a)
  else if ao_ignore_evacuations (ag_options a) then acknowledge false a
  else
    let recorded : agent_run EvidenceSeq :=
      if negb (reserved_evidence =? 0) then
        let epoch := match ag_client a with Some c => cl_server_epoch c | None => 0 end in
        let producer := match ag_client a with Some c => cl_server_incarnation c | None => 0 end in
        and_then (agent_call fuel Msg.EvidenceReport
                    (obj [("evidence", evidence_to_json
                             (release_evidence reserved_evidence drain_id obligation_id generation epoch producer now))]) a)
          (λ response a, Some (Ok (get_uint "seq" 0 response), a))
      else Some (Ok 0, a) in
    and_then recorded (λ released_seq a,
      and_then (agent_call fuel Msg.ObligationReport
                  (agent_report obligation_id expected_revision released_seq drain_id generation ObligationState.Released
                     "agent completed the requested release") a)
        (λ _ a, acknowledge true a)).

(** [AgentSession::handle_admission_reopen]. *)
Definition handle_admission_reopen (frame : Frame) (a : AgentSession) : status * AgentSession :=
  let a := a <| ag_reopens_handled := u64_inc (ag_reopens_handled a) |> in
  agent_send Msg.AdmissionReopenResponse
    (obj [("ok", JBool true); ("generation", default (JUint 0) (json_find "generation" (fr_payload frame)))]) a.

(** [AgentSession::poll_once]. *)
Definition agent_poll_once (fuel : nat) (now : TimePoint) (a : AgentSession) : agent_run unit :=
  match ag_client a with
  | None => Some (fail ErrorCode.TransportError "the agent session is not connected", a)
  | Some c =>
      if negb (client_valid sock c) then Some (fail ErrorCode.TransportError "the agent session is not connected", a)
      else
        let '((outcome, received, error), c) := client_receive sock (ao_wait_ms (ag_options a)) c in
        let a := a <| ag_client := Some c |> in
        match outcome, received with
        | StreamOutcome.Frame_, Some frame =>
            if fr_type frame =? Msg.EvacuationRequest then handle_evacuation fuel now frame a
            else if fr_type frame =? Msg.AdmissionReopen then Some (handle_admission_reopen frame a)
            else if fr_type frame =? Msg.Failure then
              Some (fail ErrorCode.ProtocolError ("controller refused: " ++s get_string "message" "" (fr_payload frame)), a)
            else Some (ok_status, a)
        | StreamOutcome.Closed, _ => Some (fail ErrorCode.TransportError "the controller closed the agent session", a)
        | StreamOutcome.Failed, _ | StreamOutcome.ProtocolError, _ =>
            Some (fail ErrorCode.ProtocolError ("agent session protocol error: " ++s error), a)
        | _, _ => Some (ok_status, a)
        end
  end.

(** [AgentSession::run_until]; [clock n] is the reading of the [n]-th turn. *)
Fixpoint agent_run_until (fuel : nat) (clock : nat → TimePoint) (handled_budget : Z) (a : AgentSession) : agent_run unit :=
  match fuel with
  | O => None
  | Datatypes.S fuel =>
      if ag_stopping a then Some (ok_status, a)
      else if negb (handled_budget =? 0) && (handled_budget <=? ag_evacuations_handled a) then Some (ok_status, a)
      else and_then (agent_poll_once fuel (clock fuel) a) (λ _ a, agent_run_until fuel clock handled_budget a)
  end.

(** [AgentSession::stop]. *)
Definition agent_stop (a : AgentSession) : status * AgentSession :=
  let a := a <| ag_stopping := true |> in
  match ag_client a with
  | None => (ok_status, a)
  | Some c => let '(closed, c) := client_close sock c in (closed, a <| ag_client := Some c |>)
  end.
End Agent.
