(* ===== verification/Serving.v ===== *)
(** * Claims about the controller and its clients

    A frame is one operation of the engine, a serving controller is a history of
    them, a handshake ends in an authority the engine accepts, and a call returns
    the reply to it and nothing else. *)

From S2P Require Import Prelude Containers Checked Result Text Json JsonFacts JsonText JsonBounds Codec CodecTables CodecFabric CodecPolicy.
From S2P Require Import Bytes Wire WireFacts Identity Lifecycle Obligation Evidence Authority Admission Topology Policy Decision.
From S2P Require Import Protocol Engine Snapshot Explain EngineStep EngineOps EngineInv EngineRefine EngineReach Scenario Transport Server ServerFacts Client.
#[local] Open Scope Z_scope.

(** ** A small controller *)

(** Sockets are byte queues, and the listener is a queue of them. *)
Definition doorway : ListenerOps (list Z) (list (list Z)) := {|
  lo_listen_on _ _ _ := Ok ([], 7000);
  lo_valid _ := true;
  lo_accept_one _ waiting :=
    match waiting with [] => (inr (AcceptOutcome.TimedOut, ""), []) | s :: waiting => (inl s, waiting) end;
  lo_close l := (ok_status, l);
|}.

Definition small_options : ServerOptions := MkServerOptions "127.0.0.1" 0 2 1 4 4096 20 20 (60 * Demo.second).
Definition ticking (n : nat) : TimePoint := 4 * Demo.second + Z.of_nat n.
Definition image_of (f : Frame) : list Z := match encode_frame f 4096 with Ok data => data | Err _ => [] end.

(** A client that says hello and then asks for a status. *)
Definition greeting : Frame := MkFrame Msg.Hello 1 (hello_payload SessionRole.Client "node-1").
Definition caller : list Z := image_of greeting ++ image_of (MkFrame Msg.StatusRequest 2 jobject).
Definition small_server : server (list Z) (list (list Z)) :=
  MkServer small_options Demo.requested_engine true (Some [caller]) 7000 [] false 0 0 0 0 0.
Definition free (_ : nat) : bool := false.

(** ** One frame *)

(** A frame is a request for at most one operation. *)
Lemma frame_op_functional {S L} clock i frame (v : server S L) o o' :
  frame_op clock i frame v o → frame_op clock i frame v o' → o = o'.
Proof.
  assert (∀ a a', caller_authority clock i (fr_payload frame) v a → caller_authority clock i (fr_payload frame) v a' → a = a') as Ha.
  { unfold caller_authority. intros a a'. destruct (json_find _ _).
    - intros (t & H1 & _ & ->) (t' & H2 & _ & ->). congruence.
    - intros [H1 _] [H2 _]. congruence. }
  destruct 1; destruct 1;
    try (match goal with H1 : fr_type frame = _, H2 : fr_type frame = _ |- _ => rewrite H1 in H2; discriminate H2 end);
    repeat match goal with H1 : caller_authority _ _ _ _ ?a, H2 : caller_authority _ _ _ _ ?b |- _ =>
      pose proof (Ha _ _ H1 H2) as ->; clear H1 end; congruence.
Qed.

(** C26: one frame, one operation.  Handling a frame runs exactly the operation of
    the engine that the frame is a request for, once, with the caller's authority and
    at a reading of the clock; a frame that is not a request for one (a query, a
    malformed body, a session that has not said hello, a caller without authority)
    leaves the engine as it was.  Which operation it is, is determined. *)
Theorem one_frame_one_operation {S L} (sock : SocketOps S) clock contended i frame (v : server S L) :
  let v' := (handle_frame sock clock contended i frame v).2 in
  (∃ o sink n, frame_op clock i frame v o ∧ (∀ o', frame_op clock i frame v o' → o' = o) ∧
     sv_engine v' = exec sink o (clock n) (sv_engine v)) ∨
  (sv_engine v' = sv_engine v ∧ ∀ o, ¬ frame_op clock i frame v o).
Proof.
  cbn zeta. destruct (handle_frame_does sock clock contended i frame v) as [_ [(o & sink & n & Ho & He)|H]]; [left|by right].
  exists o, sink, n. split_and!; [done| |done]. intros o' Ho'. by eapply frame_op_functional.
Qed.

(** ** Serving *)

Section Serving.
Context {S L : Type} (sock : SocketOps S) (lsn : ListenerOps S L).
Context (clock : nat → TimePoint) (contended : nat → bool).

(** One poll, whether it succeeds or not. *)
Definition poll_step (v v' : server S L) : Prop := ∃ st, poll_once sock lsn clock contended v = (st, v').

Lemma run_until_polls fuel budget v st v' :
  run_until sock lsn clock contended fuel budget v = Some (st, v') → rtc poll_step v v'.
Proof.
  revert v. induction fuel as [|fuel IH]; intros v; cbn [run_until]; [done|].
  destruct (sv_stopping v); [by intros [= _ ->]|]. destruct (_ && _); [by intros [= _ ->]|].
  destruct (poll_once _ _ _ _ v) as [[x|err] v1] eqn:Hp.
  - intros Hr. eapply rtc_l; [by eexists|by apply IH].
  - intros [= _ ->]. apply rtc_once. by eexists.
Qed.

Lemma polls_replay v v' : server_wf v → rtc poll_step v v' →
  server_wf v' ∧ sv_options v' = sv_options v ∧
  (connection_count v ≤ so_max_connections (sv_options v) → connection_count v' ≤ so_max_connections (sv_options v)) ∧
  ∃ calls, sv_engine v' = replay calls (sv_engine v) ∧ Forall (λ c, caused (S := S) (L := L) clock (ca_op c)) calls.
Proof.
  intros Hwf Hr. revert Hwf. induction Hr as [v|v v1 v2 [st Hp] _ IH]; intros Hwf.
  - split_and!; try done. by exists [].
  - destruct (poll_once_polled _ _ _ _ _ _ _ Hp Hwf) as [Hwf1 Ho Hc (c1 & E1 & F1 & _)].
    destruct (IH Hwf1) as (Hwf2 & Ho2 & Hc2 & c2 & E2 & F2). rewrite Ho in Hc2. split_and!; [done|congruence|auto|].
    exists (c1 ++ c2). split; [by rewrite replay_app, E2, E1|by apply Forall_app].
Qed.
End Serving.

(** C34: serving is a history of public operations.  Whatever the sockets, the
    listener, the clock and the other threads do, any number of polls of the
    controller, failing ones included, changes the engine only by a sequence of
    calls, each a scheduling pass or the operation a decoded frame asked for; so an
    engine reachable before is reachable after, while the counters have room, and
    everything proved of reachable engines holds of a served one.  The polls keep the
    sessions' frame bounds and never exceed the configured number of sessions. *)
Theorem serving_is_a_history {S L} (sock : SocketOps S) (lsn : ListenerOps S L) clock contended v v' :
  server_wf v → rtc (poll_step sock lsn clock contended) v v' →
  server_wf v' ∧
  (connection_count v ≤ so_max_connections (sv_options v) → connection_count v' ≤ so_max_connections (sv_options v)) ∧
  ∃ calls, sv_engine v' = replay calls (sv_engine v) ∧ Forall (λ c, caused (S := S) (L := L) clock (ca_op c)) calls ∧
    (roomy calls (sv_engine v) → reachable any_op (sv_engine v) → reachable any_op (sv_engine v')).
Proof.
  intros Hwf Hr. destruct (polls_replay _ _ _ _ _ _ Hwf Hr) as (H1 & _ & H3 & calls & E & F). split_and!; [done|done|].
  exists calls. split_and!; [done|done|]. intros Hroom [p Hp]. exists p. eapply history_app; [exact Hp|].
  rewrite E. by eapply replay_history.
Qed.

Lemma serving_is_a_history_witness :
  let v := small_server in
  let v' := (poll_once drip doorway ticking free v).2 in
  server_wf v' ∧
  (connection_count v ≤ so_max_connections (sv_options v) → connection_count v' ≤ so_max_connections (sv_options v)) ∧
  ∃ calls, sv_engine v' = replay calls (sv_engine v) ∧
    Forall (λ c, caused (S := list Z) (L := list (list Z)) ticking (ca_op c)) calls ∧
    (roomy calls (sv_engine v) → reachable any_op (sv_engine v) → reachable any_op (sv_engine v')).
Proof.
  apply (serving_is_a_history drip doorway ticking free small_server).
  - split; [vm_compute; split; discriminate|constructor].
  - apply rtc_once. eexists. apply surjective_pairing.
Defined.

(** Two polls greet the client and answer it, and the scheduler moves on with each. *)
Example small_server_serves :
  let v := (poll_once drip doorway ticking free (poll_once drip doorway ticking free small_server).2).2 in
  map (λ c, (cn_greeted c, cn_node c, cn_authority c)) (sv_connections v) = [(true, "node-1", 2)] ∧
  sv_served_requests v = 1 ∧ map dr_state (om_values (en_drains (sv_engine v))) = [DrainState.AdmissionClosed].
Proof. vm_compute. done. Qed.

(** ** The handshake *)

Lemma role_roundtrip role : session_role_from_string (SessionRole.to_string role) = Some role.
Proof. by destruct role. Qed.

(** The welcome the server sends. *)
Definition welcome_payload (token : AuthorityToken) (role : SessionRole.t) (e : engine) : json :=
  obj [("ok", JBool true); ("protocol_version", JUint kWireProtocolVersion);
       ("incarnation", JUint (ar_incarnation (en_authority e))); ("epoch", JUint (ar_epoch (en_authority e)));
       ("authority", JUint (at_id token)); ("authority_token", token_to_json token);
       ("role", JString (SessionRole.to_string role))].

(** What a client keeps of it. *)
Lemma welcomed_spec {S} token role e (cl : WireClient S) :
  storable token = true → at_revoked token = false → at_revoked_at token = 0 → at_revocation_reason token = "" →
  let cl' := welcomed (welcome_payload token role e) cl in
  cl_session_token cl' = token ∧ cl_authority cl' = at_id token ∧ cl_server_incarnation cl' = ar_incarnation (en_authority e) ∧
  cl_server_epoch cl' = ar_epoch (en_authority e).
Proof.
  intros H1 H2 H3 H4. pose proof (token_presentation token H1 H2 H3 H4) as Hp. cbn zeta. unfold welcomed.
  assert (json_find "authority_token" (welcome_payload token role e) = Some (token_to_json token)) as -> by reflexivity.
  rewrite Hp. split_and!; reflexivity.
Qed.

Lemma issued_is_fresh scope at_ validity r token r' :
  ar_issue scope at_ validity r = (Ok token, r') →
  at_revoked_at token = 0 ∧ at_revocation_reason token = "" ∧ at_issued_at token = at_.
Proof. unfold ar_issue. repeat case_step; by intros [= <- _]. Qed.

Lemma time_ok_add t d : time_ok t = true → time_ok d = true → time_ok (saturating_add t d) = true.
Proof.
  unfold time_ok. rewrite !andb_true_iff, !Z.leb_le. intros [H1 H2] [H3 H4]. assert (int_min i64 ≤ 0) by done.
  assert (in_range i64 t ∧ in_range i64 d) as [Ht Hd] by (split; split; lia). rewrite saturating_add_clamp by done. lia.
Qed.

(** The fresh token is accepted until it expires. *)
Lemma issued_is_valid scope at_ validity r token r' now :
  registry_wf r → ar_issue scope at_ validity r = (Ok token, r') →
  validity = 0 ∨ now ≤ saturating_add at_ validity → ar_validate token now r' = ok_status.
Proof.
  intros Hwf Hi Hnow. destruct (ar_issue_Ok _ _ _ _ _ _ Hwf Hi)
    as (_ & Es & Eg & Ee & Ei & Er & Ex & _ & Et & _ & _ & Ee' & Ei' & Eg').
  apply ar_validate_ok. unfold ar_find. rewrite Et, om_lookup_insert_eq. split_and!; [by eexists|congruence|congruence| |].
  - rewrite Eg, Es. unfold scope_generation. by rewrite Eg'.
  - unfold expired_at. rewrite Ex. destruct (Z.eqb_spec validity 0) as [->|]; [done|].
    destruct Hnow as [|Hnow]; [done|]. apply andb_false_iff. right. by apply Z.ltb_ge.
Qed.

Section Handshake.
Context {S L : Type} (sock : SocketOps S) (clock : nat → TimePoint) (contended : nat → bool).

Lemma hello_handled i seq role node (v : server S L) c token a :
  sv_connections v !! i = Some c → slug_ok node = true →
  ar_issue "" (clock (sv_reads v)) (so_authority_validity (sv_options v)) (en_authority (sv_engine v)) = (Ok token, a) →
  let '(handled, v') := handle_frame sock clock contended i (MkFrame Msg.Hello seq (hello_payload role node)) v in
  let '(sent, stream) := send_frame sock (MkFrame Msg.Welcome seq (welcome_payload token role (sv_engine v'))) (cn_stream c) in
  handled = sent ∧ en_authority (sv_engine v') = a ∧
  sv_connections v' = <[i := MkConnection stream (cn_peer c) node role true (cn_closing c) (at_id token) (cn_last_sequence c)]>
                        (sv_connections v).
Proof.
  intros Hc Hn Hi. assert (parse_node (hello_payload role node) "node" = Ok node) as Hp.
  { unfold parse_node. change (get_string "node" "" (hello_payload role node)) with node.
    destruct (String.eqb_spec node "") as [->|Hne]; [done|]. unfold slug_ok in Hn. rewrite bool_decide_false in Hn by done.
    cbn in Hn. unfold slug_parse. by rewrite Hn. }
  unfold handle_frame. cbn [fr_type]. rewrite Z.eqb_refl, andb_false_r. cbn [negb].
  unfold dispatch_frame. cbn [fr_type]. rewrite Z.eqb_refl. unfold handle_hello. cbn [fr_payload].
  change (get_uint "protocol_version" 0 (hello_payload role node)) with kWireProtocolVersion. rewrite Z.eqb_refl. cbn [negb].
  change (get_string "role" "client" (hello_payload role node)) with (SessionRole.to_string role). rewrite role_roundtrip, Hp.
  cbn [read_clock]. unfold issue_authority.
  change (sv_engine (v <| sv_reads := _ |>)) with (sv_engine v). change (sv_options (v <| sv_reads := _ |>)) with (sv_options v).
  rewrite Hi. cbv zeta. unfold reply, server_send, update_connection. cbn [fr_sequence].
  set (e' := record_decision _ _). set (f := λ c : Connection S, _).
  match goal with |- context [sv_connections ?v0 !! i] =>
    replace (sv_connections v0) with (alter f i (sv_connections v)) by reflexivity end.
  rewrite list_lookup_alter_eq, Hc. cbn [fmap option_fmap option_map].
  unfold send_to. change (cn_stream (f c)) with (cn_stream c).
  destruct (send_frame sock _ (cn_stream c)) as [sent stream] eqn:Hs. cbv beta iota.
  match type of Hs with ?t = _ =>
    match goal with |- context [send_frame sock ?w (cn_stream c)] => change (send_frame sock w (cn_stream c)) with t end end.
  rewrite Hs. split_and!; [done|done|]. change (<[i := f c <| cn_stream := stream |>]> (alter f i (sv_connections v)) =
    <[i := f c <| cn_stream := stream |>]> (sv_connections v)).
  apply list_eq. intros k. rewrite !list_lookup_insert, length_alter, list_lookup_alter.
  apply lookup_lt_Some in Hc. repeat case_decide; subst; tauto.
Qed.
End Handshake.

(** C17: the handshake ends in an authority the engine accepts.  A client's hello on
    a session of a controller that can issue a token is answered with a welcome; the
    session is then a greeted one with the client's role and node, acting under a
    fresh token; what the client reads out of the welcome is that very token with the
    controller's incarnation and epoch; and the engine accepts the token from then
    on until its validity has passed, so a request that presents it speaks with it. *)
Theorem handshake_grants_authority {S L} (sock : SocketOps S) clock contended i seq role node (v : server S L) c token a :
  engine_wf (sv_engine v) → sv_connections v !! i = Some c → slug_ok node = true →
  time_ok (clock (sv_reads v)) = true → time_ok (so_authority_validity (sv_options v)) = true →
  ar_issue "" (clock (sv_reads v)) (so_authority_validity (sv_options v)) (en_authority (sv_engine v)) = (Ok token, a) →
  let v' := (handle_frame sock clock contended i (MkFrame Msg.Hello seq (hello_payload role node)) v).2 in
  ∃ c' welcome,
    sv_connections v' !! i = Some c' ∧
    cn_stream c' = (send_frame sock (MkFrame Msg.Welcome seq welcome) (cn_stream c)).2 ∧
    cn_greeted c' = true ∧ cn_role c' = role ∧ cn_node c' = node ∧ cn_authority c' = at_id token ∧
    ar_find (at_id token) (en_authority (sv_engine v)) = None ∧
    (∀ cl : WireClient S, cl_session_token (welcomed welcome cl) = token ∧ cl_authority (welcomed welcome cl) = at_id token ∧
       cl_server_incarnation (welcomed welcome cl) = ar_incarnation (en_authority (sv_engine v')) ∧
       cl_server_epoch (welcomed welcome cl) = ar_epoch (en_authority (sv_engine v'))) ∧
    ∀ now, so_authority_validity (sv_options v) = 0 ∨
        now ≤ saturating_add (clock (sv_reads v)) (so_authority_validity (sv_options v)) →
      validate_authority token now (sv_engine v') = ok_status.
Proof.
  intros Hwf Hc Hn Ht Hv Hi. pose proof (hello_handled sock clock contended i seq role node v c token a Hc Hn Hi) as Hh.
  destruct (handle_frame _ _ _ _ _ _) as [handled v']. cbn [snd].
  destruct (send_frame _ _ _) as [sent stream] eqn:Hs. destruct Hh as (_ & Ea & Ec).
  destruct (ar_issue_Ok _ _ _ _ _ _ (ew_authority _ Hwf) Hi) as (Hid & Es & _ & _ & _ & Er & Ex & Hf & _ & _ & Hr & _).
  exists (MkConnection stream (cn_peer c) node role true (cn_closing c) (at_id token) (cn_last_sequence c)),
    (welcome_payload token role (sv_engine v')).
  split_and!; try done.
  - rewrite Ec. apply list_lookup_insert_eq. by eapply lookup_lt_Some.
  - by rewrite Hs.
  - intros cl. destruct (issued_is_fresh _ _ _ _ _ _ Hi) as (E1 & E2 & E3). apply welcomed_spec; try done. cbn.
    assert (0 ≤ ar_high_water (en_authority (sv_engine v))) as Hh0 by apply (ew_authority _ Hwf).
    rewrite Es, E1, E3, Ex, Ht, (proj2 (Z.eqb_neq _ 0)) by lia. destruct (_ =? 0); [done|]. by rewrite time_ok_add.
  - intros now Hnow. unfold validate_authority. rewrite Ea. by eapply issued_is_valid; [apply Hwf|..].
Qed.

Definition seated : server (list Z) (list (list Z)) :=
  small_server <| sv_connections := [new_connection (new_stream [] 4096) "127.0.0.1"] |>.
Definition seated_token : AuthorityToken := new_authority_token 2 "" 0 1 1 (ticking 0) (ticking 0 + 60 * Demo.second).
Lemma handshake_grants_authority_witness :
  let v' := (handle_frame drip ticking free 0 greeting seated).2 in
  ∃ c' welcome,
    sv_connections v' !! 0%nat = Some c' ∧
    cn_stream c' = (send_frame drip (MkFrame Msg.Welcome 1 welcome) (new_stream [] 4096)).2 ∧
    cn_greeted c' = true ∧ cn_role c' = SessionRole.Client ∧ cn_node c' = "node-1" ∧ cn_authority c' = at_id seated_token ∧
    ar_find (at_id seated_token) (en_authority (sv_engine seated)) = None ∧
    (∀ cl : WireClient (list Z), cl_session_token (welcomed welcome cl) = seated_token ∧
       cl_authority (welcomed welcome cl) = at_id seated_token ∧
       cl_server_incarnation (welcomed welcome cl) = ar_incarnation (en_authority (sv_engine v')) ∧
       cl_server_epoch (welcomed welcome cl) = ar_epoch (en_authority (sv_engine v'))) ∧
    ∀ now, so_authority_validity (sv_options seated) = 0 ∨
        now ≤ saturating_add (ticking 0) (so_authority_validity (sv_options seated)) →
      validate_authority seated_token now (sv_engine v') = ok_status.
Proof.
  apply (handshake_grants_authority drip ticking free 0 1 SessionRole.Client "node-1" seated
    (new_connection (new_stream [] 4096) "127.0.0.1") seated_token
    (ar_issue "" (ticking 0) (60 * Demo.second) (en_authority Demo.requested_engine)).2).
  - apply history_wf, requested_history. done.
  - reflexivity.
  - reflexivity.
  - vm_compute. reflexivity.
  - vm_compute. reflexivity.
  - vm_compute. reflexivity.
Defined.

(** ** Calls *)

Lemma failure_answer seq code message :
  frame_answer (MkFrame Msg.Failure seq (failure_payload code message)) = Err (Error code message).
Proof.
  unfold frame_answer. cbn [fr_type fr_payload]. rewrite Z.eqb_refl.
  change (get_string "code" "" (failure_payload code message)) with (ErrorCode.to_string code).
  change (get_string "message" "" (failure_payload code message)) with message. by destruct code.
Qed.

Section Calls.
Context {S : Type} (sock : SocketOps S) (inflight : S → list Z) `{!Delivers sock inflight, !Live sock inflight}.
Context (max : Z) (Hmax : 0 ≤ max ≤ int_max u64).

(** A frame and its image. *)
Definition travels (p : Frame * list Z) : Prop := frame_sendable max p.1 = true ∧ encode_frame p.1 max = Ok p.2.

(** The client's stream is open and [bytes] are on their way to it. *)
Definition awaits (bytes : list Z) (c : WireClient S) : Prop :=
  fs_max_payload_bytes (cl_stream c) = max ∧ fs_closed (cl_stream c) = false ∧
  so_valid sock (fs_socket (cl_stream c)) = true ∧ outstanding_bytes inflight (cl_stream c) = bytes.

Lemma client_receive_gets wait_ms p rest c :
  travels p → awaits (p.2 ++ rest) c → 0 < wait_ms →
  ∃ c', client_receive sock wait_ms c = ((StreamOutcome.Frame_, Some p.1, ""), c') ∧ awaits rest c' ∧
    cl_sequence c' = cl_sequence c.
Proof.
  intros [Hs He] (Hm & Hc & Hv & Ho) Hw. unfold client_receive.
  destruct (receive_now_gets sock inflight max Hmax p.1 p.2 Hs He wait_ms (cl_stream c) rest) as (st' & -> & H1 & H2 & H3 & H4); try done.
  eexists. split; [done|]. by split_and!.
Qed.

Lemma call_loop_gets wait_ms wanted pushed reply rest fuel c :
  0 < wait_ms → Forall travels pushed → Forall (λ p, fr_sequence p.1 ≠ wanted) pushed → travels reply →
  fr_sequence reply.1 = wanted → awaits (mjoin (snd <$> pushed) ++ reply.2 ++ rest) c → (length pushed < fuel)%nat →
  ∃ c', call_loop sock fuel wanted wait_ms c = Some (frame_answer reply.1, c') ∧ awaits rest c' ∧ cl_sequence c' = cl_sequence c.
Proof.
  intros Hw Ht Hne Hr Hseq. revert c fuel. induction pushed as [|p pushed IH]; intros c fuel Ha Hf;
    (destruct fuel as [|fuel]; [simpl in Hf; lia|]); cbn [call_loop].
  - destruct (client_receive_gets wait_ms reply rest c Hr Ha Hw) as (c' & -> & Ha' & Hs').
    rewrite Hseq, Z.eqb_refl. cbn [negb]. by exists c'.
  - apply Forall_cons in Ht as [Ht1 Ht]. apply Forall_cons in Hne as [Hn1 Hne].
    assert (awaits (p.2 ++ mjoin (snd <$> pushed) ++ reply.2 ++ rest) c) as Hp by (by rewrite app_assoc).
    destruct (client_receive_gets wait_ms p _ c Ht1 Hp Hw) as (c1 & -> & Ha1 & Hs1).
    rewrite (proj2 (Z.eqb_neq _ _) Hn1). cbn [negb].
    destruct (IH Ht Hne c1 fuel) as (c' & -> & ? & ?); [done|simpl in Hf; lia|]. exists c'. split_and!; congruence || done.
Qed.
End Calls.

(** C33: a call returns its reply.  After a request went out, whatever frames with
    other numbers arrive first and however the socket cuts the bytes up, the call
    takes exactly those frames off the stream, returns what the frame numbered like
    the request says, and leaves everything behind it for the next call; one turn per
    frame is enough.  A failure the controller sent comes back as the very error, code
    and message, that the controller reported, for each of its codes. *)
Theorem call_returns_the_reply {S} (sock : SocketOps S) (inflight : S → list Z)
    `{!Delivers sock inflight, !Live sock inflight} max type payload wait_ms (c c1 : WireClient S) pushed reply rest fuel :
  0 ≤ max ≤ int_max u64 → 0 < wait_ms → client_send sock type payload c = (ok_status, c1) →
  Forall (travels max) pushed → Forall (λ p, fr_sequence p.1 ≠ cl_sequence c1) pushed →
  travels max reply → fr_sequence reply.1 = cl_sequence c1 →
  awaits sock inflight max (mjoin (snd <$> pushed) ++ reply.2 ++ rest) c1 → (length pushed < fuel)%nat →
  ∃ c', client_call sock fuel type payload wait_ms c = Some (frame_answer reply.1, c') ∧
    awaits sock inflight max rest c' ∧ cl_sequence c' = wrap u32 (cl_sequence c + 1) ∧
    ∀ code message, fr_type reply.1 = Msg.Failure → fr_payload reply.1 = failure_payload code message →
      frame_answer reply.1 = Err (Error code message).
Proof.
  intros Hmax Hw Hsend Ht Hne Hr Hseq Ha Hf. unfold client_call. rewrite Hsend. cbv beta iota.
  destruct (call_loop_gets sock inflight max Hmax wait_ms (cl_sequence c1) pushed reply rest fuel c1) as (c' & -> & H1 & H2); try done.
  exists c'. split_and!; try done.
  - rewrite H2. unfold client_send in Hsend. destruct (send_frame _ _ _) as [sent st]. by injection Hsend as _ <-.
  - intros code message E1 E2. destruct reply as [[t s p] d]. cbn in *. subst. apply failure_answer.
Qed.

(** A socket with a queue each way. *)
Definition duplex : SocketOps (list Z * list Z) := {|
  so_valid _ := true;
  so_wait_readable _ s := (if is_nil s.1 then AcceptOutcome.TimedOut else AcceptOutcome.Accepted, "", s);
  so_receive_some n s := (Ok (take (Z.to_nat (Z.min n 7)) s.1), (drop (Z.to_nat (Z.min n 7)) s.1, s.2));
  so_send_all bytes s := (ok_status, (s.1, s.2 ++ bytes));
  so_close s := (ok_status, s);
|}.

#[export] Instance duplex_delivers : Delivers duplex fst.
Proof.
  split.
  - intros n s o err s'. simpl. by intros [= _ _ <-].
  - intros n s bs s'. simpl. intros [= <- <-]. cbn. rewrite take_drop. unfold zlength. rewrite length_take.
    split_and!; [done|lia|done].
Qed.

#[export] Instance duplex_live : Live duplex fst.
Proof.
  split.
  - intros n s Hne. simpl. exists "", s. by destruct s as [[|]].
  - intros n s Hne Hn. simpl. do 2 eexists. split; [done|]. destruct s as [[|b s] ?]; [done|]. cbn.
    destruct (Z.to_nat (Z.min n 7)) eqn:E; [lia|done].
Qed.

(** A push arrives before the refusal the client is waiting for. *)
Definition pushed_frame : Frame := MkFrame Msg.AdmissionReopen 0 (obj [("generation", JUint 2)]).
Definition refusal : Frame := MkFrame Msg.Failure 1 (failure_payload ErrorCode.StaleGeneration "generation 1 is over").
Definition waiting_client : WireClient (list Z * list Z) :=
  new_client (new_stream (image_of pushed_frame ++ image_of refusal ++ [1; 2], []) 4096) jobject.
Lemma call_returns_the_reply_witness :
  ∃ c', client_call duplex 2 Msg.CancelRequest (obj [("drain", JUint 1)]) 100 waiting_client
        = Some (frame_answer refusal, c') ∧
    awaits duplex fst 4096 [1; 2] c' ∧ cl_sequence c' = wrap u32 (0 + 1) ∧
    ∀ code message, fr_type refusal = Msg.Failure → fr_payload refusal = failure_payload code message →
      frame_answer refusal = Err (Error code message).
Proof.
  apply (call_returns_the_reply duplex fst 4096 Msg.CancelRequest (obj [("drain", JUint 1)]) 100 waiting_client
    (client_send duplex Msg.CancelRequest (obj [("drain", JUint 1)]) waiting_client).2
    [(pushed_frame, image_of pushed_frame)] (refusal, image_of refusal) [1; 2] 2).
  - split; [lia|vm_compute; discriminate].
  - lia.
  - vm_compute. reflexivity.
  - constructor; [split; vm_compute; reflexivity|constructor].
  - constructor; [vm_compute; discriminate|constructor].
  - split; vm_compute; reflexivity.
  - vm_compute. reflexivity.
  - split_and!; vm_compute; reflexivity.
  - simpl. lia.
Defined.
