(* ===== verification/Conversation.v ===== *)
(** * Claims about the conversation between the controller and its agents

    What an agent answers to an evacuation request, what the controller makes of the
    answer, and a complete drain run by a controller and an agent over an in-process
    connection. *)

From S2P Require Import Prelude Containers Checked Result Text Json JsonFacts JsonText JsonBounds Codec CodecTables CodecFabric CodecPolicy.
From S2P Require Import Bytes Wire WireFacts Identity Lifecycle Obligation Evidence Authority Admission Topology Policy Decision.
From S2P Require Import Protocol Engine Snapshot Explain EngineStep EngineOps EngineInv EngineRefine EngineReach Scenario Progress Transport Server ServerFacts Client Serving.
#[local] Open Scope Z_scope.

(** ** The answer to an evacuation request *)

Section Answer.
Context (request : EvacuationRequest).

(** The evidence the agent produces at [observed], and the report that refers to it. *)
Definition answer_evidence (epoch producer : Z) (observed : TimePoint) : Evidence :=
  release_evidence (er_evidence_seq request) (er_drain request) (er_obligation request) (er_generation request) epoch producer
    observed.
Definition evidence_answer (epoch producer : Z) (observed : TimePoint) : json :=
  obj [("evidence", evidence_to_json (answer_evidence epoch producer observed))].

Definition answer_note : string := "agent completed the requested release".
Definition answer_report (seq : EvidenceSeq) : ObligationReport :=
  MkObligationReport (er_obligation request) (er_expected_revision request) ObligationState.Released seq (er_drain request)
    (er_generation request) 0 answer_note.
Definition report_answer (seq : EvidenceSeq) : json :=
  agent_report (er_obligation request) (er_expected_revision request) seq (er_drain request) (er_generation request)
    ObligationState.Released answer_note.

(** What the agent does with the request, step by step. *)
Lemma handle_evacuation_answers {S} (sock : SocketOps S) fuel now number (a : AgentSession S) :
  ao_fail_evacuations (ag_options a) = false → ao_ignore_evacuations (ag_options a) = false → er_evidence_seq request ≠ 0 →
  let a0 := a <| ag_evacuations_handled := u64_inc (ag_evacuations_handled a) |> in
  handle_evacuation sock fuel now (MkFrame Msg.EvacuationRequest number (evacuation_payload request)) a =
  and_then (agent_call sock fuel Msg.EvidenceReport
              (evidence_answer (default 0 (cl_server_epoch <$> ag_client a)) (default 0 (cl_server_incarnation <$> ag_client a)) now) a0)
    (λ response a, and_then (agent_call sock fuel Msg.ObligationReport (report_answer (get_uint "seq" 0 response)) a)
      (λ _ a, Some (agent_send sock Msg.EvacuationResponse (acknowledgement true) a))).
Proof.
  intros Hf Hi Hs. unfold handle_evacuation. cbn [fr_payload].
  change (get_uint "evidence_seq" 0 (evacuation_payload request)) with (er_evidence_seq request).
  change (get_uint "drain" 0 (evacuation_payload request)) with (er_drain request).
  change (get_uint "obligation" 0 (evacuation_payload request)) with (er_obligation request).
  change (get_uint "generation" 0 (evacuation_payload request)) with (er_generation request).
  change (get_uint "expected_revision" 0 (evacuation_payload request)) with (er_expected_revision request).
  cbv zeta. change (ag_options (a <| ag_evacuations_handled := _ |>)) with (ag_options a).
  change (ag_client (a <| ag_evacuations_handled := _ |>)) with (ag_client a).
  rewrite Hf, Hi, (proj2 (Z.eqb_neq _ _) Hs). cbn [negb]. unfold evidence_answer, answer_evidence.
  destruct (ag_client a) as [c|]; cbn [fmap option_fmap option_map default];
    (destruct (agent_call sock fuel Msg.EvidenceReport _ _) as [[[resp|err] a1]|]; reflexivity).
Qed.

(** What the frames of the answer are requests for, on any greeted session. *)
Lemma evidence_answer_asks {S L} clock i (v : server S L) number epoch producer observed :
  greeted i v → er_evidence_seq request ≠ 0 → time_ok observed = true →
  frame_op clock i (MkFrame Msg.EvidenceReport number (evidence_answer epoch producer observed)) v
    (OpEvidence (answer_evidence epoch producer observed)).
Proof.
  intros Hg Hs Ht. apply (fo_evidence clock i _ v (evidence_to_json (answer_evidence epoch producer observed))); [done|done|reflexivity|]. rewrite evidence_roundtrip; [done|]. cbn.
  by rewrite (proj2 (Z.eqb_neq _ _) Hs), Ht.
Qed.

Lemma report_answer_asks {S L} clock i (v : server S L) number seq :
  greeted i v → frame_op clock i (MkFrame Msg.ObligationReport number (report_answer seq)) v (OpReport (answer_report seq)).
Proof.
  intros Hg. set (frame := MkFrame Msg.ObligationReport number (report_answer seq)).
  set (body := obj [("obligation", JUint (er_obligation request)); ("expected_revision", JUint (er_expected_revision request));
    ("next", JString (ObligationState.to_string ObligationState.Released)); ("evidence", JUint seq);
    ("drain", JUint (er_drain request)); ("generation", JUint (er_generation request)); ("note", JString answer_note)]).
  apply (fo_report clock i frame v body ObligationState.Released); [done|done|reflexivity|reflexivity].
Qed.
End Answer.

(** ** What the controller makes of the answer *)

(** A movable obligation is released by a report. *)
Lemma apply_state_release seq now ob :
  is_movable ob = true → ob_revision ob ≠ int_max u64 →
  apply_state (ob_revision ob) ObligationState.Released seq now ob =
  (ok_status, ob <| ob_state := ObligationState.Released |> <| ob_revision := next_id (ob_revision ob) |>
                 <| ob_release_evidence := seq |> <| ob_cleared_at := now |>).
Proof.
  intros Hm Hmax. unfold apply_state. rewrite Z.eqb_refl. cbn [negb].
  assert (bool_decide (ObligationState.Released = ob_state ob) = false ∧
    is_legal_obligation_transition (ob_state ob) ObligationState.Released = true) as [-> ->].
  { unfold is_movable in Hm. by destruct (ob_state ob). }
  rewrite (proj2 (Z.eqb_neq _ _) Hmax). reflexivity.
Qed.

Section Settles.
Context (e : engine) (Hwf : engine_wf e) (request : EvacuationRequest) (record : DrainRecord) (ob : Obligation).
Context (Hrecord : en_drains e !! er_drain request = Some record) (Hob : ot_find (er_obligation request) (en_obligations e) = Some ob).
Context (Hgen : er_generation request = dr_generation record) (Hrev : er_expected_revision request = ob_revision ob).

(** Release evidence of the engine's own line, with the reserved number, is filed. *)
Lemma answer_is_recorded epoch producer observed now :
  epoch = ar_epoch (en_authority e) → producer = ar_incarnation (en_authority e) →
  observed ≤ saturating_add now (p_evidence_clock_skew (en_policy e)) →
  el_high_water (ev_key (answer_evidence request epoch producer observed)) (en_evidence e) < er_evidence_seq request →
  om_size (el_records (en_evidence e)) < el_max_records (en_evidence e) →
  let ev := answer_evidence request epoch producer observed <| ev_attested := true |> in
  ∃ e1, record_evidence (answer_evidence request epoch producer observed) now e = (Ok ev, e1) ∧
    el_find (ev_key ev) (ev_seq ev) (en_evidence e1) = Some ev ∧ en_obligations e1 = en_obligations e ∧
    en_drains e1 = en_drains e ∧ en_policy e1 = en_policy e ∧ en_authority e1 = en_authority e.
Proof.
  intros He Hp Hobs Hnew Hroom. unfold record_evidence. set (draft := answer_evidence request epoch producer observed) in *.
  destruct (el_record_succeeds draft (evidence_fence now e) (p_evidence_requires_live_incarnation (en_policy e)) (en_evidence e))
    as [l' Hl]; try done; [apply Hwf|].
  rewrite Hl. eexists. split; [reflexivity|]. split_and!; try reflexivity.
  apply el_record_cases in Hl as [[? _]|(_ & Hw & _ & _ & _ & _ & _ & _ & Hlat)]; [done| |apply Hwf].
  specialize (Hlat (ev_key draft)). rewrite decide_True in Hlat by done. change (el_find (ev_key draft) (ev_seq draft) l' = Some (draft <| ev_attested := true |>)).
  unfold el_find, el_latest in *. destruct (el_latest_seq l' !! ev_key draft) as [s|] eqn:Es; [|done].
  destruct (lw_filed _ Hw _ _ _ Hlat) as (E1 & E2 & _). cbn in E2. by subst s.
Qed.

(** The report moves the obligation, with the proof it names. *)
Lemma answer_is_applied seq now :
  is_movable ob = true → ob_revision ob ≠ int_max u64 →
  ∃ e2 ob2, report_obligation (answer_report request seq) now e = (ok_status, e2) ∧
    ot_find (er_obligation request) (en_obligations e2) = Some ob2 ∧ ob_state ob2 = ObligationState.Released ∧
    ob_release_evidence ob2 = seq ∧ ob_id ob2 = er_obligation request ∧ en_evidence e2 = en_evidence e ∧
    en_drains e2 = en_drains e ∧ en_policy e2 = en_policy e ∧ en_authority e2 = en_authority e.
Proof.
  intros Hm Hmax. unfold report_obligation.
  assert (report_generation_check (answer_report request seq) e = ok_status) as ->.
  { unfold report_generation_check. cbn [answer_report op_drain op_generation]. rewrite Hrecord, Hgen, Z.eqb_refl. by case_step. }
  cbn [answer_report op_obligation op_expected_revision op_next op_evidence op_attempt op_note].
  rewrite Hob, Hrev, apply_state_release, (bool_decide_false (answer_note = "")) by done. cbv zeta.
  rewrite Z.eqb_refl. cbn [negb]. do 2 eexists. split; [reflexivity|]. split; [apply om_lookup_insert_eq|].
  split_and!; try reflexivity. by apply (ew_obligations _ Hwf) in Hob as [? _].
Qed.

(** The obligation may then be retired while the evidence is fresh. *)
Lemma answer_proves_release epoch producer observed now e2 ob2 :
  let ev := answer_evidence request epoch producer observed <| ev_attested := true |> in
  epoch = ar_epoch (en_authority e) → er_evidence_seq request ≠ 0 → dr_admission_closed_at record ≤ observed →
  observed ≤ saturating_add now (p_evidence_clock_skew (en_policy e)) → 0 < p_evidence_freshness (en_policy e) →
  now ≤ saturating_add observed (p_evidence_freshness (en_policy e)) →
  el_find (ev_key ev) (ev_seq ev) (en_evidence e2) = Some ev → en_policy e2 = en_policy e → en_authority e2 = en_authority e →
  ob_state ob2 = ObligationState.Released → ob_release_evidence ob2 = er_evidence_seq request → ob_id ob2 = er_obligation request →
  quiescence_verdict record now e2 ob2 = (None, Some (er_obligation request)).
Proof.
  intros ev He Hs Hclosed Hskew Hfresh Hnow Hf Hp Ha E1 E2 E3. unfold quiescence_verdict. rewrite E1, E2, E3, (proj2 (Z.eqb_neq _ _) Hs).
  cbv zeta. assert (dr_id record = er_drain request) as -> by by apply (ew_record _ Hwf) in Hrecord as [? _].
  change (el_find (ev_key ev) (ev_seq ev) (en_evidence e2)) with (el_find (MkEvidenceKey EvidenceKind.ObligationReleased (er_drain request) (er_obligation request) "") (er_evidence_seq request) (en_evidence e2)) in Hf.
  rewrite Hf. unfold is_fresh, evidence_fence. rewrite Hp, Ha. cbn [ef_live_epoch ef_now ef_allowed_skew].
  change (ev_attested ev) with true. change (ev_epoch ev) with epoch. change (ev_generation ev) with (er_generation request).
  change (ev_observed_at ev) with observed. rewrite He, Hgen, !Z.eqb_refl. cbn [negb].
  rewrite (proj2 (Z.ltb_ge _ _) Hskew), (proj2 (Z.leb_gt _ _) Hfresh), (proj2 (Z.leb_le _ _) Hnow). cbn [negb].
  by rewrite (proj2 (Z.ltb_ge _ _) Hclosed).
Qed.
End Settles.

(** The engine is still in the state the request was made in: the same revision of
    the obligation, the same generation of the drain, the reserved number not used. *)
Record pending (request : EvacuationRequest) (record : DrainRecord) (ob : Obligation) (e : engine) : Prop := {
  pe_record : en_drains e !! er_drain request = Some record;
  pe_obligation : ot_find (er_obligation request) (en_obligations e) = Some ob;
  pe_generation : er_generation request = dr_generation record;
  pe_revision : er_expected_revision request = ob_revision ob;
  pe_movable : is_movable ob = true;
  pe_last : ob_revision ob ≠ int_max u64;
  pe_reserved : er_evidence_seq request ≠ 0;
  pe_unused : el_high_water (MkEvidenceKey EvidenceKind.ObligationReleased (er_drain request) (er_obligation request) "")
                (en_evidence e) < er_evidence_seq request;
  pe_room : om_size (el_records (en_evidence e)) < el_max_records (en_evidence e);
}.

(** An agent that does what it is asked, in a session of the engine's current line. *)
Record willing {S} (a : AgentSession S) (c : WireClient S) (e : engine) : Prop := {
  wi_answers : ao_fail_evacuations (ag_options a) = false ∧ ao_ignore_evacuations (ag_options a) = false;
  wi_client : ag_client a = Some c;
  wi_epoch : cl_server_epoch c = ar_epoch (en_authority e);
  wi_incarnation : cl_server_incarnation c = ar_incarnation (en_authority e);
}.

(** The agent observed the release after admission closed, its clock is not ahead of
    the controller's by more than the tolerated skew, and the controller looks at the
    evidence, received at [received], again at [judged] while it is fresh. *)
Record timely (record : DrainRecord) (observed received judged : TimePoint) (e : engine) : Prop := {
  ti_observed : time_ok observed = true;
  ti_after : dr_admission_closed_at record ≤ observed;
  ti_received : observed ≤ saturating_add received (p_evidence_clock_skew (en_policy e));
  ti_judged : observed ≤ saturating_add judged (p_evidence_clock_skew (en_policy e));
  ti_window : 0 < p_evidence_freshness (en_policy e);
  ti_fresh : judged ≤ saturating_add observed (p_evidence_freshness (en_policy e));
}.

(** C9: an evacuation request, answered, lets the obligation retire.  A willing agent
    answers the controller's request with two calls, evidence and then a report that
    names it; on any greeted session these frames are requests for exactly the
    evidence and the report of the request's own obligation, drain, generation and
    revision; and while nothing else has happened to the obligation the engine
    accepts the evidence under the number it had reserved, accepts the report, and
    finds the obligation proved released, so the drain may retire it. *)
Theorem answered_evacuation_settles {S L} (sock : SocketOps S) clock i (v v1 : server S L) fuel number (a : AgentSession S) c
    request record ob observed received reported judged :
  let e := sv_engine v in
  let evidence := answer_evidence request (cl_server_epoch c) (cl_server_incarnation c) observed in
  let report := answer_report request (er_evidence_seq request) in
  let e1 := exec None (OpEvidence evidence) received e in
  let e2 := exec None (OpReport report) reported e1 in
  engine_wf e → greeted i v → greeted i v1 → pending request record ob e → willing a c e →
  timely record observed received judged e →
  handle_evacuation sock fuel observed (MkFrame Msg.EvacuationRequest number (evacuation_payload request)) a =
    and_then (agent_call sock fuel Msg.EvidenceReport (evidence_answer request (cl_server_epoch c) (cl_server_incarnation c) observed)
                (a <| ag_evacuations_handled := u64_inc (ag_evacuations_handled a) |>))
      (λ response a, and_then (agent_call sock fuel Msg.ObligationReport (report_answer request (get_uint "seq" 0 response)) a)
        (λ _ a, Some (agent_send sock Msg.EvacuationResponse (acknowledgement true) a))) ∧
  (∀ number, frame_op clock i (MkFrame Msg.EvidenceReport number
     (evidence_answer request (cl_server_epoch c) (cl_server_incarnation c) observed)) v (OpEvidence evidence)) ∧
  (∀ number, frame_op clock i (MkFrame Msg.ObligationReport number (report_answer request (er_evidence_seq request))) v1 (OpReport report)) ∧
  (record_evidence evidence received e).1 = Ok (evidence <| ev_attested := true |>) ∧
  (report_obligation report reported e1).1 = ok_status ∧
  ∃ ob2, ot_find (er_obligation request) (en_obligations e2) = Some ob2 ∧ ob_state ob2 = ObligationState.Released ∧
    quiescence_verdict record judged e2 ob2 = (None, Some (er_obligation request)).
Proof.
  intros e evidence report e1 e2 Hwf Hg Hg1 [Hr Ho Hgen Hrev Hm Hl Hs Hu Hroom] [[Hf Hi] Hc He Hp] [T1 T2 T3 T4 T5 T6].
  destruct (answer_is_recorded e Hwf request (cl_server_epoch c) (cl_server_incarnation c) observed received)
    as (e1' & E1 & Hfind & Eo & Ed & Epol & Ea); try done.
  assert (e1 = e1') as Ee1 by (unfold e1, evidence, exec; by rewrite E1).
  assert (engine_wf e1) as Hwf1 by (pose proof (record_evidence_refines evidence received e Hwf) as [? _]; done).
  destruct (answer_is_applied e1 Hwf1 request record ob) with (seq := er_evidence_seq request) (now := reported)
    as (e2' & ob2 & E2 & Hob2 & Hst & Hev & Hid & Eev & _ & Epol2 & Ea2); rewrite ?Ee1, ?Ed, ?Eo; try done.
  assert (e2 = e2') as Ee2 by (unfold e2, report, exec; by rewrite E2).
  split_and!.
  - rewrite handle_evacuation_answers by done. by rewrite Hc.
  - intros n. by apply evidence_answer_asks.
  - intros n. by apply report_answer_asks.
  - unfold evidence. by rewrite E1.
  - unfold report. rewrite <- Ee1. by rewrite E2.
  - exists ob2. rewrite Ee2. split_and!; [done|done|].
    eapply (answer_proves_release e Hwf request record); try done; rewrite ?Eev, ?Epol2, ?Ea2, ?Ee1; done.
Qed.

(** ** A controller and an agent *)

(** The agent's end of an in-process connection: its socket is the controller whose
    first session is the other end.  The controller polls whenever the agent sends or
    waits in vain. *)
#[local] Abbreviation controller := (server (list Z * list Z) unit).

Definition nobody : ListenerOps (list Z * list Z) unit := {|
  lo_listen_on _ _ _ := Ok (tt, 7000);
  lo_valid _ := true;
  lo_accept_one _ l := (inr (AcceptOutcome.TimedOut, ""), l);
  lo_close l := (ok_status, l);
|}.

(** Five seconds pass between two readings of the controller's clock. *)
Definition slow_clock (n : nat) : TimePoint := (4 + 5 * Z.of_nat n) * Demo.second.
Definition polled_once (v : controller) : controller := (poll_once duplex nobody slow_clock free v).2.

Definition session_socket (v : controller) : list Z * list Z :=
  default ([], []) ((λ c, fs_socket (cn_stream c)) <$> sv_connections v !! 0%nat).
Definition with_socket (s : list Z * list Z) (v : controller) : controller :=
  update_connection 0 (λ c, c <| cn_stream := let st := cn_stream c in
    MkFrameStream s (fs_max_payload_bytes st) (fs_buffered st) (fs_capacity st) (fs_closed st) |>) v.

Definition loopback : SocketOps controller := {|
  so_valid v := negb (is_nil (sv_connections v));
  so_wait_readable _ v :=
    if is_nil (session_socket v).2 then (AcceptOutcome.TimedOut, "", polled_once v) else (AcceptOutcome.Accepted, "", v);
  so_receive_some n v :=
    let '(incoming, sent) := session_socket v in
    (Ok (take (Z.to_nat n) sent), with_socket (incoming, drop (Z.to_nat n) sent) v);
  so_send_all bytes v :=
    let '(incoming, sent) := session_socket v in (ok_status, polled_once (with_socket (incoming ++ bytes, sent) v));
  so_close v := (ok_status, v);
|}.

Definition fresh_controller : controller :=
  MkServer small_options Demo.requested_engine true (Some tt) 7000
    [new_connection (new_stream ([], []) 4096) "127.0.0.1"] false 0 0 0 0 0.
Definition node_agent : AgentSession controller := new_agent (MkAgentOptions "127.0.0.1" 7000 "node-1" [] 4096 100 false false).
Definition dial (_ : string) (_ : Z) : result controller := Ok fresh_controller.
Definition controller_of (a : AgentSession controller) : controller :=
  match ag_client a with Some c => fs_socket (cl_stream c) | None => fresh_controller end.

Definition after (step : agent_run unit) : AgentSession controller := match step with Some (_, a) => a | None => node_agent end.
Definition drain_states (a : AgentSession controller) : list DrainState.t :=
  map dr_state (om_values (en_drains (sv_engine (controller_of a)))).
Definition agent_poll : AgentSession controller → agent_run unit := agent_poll_once loopback 5 (24 * Demo.second).

(** The agent joins, idles while admission closes, answers the evacuation request,
    and the controller completes the drain. *)
Definition joined : AgentSession controller := Eval vm_compute in (agent_connect loopback dial node_agent).2.
Definition idle : AgentSession controller := Eval vm_compute in after (agent_poll joined).
Definition answered : AgentSession controller := Eval vm_compute in after (agent_poll idle).
Definition refused : AgentSession controller := Eval vm_compute in after (agent_poll answered).
Definition finished : AgentSession controller := Eval vm_compute in after (agent_poll refused).

Example agent_completes_the_drain :
  (connected loopback joined, cl_authority <$> ag_client joined) = (true, Some 2) ∧
  drain_states idle = [DrainState.Evacuating] ∧ ag_evacuations_handled idle = 0 ∧
  agent_poll idle = Some (ok_status, answered) ∧ ag_evacuations_handled answered = 1 ∧
  drain_states answered = [DrainState.Quiescing] ∧ drain_states finished = [DrainState.Drained].
Proof. vm_compute. done. Qed.

(** The controller does not accept the acknowledgement the agent sends last: the
    refusal is the next frame the agent reads, and ends its loop. *)
Example acknowledgement_is_refused :
  agent_poll answered =
    Some (fail ErrorCode.ProtocolError "controller refused: message type is not accepted by a controller session", refused) ∧
  agent_run_until loopback 6 (λ _, 24 * Demo.second) 2 joined =
    Some (fail ErrorCode.ProtocolError "controller refused: message type is not accepted by a controller session", refused).
Proof. vm_compute. done. Qed.

(** *** The theorem at the engine of the scenario *)

Definition asked_record : DrainRecord := record_at 1 Demo.evacuating_engine.
Definition asked_obligation : Obligation := default Demo.flow (ot_find 1 (en_obligations Demo.evacuating_engine)).
Definition asked : EvacuationRequest :=
  evacuation_request asked_record 1 (22 * Demo.second) Demo.evacuating_engine asked_obligation.
Definition seat : Connection (list Z * list Z) := MkConnection (new_stream ([], []) 4096) "127.0.0.1" "node-1" SessionRole.Agent true false 2 0.
Definition asking : controller :=
  MkServer small_options Demo.evacuating_engine true (Some tt) 7000 [seat] false 0 0 0 0 0.
Definition asked_client : WireClient (list Z * list Z) :=
  MkWireClient (new_stream ([], []) 4096) jobject 1 2 no_token 1 1.
Definition asked_agent : AgentSession (list Z * list Z) :=
  MkAgentSession (ag_options node_agent) (Some asked_client) [] 0 0 0 false.

Lemma answered_evacuation_settles_witness :
  let evidence := answer_evidence asked 1 1 (24 * Demo.second) in
  let report := answer_report asked 1 in
  let e1 := exec None (OpEvidence evidence) (25 * Demo.second) Demo.evacuating_engine in
  let e2 := exec None (OpReport report) (26 * Demo.second) e1 in
  (report_obligation report (26 * Demo.second) e1).1 = ok_status ∧
  ∃ ob2, ot_find 1 (en_obligations e2) = Some ob2 ∧ ob_state ob2 = ObligationState.Released ∧
    quiescence_verdict asked_record (27 * Demo.second) e2 ob2 = (None, Some 1).
Proof.
  apply (answered_evacuation_settles (L := unit) duplex slow_clock 0 asking asking 5 0 asked_agent asked_client asked asked_record
    asked_obligation (24 * Demo.second) (25 * Demo.second) (26 * Demo.second) (27 * Demo.second)).
  - apply history_wf, evacuating_history. done.
  - reflexivity.
  - reflexivity.
  - split; vm_compute; try reflexivity; discriminate.
  - split; vm_compute; try split; reflexivity.
  - split; vm_compute; try reflexivity; discriminate.
Defined.
