(* ===== verification/Workers.v ===== *)
(** * Polling workers ([server.cpp], [drainfabricd.cpp])

    The controller served by several threads.  A worker runs [poll_once] again and
    again; the main thread waits, sets the stop flag, joins the workers and stops the
    server.  What they share is [shared]: the engine, the registry of sessions and the
    sessions it points to, the listener, the atomic counters.

    The code of a worker is a tree of the steps at which it touches what is shared
    ([prog]): each step says which mutex guards it, and locking and unlocking a
    session are steps of their own, so that a scheduler may run other threads between
    any two of them.  The steps are the source's critical sections (an operation of the
    engine, a look at the registry), its atomic counters, and its accesses to a session,
    which are not all guarded: where the source reads or writes a session without
    holding its mutex, the step is taken to be indivisible, as are the reading and the
    writing of one frame. *)

From S2P Require Import Prelude Containers Checked Result Text Json Codec CodecTables CodecFabric CodecPolicy Bytes Wire.
From S2P Require Import Identity Lifecycle Obligation Evidence Authority Admission Topology Policy Decision Engine.
From S2P Require Import Snapshot Explain EngineStep EngineOps Queries Server.
#[local] Open Scope Z_scope.

(** ** What is shared *)

(** A [Connection] on the heap, and whether its mutex is held. *)
Record cell (S : Type) := MkCell { ce_connection : Connection S; ce_locked : bool }.
Arguments MkCell {S}.
Arguments ce_connection {S}.
Arguments ce_locked {S}.

(** [sh_heap] holds every session ever accepted, a pointer is its index;
    [sh_registry] is [connections_]; [sh_signalled] is the daemon's [g_stop]. *)
Record shared (S L : Type) := MkShared {
  sh_options : ServerOptions;
  sh_engine : engine;
  sh_sink : bool;
  sh_listener : option L;
  sh_heap : list (cell S);
  sh_registry : list nat;
  sh_stopping : bool;
  sh_served_requests : Z;
  sh_rejected_frames : Z;
  sh_reads : nat;
  sh_signalled : bool;
}.
Arguments MkShared {S L}.
Arguments sh_options {S L}.
Arguments sh_engine {S L}.
Arguments sh_sink {S L}.
Arguments sh_listener {S L}.
Arguments sh_heap {S L}.
Arguments sh_registry {S L}.
Arguments sh_stopping {S L}.
Arguments sh_served_requests {S L}.
Arguments sh_rejected_frames {S L}.
Arguments sh_reads {S L}.
Arguments sh_signalled {S L}.

#[export] Instance eta_shared {S L} : Eta (shared S L) := λ h,
  MkShared (sh_options h) (sh_engine h) (sh_sink h) (sh_listener h) (sh_heap h) (sh_registry h) (sh_stopping h)
    (sh_served_requests h) (sh_rejected_frames h) (sh_reads h) (sh_signalled h).
#[export] Instance upd_sh_engine {S L} : Update (@sh_engine S L) := ltac:(solve_update (@sh_engine S L)).
#[export] Instance upd_sh_listener {S L} : Update (@sh_listener S L) := ltac:(solve_update (@sh_listener S L)).
#[export] Instance upd_sh_heap {S L} : Update (@sh_heap S L) := ltac:(solve_update (@sh_heap S L)).
#[export] Instance upd_sh_registry {S L} : Update (@sh_registry S L) := ltac:(solve_update (@sh_registry S L)).
#[export] Instance upd_sh_stopping {S L} : Update (@sh_stopping S L) := ltac:(solve_update (@sh_stopping S L)).
#[export] Instance upd_sh_served_requests {S L} : Update (@sh_served_requests S L) := ltac:(solve_update (@sh_served_requests S L)).
#[export] Instance upd_sh_rejected_frames {S L} : Update (@sh_rejected_frames S L) := ltac:(solve_update (@sh_rejected_frames S L)).
#[export] Instance upd_sh_reads {S L} : Update (@sh_reads S L) := ltac:(solve_update (@sh_reads S L)).
#[export] Instance upd_sh_signalled {S L} : Update (@sh_signalled S L) := ltac:(solve_update (@sh_signalled S L)).
Arguments upd_sh_engine {S L} f r /.
Arguments upd_sh_listener {S L} f r /.
Arguments upd_sh_heap {S L} f r /.
Arguments upd_sh_registry {S L} f r /.
Arguments upd_sh_stopping {S L} f r /.
Arguments upd_sh_served_requests {S L} f r /.
Arguments upd_sh_rejected_frames {S L} f r /.
Arguments upd_sh_reads {S L} f r /.
Arguments upd_sh_signalled {S L} f r /.

(** ** Programs *)

(** The mutex a step takes and gives back: the engine's, the registry's, or none. *)
Variant guard : Set := EngineMutex | RegistryMutex | NoMutex.

Inductive prog (S L A : Type) : Type :=
  | Ret (a : A)
  | Atomic {B : Type} (g : guard) (f : shared S L → B * shared S L) (k : B → prog S L A)
  | TryLock (c : nat) (k : bool → prog S L A)
  | Unlock (c : nat) (k : prog S L A).
Arguments Ret {S L A}.
Arguments Atomic {S L A B}.
Arguments TryLock {S L A}.
Arguments Unlock {S L A}.

Fixpoint prog_bind {S L A B} (p : prog S L A) (k : A → prog S L B) : prog S L B :=
  match p with
  | Ret a => k a
  | Atomic g f h => Atomic g f (λ b, prog_bind (h b) k)
  | TryLock c h => TryLock c (λ locked, prog_bind (h locked) k)
  | Unlock c h => Unlock c (prog_bind h k)
  end.

Declare Scope prog_scope.
Delimit Scope prog_scope with prog.
Notation "'let*' x := p 'in' k" := (prog_bind p (λ x, k))
  (at level 200, x name, p at level 100, k at level 200, right associativity) : prog_scope.
Notation "p ;* k" := (prog_bind p (λ _, k)) (at level 199, right associativity) : prog_scope.
#[local] Open Scope prog_scope.

Section Workers.
Context {S L : Type} (sock : SocketOps S) (lsn : ListenerOps S L) (clock : nat → TimePoint).
#[local] Abbreviation shared := (shared S L).
#[local] Abbreviation prog := (prog S L).
#[local] Abbreviation Connection := (Connection S).

(** Whether the mutex of a session is held, and taking and releasing it.  A snapshot
    keeps its sessions alive, so a pointer is never dangling; if it were, the mutex
    could not be taken. *)
Definition set_locked (c : nat) (locked : bool) (h : shared) : shared :=
  h <| sh_heap := alter (λ x, MkCell (ce_connection x) locked) c (sh_heap h) |>.

Definition is_locked (c : nat) (h : shared) : bool := default true (ce_locked <$> sh_heap h !! c).

(** One step of a program that has not returned; [TryLock] is [std::try_to_lock]. *)
Definition prog_step {A} (p : prog A) (h : shared) : prog A * shared :=
  match p with
  | Ret a => (Ret a, h)
  | Atomic _ f k => let '(b, h) := f h in (k b, h)
  | TryLock c k => if is_locked c h then (k false, h) else (k true, set_locked c true h)
  | Unlock c k => (k, set_locked c false h)
  end.

(** ** Steps *)

Definition atomically {A} (g : guard) (f : shared → A * shared) : prog A := Atomic g f Ret.
Definition peek {A} (g : guard) (f : shared → A) : prog A := atomically g (λ h, (f h, h)).
Definition poke (f : shared → shared) : prog unit := atomically NoMutex (λ h, (tt, f h)).

(** A public operation of the engine. *)
Definition engine_call {A} (f : engine → A * engine) : prog A :=
  atomically EngineMutex (λ h, let '(a, e) := f (sh_engine h) in (a, h <| sh_engine := e |>)).
Definition engine_query {A} (f : engine → A) : prog A := peek EngineMutex (λ h, f (sh_engine h)).

(** [clock_.now()]. *)
Definition clock_now : prog TimePoint :=
  atomically NoMutex (λ h, (clock (sh_reads h), h <| sh_reads := Datatypes.S (sh_reads h) |>)).

(** Reading and writing the session a pointer refers to. *)
Definition session_of (c : nat) (h : shared) : option Connection := ce_connection <$> sh_heap h !! c.
Definition set_session (c : nat) (x : Connection) (h : shared) : shared :=
  h <| sh_heap := alter (λ y, MkCell x (ce_locked y)) c (sh_heap h) |>.
Definition get_field {A} (c : nat) (field : Connection → A) (otherwise : A) : prog A :=
  peek NoMutex (λ h, default otherwise (field <$> session_of c h)).
Definition put_field (c : nat) (f : Connection → Connection) : prog unit :=
  poke (λ h, match session_of c h with Some x => set_session c (f x) h | None => h end).

(** [++served_requests_], [++rejected_frames_]. *)
Definition count_served : prog unit := poke (λ h, h <| sh_served_requests := u64_inc (sh_served_requests h) |>).
Definition count_rejected : prog unit := poke (λ h, h <| sh_rejected_frames := u64_inc (sh_rejected_frames h) |>).

(** [snapshot_connections], [connection_count], [register_connection] and
    [reap_connections]: critical sections of the registry's mutex. *)
Definition snapshot_connections : prog (list nat) := peek RegistryMutex sh_registry.

Definition registered_count (h : shared) : Z := zlength (sh_registry h).

Definition register (x : Connection) (h : shared) : shared :=
  h <| sh_registry := sh_registry h ++ [length (sh_heap h)] |> <| sh_heap := sh_heap h ++ [MkCell x false] |>.

Definition session_gone (x : Connection) : bool := cn_closing x || negb (stream_valid sock (cn_stream x)).

Definition reap (h : shared) : shared :=
  h <| sh_registry := List.filter (λ c, negb (default true (session_gone <$> session_of c h))) (sh_registry h) |>.

(** ** Sending *)

Definition worker_send (c : nat) (type : MessageType) (sequence : Z) (payload : json) : prog status :=
  atomically NoMutex (λ h,
    match session_of c h with
    | None => (fail ErrorCode.Internal "no such session", h)
    | Some x => let '(sent, x) := send_to sock (MkFrame type sequence payload) x in (sent, set_session c x h)
    end).

Definition worker_failure (c : nat) (sequence : Z) (code : ErrorCode.t) (message : string) : prog status :=
  worker_send c Msg.Failure sequence (failure_payload code message).

(** ** The evacuation sink *)

(** The loop of [push_to_agents]: how many agents the frame reached. *)
Fixpoint push_each (type : MessageType) (payload : json) (connections : list nat) (delivered : Z) : prog Z :=
  match connections with
  | [] => Ret delivered
  | c :: connections =>
      let* role := get_field c cn_role SessionRole.Client in
      if bool_decide (role ≠ SessionRole.Agent) then push_each type payload connections delivered
      else
        let* greeted := get_field c cn_greeted false in
        if negb greeted then push_each type payload connections delivered
        else
          TryLock c (λ locked,
            if negb locked then push_each type payload connections delivered
            else
              let* sent := worker_send c type 0 payload in
              Unlock c (push_each type payload connections (if is_ok sent then delivered + 1 else delivered)))
  end.

Definition push (type : MessageType) (payload : json) : prog status :=
  let* connections := snapshot_connections in
  let* delivered := push_each type payload connections 0 in
  Ret (if delivered =? 0 then fail ErrorCode.TransportError "no agent session is available to receive the request"
       else ok_status).

(** [on_evacuation_request], [on_restoration_request], [on_admission_reopen]. *)
Definition push_evacuation (request : EvacuationRequest) : prog status :=
  push Msg.EvacuationRequest (evacuation_payload request).
Definition push_restoration (request : RestorationRequest) : prog status := Ret ok_status.
Definition push_reopen (request : AdmissionReopenRequest) : prog status :=
  push Msg.AdmissionReopen (reopen_payload request).

(** A loop over the sink: the last failing status and how many calls failed. *)
Fixpoint hand_each {A} (send : A → prog status) (requests : list A) (acc : status * Z) : prog (status * Z) :=
  match requests with
  | [] => Ret acc
  | r :: requests =>
      let* sent := send r in
      hand_each send requests (match sent with Ok _ => acc | Err err => (Err err, acc.2 + 1) end)
  end.

(** The three loops, outside the engine's mutex: the last failing status, how many
    evacuations failed and how many of the others. *)
Definition hand_actions (actions : PendingActions) : prog (status * Z * Z) :=
  let* evacuations := hand_each push_evacuation (pa_evacuations actions) (ok_status, 0) in
  let* restorations := hand_each push_restoration (pa_restorations actions) (evacuations.1, 0) in
  let* reopens := hand_each push_reopen (pa_reopens actions) (restorations.1, 0) in
  Ret (reopens.1, evacuations.2, restorations.2 + reopens.2).

(** [DrainEngine::dispatch]. *)
Definition worker_dispatch (actions : PendingActions) : prog status :=
  let* sink := peek NoMutex sh_sink in
  let* handed := (if sink : bool then hand_actions actions else Ret (ok_status, 0, 0)) in
  let '(overall, evacuations, others) := handed in
  engine_call (λ e, (tt, finish_dispatch actions (evacuations + others) e)) ;*
  Ret overall.

(** [DrainEngine::advance]. *)
Definition worker_advance (now : TimePoint) : prog status :=
  let* actions := engine_call (λ e, let '(e, actions) := advance_pass now e in (actions, e)) in
  let* sink := peek NoMutex sh_sink in
  let* handed := (if sink : bool then hand_actions actions else Ret (ok_status, zlength (pa_evacuations actions), 0)) in
  let '(overall, evacuations, _) := handed in
  engine_call (λ e, (tt, finish_dispatch actions evacuations e)) ;*
  Ret overall.

(** [DrainEngine::restore_drain]. *)
Definition worker_restore (id : DrainId) (authority : AuthorityId) (reason : string) (now : TimePoint) : prog status :=
  let* restored := engine_call (restore_drain id authority reason now) in
  match restored with
  | Err err => Ret (Err err)
  | Ok actions => worker_dispatch actions
  end.

(** ** One request *)

(** [ControllerServer::resolve_authority]. *)
Definition worker_resolve (c : nat) (payload : json) : prog (result AuthorityId) :=
  match json_find "authority" payload with
  | None =>
      let* authority := get_field c cn_authority 0 in
      if authority =? 0 then Ret (fail ErrorCode.AuthorityRequired "this session has no authority")
      else let* authority := get_field c cn_authority 0 in Ret (Ok authority)
  | Some presented =>
      match token_from_presentation_json presented with
      | Err err => Ret (Err err)
      | Ok token =>
          let* now := clock_now in
          let* valid := engine_query (validate_authority token now) in
          Ret (match valid with Err err => Err err | Ok _ => Ok (at_id token) end)
      end
  end.

Section Requests.
Context (c : nat) (frame : Frame).
#[local] Abbreviation payload := (fr_payload frame).

Definition worker_reply (type : MessageType) (body : json) : prog status := worker_send c type (fr_sequence frame) body.
Definition worker_refuse (err : error) : prog status :=
  worker_failure c (fr_sequence frame) (err_code err) (err_message err).

(** The failures that end a session. *)
Definition worker_dismiss (code : ErrorCode.t) (message : string) : prog status :=
  worker_failure c (fr_sequence frame) code message ;*
  put_field c (λ x, x <| cn_closing := true |>) ;*
  Ret ok_status.

Definition serve_hello : prog status :=
  if negb (get_uint "protocol_version" 0 payload =? kWireProtocolVersion) then
    worker_dismiss ErrorCode.ProtocolError "wire protocol version mismatch"
  else
    let! role := session_role_from_string (get_string "role" "client" payload)
      else worker_dismiss ErrorCode.ProtocolError "unknown session role" in
    match parse_node payload "node" with
    | Err err => worker_dismiss ErrorCode.MalformedIdentity (err_message err)
    | Ok node =>
        let* now := clock_now in
        let* issued := atomically EngineMutex (λ h,
          let '(r, e) := issue_authority "" (so_authority_validity (sh_options h)) now (sh_engine h) in
          (r, h <| sh_engine := e |>)) in
        match issued with
        | Err err => worker_dismiss (err_code err) (err_message err)
        | Ok authority =>
            put_field c (λ x, x <| cn_role := role |>) ;*
            put_field c (λ x, x <| cn_node := node |>) ;*
            put_field c (λ x, x <| cn_authority := at_id authority |>) ;*
            put_field c (λ x, x <| cn_greeted := true |>) ;*
            let* incarnation := engine_query Query.incarnation in
            let* epoch := engine_query Query.epoch in
            worker_reply Msg.Welcome
              (obj [("ok", JBool true); ("protocol_version", JUint kWireProtocolVersion); ("incarnation", JUint incarnation);
                    ("epoch", JUint epoch); ("authority", JUint (at_id authority));
                    ("authority_token", token_to_json authority); ("role", JString (SessionRole.to_string role))])
        end
    end.

Definition having_authority (k : AuthorityId → prog status) : prog status :=
  let* presented := worker_resolve c payload in
  match presented with
  | Err err => worker_refuse err
  | Ok authority => k authority
  end.

Definition serve_drain_request : prog status :=
  match parse_targets payload with
  | Err err => worker_refuse err
  | Ok targets =>
      match parse_node payload "node" with
      | Err err => worker_refuse err
      | Ok node =>
          having_authority (λ authority,
            let* now := clock_now in
            let* answer := engine_call (request_drain_set
              (MkDrainRequest targets (get_string "reason" "" payload) authority node (get_uint "nonce" 0 payload)) now) in
            match answer with
            | Err err => worker_refuse err
            | Ok set =>
                let* stored := engine_query (Query.drain_set set) in
                let members := match stored with Some stored => ds_members stored | None => [] end in
                worker_reply Msg.DrainResponse
                  (obj [("ok", JBool true); ("set", JUint set); ("drains", JArray (map JUint members))])
            end)
      end
  end.

Definition serve_status_request : prog status :=
  let wanted := get_uint "drain" 0 payload in
  let answer (drains : list json) :=
    let* _ := clock_now in
    let* accounting := engine_query audit in
    let* incarnation := engine_query Query.incarnation in
    let* epoch := engine_query Query.epoch in
    worker_reply Msg.StatusResponse
      (obj [("ok", JBool true); ("drains", JArray drains); ("accounting", accounting_to_json accounting);
            ("incarnation", JUint incarnation); ("epoch", JUint epoch)]) in
  if negb (wanted =? 0) then
    let* found := engine_query (Query.drain wanted) in
    match found with
    | None => worker_failure c (fr_sequence frame) ErrorCode.NotFound "no such drain"
    | Some record => answer [drain_summary record]
    end
  else
    let* drains := engine_query Query.drains in
    answer (map drain_summary drains).

Definition serve_cancel_request : prog status :=
  having_authority (λ authority,
    let* now := clock_now in
    let* cancelled := engine_call (cancel_drain (get_uint "drain" 0 payload) authority (get_string "reason" "" payload) now) in
    match cancelled with
    | Err err => worker_refuse err
    | Ok _ => worker_reply Msg.CancelResponse ok_payload
    end).

Definition serve_restore_request : prog status :=
  having_authority (λ authority,
    let* now := clock_now in
    let* restored := worker_restore (get_uint "drain" 0 payload) authority (get_string "reason" "" payload) now in
    match restored with
    | Err err => worker_refuse err
    | Ok _ => worker_reply Msg.RestoreResponse ok_payload
    end).

Definition serve_explain_request : prog status :=
  let* explanation := engine_query (explain (get_uint "drain" 0 payload)) in
  worker_reply Msg.ExplainResponse
    (obj [("ok", JBool true); ("explanation", explanation_to_json explanation);
          ("text", JString (explanation_render explanation))]).

Definition serve_obligation_query : prog status :=
  let answer (obligations : list Obligation) :=
    worker_reply Msg.ObligationQueryResponse
      (obj [("ok", JBool true); ("obligations", JArray (map obligation_to_json obligations))]) in
  match json_find "target" payload with
  | Some value =>
      match drain_target_from_json value with
      | Err err => worker_refuse err
      | Ok target => let* found := engine_query (Query.outstanding_obligations target) in answer found
      end
  | None => let* found := engine_query Query.obligations in answer found
  end.

Definition serve_obligation_admit : prog status :=
  match json_find "obligation" payload with
  | None => worker_failure c (fr_sequence frame) ErrorCode.InvalidArgument "admission frame lacks an obligation body"
  | Some body =>
      match obligation_from_json body with
      | Err err => worker_refuse err
      | Ok obligation =>
          having_authority (λ authority,
            let* now := clock_now in
            let* stored := engine_call (admit_obligation obligation (get_uint "generation" 0 payload) authority now) in
            match stored with
            | Err err => worker_refuse err
            | Ok stored =>
                worker_reply Msg.ObligationAdmitResponse (obj [("ok", JBool true); ("obligation", JUint (ob_id stored))])
            end)
      end
  end.

Definition serve_obligation_report : prog status :=
  match json_find "report" payload with
  | None => worker_failure c (fr_sequence frame) ErrorCode.InvalidArgument "obligation report frame lacks a report body"
  | Some body =>
      match obligation_state_from_string (get_string "next" "" body) with
      | None => worker_failure c (fr_sequence frame) ErrorCode.InvalidArgument "obligation report carries an unknown state"
      | Some next =>
          let* now := clock_now in
          let* applied := engine_call (report_obligation (report_of body next) now) in
          match applied with
          | Err err => worker_refuse err
          | Ok _ => worker_reply Msg.ObligationReportResponse ok_payload
          end
      end
  end.

Definition serve_evidence_report : prog status :=
  match json_find "evidence" payload with
  | None => worker_failure c (fr_sequence frame) ErrorCode.InvalidArgument "evidence frame lacks an evidence body"
  | Some body =>
      match evidence_from_json body with
      | Err err => worker_refuse err
      | Ok evidence =>
          let* now := clock_now in
          let* recorded := engine_call (record_evidence evidence now) in
          match recorded with
          | Err err => worker_refuse err
          | Ok recorded => worker_reply Msg.EvidenceResponse (obj [("ok", JBool true); ("seq", JUint (ev_seq recorded))])
          end
      end
  end.

Definition serve_audit_request : prog status :=
  let* _ := clock_now in
  let* accounting := engine_query audit in
  let* stats := engine_query Query.stats in
  worker_reply Msg.AuditResponse
    (obj [("ok", JBool true); ("accounting", accounting_to_json accounting); ("stats", stats_to_json stats)]).

Definition serve_shutdown : prog status :=
  worker_reply Msg.ShutdownResponse ok_payload ;*
  poke (λ h, h <| sh_stopping := true |>) ;*
  Ret ok_status.

Definition serve_other : prog status :=
  count_rejected ;*
  worker_failure c (fr_sequence frame) ErrorCode.ProtocolError "message type is not accepted by a controller session".

Definition serve_request : prog status :=
  let type := fr_type frame in
  if type =? Msg.Hello then serve_hello
  else if type =? Msg.DrainRequest then serve_drain_request
  else if type =? Msg.StatusRequest then serve_status_request
  else if type =? Msg.CancelRequest then serve_cancel_request
  else if type =? Msg.RestoreRequest then serve_restore_request
  else if type =? Msg.ExplainRequest then serve_explain_request
  else if type =? Msg.ObligationQuery then serve_obligation_query
  else if type =? Msg.ObligationAdmit then serve_obligation_admit
  else if type =? Msg.ObligationReport then serve_obligation_report
  else if type =? Msg.EvidenceReport then serve_evidence_report
  else if type =? Msg.AuditRequest then serve_audit_request
  else if type =? Msg.Shutdown then serve_shutdown
  else serve_other.

(** [ControllerServer::handle_frame]. *)
Definition serve_frame : prog status :=
  let* greeted := get_field c cn_greeted false in
  if negb greeted && negb (fr_type frame =? Msg.Hello) then
    count_rejected ;*
    worker_dismiss ErrorCode.ProtocolError "the first frame on a session must be a hello"
  else
    (if negb (fr_type frame =? Msg.Hello) then count_served else Ret tt) ;*
    serve_request.
End Requests.

(** ** A poll *)

(** [FrameStream::receive_frame] on the session's stream. *)
Definition receive (c : nat) : prog (StreamOutcome.t * option Frame) :=
  atomically NoMutex (λ h,
    match session_of c h with
    | None => ((StreamOutcome.TimedOut, None), h)
    | Some x =>
        let '((outcome, received, _), stream) := receive_now sock (so_read_wait_ms (sh_options h)) (cn_stream x) in
        ((outcome, received), set_session c (x <| cn_stream := stream |>) h)
    end).

(** [ControllerServer::service_connection]. *)
Definition service (c : nat) : prog status :=
  TryLock c (λ locked,
    if negb locked then Ret ok_status
    else
      let* gone := get_field c session_gone true in
      if gone : bool then Unlock c (Ret ok_status)
      else
        let* answer := receive c in
        match answer with
        | (StreamOutcome.Frame_, Some frame) =>
            Unlock c (
              let* handled := serve_frame c frame in
              TryLock c (λ relocked,
                if negb relocked then Ret handled
                else
                  let* closing := get_field c cn_closing false in
                  (if closing : bool then put_field c (close_connection sock) else Ret tt) ;*
                  Unlock c (Ret handled)))
        | (StreamOutcome.Closed, _) => put_field c (drop_connection sock) ;* Unlock c (Ret ok_status)
        | (StreamOutcome.Failed, _) | (StreamOutcome.ProtocolError, _) =>
            count_rejected ;* put_field c (drop_connection sock) ;* Unlock c (Ret ok_status)
        | _ => Unlock c (Ret ok_status)
        end).

Fixpoint service_each (connections : list nat) : prog unit :=
  match connections with
  | [] => Ret tt
  | c :: connections => service c ;* service_each connections
  end.

(** [poll_once] from the snapshot of the registry on. *)
Definition poll_sessions : prog status :=
  let* connections := snapshot_connections in
  service_each connections ;*
  let* now := clock_now in
  worker_advance now ;*
  atomically RegistryMutex (λ h, (tt, reap h)) ;*
  Ret ok_status.

(** ** A worker *)

(** Where a worker is: at the test of its loop, in [accept_one], with an accepted
    socket before the look at the limit and after it, in the rest of [poll_once], or
    returned. *)
Inductive worker : Type :=
  | AtTop
  | Accepting
  | Counting (accepted : S)
  | Registering (accepted : S)
  | Refusing (accepted : S)
  | Running (p : prog status)
  | Finished.

Definition accept (h : shared) : worker * shared :=
  match sh_listener h with
  | None => (Finished, h)
  | Some l =>
      if negb (lo_valid lsn l) then (Finished, h)
      else
        match lo_accept_one lsn (so_accept_wait_ms (sh_options h)) l with
        | (inl accepted, l) => (Counting accepted, h <| sh_listener := Some l |>)
        | (inr (AcceptOutcome.Failed, _), l) => (Finished, h <| sh_listener := Some l |>)
        | (inr _, l) => (Running poll_sessions, h <| sh_listener := Some l |>)
        end
  end.

Definition worker_step (w : worker) (h : shared) : worker * shared :=
  match w with
  | AtTop => (if sh_stopping h then Finished else Accepting, h)
  | Accepting => accept h
  | Counting accepted =>
      (if so_max_connections (sh_options h) <=? registered_count h then Refusing accepted else Registering accepted, h)
  | Refusing accepted => (Running poll_sessions, h <| sh_rejected_frames := u64_inc (sh_rejected_frames h) |>)
  | Registering accepted =>
      (Running poll_sessions,
       register (new_connection (new_stream accepted (so_max_frame_bytes (sh_options h))) (so_bind_host (sh_options h))) h)
  | Running (Ret (Ok _)) => (AtTop, h)
  | Running (Ret (Err _)) => (Finished, h)
  | Running p => let '(p, h) := prog_step p h in (Running p, h)
  | Finished => (Finished, h)
  end.

(** ** The pool *)

(** Where the main thread of the daemon is once it has started the workers: in its two
    waiting loops, in [stop_workers], joining, in [stop] (the flag, the snapshot, the
    sessions left to close, the registry), or past it. *)
Inductive main_thread : Set :=
  | AwaitRunning
  | AwaitBudget
  | StopWorkers
  | Joining
  | Stopping
  | Snapshotting
  | Closing (rest : list nat)
  | Clearing
  | Down.

(** A step of the main thread; [None] while it is blocked, on a thread that has not
    returned or on the mutex of a session. *)
Definition main_step (budget : Z) (returned : bool) (m : main_thread) (h : shared) : option (main_thread * shared) :=
  match m with
  | AwaitRunning =>
      let running := match sh_listener h with Some l => lo_valid lsn l | None => false end in
      Some (if sh_signalled h || running then AwaitBudget else AwaitRunning, h)
  | AwaitBudget =>
      let waiting := (budget =? 0) || (sh_served_requests h <? budget) in
      Some (if sh_signalled h || negb waiting then StopWorkers else AwaitBudget, h)
  | StopWorkers => Some (Joining, h <| sh_stopping := true |>)
  | Joining => if returned then Some (Stopping, h) else None
  | Stopping => Some (Snapshotting, h <| sh_stopping := true |>)
  | Snapshotting => Some (Closing (sh_registry h), h)
  | Closing (c :: rest) =>
      if is_locked c h then None
      else Some (Closing rest, match session_of c h with
                               | Some x => set_session c (drop_connection sock x) h
                               | None => h
                               end)
  | Closing [] =>
      Some (Clearing, h <| sh_listener := match sh_listener h with Some l => Some (lo_close lsn l).2 | None => None end |>)
  | Clearing => Some (Down, h <| sh_registry := [] |>)
  | Down => Some (Down, h)
  end.

Record pool := MkPool { po_shared : shared; po_workers : list worker; po_main : main_thread }.

(** What the scheduler runs next; a signal may arrive at any time. *)
Inductive turn_of : Set := TurnWorker (i : nat) | TurnMain | TurnSignal.

Definition has_returned (w : worker) : bool := match w with Finished => true | _ => false end.

Definition pool_step (budget : Z) (t : turn_of) (p : pool) : option pool :=
  match t with
  | TurnWorker i =>
      match po_workers p !! i with
      | Some w =>
          if has_returned w then None
          else
            let '(w, h) := worker_step w (po_shared p) in
            Some (MkPool h (<[i := w]> (po_workers p)) (po_main p))
      | None => None
      end
  | TurnMain =>
      match main_step budget (forallb has_returned (po_workers p)) (po_main p) (po_shared p) with
      | Some (m, h) => Some (MkPool h (po_workers p) m)
      | None => None
      end
  | TurnSignal => Some (MkPool (po_shared p <| sh_signalled := true |>) (po_workers p) (po_main p))
  end.

(** A schedule; a turn of a thread that cannot run is passed over. *)
Definition pool_run (budget : Z) (turns : list turn_of) (p : pool) : pool :=
  foldl (λ p t, default p (pool_step budget t p)) p turns.

(** The server as its threads see it, before any of them runs and after the last. *)
Definition share (v : server S L) : shared :=
  MkShared (sv_options v) (sv_engine v) (sv_sink v) (sv_listener v) (map (λ x, MkCell x false) (sv_connections v))
    (seq 0 (length (sv_connections v))) (sv_stopping v) (sv_served_requests v) (sv_rejected_frames v) (sv_reads v) false.

Definition unshare (v : server S L) (h : shared) : server S L :=
  MkServer (sh_options h) (sh_engine h) (sh_sink h) (sh_listener h) (sv_port v) (base.omap (λ c, session_of c h) (sh_registry h))
    (sh_stopping h) (sh_served_requests h) (sh_rejected_frames h) 0 (sh_reads h) (sv_tries v).

(** [start_workers], the waiting loops, [stop_workers] and [stop] under a schedule:
    what [start_workers] answered and the server once the main thread is past them,
    [None] when the schedule ends before. *)
Definition run_workers (budget count : Z) (turns : list turn_of) (v : server S L) : option (status * server S L) :=
  let '(started, v) := start_workers count v in
  let workers := if is_ok started then repeat AtTop (Z.to_nat count) else [] in
  let p := pool_run budget turns (MkPool (share v) workers AwaitRunning) in
  match po_main p with
  | Down => Some (started, unshare v (po_shared p))
  | _ => None
  end.
End Workers.
