(* ===== verification/WorkersFacts.v ===== *)
(** * What the workers do to what they share

    A small program logic for [prog]: [safe] says of every step of a program that it
    does to the shared state only what [moved] allows, [disciplined] that the program
    holds at most one session's mutex, none while it takes the engine's or the
    registry's, and gives back what it took.  The programs of the server satisfy both,
    whatever happens between their steps. *)

From S2P Require Import Prelude Containers Checked Result Text Json Codec CodecTables CodecFabric CodecPolicy Bytes Wire WireFacts.
From S2P Require Import Identity Lifecycle Obligation Evidence Authority Admission Topology Policy Decision Engine.
From S2P Require Import Protocol Snapshot Explain EngineStep EngineOps EngineInv EngineRefine EngineReach Queries Server ServerFacts Workers.
#[local] Open Scope Z_scope.
#[local] Open Scope prog_scope.

(** ** What a worker asks of the engine *)

(** The authority a frame speaks with, when it presents a token. *)
Definition speaks_for (payload : json) (a : AuthorityId) : Prop :=
  ∀ presented, json_find "authority" payload = Some presented →
    ∃ token, token_from_presentation_json presented = Ok token ∧ a = at_id token.

(** The critical section of the engine a frame is a request for. *)
Inductive frame_asks (options : ServerOptions) (frame : Frame) : op → Prop :=
  | fa_hello : fr_type frame = Msg.Hello → frame_asks options frame (OpIssue "" (so_authority_validity options))
  | fa_drain targets node a : fr_type frame = Msg.DrainRequest →
      parse_targets (fr_payload frame) = Ok targets → parse_node (fr_payload frame) "node" = Ok node →
      speaks_for (fr_payload frame) a →
      frame_asks options frame (OpRequestSet (MkDrainRequest targets (get_string "reason" "" (fr_payload frame)) a node
                                                (get_uint "nonce" 0 (fr_payload frame))))
  | fa_cancel a : fr_type frame = Msg.CancelRequest → speaks_for (fr_payload frame) a →
      frame_asks options frame (OpCancel (get_uint "drain" 0 (fr_payload frame)) a (get_string "reason" "" (fr_payload frame)))
  | fa_restore a : fr_type frame = Msg.RestoreRequest → speaks_for (fr_payload frame) a →
      frame_asks options frame (OpRestorePass (get_uint "drain" 0 (fr_payload frame)) a (get_string "reason" "" (fr_payload frame)))
  | fa_admit body draft a : fr_type frame = Msg.ObligationAdmit →
      json_find "obligation" (fr_payload frame) = Some body → obligation_from_json body = Ok draft →
      speaks_for (fr_payload frame) a →
      frame_asks options frame (OpAdmit draft (get_uint "generation" 0 (fr_payload frame)) a)
  | fa_report body next : fr_type frame = Msg.ObligationReport →
      json_find "report" (fr_payload frame) = Some body →
      obligation_state_from_string (get_string "next" "" body) = Some next →
      frame_asks options frame (OpReport (report_of body next))
  | fa_evidence body draft : fr_type frame = Msg.EvidenceReport →
      json_find "evidence" (fr_payload frame) = Some body → evidence_from_json body = Ok draft →
      frame_asks options frame (OpEvidence draft).

(** A scheduling pass, the count of what was handed to the sink, or what a decoded
    frame asked for. *)
Inductive worker_op (options : ServerOptions) : op → Prop :=
  | wo_pass : worker_op options OpAdvancePass
  | wo_dispatched actions failures : worker_op options (OpDispatched actions failures)
  | wo_frame frame o : parsed (fr_payload frame) → frame_asks options frame o → worker_op options o.

Lemma worker_op_wf options o e : worker_op options o → op_wf o e.
Proof.
  intros [| |frame o' Hp Ho]; [done|done|]. destruct Ho; try done. split; [|done].
  eapply obligation_from_json_wf; [|done]. by eapply parsed_find.
Qed.

Section Facts.
Context {S L : Type} (sock : SocketOps S) (lsn : ListenerOps S L) (clock : nat → TimePoint) (options : ServerOptions).
#[local] Abbreviation shared := (shared S L).
#[local] Abbreviation prog := (prog S L).

(** ** What a step may do *)

Definition cell_wf (x : cell S) : Prop := in_range u64 (fs_max_payload_bytes (cn_stream (ce_connection x))).

(** The mutex and the bound of the stream. *)
Definition same_cell (x x' : cell S) : Prop :=
  ce_locked x' = ce_locked x ∧ same_bound (ce_connection x) (ce_connection x').

#[export] Instance same_cell_preorder : PreOrder same_cell.
Proof. split; [done|]. intros x y z [L1 B1] [L2 B2]. split; [congruence|by etrans]. Qed.

Record shared_wf (h : shared) : Prop := {
  sw_options : sh_options h = options;
  sw_frame : in_range u64 (so_max_frame_bytes options);
  sw_heap : Forall cell_wf (sh_heap h);
  sw_registry : Forall (λ c, (c < length (sh_heap h))%nat) (sh_registry h);
}.

(** The engine moves by calls a worker may make, the stop flag stays set, mutexes and
    the places of sessions stay, and no session enters the registry. *)
Record moved (h h' : shared) : Prop := {
  mv_options : sh_options h' = sh_options h;
  mv_engine : ∃ calls, sh_engine h' = replay calls (sh_engine h) ∧ Forall (λ c, worker_op options (ca_op c)) calls;
  mv_stopping : sh_stopping h = true → sh_stopping h' = true;
  mv_heap : Forall2 same_cell (sh_heap h) (sh_heap h');
  mv_registry : sublist (sh_registry h') (sh_registry h);
}.

#[export] Instance moved_preorder : PreOrder moved.
Proof.
  split.
  - intros h. split; try done. by exists [].
  - intros a b c [O1 (k1 & E1 & F1) S1 H1 R1] [O2 (k2 & E2 & F2) S2 H2 R2]. split; [congruence| |auto| |by etrans].
    + exists (k1 ++ k2). split; [by rewrite replay_app, <- E1|by apply Forall_app].
    + by etrans.
Qed.

Lemma moved_shared_wf h h' : moved h h' → shared_wf h → shared_wf h'.
Proof.
  intros [Ho _ _ Hh Hr] [W1 W2 W3 W4]. split; [congruence|done| |].
  - apply Forall_lookup. intros i x' Hx'. destruct (Forall2_lookup_r _ _ _ _ _ Hh Hx') as (x & Hx & _ & Hb).
    unfold cell_wf. rewrite Hb. by apply (proj1 (Forall_lookup _ _) W3 i x).
  - rewrite <- (Forall2_length _ _ _ Hh). rewrite Forall_forall in *. intros c Hc. apply W4. by eapply elem_of_sublist.
Qed.

(** An update of the other fields. *)
Lemma moved_fields (h h' : shared) :
  sh_options h' = sh_options h → sh_engine h' = sh_engine h → (sh_stopping h = true → sh_stopping h' = true) →
  sh_heap h' = sh_heap h → sh_registry h' = sh_registry h → moved h h'.
Proof.
  intros H1 H2 H3 H4 H5. split; [done|by exists []|done|by rewrite H4|by rewrite H5].
Qed.

Lemma moved_engine (h : shared) c :
  worker_op options (ca_op c) → moved h (h <| sh_engine := run_call c (sh_engine h) |>).
Proof.
  intros Hc. split; try done. exists [c]. split; [done|by constructor].
Qed.

Lemma moved_session c x x' (h : shared) :
  session_of c h = Some x → same_bound x x' → moved h (set_session c x' h).
Proof.
  intros Hx Hb. split; try done; [by exists []|]. cbn. apply Forall2_same_length_lookup. rewrite length_alter. split; [done|].
  intros k y y' Hy Hy'. rewrite list_lookup_alter in Hy'. case_decide; [subst|by simplify_eq].
  unfold session_of in Hx. rewrite Hy in Hx, Hy'. cbn in Hx, Hy'. simplify_eq. done.
Qed.

(** ** Safe programs *)

Fixpoint safe {A} (Q : A → Prop) (p : prog A) : Prop :=
  match p with
  | Ret a => Q a
  | Atomic _ f k => ∀ h, shared_wf h → moved h (f h).2 ∧ safe Q (k (f h).1)
  | TryLock _ k => safe Q (k true) ∧ safe Q (k false)
  | Unlock _ k => safe Q k
  end.

Lemma safe_bind {A B} (Q : A → Prop) (Q' : B → Prop) p k :
  safe Q p → (∀ a, Q a → safe Q' (k a)) → safe Q' (prog_bind p k).
Proof.
  intros Hp Hk. induction p as [a|B' g f k' IH|c k' IH|c k' IH]; cbn in *.
  - by apply Hk.
  - intros h Hh. destruct (Hp h Hh) as [Hm Hs]. auto.
  - destruct Hp. auto.
  - auto.
Qed.

Lemma safe_trylock {A} (Q : A → Prop) c k : safe Q (k true) → safe Q (k false) → safe Q (TryLock c k).
Proof. done. Qed.
Lemma safe_unlock {A} (Q : A → Prop) c k : safe Q k → safe Q (Unlock c k).
Proof. done. Qed.

(** A program whose value does not matter. *)
Abbreviation ok p := (safe (λ _, True) p).

Lemma safe_then {A B} (Q : B → Prop) (p : prog A) k : ok p → (∀ a, safe Q (k a)) → safe Q (prog_bind p k).
Proof. intros Hp Hk. eapply safe_bind; [exact Hp|]. intros a _. apply Hk. Qed.

Lemma safe_atomically {A} (Q : A → Prop) g f :
  (∀ h, shared_wf h → moved h (f h).2 ∧ Q (f h).1) → safe Q (atomically g f).
Proof. done. Qed.

Lemma ok_ret {A} (a : A) : ok (Ret a).
Proof. done. Qed.
Lemma ok_peek {A} g (f : shared → A) : ok (peek g f).
Proof. by intros h _. Qed.
Lemma ok_query {A} (f : engine → A) : ok (engine_query f).
Proof. apply ok_peek. Qed.
Lemma ok_field {A} c (f : Connection S → A) d : ok (get_field c f d).
Proof. apply ok_peek. Qed.
Lemma ok_snapshot : ok snapshot_connections.
Proof. apply ok_peek. Qed.
Lemma ok_clock : ok (clock_now clock).
Proof. intros h _. split; [by apply moved_fields|done]. Qed.
Lemma ok_served : ok count_served.
Proof. intros h _. split; [by apply moved_fields|done]. Qed.
Lemma ok_rejected : ok count_rejected.
Proof. intros h _. split; [by apply moved_fields|done]. Qed.

(** An operation of the engine, as the call it is. *)
Lemma ok_call {A} (f : engine → A * engine) o now :
  worker_op options o → (∀ e, (f e).2 = exec None o now e) → ok (engine_call f).
Proof.
  intros Ho Hf h _. split; [|done]. specialize (Hf (sh_engine h)). cbn.
  destruct (f (sh_engine h)) as [a e]. cbn in *. subst. by apply (moved_engine h (MkCall None o now)).
Qed.

Lemma ok_put c (f : Connection S → Connection S) : (∀ x, same_bound x (f x)) → ok (put_field c f).
Proof.
  intros Hf h _. split; [|done]. cbn. destruct (session_of c h) as [x|] eqn:Hx; [|done]. by eapply moved_session.
Qed.

Lemma ok_send c type sequence payload : ok (worker_send sock c type sequence payload).
Proof.
  intros h _. split; [|done]. cbn. destruct (session_of c h) as [x|] eqn:Hx; [|done].
  pose proof (send_to_bound sock (MkFrame type sequence payload) x) as Hb. destruct (send_to _ _ _) as [sent x'].
  by eapply moved_session.
Qed.

Lemma ok_failure c sequence code message : ok (worker_failure sock c sequence code message).
Proof. apply ok_send. Qed.

Lemma receive_safe c : safe (λ a, ∀ frame, a.2 = Some frame → parsed (fr_payload frame)) (receive sock c).
Proof.
  apply safe_atomically. intros h Hwf. destruct (session_of c h) as [x|] eqn:Hx; [|done].
  pose proof (receive_now_spec sock (so_read_wait_ms (sh_options h)) (cn_stream x)) as Hr.
  destruct (receive_now _ _ _) as [[[o f] err] st]. destruct Hr as [Hb Hf]. split; [by eapply moved_session|].
  cbn. intros frame ->. destruct (Hf frame eq_refl) as [img Himg]. eapply decode_frame_parsed; [|exact Himg].
  unfold session_of in Hx. destruct (sh_heap h !! c) as [y|] eqn:Hy; [|done]. cbn in Hx. simplify_eq.
  by apply (proj1 (Forall_lookup _ _) (sw_heap _ Hwf) c y).
Qed.

(** One more step of a program: its own lemma, or a case of its code. *)
Ltac safe_step :=
  match goal with
  | |- safe _ (prog_bind _ _) => apply safe_then; [|intros ?]
  | |- safe _ (Ret _) => exact I
  | |- safe _ (TryLock _ _) => apply safe_trylock; cbn [negb]
  | |- safe _ (Unlock _ _) => apply safe_unlock
  | |- safe _ (match ?x with _ => _ end) => destruct x eqn:?
  | |- safe _ (worker_refuse _ _ _ _) => apply ok_failure
  | |- safe _ (worker_reply _ _ _ _ _) => apply ok_send
  | |- safe _ _ => first
      [ apply ok_query | apply ok_peek | apply ok_field | apply ok_snapshot | apply ok_clock | apply ok_served | apply ok_rejected
      | apply ok_failure | apply ok_send | (apply ok_put; intros ?; reflexivity) ]
  end.
Ltac safe_steps := cbn zeta beta; repeat (safe_step; cbn zeta beta).

Lemma ok_push type payload : ok (push sock type payload).
Proof.
  unfold push. apply safe_then; [apply ok_snapshot|]. intros cs. apply safe_then; [|done].
  generalize 0. induction cs as [|c cs IH]; intros n; cbn [push_each]; safe_steps; auto.
Qed.

Lemma ok_hand_each {A} (send : A → prog status) requests acc : (∀ r, ok (send r)) → ok (hand_each send requests acc).
Proof. intros Hs. revert acc. induction requests as [|r requests IH]; intros acc; [done|]. cbn. apply safe_then; auto. Qed.

Lemma ok_hand_actions actions : ok (hand_actions sock actions).
Proof.
  unfold hand_actions. repeat (apply safe_then; [apply ok_hand_each; intros ?; try done; apply ok_push|intros ?]). done.
Qed.

Lemma ok_finish actions n : ok (engine_call (λ e, (tt, finish_dispatch actions n e))).
Proof. apply (ok_call _ (OpDispatched actions n) 0); [constructor|done]. Qed.

Lemma ok_dispatch actions : ok (worker_dispatch sock actions).
Proof.
  unfold worker_dispatch. apply safe_then; [apply ok_peek|]. intros sink. apply safe_then; [destruct sink; [apply ok_hand_actions|done]|].
  intros [[o n] m]. apply safe_then; [apply ok_finish|done].
Qed.

Lemma ok_advance now : ok (worker_advance sock now).
Proof.
  unfold worker_advance. apply safe_then.
  { apply (ok_call _ OpAdvancePass now); [constructor|]. intros e. cbn. by destruct (advance_pass now e). }
  intros actions. apply safe_then; [apply ok_peek|]. intros sink. apply safe_then; [destruct sink; [apply ok_hand_actions|done]|].
  intros [[o n] m]. apply safe_then; [apply ok_finish|done].
Qed.

Section Request.
Context (c : nat) (frame : Frame) (Hparsed : parsed (fr_payload frame)).

Lemma asked o : frame_asks options frame o → worker_op options o.
Proof. apply wo_frame, Hparsed. Qed.

Lemma ok_dismiss code message : ok (worker_dismiss sock c frame code message).
Proof. unfold worker_dismiss. safe_steps. Qed.

Lemma resolve_safe :
  safe (λ r, ∀ a, r = Ok a → speaks_for (fr_payload frame) a) (worker_resolve clock c (fr_payload frame)).
Proof.
  unfold worker_resolve. destruct (json_find "authority" (fr_payload frame)) as [presented|] eqn:Hp.
  - destruct (token_from_presentation_json presented) as [token|] eqn:Ht; [|by intros a]. safe_steps.
    intros a1. destruct a0; [|done]. intros [= <-] x Hx. rewrite Hp in Hx. simplify_eq. eauto.
  - assert (∀ a, speaks_for (fr_payload frame) a) as Hany by (intros a x; by rewrite Hp).
    apply safe_then; [apply ok_field|]. intros a. destruct (a =? 0); [by intros ?|].
    apply safe_then; [apply ok_field|]. intros ? ? _. apply Hany.
Qed.

Lemma ok_having k :
  (∀ a, speaks_for (fr_payload frame) a → ok (k a)) → ok (having_authority sock clock c frame k).
Proof.
  intros Hk. unfold having_authority. eapply safe_bind; [apply resolve_safe|]. intros r Hr.
  destruct r; [by apply Hk, Hr|apply ok_failure].
Qed.

Lemma ok_hello : fr_type frame = Msg.Hello → ok (serve_hello sock clock c frame).
Proof.
  intros Ht. unfold serve_hello. destruct (negb _); [apply ok_dismiss|]. destruct (session_role_from_string _); [|apply ok_dismiss].
  destruct (parse_node _ _); [|apply ok_dismiss]. apply safe_then; [apply ok_clock|]. intros now. apply safe_then.
  - intros h Hwf. rewrite (sw_options _ Hwf). split; [|done].
    pose proof (moved_engine h (MkCall None (OpIssue "" (so_authority_validity options)) now)) as Hm.
    cbn in Hm. destruct (issue_authority _ _ _ _) as [r e]. apply Hm. apply asked. by constructor.
  - intros [token|err]; [|apply ok_dismiss]. safe_steps.
Qed.

Lemma ok_drain_request : fr_type frame = Msg.DrainRequest → ok (serve_drain_request sock clock c frame).
Proof.
  intros Ht. unfold serve_drain_request. destruct (parse_targets _) eqn:E1; [|apply ok_failure].
  destruct (parse_node _ _) eqn:E2; [|apply ok_failure]. apply ok_having. intros au Ha.
  apply safe_then; [apply ok_clock|]. intros now. apply safe_then; [|intros r; safe_steps].
  eapply (ok_call _ (OpRequestSet _) now); [apply asked; by eapply fa_drain|done].
Qed.

Lemma ok_cancel_request : fr_type frame = Msg.CancelRequest → ok (serve_cancel_request sock clock c frame).
Proof.
  intros Ht. apply ok_having. intros au Ha. apply safe_then; [apply ok_clock|]. intros now.
  apply safe_then; [|intros r; safe_steps].
  eapply (ok_call _ (OpCancel _ _ _) now); [apply asked; by eapply fa_cancel|done].
Qed.

Lemma ok_restore_request : fr_type frame = Msg.RestoreRequest → ok (serve_restore_request sock clock c frame).
Proof.
  intros Ht. apply ok_having. intros au Ha. apply safe_then; [apply ok_clock|]. intros now.
  apply safe_then; [|intros r; safe_steps]. apply safe_then.
  - eapply (ok_call _ (OpRestorePass _ _ _) now); [apply asked; by eapply fa_restore|done].
  - intros [actions|err]; [apply ok_dispatch|done].
Qed.

Lemma ok_admit : fr_type frame = Msg.ObligationAdmit → ok (serve_obligation_admit sock clock c frame).
Proof.
  intros Ht. unfold serve_obligation_admit. destruct (json_find _ _) eqn:E1; [|apply ok_failure].
  destruct (obligation_from_json _) eqn:E2; [|apply ok_failure]. apply ok_having. intros au Ha.
  apply safe_then; [apply ok_clock|]. intros now. apply safe_then; [|intros r; safe_steps].
  eapply (ok_call _ (OpAdmit _ _ _) now); [apply asked; by eapply fa_admit|done].
Qed.

Lemma ok_report : fr_type frame = Msg.ObligationReport → ok (serve_obligation_report sock clock c frame).
Proof.
  intros Ht. unfold serve_obligation_report. destruct (json_find _ _) eqn:E1; [|apply ok_failure].
  destruct (obligation_state_from_string _) eqn:E2; [|apply ok_failure].
  apply safe_then; [apply ok_clock|]. intros now. apply safe_then; [|intros r; safe_steps].
  eapply (ok_call _ (OpReport _) now); [apply asked; by eapply fa_report|done].
Qed.

Lemma ok_evidence : fr_type frame = Msg.EvidenceReport → ok (serve_evidence_report sock clock c frame).
Proof.
  intros Ht. unfold serve_evidence_report. destruct (json_find _ _) eqn:E1; [|apply ok_failure].
  destruct (evidence_from_json _) eqn:E2; [|apply ok_failure].
  apply safe_then; [apply ok_clock|]. intros now. apply safe_then; [|intros r; safe_steps].
  eapply (ok_call _ (OpEvidence _) now); [apply asked; by eapply fa_evidence|done].
Qed.

Lemma ok_request : ok (serve_request sock clock c frame).
Proof.
  unfold serve_request. cbv zeta.
  destruct (Z.eqb_spec (fr_type frame) Msg.Hello); [by apply ok_hello|].
  destruct (Z.eqb_spec (fr_type frame) Msg.DrainRequest); [by apply ok_drain_request|].
  destruct (_ =? _); [unfold serve_status_request; safe_steps|].
  destruct (Z.eqb_spec (fr_type frame) Msg.CancelRequest); [by apply ok_cancel_request|].
  destruct (Z.eqb_spec (fr_type frame) Msg.RestoreRequest); [by apply ok_restore_request|].
  destruct (_ =? _); [unfold serve_explain_request; safe_steps|].
  destruct (_ =? _); [unfold serve_obligation_query; safe_steps|].
  destruct (Z.eqb_spec (fr_type frame) Msg.ObligationAdmit); [by apply ok_admit|].
  destruct (Z.eqb_spec (fr_type frame) Msg.ObligationReport); [by apply ok_report|].
  destruct (Z.eqb_spec (fr_type frame) Msg.EvidenceReport); [by apply ok_evidence|].
  destruct (_ =? _); [unfold serve_audit_request; safe_steps|].
  destruct (_ =? _); [unfold serve_shutdown; safe_steps; intros h _; split; [by apply moved_fields|done]|].
  unfold serve_other. safe_steps.
Qed.

Lemma ok_frame : ok (serve_frame sock clock c frame).
Proof.
  unfold serve_frame. apply safe_then; [apply ok_field|]. intros greeted. destruct (_ && _).
  - apply safe_then; [apply ok_rejected|]. intros _. apply ok_dismiss.
  - apply safe_then; [destruct (negb _); [apply ok_served|done]|]. intros _. apply ok_request.
Qed.
End Request.

Lemma ok_service c : ok (service sock clock c).
Proof.
  unfold service. apply safe_trylock; [|done]. cbn [negb].
  apply safe_then; [apply ok_field|]. intros [|]; [done|].
  eapply safe_bind; [apply receive_safe|]. intros [o f] Hf. cbn [snd] in Hf.
  assert (ok (put_field c (drop_connection sock) ;* Unlock c (Ret ok_status))) as Hdrop.
  { apply safe_then; [|done]. apply ok_put, drop_connection_bound. }
  destruct o; try done; try (apply safe_then; [apply ok_rejected|done]).
  destruct f as [frame|]; [|done]. apply safe_unlock, safe_then; [by apply ok_frame, Hf|]. intros handled.
  apply safe_trylock; [|done]. cbn [negb].
  apply safe_then; [apply ok_field|]. intros closing. apply safe_then; [|done].
  destruct closing; [|done]. apply ok_put, close_connection_bound.
Qed.

Lemma reap_moved h : moved h (reap sock h).
Proof.
  split; try done; [by exists []|]. cbn. induction (sh_registry h) as [|c l IH]; [done|]. cbn.
  destruct (negb _); [by apply sublist_skip|by apply sublist_cons].
Qed.

Lemma ok_poll : ok (poll_sessions sock clock).
Proof.
  unfold poll_sessions. apply safe_then; [apply ok_snapshot|]. intros cs. apply safe_then.
  { induction cs as [|c cs IH]; [done|]. cbn [service_each]. apply safe_then; [apply ok_service|done]. }
  intros _. apply safe_then; [apply ok_clock|]. intros now. apply safe_then; [apply ok_advance|]. intros _.
  apply safe_then; [|done]. intros h _. split; [apply reap_moved|done].
Qed.

(** ** Lock discipline *)

(** [held] is the session whose mutex the program holds now, [after] when it returns. *)
Fixpoint disciplined {A} (after held : option nat) (p : prog A) : Prop :=
  match p with
  | Ret _ => held = after
  | Atomic g _ k => (g = NoMutex ∨ held = None) ∧ ∀ b, disciplined after held (k b)
  | TryLock c k => held = None ∧ disciplined after (Some c) (k true) ∧ disciplined after None (k false)
  | Unlock c k => held = Some c ∧ disciplined after None k
  end.

(** A program that gives back what it takes. *)
Abbreviation tidy held p := (disciplined held held p).

Lemma disciplined_bind {A B} mid after held (p : prog A) (k : A → prog B) :
  disciplined mid held p → (∀ a, disciplined after mid (k a)) → disciplined after held (prog_bind p k).
Proof.
  intros Hp Hk. revert held Hp. induction p as [a|B' g f k' IH|c k' IH|c k' IH]; intros held Hp; cbn in *.
  - subst. apply Hk.
  - destruct Hp as [Hg Hp]. auto.
  - destruct Hp as (-> & H1 & H2). auto.
  - destruct Hp as [-> Hp]. auto.
Qed.

Lemma tidy_bind {A B} after held (p : prog A) (k : A → prog B) :
  tidy held p → (∀ a, disciplined after held (k a)) → disciplined after held (prog_bind p k).
Proof. apply disciplined_bind. Qed.

Lemma disciplined_trylock {A} after c (k : bool → prog A) :
  disciplined after (Some c) (k true) → disciplined after None (k false) → disciplined after None (TryLock c k).
Proof. done. Qed.
Lemma disciplined_unlock {A} after c (k : prog A) : disciplined after None k → disciplined after (Some c) (Unlock c k).
Proof. done. Qed.

Lemma tidy_free {A} held (f : shared → A * shared) : tidy held (atomically NoMutex f).
Proof. split; [by left|done]. Qed.
Lemma tidy_guarded {A} g (f : shared → A * shared) : tidy None (atomically g f).
Proof. split; [by right|done]. Qed.

Ltac tidy_step :=
  match goal with
  | |- disciplined _ _ (prog_bind _ _) => apply tidy_bind; [|intros ?]
  | |- disciplined _ _ (Ret _) => reflexivity
  | |- disciplined _ _ (TryLock _ _) => apply disciplined_trylock; cbn [negb]
  | |- disciplined _ _ (Unlock _ _) => apply disciplined_unlock
  | |- disciplined _ _ (match ?x with _ => _ end) => destruct x
  | |- disciplined _ _ (let! _ := ?x else _ in _) => destruct x
  | |- disciplined _ _ (push_each _ _ _ _ _) => fail 1
  | |- disciplined (Some _) _ _ => apply tidy_free
  | |- disciplined None _ _ => apply tidy_guarded
  end.
Ltac tidy_steps := cbn zeta beta; repeat (tidy_step; cbn zeta beta).

Lemma tidy_push type payload : tidy None (push sock type payload).
Proof.
  unfold push. apply tidy_bind; [apply tidy_guarded|]. intros cs. apply tidy_bind; [|done].
  generalize 0. induction cs as [|c cs IH]; intros n; cbn [push_each]; tidy_steps; apply IH.
Qed.

Lemma tidy_hand_each {A} (send : A → prog status) requests acc :
  (∀ r, tidy None (send r)) → tidy None (hand_each send requests acc).
Proof. intros Hs. revert acc. induction requests as [|r requests IH]; intros acc; [done|]. cbn. apply tidy_bind; auto. Qed.

Lemma tidy_hand_actions actions : tidy None (hand_actions sock actions).
Proof.
  unfold hand_actions. apply tidy_bind; [apply tidy_hand_each; intros ?; apply tidy_push|]. intros ev.
  apply tidy_bind; [apply tidy_hand_each; intros ?; reflexivity|]. intros rs.
  apply tidy_bind; [apply tidy_hand_each; intros ?; apply tidy_push|]. intros ro. reflexivity.
Qed.

Lemma tidy_dispatch actions : tidy None (worker_dispatch sock actions).
Proof.
  unfold worker_dispatch. apply tidy_bind; [apply tidy_guarded|]. intros sink.
  apply tidy_bind; [destruct sink; [apply tidy_hand_actions|done]|]. intros [[o n] m]. tidy_steps.
Qed.

Lemma tidy_advance now : tidy None (worker_advance sock now).
Proof.
  unfold worker_advance. apply tidy_bind; [apply tidy_guarded|]. intros actions. apply tidy_bind; [apply tidy_guarded|]. intros sink.
  apply tidy_bind; [destruct sink; [apply tidy_hand_actions|done]|]. intros [[o n] m]. tidy_steps.
Qed.

Lemma tidy_having c frame k : (∀ a, tidy None (k a)) → tidy None (having_authority sock clock c frame k).
Proof.
  intros Hk. unfold having_authority, worker_resolve. apply tidy_bind; [tidy_steps|].
  intros [a|err]; [apply Hk|apply tidy_guarded].
Qed.

Lemma tidy_frame c frame : tidy None (serve_frame sock clock c frame).
Proof.
  unfold serve_frame. apply tidy_bind; [apply tidy_guarded|]. intros greeted. destruct (_ && _).
  { unfold worker_dismiss. tidy_steps. }
  apply tidy_bind; [destruct (negb _); [apply tidy_guarded|done]|]. intros _. unfold serve_request. cbv zeta.
  repeat match goal with |- disciplined _ _ (if ?x =? ?y then _ else _) => destruct (x =? y) end.
  - unfold serve_hello, worker_dismiss. tidy_steps.
  - unfold serve_drain_request. destruct (parse_targets _); [|apply tidy_guarded].
    destruct (parse_node _ _); [|apply tidy_guarded]. apply tidy_having. intros au. tidy_steps.
  - unfold serve_status_request. tidy_steps.
  - apply tidy_having. intros au. tidy_steps.
  - apply tidy_having. intros au. apply tidy_bind; [apply tidy_guarded|]. intros now. apply tidy_bind; [|intros r; tidy_steps].
    apply tidy_bind; [apply tidy_guarded|]. intros [actions|err]; [apply tidy_dispatch|done].
  - unfold serve_explain_request. tidy_steps.
  - unfold serve_obligation_query. tidy_steps.
  - unfold serve_obligation_admit. destruct (json_find _ _); [|apply tidy_guarded].
    destruct (obligation_from_json _); [|apply tidy_guarded]. apply tidy_having. intros au. tidy_steps.
  - unfold serve_obligation_report. tidy_steps.
  - unfold serve_evidence_report. tidy_steps.
  - unfold serve_audit_request. tidy_steps.
  - unfold serve_shutdown. tidy_steps.
  - unfold serve_other. tidy_steps.
Qed.

Lemma tidy_service c : tidy None (service sock clock c).
Proof.
  unfold service. apply disciplined_trylock; [|done]. cbn [negb].
  apply tidy_bind; [apply tidy_free|]. intros [|]; [by apply disciplined_unlock|].
  apply tidy_bind; [apply tidy_free|]. intros [o f].
  assert (disciplined None (Some c) (put_field c (drop_connection sock) ;* Unlock c (Ret ok_status))) as Hdrop.
  { apply tidy_bind; [apply tidy_free|done]. }
  destruct o; try (by apply disciplined_unlock); try done; try (apply tidy_bind; [apply tidy_free|done]).
  destruct f as [frame|]; [|by apply disciplined_unlock]. apply disciplined_unlock, tidy_bind; [apply tidy_frame|]. intros handled.
  apply disciplined_trylock; [|done]. cbn [negb].
  apply tidy_bind; [apply tidy_free|]. intros closing. apply tidy_bind; [|by intros ?; apply disciplined_unlock].
  destruct closing; [apply tidy_free|done].
Qed.

(** The discipline of [server.hpp]: a poll never holds the mutex of a session while
    it takes the registry's or calls the engine, never holds two, and returns with
    none. *)
Lemma tidy_poll : tidy None (poll_sessions sock clock).
Proof.
  unfold poll_sessions. apply tidy_bind; [apply tidy_guarded|]. intros cs. apply tidy_bind.
  { induction cs as [|c cs IH]; [done|]. cbn [service_each]. apply tidy_bind; [apply tidy_service|done]. }
  intros _. apply tidy_bind; [apply tidy_guarded|]. intros now. apply tidy_bind; [apply tidy_advance|]. intros _.
  apply tidy_bind; [apply tidy_guarded|done].
Qed.
End Facts.
