(* ===== verification/SoleWorker.v ===== *)
(** * A worker by itself

    The steps of a worker, run without interruption, do what [poll_once] of [Server]
    does: the same answers, the same engine, the same sessions, message by message. *)

From S2P Require Import Prelude Containers Checked Result Text Json Codec CodecTables CodecFabric CodecPolicy Bytes Wire WireFacts.
From S2P Require Import Identity Lifecycle Obligation Evidence Authority Admission Topology Policy Decision Engine.
From S2P Require Import Protocol Snapshot Explain EngineStep EngineOps EngineInv EngineRefine EngineReach Queries Server ServerFacts.
From S2P Require Import Scenario Transport Serving Workers WorkersFacts.
#[local] Open Scope Z_scope.
#[local] Open Scope prog_scope.

(** ** Running a program to its end *)

Fixpoint run_prog {S L A} (p : prog S L A) (h : shared S L) : A * shared S L :=
  match p with
  | Ret a => (a, h)
  | Atomic _ f k => let '(b, h) := f h in run_prog (k b) h
  | TryLock c k => if is_locked c h then run_prog (k false) h else run_prog (k true) (set_locked c true h)
  | Unlock c k => run_prog k (set_locked c false h)
  end.

(** It is the last of its steps. *)
Lemma run_prog_steps {S L A} (p : prog S L A) (h : shared S L) :
  rtc (λ x y : prog S L A * shared S L, y = prog_step x.1 x.2) (p, h) (Ret (run_prog p h).1, (run_prog p h).2).
Proof.
  revert h. induction p as [a|B g f k IH|c k IH|c k IH]; intros h; cbn [run_prog].
  - done.
  - eapply rtc_l; [done|]. cbn. destruct (f h) as [b h']. apply IH.
  - eapply rtc_l; [done|]. cbn. destruct (is_locked c h); apply IH.
  - eapply rtc_l; [done|]. apply IH.
Qed.

Lemma run_prog_bind {S L A B} (p : prog S L A) (k : A → prog S L B) (h : shared S L) :
  run_prog (prog_bind p k) h = run_prog (k (run_prog p h).1) (run_prog p h).2.
Proof.
  revert h. induction p as [a|B' g f k' IH|c k' IH|c k' IH]; intros h; cbn [run_prog prog_bind].
  - done.
  - destruct (f h) as [b h']. apply IH.
  - destruct (is_locked c h); apply IH.
  - apply IH.
Qed.

Section Sole.
Context {S L : Type} (sock : SocketOps S) (lsn : ListenerOps S L) (clock : nat → TimePoint).
#[local] Abbreviation server := (server S L).
#[local] Abbreviation shared := (shared S L).
#[local] Abbreviation prog := (prog S L).

(** ** The same server *)

(** [h] is [v] with its sessions on the heap, at the pointers [reg]; only the mutex of
    [held] is taken. *)
Record sees (reg : list nat) (held : option nat) (h : shared) (v : server) : Prop := {
  se_options : sh_options h = sv_options v;
  se_engine : sh_engine h = sv_engine v;
  se_sink : sh_sink h = sv_sink v;
  se_listener : sh_listener h = sv_listener v;
  se_stopping : sh_stopping h = sv_stopping v;
  se_served : sh_served_requests h = sv_served_requests v;
  se_rejected : sh_rejected_frames h = sv_rejected_frames v;
  se_reads : sh_reads h = sv_reads v;
  se_registry : sh_registry h = reg;
  se_sessions : Forall2 (λ c x, sh_heap h !! c = Some (MkCell x (bool_decide (held = Some c)))) reg (sv_connections v);
}.

Section At.
Context (reg : list nat) (Hreg : NoDup reg).

(** The program answers and leaves what [r] says. *)
Definition agrees {A} (held : option nat) (p : prog A) (h : shared) (r : A * server) : Prop :=
  ∃ h', run_prog p h = (r.1, h') ∧ sees reg held h' r.2.

Lemma agrees_ret {A} held (a : A) h v : sees reg held h v → agrees held (Ret a) h (a, v).
Proof. intros Hs. by exists h. Qed.

Lemma agrees_bind {A B} held held' (p : prog A) (k : A → prog B) h r r' :
  agrees held p h r → (∀ h', sees reg held h' r.2 → agrees held' (k r.1) h' r') → agrees held' (prog_bind p k) h r'.
Proof.
  intros (h' & Hp & Hs) Hk. unfold agrees. rewrite run_prog_bind, Hp. by apply Hk.
Qed.

(** *** Steps *)

Lemma agrees_peek {A B} held g (f : shared → A) (k : A → prog B) h r :
  agrees held (k (f h)) h r → agrees held (prog_bind (peek g f) k) h r.
Proof. done. Qed.

Lemma agrees_query {A B} held held' (f : engine → A) (k : A → prog B) h v r :
  sees reg held h v → agrees held' (k (f (sv_engine v))) h r → agrees held' (prog_bind (engine_query f) k) h r.
Proof. intros Hs. rewrite <- (se_engine _ _ _ _ Hs). done. Qed.

Lemma agrees_clock {B} held held' (k : TimePoint → prog B) h v r :
  sees reg held h v →
  (∀ h', sees reg held h' (read_clock clock v).2 → agrees held' (k (clock (sv_reads v))) h' r) →
  agrees held' (prog_bind (clock_now clock) k) h r.
Proof.
  intros Hs Hk. unfold agrees. rewrite run_prog_bind. cbn. rewrite (se_reads _ _ _ _ Hs). apply Hk.
  destruct Hs as [? ? ? ? ? ? ? E ? ?]. split; try done.
Qed.

Lemma sees_engine held h v e : sees reg held h v → sees reg held (h <| sh_engine := e |>) (v <| sv_engine := e |>).
Proof. intros []. by split. Qed.

Lemma agrees_call {A B} held held' (f : engine → A * engine) (k : A → prog B) h v r :
  sees reg held h v →
  (∀ h', sees reg held h' (v <| sv_engine := (f (sv_engine v)).2 |>) → agrees held' (k (f (sv_engine v)).1) h' r) →
  agrees held' (prog_bind (engine_call f) k) h r.
Proof.
  intros Hs Hk. unfold agrees. rewrite run_prog_bind. cbn. rewrite (se_engine _ _ _ _ Hs).
  destruct (f (sv_engine v)) as [a e]. cbn in *. apply Hk. by apply sees_engine.
Qed.

(** A field that is not a session. *)
Lemma agrees_poke {B} held held' (f : shared → shared) (k : unit → prog B) h v v' r :
  sees reg held h v → (∀ h, sees reg held h v → sees reg held (f h) v') →
  (∀ h', sees reg held h' v' → agrees held' (k tt) h' r) → agrees held' (prog_bind (poke f) k) h r.
Proof. intros Hs Hf Hk. unfold agrees. rewrite run_prog_bind. apply Hk, Hf, Hs. Qed.

Section Session.
Context (i c : nat) (Hi : reg !! i = Some c).

Lemma session_at held h v : sees reg held h v → session_of c h = sv_connections v !! i.
Proof.
  intros Hs. destruct (Forall2_lookup_l _ _ _ _ _ (se_sessions _ _ _ _ Hs) Hi) as (x & -> & Hc).
  unfold session_of. by rewrite Hc.
Qed.

Lemma session_there held h v : sees reg held h v → ∃ x, sv_connections v !! i = Some x.
Proof.
  intros Hs. destruct (Forall2_lookup_l _ _ _ _ _ (se_sessions _ _ _ _ Hs) Hi) as (x & -> & _). by exists x.
Qed.

Lemma sees_session held h v x :
  sees reg held h v → sees reg held (set_session c x h) (v <| sv_connections := <[i := x]> (sv_connections v) |>).
Proof.
  intros Hs. destruct Hs as [? ? ? ? ? ? ? ? ? Hf]. split; try done. cbn.
  apply Forall2_same_length_lookup. rewrite length_insert. pose proof (Forall2_length _ _ _ Hf) as Hlen. split; [done|].
  intros j d y Hj Hy. destruct (decide (j = i)) as [->|Hji].
  - rewrite Hi in Hj. injection Hj as <-. rewrite list_lookup_insert_eq in Hy by (rewrite <- Hlen; by eapply lookup_lt_Some).
    injection Hy as <-. destruct (Forall2_lookup_l _ _ _ _ _ Hf Hi) as (y & _ & Hc). rewrite list_lookup_alter, decide_True by done.
    by rewrite Hc.
  - rewrite list_lookup_insert_ne in Hy by done. rewrite list_lookup_alter, decide_False; [exact (Forall2_lookup_lr _ _ _ _ _ _ Hf Hj Hy)|].
    intros <-. apply Hji. by eapply NoDup_lookup.
Qed.

Lemma agrees_field {A B} held held' (f : Connection S → A) d (k : A → prog B) h v r :
  sees reg held h v → agrees held' (k (default d (f <$> sv_connections v !! i))) h r →
  agrees held' (prog_bind (get_field c f d) k) h r.
Proof. intros Hs Hk. unfold agrees. rewrite run_prog_bind. cbn. by rewrite (session_at _ _ _ Hs). Qed.

Lemma alter_insert {A} (f : A → A) (l : list A) x : l !! i = Some x → alter f i l = <[i := f x]> l.
Proof.
  intros Hx. apply list_eq. intros j. rewrite list_lookup_alter. destruct (decide (i = j)) as [<-|Hj].
  - rewrite Hx, list_lookup_insert_eq by by eapply lookup_lt_Some. done.
  - by rewrite list_lookup_insert_ne.
Qed.

Lemma alter_alter {A} (f g : A → A) (l : list A) : alter f i (alter g i l) = alter (f ∘ g) i l.
Proof.
  apply list_eq. intros j. rewrite !list_lookup_alter. destruct (decide (i = j)); [|done].
  rewrite decide_True by done. by destruct (l !! i).
Qed.

Lemma agrees_put {B} held held' (f : Connection S → Connection S) (k : unit → prog B) h v r :
  sees reg held h v → (∀ h', sees reg held h' (update_connection i f v) → agrees held' (k tt) h' r) →
  agrees held' (prog_bind (put_field c f) k) h r.
Proof.
  intros Hs Hk. unfold agrees. rewrite run_prog_bind. cbn. apply Hk. rewrite (session_at _ _ _ Hs).
  destruct (session_there _ _ _ Hs) as [x Hx]. rewrite Hx. unfold update_connection. rewrite (alter_insert _ _ _ Hx).
  by apply sees_session.
Qed.

Lemma agrees_send held type sequence payload h v :
  sees reg held h v → agrees held (worker_send sock c type sequence payload) h (server_send sock i type sequence payload v).
Proof.
  intros Hs. unfold agrees. cbn. rewrite (session_at _ _ _ Hs). destruct (session_there _ _ _ Hs) as [x Hx]. rewrite Hx.
  unfold server_send. rewrite Hx. destruct (send_to sock _ x) as [sent x']. eexists. split; [done|]. by apply sees_session.
Qed.

Lemma agrees_failure held sequence code message h v :
  sees reg held h v → agrees held (worker_failure sock c sequence code message) h (send_failure sock i sequence code message v).
Proof. apply agrees_send. Qed.
End Session.

(** *** Mutexes *)

Lemma sees_lock i c h v :
  reg !! i = Some c → sees reg None h v → is_locked c h = false ∧ sees reg (Some c) (set_locked c true h) v.
Proof.
  intros Hi Hs. destruct Hs as [? ? ? ? ? ? ? ? ? Hf]. split.
  - destruct (Forall2_lookup_l _ _ _ _ _ Hf Hi) as (x & _ & Hc). unfold is_locked. by rewrite Hc.
  - split; try done. eapply Forall2_impl; [exact Hf|]. intros d x Hd. cbn beta in Hd. cbn [set_locked update upd_sh_heap sh_heap]. rewrite list_lookup_alter.
    rewrite bool_decide_eq_false_2 in Hd by congruence.
    destruct (decide (c = d)) as [->|Hne]; [|by rewrite bool_decide_eq_false_2 by congruence].
    rewrite Hd. cbn. by rewrite bool_decide_eq_true_2.
Qed.

Lemma sees_unlock c h v : sees reg (Some c) h v → sees reg None (set_locked c false h) v.
Proof.
  intros Hs. destruct Hs as [? ? ? ? ? ? ? ? ? Hf]. split; try done. eapply Forall2_impl; [exact Hf|]. intros d x Hd. cbn beta in Hd. cbn [set_locked update upd_sh_heap sh_heap].
  rewrite list_lookup_alter. destruct (decide (c = d)) as [->|Hne]; [by rewrite Hd|].
  by rewrite bool_decide_eq_false_2 in Hd by congruence.
Qed.

Lemma agrees_trylock {A} held' i c (k : bool → prog A) h v r :
  reg !! i = Some c → sees reg None h v →
  (∀ h', sees reg (Some c) h' v → agrees held' (k true) h' r) → agrees held' (TryLock c k) h r.
Proof.
  intros Hi Hs Hk. destruct (sees_lock _ _ _ _ Hi Hs) as [Hl Hs']. unfold agrees. cbn [run_prog]. rewrite Hl. by apply Hk.
Qed.

Lemma agrees_unlock {A} held' c (k : prog A) h v r :
  sees reg (Some c) h v → (∀ h', sees reg None h' v → agrees held' k h' r) → agrees held' (Unlock c k) h r.
Proof. intros Hs Hk. unfold agrees. cbn [run_prog]. by apply Hk, sees_unlock. Qed.

(** The attempts to lock a session that are not counted here. *)
Lemma sees_tries held h v n : sees reg held h v → sees reg held h (v <| sv_tries := n |>).
Proof. intros []. by split. Qed.

(** *** Pushing to agents *)

Lemma push_each_agrees type payload todo before ys xs tries delivered h v :
  reg = before ++ todo → length before = length xs → sv_connections v = xs ++ ys → sees reg None h v →
  let '(n, ys', _) := push_loop sock free (MkFrame type 0 payload) ys tries in
  agrees None (push_each sock type payload todo delivered) h (delivered + n, v <| sv_connections := xs ++ ys' |>).
Proof.
  revert before ys xs tries delivered h v. induction todo as [|c todo IH]; intros before ys xs tries delivered h v Hr Hlen Hc Hs.
  - pose proof (Forall2_length _ _ _ (se_sessions _ _ _ _ Hs)) as Hl. rewrite Hr, Hc, app_nil_r, length_app in Hl.
    assert (ys = []) as -> by (apply length_zero_iff_nil; lia). cbn [push_loop]. cbn [push_each]. rewrite Z.add_0_r.
    apply agrees_ret. rewrite <- Hc. by destruct Hs.
  - pose proof (Forall2_length _ _ _ (se_sessions _ _ _ _ Hs)) as Hl. rewrite Hr, Hc, !length_app in Hl. cbn in Hl.
    destruct ys as [|y ys]; [cbn in Hl; lia|]. set (i := length xs).
    assert (reg !! i = Some c) as Hi by (subst i; rewrite Hr, <- Hlen; by rewrite list_lookup_middle).
    assert (sv_connections v !! i = Some y) as Hy by (rewrite Hc; by apply list_lookup_middle).
    assert (∀ tries delivered h v y', sv_connections v = xs ++ y' :: ys → sees reg None h v →
      let '(n, ys', _) := push_loop sock free (MkFrame type 0 payload) ys tries in
      agrees None (push_each sock type payload todo delivered) h (delivered + n, v <| sv_connections := xs ++ y' :: ys' |>)) as Hrest.
    { intros tries1 d1 h1 v1 y' Hc1 Hs1. specialize (IH (before ++ [c]) ys (xs ++ [y']) tries1 d1 h1 v1).
      rewrite <- !app_assoc in IH. specialize (IH Hr). rewrite !length_app in IH. cbn in IH. specialize (IH ltac:(lia) Hc1 Hs1).
      destruct (push_loop _ _ _ ys tries1) as [[n ys'] t]. by rewrite <- app_assoc in IH. }
    cbn [push_loop push_each]. destruct (bool_decide (cn_role y ≠ SessionRole.Agent)) eqn:Hrole; cbn [orb].
    { specialize (Hrest tries delivered h v y Hc Hs). destruct (push_loop _ _ _ ys tries) as [[n ys'] t].
      eapply (agrees_field i c Hi); [exact Hs|]. rewrite Hy. cbn. by rewrite Hrole. }
    destruct (cn_greeted y) eqn:Hg; cbn [negb].
    2: { specialize (Hrest tries delivered h v y Hc Hs). destruct (push_loop _ _ _ ys tries) as [[n ys'] t].
         eapply (agrees_field i c Hi); [exact Hs|]. rewrite Hy. cbn. rewrite Hrole.
         eapply (agrees_field i c Hi); [exact Hs|]. rewrite Hy. cbn. by rewrite Hg. }
    cbn [free]. destruct (send_to sock (MkFrame type 0 payload) y) as [sent y'] eqn:Hsend.
    destruct (push_loop _ _ _ ys (Datatypes.S tries)) as [[n ys'] t] eqn:Hpl.
    eapply (agrees_field i c Hi); [exact Hs|]. rewrite Hy. cbn [fmap option_fmap option_map default from_option id]. rewrite Hrole.
    eapply (agrees_field i c Hi); [exact Hs|]. rewrite Hy. cbn [fmap option_fmap option_map default from_option id]. rewrite Hg. cbn [negb].
    eapply (agrees_trylock _ i); [exact Hi|exact Hs|]. intros h1 Hs1. cbn [negb].
    eapply agrees_bind; [by apply (agrees_send i c Hi)|]. unfold server_send. rewrite Hy, Hsend. cbn [fst snd]. intros h2 Hs2.
    eapply agrees_unlock; [exact Hs2|]. intros h3 Hs3.
    assert (<[i := y']> (sv_connections v) = xs ++ y' :: ys) as Hins.
    { rewrite Hc. subst i. by rewrite insert_app_r_alt, Nat.sub_diag by done. }
    rewrite Hins in Hs3.
    specialize (Hrest (Datatypes.S tries) (if is_ok sent then delivered + 1 else delivered) h3 (v <| sv_connections := xs ++ y' :: ys |>) y' eq_refl Hs3).
    rewrite Hpl in Hrest. cbn in Hrest. destruct (is_ok sent); [|exact Hrest]. by replace (delivered + (n + 1)) with (delivered + 1 + n) by lia.
Qed.

Lemma push_agrees type payload tries h v :
  sees reg None h v →
  let '(pushed, (ys, _)) := push_to_agents sock free type payload (sv_connections v, tries) in
  agrees None (push sock type payload) h (pushed, v <| sv_connections := ys |>).
Proof.
  intros Hs. unfold push_to_agents. cbn [fst snd].
  pose proof (push_each_agrees type payload reg [] (sv_connections v) [] tries 0 h v eq_refl eq_refl eq_refl Hs) as Hp.
  destruct (push_loop _ _ _ _ _) as [[n ys] t]. cbn in Hp. unfold push.
  apply agrees_peek. rewrite (se_registry _ _ _ _ Hs). eapply agrees_bind; [exact Hp|]. intros h' Hs'. by apply agrees_ret.
Qed.

(** A loop over the sink. *)
Lemma hand_each_agrees {A} (send : A → prog status) (on : A → list (Connection S) * nat → status * (list (Connection S) * nat)) requests :
  (∀ r tries h v, sees reg None h v →
     let '(sent, (ys, _)) := on r (sv_connections v, tries) in
     agrees None (send r) h (sent, v <| sv_connections := ys |>)) →
  ∀ overall failures tries h v, sees reg None h v →
  let '(overall', failures', (ys, _)) := hand_over_all on requests (overall, failures, (sv_connections v, tries)) in
  agrees None (hand_each send requests (overall, failures)) h ((overall', failures'), v <| sv_connections := ys |>).
Proof.
  intros Hsend. induction requests as [|r requests IH]; intros overall failures tries h v Hs; cbn [hand_over_all hand_each foldl].
  { apply agrees_ret. by destruct Hs. }
  specialize (Hsend r tries h v Hs). destruct (on r _) as [sent [ys t]].
  assert (∀ acc h', sees reg None h' (v <| sv_connections := ys |>) →
    let '(overall', failures', (zs, _)) := hand_over_all on requests (acc.1, acc.2, (ys, t)) in
    agrees None (hand_each send requests acc) h' ((overall', failures'), v <| sv_connections := zs |>)) as Hrest.
  { intros [o f] h' Hs'. specialize (IH o f t h' _ Hs'). cbn in IH. exact IH. }
  unfold hand_over_all in *. destruct sent as [u|err]; cbn [fst snd] in *.
  - pose proof (Hrest (overall, failures)) as Hr. cbn [fst snd] in Hr. destruct (foldl _ _ requests) as [[o f] [zs t']].
    eapply agrees_bind; [exact Hsend|]. intros h' Hs'. by apply Hr.
  - pose proof (Hrest (Err err, failures + 1)) as Hr. cbn [fst snd] in Hr. destruct (foldl _ _ requests) as [[o f] [zs t']].
    eapply agrees_bind; [exact Hsend|]. intros h' Hs'. by apply Hr.
Qed.

Lemma hand_actions_agrees actions h v :
  sees reg None h v →
  let '(overall, evacuations, others, (ys, _)) := hand_over (server_sink sock free v) actions in
  agrees None (hand_actions sock actions) h ((overall, evacuations, others), v <| sv_connections := ys |>).
Proof.
  intros Hs. unfold hand_over, hand_actions. cbn [sk_current sk_state server_sink on_evacuation_request on_restoration_request on_admission_reopen].
  pose proof (hand_each_agrees (push_evacuation sock) (λ request, push_to_agents sock free Msg.EvacuationRequest (evacuation_payload request))
    (pa_evacuations actions) ltac:(intros; by apply push_agrees) ok_status 0 (sv_tries v) h v Hs) as H1.
  destruct (hand_over_all _ (pa_evacuations actions) _) as [[o1 f1] [ys1 t1]].
  assert (∀ h', sees reg None h' (v <| sv_connections := ys1 |>) →
    let '(o2, f2, (ys2, _)) := hand_over_all (λ _ k, (ok_status, k)) (pa_restorations actions) (o1, 0, (ys1, t1)) in
    agrees None (hand_each push_restoration (pa_restorations actions) (o1, 0)) h' ((o2, f2), v <| sv_connections := ys2 |>)) as H2.
  { intros h' Hs'. apply (hand_each_agrees push_restoration (λ _ k, (ok_status, k)) (pa_restorations actions) ltac:(intros ???? []; by apply agrees_ret) o1 0 t1 h' _ Hs'). }
  destruct (hand_over_all _ (pa_restorations actions) _) as [[o2 f2] [ys2 t2]].
  assert (∀ h', sees reg None h' (v <| sv_connections := ys2 |>) →
    let '(o3, f3, (ys3, _)) := hand_over_all (λ request, push_to_agents sock free Msg.AdmissionReopen (reopen_payload request))
                                 (pa_reopens actions) (o2, 0, (ys2, t2)) in
    agrees None (hand_each (push_reopen sock) (pa_reopens actions) (o2, 0)) h' ((o3, f3), v <| sv_connections := ys3 |>)) as H3.
  { intros h' Hs'. apply (hand_each_agrees (push_reopen sock) (λ request, push_to_agents sock free Msg.AdmissionReopen (reopen_payload request)) (pa_reopens actions) ltac:(intros; by apply push_agrees) o2 0 t2 h' _ Hs'). }
  destruct (hand_over_all _ (pa_reopens actions) _) as [[o3 f3] [ys3 t3]].
  eapply agrees_bind; [exact H1|]. intros h1 Hs1. eapply agrees_bind; [by apply H2|]. intros h2 Hs2.
  eapply agrees_bind; [by apply H3|]. intros h3 Hs3. by apply agrees_ret.
Qed.

(** *** The engine's calls that push *)

Lemma worker_dispatch_agrees actions h v :
  sees reg None h v →
  let '(overall, e) := dispatch (sink_of sock free v) actions (sv_engine v) in
  agrees None (worker_dispatch sock actions) h (overall, handed_over sock free actions v <| sv_engine := e |>).
Proof.
  intros Hs. unfold dispatch, worker_dispatch, handed_over, sink_of. pose proof (hand_actions_agrees actions h v Hs) as Ha.
  destruct (sv_sink v) eqn:Hsink.
  - destruct (hand_over _ actions) as [[[o f] g] [ys t]]. apply agrees_peek. rewrite (se_sink _ _ _ _ Hs), Hsink.
    eapply agrees_bind; [exact Ha|]. intros h' Hs'. eapply agrees_call; [exact Hs'|]. intros h'' Hs''.
    apply agrees_ret. by destruct Hs''.
  - apply agrees_peek. rewrite (se_sink _ _ _ _ Hs), Hsink. eapply agrees_call; [exact Hs|]. intros h'' Hs''. by apply agrees_ret.
Qed.

Lemma worker_advance_agrees now h v :
  sees reg None h v →
  let '(overall, e) := advance (sink_of sock free v) now (sv_engine v) in
  agrees None (worker_advance sock now) h
    (overall, handed_over sock free (advance_pass now (sv_engine v)).2 v <| sv_engine := e |>).
Proof.
  intros Hs. unfold advance, worker_advance.
  destruct (advance_pass now (sv_engine v)) as [e actions] eqn:Hpass. cbn [fst snd].
  assert (∀ h', sees reg None h' (v <| sv_engine := e |>) →
    let '(overall, evacuations, others, (ys, _)) := hand_over (server_sink sock free v) actions in
    agrees None (hand_actions sock actions) h' ((overall, evacuations, others), v <| sv_engine := e |> <| sv_connections := ys |>)) as Ha
    by (intros h' Hs'; exact (hand_actions_agrees actions h' _ Hs')).
  unfold sink_of, handed_over. destruct (sv_sink v) eqn:Hsink.
  - destruct (hand_over _ actions) as [[[o f] g] [ys t]]. eapply agrees_call; [exact Hs|]. rewrite Hpass. cbn [fst snd]. intros h' Hs'.
    apply agrees_peek. rewrite (se_sink _ _ _ _ Hs'). cbn [sv_sink update upd_sv_engine]. rewrite Hsink.
    eapply agrees_bind; [by apply Ha|]. intros h1 Hs1. eapply agrees_call; [exact Hs1|]. intros h'' Hs''.
    apply agrees_ret. by destruct Hs''.
  - eapply agrees_call; [exact Hs|]. rewrite Hpass. cbn [fst snd]. intros h' Hs'. apply agrees_peek. rewrite (se_sink _ _ _ _ Hs').
    cbn [sv_sink update upd_sv_engine]. rewrite Hsink. eapply agrees_call; [exact Hs'|]. intros h'' Hs''. apply agrees_ret. destruct Hs''. split; try done. cbn in *. congruence.
Qed.

(** What is handed over does not depend on the engine. *)
Lemma handed_over_engine actions (v : server) e e' :
  handed_over sock free actions (v <| sv_engine := e |>) <| sv_engine := e' |> = handed_over sock free actions v <| sv_engine := e' |>.
Proof.
  destruct v. unfold handed_over, server_sink. cbn -[hand_over]. destruct sv_sink; [|done].
  by destruct (hand_over _ actions) as [[[o f] g] [ys t]].
Qed.

Lemma worker_restore_agrees id authority reason now h v :
  sees reg None h v →
  agrees None (worker_restore sock id authority reason now) h (restore_and_push sock free id authority reason now v).
Proof.
  intros Hs. unfold worker_restore, restore_and_push.
  eapply agrees_call; [exact Hs|]. destruct (restore_drain _ _ _ _ _) as [[actions|err] e]; cbn [fst snd]; intros h' Hs'.
  - pose proof (worker_dispatch_agrees actions h' _ Hs') as Hd. change (sink_of sock free (v <| sv_engine := e |>)) with (sink_of sock free v) in Hd.
    change (sv_engine (v <| sv_engine := e |>)) with e in Hd. destruct (dispatch _ _ _) as [overall e'].
    by rewrite handed_over_engine in Hd.
  - by apply agrees_ret.
Qed.

(** *** Requests *)

Section Handling.
Context (i c : nat) (Hi : reg !! i = Some c) (frame : Frame).

Lemma agrees_reply type body h v :
  sees reg None h v → agrees None (worker_reply sock c frame type body) h (reply sock i frame type body v).
Proof. by apply (agrees_send i c Hi). Qed.

Lemma agrees_refuse err h v : sees reg None h v → agrees None (worker_refuse sock c frame err) h (refuse sock i frame err v).
Proof. by apply (agrees_failure i c Hi). Qed.

Lemma agrees_dismiss code message h v :
  sees reg None h v → agrees None (worker_dismiss sock c frame code message) h (dismiss sock i frame code message v).
Proof.
  intros Hs. unfold worker_dismiss, dismiss. pose proof (agrees_failure i c Hi None (fr_sequence frame) code message h v Hs) as Hf.
  destruct (send_failure _ _ _ _ _ _) as [sent v']. eapply agrees_bind; [exact Hf|]. cbn [fst snd]. intros h' Hs'.
  eapply (agrees_put i c Hi); [exact Hs'|]. intros h'' Hs''. by apply agrees_ret.
Qed.

Lemma worker_resolve_agrees payload h v :
  sees reg None h v → agrees None (worker_resolve clock c payload) h (resolve_authority clock i payload v).
Proof.
  intros Hs. unfold worker_resolve, resolve_authority. destruct (json_find "authority" payload) as [presented|].
  - destruct (token_from_presentation_json presented) as [token|err]; [|by apply agrees_ret].
    eapply agrees_clock; [exact Hs|]. intros h' Hs'. unfold read_clock in *. cbn [snd] in Hs'.
    eapply agrees_query; [exact Hs'|]. by apply agrees_ret.
  - eapply (agrees_field i c Hi); [exact Hs|]. destruct (session_there i c Hi _ _ _ Hs) as [x Hx]. rewrite Hx.
    cbn [fmap option_fmap option_map default from_option id]. destruct (cn_authority x =? 0); [by apply agrees_ret|].
    eapply (agrees_field i c Hi); [exact Hs|]. rewrite Hx. by apply agrees_ret.
Qed.

Lemma having_authority_agrees k k' h v :
  sees reg None h v → (∀ authority h v, sees reg None h v → agrees None (k authority) h (k' authority v)) →
  agrees None (having_authority sock clock c frame k) h (with_authority sock clock i frame v k').
Proof.
  intros Hs Hk. unfold having_authority, with_authority. pose proof (worker_resolve_agrees (fr_payload frame) h v Hs) as Hr.
  destruct (resolve_authority _ _ _ _) as [[authority|err] v']; eapply agrees_bind; [exact Hr| |exact Hr|]; cbn [fst snd]; intros h' Hs'.
  - by apply Hk.
  - by apply agrees_refuse.
Qed.

Ltac tick h Hs := eapply agrees_clock; [eassumption|]; intros h Hs; unfold read_clock in *; cbn [snd] in Hs.
Ltac ask := eapply agrees_query; [eassumption|].
Ltac answer := first [by apply agrees_reply | by apply agrees_refuse | by apply agrees_ret | by apply (agrees_failure i c Hi)].

Lemma serve_hello_agrees h v :
  sees reg None h v → agrees None (serve_hello sock clock c frame) h (handle_hello sock clock i frame v).
Proof.
  intros Hs. unfold serve_hello, handle_hello. destruct (negb _); [by apply agrees_dismiss|].
  destruct (session_role_from_string _) as [role|]; [|by apply agrees_dismiss].
  destruct (parse_node _ _) as [node|err]; [|by apply agrees_dismiss].
  tick h1 Hs1.
  set (v1 := v <| sv_reads := _ |>) in *. unfold agrees. rewrite run_prog_bind. cbn [run_prog atomically].
  rewrite (se_options _ _ _ _ Hs1), (se_engine _ _ _ _ Hs1).
  destruct (issue_authority _ _ _ _) as [[authority|err] e]; cbn [fst snd]; [|by apply agrees_dismiss, sees_engine].
  pose proof (sees_engine None h1 v1 e Hs1) as Hs2.
  eapply (agrees_put i c Hi); [exact Hs2|]. intros h3 Hs3. eapply (agrees_put i c Hi); [exact Hs3|]. intros h4 Hs4.
  eapply (agrees_put i c Hi); [exact Hs4|]. intros h5 Hs5. eapply (agrees_put i c Hi); [exact Hs5|]. intros h6 Hs6.
  eapply agrees_query; [exact Hs6|]. eapply agrees_query; [exact Hs6|]. apply agrees_reply.
  destruct Hs6 as [? ? ? ? ? ? ? ? ? Hf]. split; try done. cbn in Hf |- *. by rewrite !alter_alter in Hf.
Qed.

Lemma serve_drain_request_agrees h v :
  sees reg None h v → agrees None (serve_drain_request sock clock c frame) h (handle_drain_request sock clock i frame v).
Proof.
  intros Hs. unfold serve_drain_request, handle_drain_request.
  destruct (parse_targets _) as [targets|err]; [|by apply agrees_refuse].
  destruct (parse_node _ _) as [node|err]; [|by apply agrees_refuse].
  apply having_authority_agrees; [exact Hs|]. clear h v Hs. intros authority h v Hs.
  tick h1 Hs1.
  eapply agrees_call; [exact Hs1|]. destruct (request_drain_set _ _ _) as [[set|err] e]; cbn [fst snd]; intros h2 Hs2; [|by apply agrees_refuse].
  eapply agrees_query; [exact Hs2|]. by apply agrees_reply.
Qed.

Lemma serve_status_request_agrees h v :
  sees reg None h v → agrees None (serve_status_request sock clock c frame) h (handle_status_request sock clock i frame v).
Proof.
  intros Hs. unfold serve_status_request, handle_status_request.
  destruct (negb _).
  - eapply agrees_query; [exact Hs|]. destruct (Query.drain _ _) as [record|]; [|by apply (agrees_failure i c Hi)].
    tick h1 Hs1.
    do 3 ask. by apply agrees_reply.
  - eapply agrees_query; [exact Hs|].
    tick h1 Hs1.
    do 3 ask. by apply agrees_reply.
Qed.

Lemma serve_cancel_request_agrees h v :
  sees reg None h v → agrees None (serve_cancel_request sock clock c frame) h (handle_cancel_request sock clock i frame v).
Proof.
  intros Hs. apply having_authority_agrees; [exact Hs|]. clear h v Hs. intros authority h v Hs.
  tick h1 Hs1.
  eapply agrees_call; [exact Hs1|]. destruct (cancel_drain _ _ _ _ _) as [[u|err] e]; cbn [fst snd]; intros h2 Hs2;
    [by apply agrees_reply|by apply agrees_refuse].
Qed.

Lemma serve_restore_request_agrees h v :
  sees reg None h v → agrees None (serve_restore_request sock clock c frame) h (handle_restore_request sock clock free i frame v).
Proof.
  intros Hs. apply having_authority_agrees; [exact Hs|]. clear h v Hs. intros authority h v Hs.
  tick h1 Hs1.
  pose proof (worker_restore_agrees (get_uint "drain" 0 (fr_payload frame)) authority (get_string "reason" "" (fr_payload frame))
    (clock (sv_reads v)) h1 _ Hs1) as Hr.
  destruct (restore_and_push _ _ _ _ _ _ _) as [[u|err] v2]; (eapply agrees_bind; [exact Hr|]); cbn [fst snd]; intros h2 Hs2;
    [by apply agrees_reply|by apply agrees_refuse].
Qed.

Lemma serve_explain_request_agrees h v :
  sees reg None h v → agrees None (serve_explain_request sock c frame) h (handle_explain_request sock i frame v).
Proof. intros Hs. unfold serve_explain_request. ask. answer. Qed.

Lemma serve_obligation_query_agrees h v :
  sees reg None h v → agrees None (serve_obligation_query sock c frame) h (handle_obligation_query sock i frame v).
Proof.
  intros Hs. unfold serve_obligation_query, handle_obligation_query. destruct (json_find _ _) as [value|]; [|ask; answer].
  destruct (drain_target_from_json value) as [target|err]; [ask|]; answer.
Qed.

Lemma serve_obligation_admit_agrees h v :
  sees reg None h v → agrees None (serve_obligation_admit sock clock c frame) h (handle_obligation_admit sock clock i frame v).
Proof.
  intros Hs. unfold serve_obligation_admit, handle_obligation_admit. destruct (json_find _ _) as [body|]; [|answer].
  destruct (obligation_from_json body) as [obligation|err]; [|answer].
  apply having_authority_agrees; [exact Hs|]. clear h v Hs. intros authority h v Hs. tick h1 Hs1.
  eapply agrees_call; [exact Hs1|]. destruct (admit_obligation _ _ _ _ _) as [[stored|err] e]; cbn [fst snd]; intros h2 Hs2; answer.
Qed.

Lemma serve_obligation_report_agrees h v :
  sees reg None h v → agrees None (serve_obligation_report sock clock c frame) h (handle_obligation_report sock clock i frame v).
Proof.
  intros Hs. unfold serve_obligation_report, handle_obligation_report. destruct (json_find _ _) as [body|]; [|answer].
  destruct (obligation_state_from_string _) as [next|]; [|answer]. tick h1 Hs1.
  eapply agrees_call; [exact Hs1|]. destruct (report_obligation _ _ _) as [[u|err] e]; cbn [fst snd]; intros h2 Hs2; answer.
Qed.

Lemma serve_evidence_report_agrees h v :
  sees reg None h v → agrees None (serve_evidence_report sock clock c frame) h (handle_evidence_report sock clock i frame v).
Proof.
  intros Hs. unfold serve_evidence_report, handle_evidence_report. destruct (json_find _ _) as [body|]; [|answer].
  destruct (evidence_from_json _) as [evidence|err]; [|answer]. tick h1 Hs1.
  eapply agrees_call; [exact Hs1|]. destruct (record_evidence _ _ _) as [[recorded|err] e]; cbn [fst snd]; intros h2 Hs2; answer.
Qed.

Lemma serve_audit_request_agrees h v :
  sees reg None h v → agrees None (serve_audit_request sock clock c frame) h (handle_audit_request sock clock i frame v).
Proof. intros Hs. unfold serve_audit_request, handle_audit_request. tick h1 Hs1. do 2 ask. answer. Qed.

Lemma serve_shutdown_agrees h v :
  sees reg None h v → agrees None (serve_shutdown sock c frame) h (handle_shutdown sock i frame v).
Proof.
  intros Hs. unfold serve_shutdown, handle_shutdown. pose proof (agrees_reply Msg.ShutdownResponse ok_payload h v Hs) as Hr.
  destruct (reply _ _ _ _ _ _) as [sent v1]. eapply agrees_bind; [exact Hr|]. cbn [fst snd]. intros h1 Hs1.
  eapply agrees_poke; [exact Hs1| |intros h2 Hs2; by apply agrees_ret]. intros h2 []. by split.
Qed.

(** The counters. *)
Lemma agrees_rejected {B} held held' (k : unit → prog B) h v r :
  sees reg held h v →
  (∀ h', sees reg held h' (v <| sv_rejected_frames := u64_inc (sv_rejected_frames v) |>) → agrees held' (k tt) h' r) →
  agrees held' (prog_bind count_rejected k) h r.
Proof. intros Hs. apply agrees_poke with v; [done|]. intros h' []. split; try done. cbn. congruence. Qed.

Lemma serve_request_agrees h v :
  sees reg None h v → agrees None (serve_request sock clock c frame) h (dispatch_frame sock clock free i frame v).
Proof.
  intros Hs. unfold serve_request, dispatch_frame.
  destruct (fr_type frame =? Msg.Hello); [by apply serve_hello_agrees|].
  destruct (fr_type frame =? Msg.DrainRequest); [by apply serve_drain_request_agrees|].
  destruct (fr_type frame =? Msg.StatusRequest); [by apply serve_status_request_agrees|].
  destruct (fr_type frame =? Msg.CancelRequest); [by apply serve_cancel_request_agrees|].
  destruct (fr_type frame =? Msg.RestoreRequest); [by apply serve_restore_request_agrees|].
  destruct (fr_type frame =? Msg.ExplainRequest); [by apply serve_explain_request_agrees|].
  destruct (fr_type frame =? Msg.ObligationQuery); [by apply serve_obligation_query_agrees|].
  destruct (fr_type frame =? Msg.ObligationAdmit); [by apply serve_obligation_admit_agrees|].
  destruct (fr_type frame =? Msg.ObligationReport); [by apply serve_obligation_report_agrees|].
  destruct (fr_type frame =? Msg.EvidenceReport); [by apply serve_evidence_report_agrees|].
  destruct (fr_type frame =? Msg.AuditRequest); [by apply serve_audit_request_agrees|].
  destruct (fr_type frame =? Msg.Shutdown); [by apply serve_shutdown_agrees|].
  eapply agrees_rejected; [exact Hs|]. intros h' Hs'. by apply (agrees_failure i c Hi).
Qed.

Lemma serve_frame_agrees h v :
  sees reg None h v → agrees None (serve_frame sock clock c frame) h (handle_frame sock clock free i frame v).
Proof.
  intros Hs. unfold serve_frame, handle_frame. eapply (agrees_field i c Hi); [exact Hs|]. destruct (_ && _) eqn:Hd.
  { eapply agrees_rejected; [exact Hs|]. intros h' Hs'. by apply agrees_dismiss. }
  destruct (negb (fr_type frame =? Msg.Hello)); [|by apply serve_request_agrees].
  eapply agrees_poke; [exact Hs| |intros h' Hs'; by apply serve_request_agrees]. intros h' []. split; try done. cbn. congruence.
Qed.
End Handling.

(** *** A poll *)

Lemma service_agrees i c h v :
  reg !! i = Some c → sees reg None h v →
  agrees None (service sock clock c) h (service_connection sock clock free i v).
Proof.
  intros Hi Hs. unfold service, service_connection, try_lock. cbn [free negb].
  apply (sees_tries _ _ _ (Datatypes.S (sv_tries v))) in Hs. set (v1 := v <| sv_tries := _ |>) in *.
  eapply (agrees_trylock _ i); [exact Hi|exact Hs|]. intros h1 Hs1. cbn [negb].
  eapply (agrees_field i c Hi); [exact Hs1|]. destruct (session_there i c Hi _ _ _ Hs1) as [x Hx]. rewrite Hx.
  cbn [fmap option_fmap option_map default from_option id]. fold (session_gone sock x). destruct (session_gone sock x).
  { eapply agrees_unlock; [exact Hs1|]. intros h2 Hs2. by apply agrees_ret. }
  unfold receive. unfold agrees at 1. rewrite run_prog_bind. cbn [run_prog atomically].
  rewrite (session_at i c Hi _ _ _ Hs1), Hx, (se_options _ _ _ _ Hs1).
  destruct (receive_now _ _ _) as [[[outcome received] text] stream]. cbn [run_prog fst snd].
  pose proof (sees_session i c Hi _ _ _ (x <| cn_stream := stream |>) Hs1) as Hs2. revert Hs2.
  generalize (set_session c (x <| cn_stream := stream |>) h1). intros h2 Hs2.
  set (v2 := v1 <| sv_connections := _ |>) in *. clearbody v2. clear Hs1 Hs Hx.
  assert (agrees None (Unlock c (Ret ok_status)) h2 (ok_status, v2)) as Hidle.
  { eapply agrees_unlock; [exact Hs2|]. intros h3 Hs3. by apply agrees_ret. }
  assert (∀ h3 v3, sees reg (Some c) h3 v3 →
    agrees None (put_field c (drop_connection sock) ;* Unlock c (Ret ok_status)) h3 (ok_status, update_connection i (drop_connection sock) v3)) as Hdrop.
  { intros h3 v3 Hs3. eapply (agrees_put i c Hi); [exact Hs3|]. intros h4 Hs4. eapply agrees_unlock; [exact Hs4|]. intros h5 Hs5. by apply agrees_ret. }
  destruct outcome, received as [frame|]; try exact Hidle; try (by apply Hdrop);
    try (eapply agrees_rejected; [exact Hs2|]; intros h3 Hs3; by apply Hdrop).
  eapply agrees_unlock; [exact Hs2|]. intros h3 Hs3. pose proof (serve_frame_agrees i c Hi frame h3 v2 Hs3) as Hf.
  destruct (handle_frame _ _ _ _ _ _) as [handled v4]. eapply agrees_bind; [exact Hf|]. cbn [fst snd]. intros h4 Hs4.
  unfold close_if_closing, try_lock. cbn [free negb andb]. apply (sees_tries _ _ _ (Datatypes.S (sv_tries v4))) in Hs4.
  set (v5 := v4 <| sv_tries := _ |>) in *. eapply (agrees_trylock _ i); [exact Hi|exact Hs4|]. intros h5 Hs5. cbn [negb].
  eapply (agrees_field i c Hi); [exact Hs5|]. destruct (default false _).
  - eapply (agrees_put i c Hi); [exact Hs5|]. intros h6 Hs6. eapply agrees_unlock; [exact Hs6|]. intros h7 Hs7. by apply agrees_ret.
  - eapply agrees_unlock; [exact Hs5|]. intros h7 Hs7. by apply agrees_ret.
Qed.

Lemma service_each_agrees todo before h v :
  reg = before ++ todo → sees reg None h v →
  agrees None (service_each sock clock todo) h
    (tt, foldl (λ v i, (service_connection sock clock free i v).2) v (seq (length before) (length todo))).
Proof.
  revert before h v. induction todo as [|c todo IH]; intros before h v Hr Hs; cbn [service_each seq foldl length].
  { by apply agrees_ret. }
  eapply agrees_bind; [apply (service_agrees (length before)); [|exact Hs]|].
  - rewrite Hr. by apply list_lookup_middle.
  - intros h1 Hs1. specialize (IH (before ++ [c]) h1 _ ltac:(by rewrite <- app_assoc) Hs1).
    by rewrite length_app, Nat.add_1_r in IH.
Qed.
End At.

Lemma Forall2_List_filter {A B} (P : A → B → Prop) (f : A → bool) (g : B → bool) xs ys :
  Forall2 P xs ys → (∀ x y, P x y → f x = g y) → Forall2 P (List.filter f xs) (List.filter g ys).
Proof.
  intros Hall Hfg. induction Hall as [|x y xs ys Hxy Hall IH]; [constructor|]. cbn. rewrite <- (Hfg _ _ Hxy).
  destruct (f x); [by constructor|done].
Qed.

Lemma reap_sees reg h v :
  sees reg None h v → sees (sh_registry (reap sock h)) None (reap sock h) (reap_connections sock v).
Proof.
  intros [? ? ? ? ? ? ? ? Hr Hf]. split; try done. cbn. rewrite Hr.
  apply (Forall2_List_filter _ _ _ _ _ Hf). intros c x Hc. unfold session_of. by rewrite Hc.
Qed.

Lemma poll_sessions_sees reg h v :
  NoDup reg → sees reg None h v →
  ∃ reg' h', run_prog (poll_sessions sock clock) h = (ok_status, h') ∧ NoDup reg' ∧
    sees reg' None h' (reap_connections sock (advance_and_push sock clock free (service_all sock clock free v))).
Proof.
  intros Hnd Hs. set (v1 := service_all sock clock free v).
  assert (agrees reg None (let* connections := snapshot_connections in
    service_each sock clock connections ;* let* now := clock_now clock in worker_advance sock now) h
    ((advance (sink_of sock free v1) (clock (sv_reads v1)) (sv_engine v1)).1, advance_and_push sock clock free v1)) as Ha.
  { apply agrees_peek. rewrite (se_registry _ _ _ _ Hs).
    eapply (agrees_bind reg); [by apply (service_each_agrees reg Hnd reg [])|].
    cbn [fst snd]. assert (length reg = length (sv_connections v)) as -> by exact (Forall2_length _ _ _ (se_sessions _ _ _ _ Hs)).
    fold (service_all sock clock free v). fold v1. intros h1 Hs1.
    eapply agrees_clock; [exact Hs1|]. intros h2 Hs2. pose proof (worker_advance_agrees reg Hnd (clock (sv_reads v1)) h2 _ Hs2) as Hw.
    unfold advance_and_push. unfold read_clock in *. cbn [snd] in Hw. 
    change (sink_of sock free (v1 <| sv_reads := Datatypes.S (sv_reads v1) |>)) with (sink_of sock free v1) in *.
    change (sv_engine (v1 <| sv_reads := Datatypes.S (sv_reads v1) |>)) with (sv_engine v1) in *.
    destruct (advance _ _ _) as [overall e]. exact Hw. }
  destruct Ha as (h1 & Hrun & Hs1). cbn [fst snd] in *. exists (sh_registry (reap sock h1)), (reap sock h1). split_and!.
  - unfold poll_sessions. revert Hrun. rewrite !run_prog_bind. intros Hrun.
    by rewrite Hrun.
  - cbn. rewrite (se_registry _ _ _ _ Hs1). apply NoDup_ListNoDup, List.NoDup_filter, NoDup_ListNoDup, Hnd.
  - by eapply reap_sees.
Qed.

(** ** The worker *)

Definition steps_of (x y : worker * shared) : Prop := y = worker_step sock lsn clock x.1 x.2.

(** The server and what its threads share are the same. *)
Definition shared_as (h : shared) (v : server) : Prop := ∃ reg, NoDup reg ∧ sees reg None h v.

Lemma running_steps (p : prog status) h :
  rtc steps_of (Running p, h) (Running (Ret (run_prog p h).1), (run_prog p h).2).
Proof.
  revert h. induction p as [a|B g f k IH|c k IH|c k IH]; intros h; cbn [run_prog].
  - done.
  - eapply rtc_l; [done|]. cbn. destruct (f h) as [b h']. apply IH.
  - eapply rtc_l; [done|]. cbn. destruct (is_locked c h); apply IH.
  - eapply rtc_l; [done|]. apply IH.
Qed.

Lemma sees_listener reg held h v l :
  sees reg held h v → sees reg held (h <| sh_listener := l |>) (v <| sv_listener := l |>).
Proof. intros []. by split. Qed.

Lemma register_sees h v x :
  shared_as h v → shared_as (register x h) (v <| sv_connections := sv_connections v ++ [x] |>).
Proof.
  intros (reg & Hnd & [? ? ? ? ? ? ? ? Hr Hf]). exists (reg ++ [length (sh_heap h)]).
  assert (∀ c, c ∈ reg → (c < length (sh_heap h))%nat) as Hlt.
  { intros c [i Hc]%list_elem_of_lookup. destruct (Forall2_lookup_l _ _ _ _ _ Hf Hc) as (y & _ & Hy). by eapply lookup_lt_Some. }
  split.
  - apply NoDup_app. split_and!; [done| |apply NoDup_singleton]. intros c Hc ->%list_elem_of_singleton. apply Hlt in Hc. lia.
  - split; try done; cbn; [by rewrite Hr|]. apply Forall2_app.
    + eapply Forall2_impl; [exact Hf|]. intros c y Hc. by apply lookup_app_l_Some.
    + constructor; [|constructor]. rewrite lookup_app_r by done. by rewrite Nat.sub_diag.
Qed.

(** One call of [poll_once]. *)
Lemma worker_polls h v :
  shared_as h v →
  let '(polled, v') := poll_once sock lsn clock free v in
  ∃ h', shared_as h' v' ∧ rtc steps_of (Accepting, h) (if is_ok polled then AtTop else Finished, h').
Proof.
  intros Hsh.
  assert (∀ w h1 v1, rtc steps_of (w, h) (Running (poll_sessions sock clock), h1) → shared_as h1 v1 →
    ∃ h', shared_as h' (reap_connections sock (advance_and_push sock clock free (service_all sock clock free v1))) ∧
      rtc steps_of (w, h) (AtTop, h')) as Hrest.
  { intros w h1 v1 Hsteps (reg & Hnd & Hs). destruct (poll_sessions_sees reg h1 v1 Hnd Hs) as (reg' & h' & Hrun & Hnd' & Hs').
    exists h'. split; [by exists reg'|]. etrans; [exact Hsteps|]. etrans; [apply running_steps|].
    rewrite Hrun. by apply rtc_once. }
  pose proof Hsh as (reg & Hnd & Hs). unfold poll_once, accept_connection.
  assert (∀ w h1, worker_step sock lsn clock Accepting h = (w, h1) → rtc steps_of (Accepting, h) (w, h1)) as Hfirst
    by (intros w h1 Hw; by apply rtc_once).
  cbn [worker_step] in Hfirst. unfold accept in Hfirst. rewrite (se_listener _ _ _ _ Hs), (se_options _ _ _ _ Hs) in Hfirst.
  destruct (sv_listener v) as [l|]; [|by exists h; split; [|apply Hfirst]].
  destruct (negb (lo_valid lsn l)); [by exists h; split; [|apply Hfirst]|].
  destruct (lo_accept_one lsn _ l) as [[accepted|[outcome text]] l'].
  2: { assert (shared_as (h <| sh_listener := Some l' |>) (v <| sv_listener := Some l' |>)) as Hl
         by (exists reg; split; [done|by apply sees_listener]).
       destruct outcome; specialize (Hfirst _ _ eq_refl); first [by eapply Hrest | by exists (h <| sh_listener := Some l' |>)]. }
  specialize (Hfirst _ _ eq_refl). set (h1 := h <| sh_listener := Some l' |>) in *. set (v1 := v <| sv_listener := Some l' |>) in *.
  assert (shared_as h1 v1) as Hl by (exists reg; split; [done|by apply sees_listener]). cbv zeta. 
  assert (registered_count h1 = connection_count v1) as Hcount.
  { unfold registered_count, connection_count, zlength. change (sh_registry h1) with (sh_registry h).
    rewrite (se_registry _ _ _ _ Hs). f_equal. exact (Forall2_length _ _ _ (se_sessions _ _ _ _ Hs)). }
  assert (sh_options h1 = sv_options v1) as Hopt by exact (se_options _ _ _ _ Hs).
  assert (∀ w h2, worker_step sock lsn clock (Counting accepted) h1 = (w, h2) → rtc steps_of (Accepting, h) (w, h2)) as Hsecond
    by (intros w h2 Hw; eapply rtc_r; [exact Hfirst|by symmetry in Hw]).
  cbn [worker_step] in Hsecond. rewrite Hcount, Hopt in Hsecond. destruct (so_max_connections _ <=? _).
  - destruct (send_frame _ _ _) as [sent stream]. destruct (close_stream _ stream) as [u stream'].
    eapply Hrest; [eapply rtc_r; [by apply Hsecond|done]|]. destruct Hl as (reg1 & Hnd1 & []). exists reg1. split; [done|].
    split; try done. cbn in *. congruence.
  - eapply Hrest; [eapply rtc_r; [by apply Hsecond|done]|]. cbn [fst snd worker_step]. rewrite Hopt. by apply register_sees.
Qed.

Lemma shared_as_stopping h v : shared_as h v → sh_stopping h = sv_stopping v.
Proof. intros (reg & _ & []). done. Qed.

Lemma share_shared_as v : shared_as (share v) v.
Proof.
  exists (seq 0 (length (sv_connections v))). split; [apply NoDup_ListNoDup, List.seq_NoDup|]. split; try done.
  apply Forall2_same_length_lookup. split; [by rewrite length_seq|]. intros i c x Hi Hx.
  apply lookup_seq in Hi as [-> _]. cbn. rewrite list_lookup_fmap, Hx. done.
Qed.

(** The whole life of the worker. *)
Lemma worker_runs_until fuel h v served v' :
  run_until sock lsn clock free fuel 0 v = Some (served, v') → shared_as h v →
  ∃ h', shared_as h' v' ∧ rtc steps_of (AtTop, h) (Finished, h').
Proof.
  revert h v. induction fuel as [|fuel IH]; intros h v Hrun Hsh; [done|]. cbn [run_until] in Hrun.
  assert (steps_of (AtTop, h) (if sv_stopping v then Finished else Accepting, h)) as Htop
    by (unfold steps_of; cbn; by rewrite (shared_as_stopping _ _ Hsh)).
  destruct (sv_stopping v).
  { injection Hrun as <- <-. exists h. split; [done|]. by apply rtc_once. }
  cbn [Z.eqb negb andb] in Hrun. pose proof (worker_polls h v Hsh) as Hpoll.
  destruct (poll_once _ _ _ _ v) as [[u|err] v1]; destruct Hpoll as (h1 & Hsh1 & Hsteps); cbn [is_ok] in Hsteps.
  - destruct (IH h1 v1 Hrun Hsh1) as (h' & Hsh' & Hrest). exists h'. split; [done|].
    eapply rtc_l; [exact Htop|]. by etrans.
  - injection Hrun as <- <-. exists h1. split; [done|]. by eapply rtc_l.
Qed.
End Sole.

(** ** The claim *)

(** C7: one worker is the server's own loop.  Whatever [run_until] without a budget
    does, from the server's state to its end, a single worker started on that state does
    when nothing interrupts it: it returns after finitely many steps, having received,
    answered, closed and reaped the same sessions, with the same engine, listener,
    counters and readings of the clock.  So what is shown of the loop is shown of the
    worker that [start_workers] runs. *)
Theorem sole_worker_is_the_loop {S L} (sock : SocketOps S) (lsn : ListenerOps S L) clock fuel (v v' : server S L) served :
  run_until sock lsn clock free fuel 0 v = Some (served, v') →
  ∃ h, rtc (steps_of sock lsn clock) (AtTop, share v) (Finished, h) ∧ shared_as h v'.
Proof.
  intros Hrun. destruct (worker_runs_until sock lsn clock fuel (share v) v served v' Hrun) as (h & Hsh & Hsteps);
    [apply share_shared_as|by exists h].
Qed.

(** A client says hello and asks for a shutdown. *)
Definition shutdown_caller : server (list Z) (list (list Z)) :=
  small_server <| sv_listener := Some [image_of greeting ++ image_of (MkFrame Msg.Shutdown 2 jobject)] |>.

Lemma sole_worker_is_the_loop_witness :
  ∃ h, rtc (steps_of drip doorway ticking) (AtTop, share shutdown_caller) (Finished, h) ∧
       shared_as h (default shutdown_caller (snd <$> run_until drip doorway ticking free 10 0 shutdown_caller)).
Proof. apply (sole_worker_is_the_loop drip doorway ticking 10 shutdown_caller _ ok_status). vm_compute. reflexivity. Defined.
