(* ===== verification/WorkerPool.v ===== *)
(** * The workers together

    Every schedule of the workers, the main thread and a signal: the engine moves only
    by operations, one critical section at a time; the registry is bounded; the mutexes
    of the sessions are held by the workers that took them and by no one else; and once
    the stop flag is set the workers return and the main thread comes to its end. *)

From S2P Require Import Prelude Containers Checked Result Text Json Codec CodecTables CodecFabric CodecPolicy Bytes Wire WireFacts.
From S2P Require Import Identity Lifecycle Obligation Evidence Authority Admission Topology Policy Decision Engine.
From S2P Require Import Protocol Snapshot Explain EngineStep EngineOps EngineInv EngineRefine EngineReach Queries Server ServerFacts.
From S2P Require Import Scenario Transport Serving Workers WorkersFacts.
#[local] Open Scope Z_scope.

(** ** Counting in lists *)

Lemma sum_insert {A} (f : A → nat) l i x y :
  l !! i = Some x → (sum_list_with f (<[i := y]> l) + f x = sum_list_with f l + f y)%nat.
Proof. revert i. induction l as [|z l IH]; intros [|i] Hi; [done..| |]; simpl; [injection Hi as ->; lia|specialize (IH i Hi); lia]. Qed.

Lemma sum_le_length {A} (f : A → nat) l : (∀ x, f x ≤ 1)%nat → (sum_list_with f l ≤ length l)%nat.
Proof. intros Hf. induction l as [|x l IH]; cbn; [lia|]. specialize (Hf x). lia. Qed.

Section Pool.
Context {S L : Type} (sock : SocketOps S) (lsn : ListenerOps S L) (clock : nat → TimePoint) (options : ServerOptions).
#[local] Abbreviation shared := (shared S L).
#[local] Abbreviation prog := (prog S L).
#[local] Abbreviation worker := (@worker S L).
#[local] Abbreviation pool := (@pool S L).
#[local] Abbreviation step := (worker_step sock lsn clock).
#[local] Abbreviation wf := (shared_wf (S := S) (L := L) options).

(** ** One step *)

(** The engine moves by calls, the options stay and so does the stop flag. *)
Record progressed (h h' : shared) : Prop := {
  pg_options : sh_options h' = sh_options h;
  pg_engine : ∃ calls, sh_engine h' = replay calls (sh_engine h) ∧ Forall (λ c, worker_op options (ca_op c)) calls;
  pg_stopping : sh_stopping h = true → sh_stopping h' = true;
}.

#[export] Instance progressed_preorder : PreOrder progressed.
Proof.
  split; [intros h; split; try done; by exists []|].
  intros a b c [O1 (k1 & E1 & F1) S1] [O2 (k2 & E2 & F2) S2]. split; [congruence| |auto].
  exists (k1 ++ k2). split; [by rewrite replay_app, <- E1|by apply Forall_app].
Qed.

Lemma moved_progressed h h' : moved options h h' → progressed h h'.
Proof. by intros []. Qed.

Lemma progressed_fields (h h' : shared) :
  sh_options h' = sh_options h → sh_engine h' = sh_engine h → (sh_stopping h = true → sh_stopping h' = true) → progressed h h'.
Proof. intros H1 H2 H3. split; [done|by exists []|done]. Qed.

Lemma set_locked_wf c b h : wf h → wf (set_locked c b h).
Proof.
  intros [W1 W2 W3 W4]. split; [done..| |].
  - cbn. apply Forall_alter; [done|]. intros x _ Hx. exact Hx.
  - cbn. by rewrite length_alter.
Qed.

Definition worker_safe (w : worker) : Prop :=
  match w with Running p => safe options (λ _, True) p | _ => True end.

Lemma prog_step_safe (p : prog status) h :
  wf h → safe options (λ _, True) p →
  safe options (λ _, True) (prog_step p h).1 ∧ wf (prog_step p h).2 ∧ progressed h (prog_step p h).2.
Proof.
  intros Hwf Hs. destruct p as [a|B g f k|c k|c k]; cbn [prog_step].
  - done.
  - destruct (Hs h Hwf) as [Hm Hk]. destruct (f h) as [b h']. split_and!; [done|by eapply moved_shared_wf|by apply moved_progressed].
  - destruct Hs as [H1 H2]. destruct (is_locked c h); cbn; [done|].
    split_and!; [done|by apply set_locked_wf|by apply progressed_fields].
  - split_and!; [done|by apply set_locked_wf|by apply progressed_fields].
Qed.

Lemma register_wf x h : in_range u64 (fs_max_payload_bytes (cn_stream x)) → wf h → wf (register x h).
Proof.
  intros Hx [W1 W2 W3 W4]. split; [done|done|cbn; apply Forall_app; split; [done|by constructor]|].
  cbn. rewrite length_app. cbn. apply Forall_app. split; [|by constructor; [lia|]].
  eapply Forall_impl; [exact W4|]. intros c Hc. cbn in *. lia.
Qed.

Lemma listener_wf l h : wf h → wf (h <| sh_listener := l |>).
Proof. intros []. by split. Qed.

Lemma accept_safe h : wf h →
  worker_safe (accept sock lsn clock h).1 ∧ wf (accept sock lsn clock h).2 ∧ progressed h (accept sock lsn clock h).2 ∧
  sh_heap (accept sock lsn clock h).2 = sh_heap h ∧ sh_registry (accept sock lsn clock h).2 = sh_registry h ∧
  match (accept sock lsn clock h).1 with Finished | Counting _ => True | Running p => p = poll_sessions sock clock | _ => False end.
Proof.
  intros Hwf. unfold accept. destruct (sh_listener h) as [l|]; [|done]. destruct (negb _); [done|].
  destruct (lo_accept_one _ _ _) as [[a|[o err]] l']; [|destruct o]; cbn; split_and!;
    try done; try (by apply listener_wf); try (by apply progressed_fields); apply ok_poll.
Qed.

Lemma worker_step_safe w h :
  wf h → worker_safe w → worker_safe (step w h).1 ∧ wf (step w h).2 ∧ progressed h (step w h).2.
Proof.
  intros Hwf Hs. destruct w as [| |a|a|a|p|]; cbn [worker_step].
  - by destruct (sh_stopping h).
  - destruct (accept_safe h Hwf) as (? & ? & ? & _). done.
  - by destruct (_ <=? _).
  - cbn. split_and!; [apply ok_poll| |by apply progressed_fields]. apply register_wf; [|done]. cbn.
    rewrite (sw_options _ _ Hwf). apply Hwf.
  - cbn. split_and!; [apply ok_poll| |by apply progressed_fields]. destruct Hwf. by split.
  - pose proof (prog_step_safe p h Hwf Hs) as Hp. destruct p as [[[]|err]|B g f k|c k|c k]; [done|done|..].
    all: by destruct (prog_step _ h).
  - done.
Qed.

Lemma main_step_safe budget returned m h m' h' :
  main_step sock lsn budget returned m h = Some (m', h') → wf h → wf h' ∧ progressed h h'.
Proof.
  intros Hm Hwf. assert (∀ h', sh_options h' = sh_options h → sh_engine h' = sh_engine h →
    (sh_stopping h = true → sh_stopping h' = true) → sh_heap h' = sh_heap h → sublist (sh_registry h') (sh_registry h) →
    wf h' ∧ progressed h h') as Hq.
  { intros h1 H1 H2 H3 H4 H5. assert (moved options h h1) as Hmv by (split; [done|by exists []|done|by rewrite H4|done]).
    split; [by eapply moved_shared_wf|by apply moved_progressed]. }
  destruct m as [| | | | | |[|c rest]| |]; cbn [main_step] in Hm.
  4: destruct returned; [|done].
  8: destruct (is_locked c h); [done|].
  all: injection Hm as <- <-; try (apply Hq; first [done|apply sublist_nil_l]).
  destruct (session_of c h) as [x|] eqn:Hx; [|by apply Hq].
  assert (moved options h (set_session c (drop_connection sock x) h)) as Hmv.
  { eapply moved_session; [exact Hx|]. apply drop_connection_bound. }
  split; [by eapply moved_shared_wf|by apply moved_progressed].
Qed.

(** *** The registry *)

(** A worker that looked at the limit and has not registered its session yet. *)
Definition registering (w : worker) : nat := match w with Registering _ => 1 | _ => 0 end.

Lemma prog_step_registry (p : prog status) h :
  wf h → safe options (λ _, True) p → sublist (sh_registry (prog_step p h).2) (sh_registry h).
Proof.
  intros Hwf Hs. destruct p as [a|B g f k|c k|c k]; cbn [prog_step]; [done| |by destruct (is_locked c h)|done].
  destruct (Hs h Hwf) as [Hm _]. destruct (f h) as [b h']. apply Hm.
Qed.

Lemma worker_step_registry w h :
  wf h → worker_safe w →
  (length (sh_registry (step w h).2) + registering (step w h).1 ≤ length (sh_registry h) + registering w)%nat ∨
  (registered_count h < so_max_connections options ∧ sh_registry (step w h).2 = sh_registry h).
Proof.
  intros Hwf Hs. destruct w as [| |a|a|a|p|]; cbn [worker_step].
  - left. by destruct (sh_stopping h).
  - left. destruct (accept_safe h Hwf) as (_ & _ & _ & _ & E & Hw). rewrite E. by destruct (accept _ _ _ _).1.
  - rewrite (sw_options _ _ Hwf). destruct (Z.leb_spec (so_max_connections options) (registered_count h)); [by left|by right].
  - left. cbn. rewrite length_app. cbn. lia.
  - by left.
  - left. pose proof (prog_step_registry p h Hwf Hs) as Hr%sublist_length.
    destruct p as [[[]|err]|B g f k|c k|c k]; [done|done|..]; destruct (prog_step _ h); cbn in *; lia.
  - by left.
Qed.

Lemma main_step_registry budget returned m h m' h' :
  main_step sock lsn budget returned m h = Some (m', h') → (length (sh_registry h') ≤ length (sh_registry h))%nat.
Proof.
  intros Hm. destruct m as [| | | | | |[|c rest]| |]; cbn [main_step] in Hm.
  4: destruct returned; [|done].
  8: destruct (is_locked c h); [done|].
  all: injection Hm as <- <-; try (destruct (session_of c h)); cbn; lia.
Qed.

(** ** Every schedule *)

Record pool_inv (n : nat) (e : engine) (p : pool) : Prop := {
  pi_wf : wf (po_shared p);
  pi_safe : Forall worker_safe (po_workers p);
  pi_count : length (po_workers p) = n;
  pi_bound : registered_count (po_shared p) + Z.of_nat (sum_list_with registering (po_workers p))
             ≤ so_max_connections options + Z.of_nat n - 1;
  pi_engine : ∃ calls, sh_engine (po_shared p) = replay calls e ∧ Forall (λ c, worker_op options (ca_op c)) calls;
}.

Lemma progressed_calls h h' e :
  progressed h h' →
  (∃ calls, sh_engine h = replay calls e ∧ Forall (λ c, worker_op options (ca_op c)) calls) →
  ∃ calls, sh_engine h' = replay calls e ∧ Forall (λ c, worker_op options (ca_op c)) calls.
Proof.
  intros [_ (k2 & E2 & F2) _] (k1 & E1 & F1). exists (k1 ++ k2). split; [by rewrite replay_app, <- E1|by apply Forall_app].
Qed.

Lemma pool_step_inv n e budget t p p' :
  pool_step sock lsn clock budget t p = Some p' → pool_inv n e p → pool_inv n e p'.
Proof.
  intros Hp [W Hs Hn Hb He]. destruct t as [i| |]; cbn [pool_step] in Hp.
  - destruct (po_workers p !! i) as [w|] eqn:Hi; [|done]. destruct (has_returned w); [done|].
    assert (worker_safe w) as Hw by by eapply Forall_lookup_1.
    destruct (worker_step_safe w _ W Hw) as (H1 & H2 & H3). pose proof (worker_step_registry w _ W Hw) as H4.
    destruct (step w (po_shared p)) as [w' h']. cbn in *. injection Hp as <-. split; cbn.
    + done.
    + by apply Forall_insert.
    + by rewrite length_insert.
    + pose proof (sum_insert registering _ i w w' Hi) as Hsum. unfold registered_count, zlength in *.
      assert (sum_list_with registering (<[i:=w']> (po_workers p)) ≤ n)%nat as Hle.
      { rewrite <- Hn, <- (length_insert (po_workers p) i w'). apply sum_le_length. intros []; cbn; lia. }
      destruct H4 as [H4|[H4 E]]; [lia|]. rewrite E. lia.
    + by eapply progressed_calls.
  - destruct (main_step _ _ _ _ _ _) as [[m' h']|] eqn:Hm; [|done]. injection Hp as <-.
    pose proof (main_step_registry _ _ _ _ _ _ Hm) as Hr. destruct (main_step_safe _ _ _ _ _ _ Hm W) as [H1 H2].
    split; cbn; try done; [|by eapply progressed_calls]. unfold registered_count, zlength in *. lia.
  - injection Hp as <-. destruct W. by split.
Qed.

Lemma pool_run_inv n e budget turns p : pool_inv n e p → pool_inv n e (pool_run sock lsn clock budget turns p).
Proof.
  revert p. induction turns as [|t turns IH]; intros p Hp; [done|]. cbn. apply IH.
  destruct (pool_step sock lsn clock budget t p) as [p'|] eqn:E; [|done]. by eapply pool_step_inv.
Qed.

Lemma share_wf v : sv_options v = options → server_wf v → wf (share v).
Proof.
  intros <- [H1 H2]. split; [done|done|cbn|].
  - rewrite Forall_map. eapply Forall_impl; [exact H2|done].
  - cbn. rewrite length_map. apply Forall_forall. intros c Hc%elem_of_seq. lia.
Qed.

Lemma pool_start_inv n v m :
  sv_options v = options → server_wf v → connection_count v < so_max_connections options + Z.of_nat n →
  pool_inv n (sv_engine v) (MkPool (share v) (repeat AtTop n) m).
Proof.
  intros Ho Hwf Hc. split; cbn.
  - by apply share_wf.
  - apply Forall_forall. by intros w ->%list_elem_of_In%repeat_spec.
  - apply repeat_length.
  - unfold registered_count, connection_count, zlength in *. cbn. rewrite length_seq.
    assert (sum_list_with registering (repeat (@AtTop S L) n) = 0%nat) as -> by (clear; induction n; done). lia.
  - by exists [].
Qed.

(** ** Mutexes *)

Definition taken (c : nat) (h : shared) : Prop := (ce_locked <$> sh_heap h !! c) = Some true.

(** The session whose mutex a worker holds. *)
Definition worker_holds (w : worker) (held : option nat) : Prop :=
  match w with Running p => disciplined None held p | _ => held = None end.

(** What a step of a worker does to the mutexes: nothing, it takes one that is free, or
    it gives back the one it holds. *)
Definition relocked (h h' : shared) (held held' : option nat) : Prop :=
  (held' = held ∧ ∀ d, taken d h' ↔ taken d h) ∨
  (∃ c, held = None ∧ held' = Some c ∧ ¬ taken c h ∧ ∀ d, taken d h' ↔ taken d h ∨ d = c) ∨
  (∃ c, held = Some c ∧ held' = None ∧ ∀ d, taken d h' ↔ taken d h ∧ d ≠ c).

Lemma taken_same h h' : Forall2 same_cell (sh_heap h) (sh_heap h') → ∀ d, taken d h' ↔ taken d h.
Proof.
  intros Hh d. unfold taken. destruct (sh_heap h !! d) as [x|] eqn:Hx.
  - destruct (Forall2_lookup_l _ _ _ _ _ Hh Hx) as (x' & -> & E & _). cbn. by rewrite E.
  - destruct (sh_heap h' !! d) as [x'|] eqn:Hx'; [|done].
    destruct (Forall2_lookup_r _ _ _ _ _ Hh Hx') as (x & ? & _). congruence.
Qed.

Lemma taken_set_locked c b h d :
  taken d (set_locked c b h) ↔ (taken d h ∧ d ≠ c) ∨ (d = c ∧ b = true ∧ is_Some (sh_heap h !! c)).
Proof.
  unfold taken; cbn. rewrite list_lookup_alter. case_decide as E; [subst|by intuition congruence].
  destruct (sh_heap h !! d) as [x|]; cbn; [|by split; [|intros [[] | (_ & _ & [])]]].
  split; [intros [= ->]; right; eauto|]. by intros [[_ []] | (_ & -> & _)].
Qed.

Lemma is_locked_false c h : is_locked c h = false → ¬ taken c h ∧ is_Some (sh_heap h !! c).
Proof. unfold is_locked, taken. destruct (sh_heap h !! c) as [x|]; cbn; [|done]. intros ->. split; [done|by eexists]. Qed.

Lemma worker_step_locks w h held :
  wf h → worker_safe w → worker_holds w held →
  (length (sh_heap h) ≤ length (sh_heap (step w h).2))%nat ∧
  ∃ held', worker_holds (step w h).1 held' ∧ relocked h (step w h).2 held held'.
Proof.
  intros Hwf Hs Hh. destruct w as [| |a|a|a|p|]; cbn [worker_step].
  - split; [done|]. exists held. split; [by destruct (sh_stopping h)|by left].
  - destruct (accept_safe h Hwf) as (_ & _ & _ & E & _ & Hw). rewrite E. split; [done|]. exists None. split.
    + destruct (accept _ _ _ _).1; try done. subst p. apply tidy_poll.
    + left. split; [done|]. intros d. unfold taken. by rewrite E.
  - split; [done|]. exists held. split; [by destruct (_ <=? _)|by left].
  - cbn. rewrite length_app. split; [lia|]. exists None. split; [apply tidy_poll|]. left. split; [done|]. intros d.
    unfold taken; cbn. destruct (decide (d < length (sh_heap h))%nat) as [Hd|Hd]; [by rewrite lookup_app_l|].
    rewrite lookup_app_r by lia. rewrite (lookup_ge_None_2 (sh_heap h)) by lia. by destruct (d - length (sh_heap h))%nat as [|[]].
  - split; [done|]. exists None. split; [apply tidy_poll|by left].
  - cbn [worker_holds] in Hh. destruct p as [[[]|err]|B g f k|c k|c k]; cbn [prog_step].
    + split; [done|]. exists held. split; [done|by left].
    + split; [done|]. exists held. split; [done|by left].
    + destruct Hh as [_ Hk]. destruct (Hs h Hwf) as [[_ _ _ Hm _] _]. destruct (f h) as [b h']. cbn in *.
      split; [by rewrite <- (Forall2_length _ _ _ Hm)|]. exists held. split; [done|]. left. split; [done|by apply taken_same].
    + destruct Hh as (-> & H1 & H2). destruct (is_locked c h) eqn:E; cbn.
      * split; [done|]. exists None. split; [done|by left].
      * split; [by rewrite length_alter|]. exists (Some c). split; [done|]. apply is_locked_false in E as [Ht Hc]. right; left.
        exists c. split_and!; try done. intros d. rewrite taken_set_locked. destruct (decide (d = c)); naive_solver.
    + destruct Hh as (-> & Hk). cbn. split; [by rewrite length_alter|]. exists None. split; [done|]. right; right.
      exists c. split_and!; try done. intros d. rewrite taken_set_locked. naive_solver.
  - split; [done|]. exists held. split; [done|by left].
Qed.

(** The mutexes that are held are those of the sessions the workers hold, no two the
    same; what is left for the main thread to close exists. *)
Record lock_inv (p : pool) (helds : list (option nat)) : Prop := {
  li_holds : Forall2 worker_holds (po_workers p) helds;
  li_taken : ∀ c, taken c (po_shared p) ↔ ∃ i, helds !! i = Some (Some c);
  li_unique : ∀ i j c, helds !! i = Some (Some c) → helds !! j = Some (Some c) → i = j;
  li_rest : match po_main p with
            | Closing rest => Forall (λ c, (c < length (sh_heap (po_shared p)))%nat) rest
            | _ => True
            end;
}.

Lemma worker_turn_locks n e p helds i w held :
  pool_inv n e p → lock_inv p helds → po_workers p !! i = Some w → helds !! i = Some held →
  ∃ held', lock_inv (MkPool (step w (po_shared p)).2 (<[i := (step w (po_shared p)).1]> (po_workers p)) (po_main p))
                    (<[i := held']> helds).
Proof.
  intros [W Hs _ _ _] [L1 L2 L3 L4] Hi Hh. assert (worker_safe w) as Hw by by eapply Forall_lookup_1.
  assert (worker_holds w held) as Hwh by by eapply Forall2_lookup_lr.
  destruct (worker_step_locks w _ held W Hw Hwh) as (Hlen & held' & Hh' & Hr). exists held'.
  assert (∀ k c, <[i := held']> helds !! k = Some (Some c) ↔ (k = i ∧ held' = Some c) ∨ (k ≠ i ∧ helds !! k = Some (Some c))) as Hins.
  { intros k c. destruct (decide (k = i)) as [->|Hk]; [rewrite list_lookup_insert_eq by by eapply lookup_lt_Some|rewrite list_lookup_insert_ne by done]; naive_solver. }
  split; cbn [po_shared po_workers po_main].
  - by apply Forall2_insert.
  - intros d. setoid_rewrite Hins. destruct Hr as [(-> & Ht) | [(c & -> & -> & Hc & Ht) | (c & -> & -> & Ht)]]; rewrite Ht, L2.
    + split; [intros [k Hk]; exists k; destruct (decide (k = i)); naive_solver|naive_solver].
    + split; [intros [[k Hk] | ->]; [exists k; destruct (decide (k = i)); naive_solver|exists i; naive_solver]|naive_solver].
    + split; [|naive_solver]. intros [[k Hk] Hd]. exists k. destruct (decide (k = i)); naive_solver.
  - intros k m d. rewrite !Hins. intros [[-> E1] | [N1 E1]] [[-> E2] | [N2 E2]]; [done| | |by eapply L3].
    all: destruct Hr as [(-> & Ht) | [(c & -> & -> & Hc & Ht) | (c & -> & -> & Ht)]]; simplify_eq; try (by eapply L3).
    all: exfalso; apply Hc, L2; eauto.
  - destruct (po_main p); try done. eapply Forall_impl; [exact L4|]. intros c Hc. cbn in *. lia.
Qed.

Lemma pool_step_locks n e budget t p p' helds :
  pool_step sock lsn clock budget t p = Some p' → pool_inv n e p → lock_inv p helds → ∃ helds', lock_inv p' helds'.
Proof.
  intros Hp Hinv HL. destruct t as [i| |]; cbn [pool_step] in Hp.
  - destruct (po_workers p !! i) as [w|] eqn:Hi; [|done]. destruct (has_returned w); [done|].
    destruct (Forall2_lookup_l _ _ _ _ _ (li_holds _ _ HL) Hi) as (held & Hh & _).
    destruct (worker_turn_locks n e p helds i w held Hinv HL Hi Hh) as [held' HL'].
    destruct (step w (po_shared p)) as [w' h']. injection Hp as <-. eauto.
  - destruct HL as [L1 L2 L3 L4]. exists helds. destruct (po_main p) as [| | | | | |[|c rest]| |] eqn:Hm; cbn [main_step] in Hp.
    4: destruct (forallb _ _); [|done].
    8: { destruct (is_locked c (po_shared p)); [done|]. injection Hp as <-. apply Forall_cons in L4 as [_ L4].
         assert (Forall2 same_cell (sh_heap (po_shared p)) (sh_heap (match session_of c (po_shared p) with
             | Some x => set_session c (drop_connection sock x) (po_shared p) | None => po_shared p end))) as Hsame.
         { destruct (session_of c (po_shared p)) as [x|] eqn:Hx; [|done].
           apply (moved_session options c x); [done|apply drop_connection_bound]. }
         split; cbn [po_shared po_workers po_main]; [done| |done|].
         - intros d. by rewrite taken_same.
         - by rewrite <- (Forall2_length _ _ _ Hsame). }
    all: injection Hp as <-; split; cbn [po_shared po_workers po_main]; try done.
    + by destruct (_ || _).
    + by destruct (_ || _).
    + apply Hinv.
  - injection Hp as <-. exists helds. by destruct HL; split.
Qed.

Lemma pool_run_locks n e budget turns p helds :
  pool_inv n e p → lock_inv p helds → ∃ helds', lock_inv (pool_run sock lsn clock budget turns p) helds'.
Proof.
  revert p helds. induction turns as [|t turns IH]; intros p helds Hp HL; [by exists helds|]. cbn.
  destruct (pool_step sock lsn clock budget t p) as [p'|] eqn:E; cbn; [|by eapply IH].
  destruct (pool_step_locks _ _ _ _ _ _ _ E Hp HL) as [helds' HL']. eapply IH; [by eapply pool_step_inv|done].
Qed.

Lemma pool_start_locks n v : lock_inv (MkPool (share v) (repeat AtTop n) AwaitRunning) (repeat None n).
Proof.
  assert (∀ i c, repeat (A:=option nat) None n !! i ≠ Some (Some c)) as Hno.
  { intros i c Hi%list_elem_of_lookup_2. apply list_elem_of_In, repeat_spec in Hi. done. }
  split; cbn.
  - clear. induction n; cbn; by constructor.
  - intros c. split; [|by intros [i Hi%Hno]]. unfold taken; cbn. rewrite list_lookup_fmap.
    destruct (sv_connections v !! c); cbn; congruence.
  - by intros i j c Hi%Hno.
  - done.
Qed.

(** ** Stopping *)

(** What a worker may become in one step while the stop flag is set. *)
Definition next_worker (w' w : worker) : Prop :=
  has_returned w = false ∧ ∃ h, sh_stopping h = true ∧ w' = (step w h).1.

Lemma acc_finished : Acc next_worker Finished.
Proof. by constructor; intros w' [? _]. Qed.

Lemma acc_top : Acc next_worker AtTop.
Proof. constructor. intros w' [_ (h & Hh & ->)]. cbn. rewrite Hh. apply acc_finished. Qed.

Lemma acc_running (p : prog status) : Acc next_worker (Running p).
Proof.
  induction p as [r|B g f k IH|c k IH|c k IH]; constructor; intros w' [_ (h & _ & ->)]; cbn.
  - destruct r as [[]|err]; [apply acc_top|apply acc_finished].
  - destruct (f h) as [b h']. apply IH.
  - destruct (is_locked c h); apply IH.
  - apply IH.
Qed.

(** Every worker returns after finitely many steps of its own. *)
Lemma acc_worker (w : worker) : Acc next_worker w.
Proof.
  assert (∀ a, Acc next_worker (Registering a)) as Hr by (constructor; intros w' [_ (h & _ & ->)]; apply acc_running).
  assert (∀ a, Acc next_worker (Refusing a)) as Hf by (constructor; intros w' [_ (h & _ & ->)]; apply acc_running).
  assert (∀ a, Acc next_worker (Counting a)) as Hc.
  { constructor; intros w' [_ (h & _ & ->)]. cbn. by destruct (_ <=? _). }
  destruct w as [| |a|a|a|p|]; auto using acc_finished, acc_top, acc_running.
  constructor; intros w' [_ (h & _ & ->)]. cbn. unfold accept. destruct (sh_listener h); [|apply acc_finished].
  destruct (negb _); [apply acc_finished|]. destruct (lo_accept_one _ _ _) as [[a|[[] err]] l']; cbn [fst];
    auto using acc_finished; apply acc_running.
Qed.

(** One of them takes a step. *)
Definition next_workers (l' l : list worker) : Prop :=
  ∃ i w w', l !! i = Some w ∧ next_worker w' w ∧ l' = <[i := w']> l.

Lemma acc_workers l : Acc next_workers l.
Proof.
  induction l as [|w l IH]; [constructor; by intros l' (i & w & w' & Hi & _)|].
  induction (acc_worker w) as [w _ IHw] in l, IH |- *. induction IH as [l Hl IHl]. constructor.
  intros l' ([|i] & x & x' & Hi & Hx & ->).
  - injection Hi as ->. apply (IHw x'); [done|by constructor].
  - apply (IHl (<[i := x']> l)). by exists i, x, x'.
Qed.

(** A turn of a worker. *)
Definition worker_turn (budget : Z) (p' p : pool) : Prop :=
  ∃ i, pool_step sock lsn clock budget (TurnWorker i) p = Some p'.

Lemma worker_turns_end n e budget p :
  pool_inv n e p → sh_stopping (po_shared p) = true → Acc (worker_turn budget) p.
Proof.
  intros Hp Hst. remember (po_workers p) as l eqn:El. revert p El Hp Hst.
  induction (acc_workers l) as [l _ IH]. intros p -> Hp Hst. constructor. intros p' [i Hi].
  pose proof (pool_step_inv _ _ _ _ _ _ Hi Hp) as Hp'. cbn [pool_step] in Hi.
  destruct (po_workers p !! i) as [w|] eqn:Hw; [|done]. destruct (has_returned w) eqn:Hr; [done|].
  destruct (worker_step_safe w (po_shared p)) as (_ & _ & Hpg); [apply Hp|eapply Forall_lookup_1; [apply Hp|done]|].
  destruct (step w (po_shared p)) as [w' h'] eqn:E. injection Hi as <-. eapply IH; [|done|done|].
  - exists i, w, w'. split; [done|]. split; [|done]. split; [done|]. exists (po_shared p). by rewrite E.
  - by apply Hpg.
Qed.

Lemma no_turn_returned budget p :
  (∀ i, pool_step sock lsn clock budget (TurnWorker i) p = None) → forallb has_returned (po_workers p) = true.
Proof.
  intros Hno. apply forallb_forall. intros w Hw%list_elem_of_In. apply list_elem_of_lookup in Hw as [i Hi].
  specialize (Hno i). cbn in Hno. rewrite Hi in Hno. destruct (has_returned w); [done|]. by destruct (step w _).
Qed.

(** *** The main thread *)

Lemma returned_holds_nothing p helds c :
  lock_inv p helds → forallb has_returned (po_workers p) = true → ¬ taken c (po_shared p).
Proof.
  intros [L1 L2 _ _] Hr Ht. apply L2 in Ht as [i Hi]. destruct (Forall2_lookup_r _ _ _ _ _ L1 Hi) as (w & Hw & Hh).
  rewrite forallb_forall in Hr. specialize (Hr w (proj1 (list_elem_of_In _ _) (list_elem_of_lookup_2 _ _ _ Hw))). by destruct w.
Qed.

Definition ends (budget : Z) (p : pool) : Prop := ∃ k, po_main (pool_run sock lsn clock budget (repeat TurnMain k) p) = Down.

Lemma ends_step budget h ws m m' h' :
  main_step sock lsn budget (forallb has_returned ws) m h = Some (m', h') → ends budget (MkPool h' ws m') →
  ends budget (MkPool h ws m).
Proof. intros Hm [k Hk]. exists (Datatypes.S k). cbn. unfold pool_run in Hk |- *. cbn. by rewrite Hm. Qed.

Lemma ends_closing budget h ws rest :
  forallb has_returned ws = true → (∀ c, ¬ taken c h) → Forall (λ c, (c < length (sh_heap h))%nat) rest →
  ends budget (MkPool h ws (Closing rest)).
Proof.
  intros Hr. revert h. induction rest as [|c rest IH]; intros h Hfree Hlt.
  - do 2 (eapply ends_step; [done|]). by exists 0%nat.
  - apply Forall_cons in Hlt as [Hc Hlt]. assert (is_locked c h = false) as Hl.
    { specialize (Hfree c). unfold is_locked, taken in *. destruct (lookup_lt_is_Some_2 _ _ Hc) as [x Hx]. rewrite Hx in *. cbn in *.
      by destruct (ce_locked x). }
    eapply ends_step; [cbn [main_step]; by rewrite Hl|]. destruct (session_of c h) as [x|] eqn:Hx; [|by apply IH].
    assert (Forall2 same_cell (sh_heap h) (sh_heap (set_session c (drop_connection sock x) h))) as Hs.
    { apply (moved_session options c x); [done|apply drop_connection_bound]. }
    apply IH; [intros d; by rewrite taken_same|by rewrite <- (Forall2_length _ _ _ Hs)].
Qed.

(** Once every worker has returned and a signal has arrived, the main thread comes to
    its end, blocked by nothing. *)
Lemma main_ends n e budget p helds :
  pool_inv n e p → lock_inv p helds → forallb has_returned (po_workers p) = true → sh_signalled (po_shared p) = true →
  ends budget p.
Proof.
  intros [W _ _ _ _] HL Hr Hsig. pose proof (λ c, returned_holds_nothing p helds c HL Hr) as Hfree.
  destruct HL as [_ _ _ Hrest]. destruct p as [h ws m]. cbn in *. pose proof (sw_registry _ _ W) as Hreg.
  assert (∀ h', sh_heap h' = sh_heap h → sh_registry h' = sh_registry h → ends budget (MkPool h' ws Snapshotting)) as Hsnap.
  { intros h' E1 E2. eapply ends_step; [done|]. apply ends_closing; [done| |].
    - intros c. unfold taken. rewrite E1. apply Hfree.
    - by rewrite E1, E2. }
  assert (∀ h', sh_heap h' = sh_heap h → sh_registry h' = sh_registry h → ends budget (MkPool h' ws Joining)) as Hjoin.
  { intros h' E1 E2. eapply ends_step; [cbn [main_step]; by rewrite Hr|]. eapply ends_step; [done|]. by apply Hsnap. }
  assert (ends budget (MkPool h ws StopWorkers)) as Hstop by (eapply ends_step; [done|]; by apply Hjoin).
  assert (ends budget (MkPool h ws AwaitBudget)) as Hbudget by (eapply ends_step; [cbn [main_step]; by rewrite Hsig|done]).
  destruct m as [| | | | | |rest| |]; try done.
  - eapply ends_step; [cbn [main_step]; by rewrite Hsig|done].
  - by apply Hjoin.
  - eapply ends_step; [done|]. by apply Hsnap.
  - by apply Hsnap.
  - by apply ends_closing.
  - eapply ends_step; [done|]. by exists 0%nat.
  - by exists 0%nat.
Qed.
End Pool.

(** ** The claims *)

(** The server of [v] in the hands of [n] workers. *)
Definition manned {S L} (n : nat) (v : server S L) : pool := MkPool (share v) (repeat AtTop n) AwaitRunning.

(** C4: any number of workers serve a history.  However the steps of the workers, of the
    main thread and of a signal are interleaved, between any two critical sections, the
    engine changes only by a sequence of the engine's own critical sections, each a
    scheduling pass, the bookkeeping after one, or what a decoded frame asked for; so an
    engine reachable before is reachable after, while the counters have room, and
    everything proved of reachable engines holds of one served by threads.  The number
    of sessions exceeds the limit by less than the number of workers. *)
Theorem workers_serve_a_history {S L} (sock : SocketOps S) (lsn : ListenerOps S L) clock budget turns n (v : server S L) :
  server_wf v → connection_count v ≤ so_max_connections (sv_options v) → (0 < n)%nat →
  let h := po_shared (pool_run sock lsn clock budget turns (manned n v)) in
  registered_count h < so_max_connections (sv_options v) + Z.of_nat n ∧
  ∃ calls, sh_engine h = replay calls (sv_engine v) ∧ Forall (λ c, worker_op (sv_options v) (ca_op c)) calls ∧
    (roomy calls (sv_engine v) → reachable any_op (sv_engine v) → reachable any_op (sh_engine h)).
Proof.
  intros Hwf Hc Hn h. destruct (pool_run_inv sock lsn clock (sv_options v) n (sv_engine v) budget turns (manned n v)) as [_ _ _ Hb (calls & E & F)].
  { apply pool_start_inv; [done|done|lia]. }
  fold h in Hb, E. split; [lia|]. exists calls. split_and!; [done|done|]. intros Hroom [p Hp]. exists p.
  eapply history_app; [exact Hp|]. rewrite E. apply replay_wf_history; [|done].
  eapply Forall_impl; [exact F|]. intros c Hk e. exact (worker_op_wf _ _ e Hk).
Qed.

(** C20: the workers can be stopped.  After any schedule that leaves the stop flag set,
    the workers take only finitely many more turns, whatever order they take them in;
    when none of them can run, every one has returned and no session's mutex is held,
    and once a signal has come the main thread reaches its end in finitely many turns,
    blocked by nothing. *)
Theorem workers_come_to_rest {S L} (sock : SocketOps S) (lsn : ListenerOps S L) clock budget turns n (v : server S L) :
  server_wf v → connection_count v ≤ so_max_connections (sv_options v) → (0 < n)%nat →
  let p := pool_run sock lsn clock budget turns (manned n v) in
  sh_stopping (po_shared p) = true →
  Acc (worker_turn sock lsn clock budget) p ∧
  ∀ later, let p' := pool_run sock lsn clock budget (map TurnWorker later) p in
    (∀ i, pool_step sock lsn clock budget (TurnWorker i) p' = None) →
    forallb has_returned (po_workers p') = true ∧ (∀ c, ¬ taken c (po_shared p')) ∧
    ∃ k, po_main (pool_run sock lsn clock budget (TurnSignal :: repeat TurnMain k) p') = Down.
Proof.
  intros Hwf Hc Hn p Hst. pose proof (pool_start_inv (sv_options v) n v AwaitRunning eq_refl Hwf ltac:(lia)) as H0.
  pose proof (pool_run_inv sock lsn clock _ _ _ budget turns _ H0) as Hp. fold (manned n v) p in Hp.
  split; [by eapply worker_turns_end|]. intros later p' Hno. pose proof (no_turn_returned _ _ _ _ _ Hno) as Hr.
  destruct (pool_run_locks sock lsn clock _ _ _ budget turns _ _ H0 (pool_start_locks n v)) as [helds HL]. fold (manned n v) p in HL.
  pose proof (pool_run_inv sock lsn clock _ _ _ budget (map TurnWorker later) _ Hp) as Hp'. fold p' in Hp'.
  destruct (pool_run_locks sock lsn clock _ _ _ budget (map TurnWorker later) _ _ Hp HL) as [helds' HL']. fold p' in HL'.
  split_and!; [done|intros c; by eapply returned_holds_nothing|].
  assert (pool_step sock lsn clock budget TurnSignal p' = Some (MkPool (po_shared p' <| sh_signalled := true |>) (po_workers p') (po_main p'))) as Hsig by done.
  pose proof (pool_step_inv _ _ _ _ _ _ _ _ _ _ Hsig Hp') as Hp2.
  destruct (pool_step_locks _ _ _ _ _ _ _ _ _ _ _ Hsig Hp' HL') as [helds2 HL2].
  by eapply (main_ends _ _ _ _ _ _ _ _ _ Hp2 HL2).
Qed.

(** ** Runs *)

(** A crowd of callers at a controller that takes one session, two workers. *)
Definition narrow_options : ServerOptions := MkServerOptions "127.0.0.1" 0 1 2 4 4096 20 20 (60 * Demo.second).
Definition crowded : server (list Z) (list (list Z)) :=
  MkServer narrow_options Demo.requested_engine true (Some [caller; caller]) 7000 [] false 0 0 0 0 0.

Lemma crowded_wf : server_wf crowded ∧ connection_count crowded ≤ so_max_connections (sv_options crowded).
Proof. split; [split; [vm_compute; split; discriminate|constructor]|vm_compute; discriminate]. Qed.

Definition abreast : list turn_of := concat (repeat [TurnWorker 0; TurnWorker 1] 4).

Lemma workers_serve_a_history_witness :
  let h := po_shared (pool_run drip doorway ticking 0 abreast (manned 2 crowded)) in
  registered_count h < 1 + 2 ∧
  ∃ calls, sh_engine h = replay calls (sv_engine crowded) ∧ Forall (λ c, worker_op (sv_options crowded) (ca_op c)) calls ∧
    (roomy calls (sv_engine crowded) → reachable any_op (sv_engine crowded) → reachable any_op (sh_engine h)).
Proof.
  apply (workers_serve_a_history drip doorway ticking 0 abreast 2 crowded); [apply crowded_wf|apply crowded_wf|lia].
Defined.

(** Both look at the limit before either registers. *)
Example limit_is_overrun :
  registered_count (po_shared (pool_run drip doorway ticking 0 abreast (manned 2 crowded))) = 2 ∧
  so_max_connections narrow_options = 1.
Proof. vm_compute. done. Qed.

Definition stop_turns : list turn_of := abreast ++ [TurnSignal; TurnMain; TurnMain; TurnMain].

Lemma workers_come_to_rest_witness :
  let p := pool_run drip doorway ticking 0 stop_turns (manned 2 crowded) in
  Acc (worker_turn drip doorway ticking 0) p ∧
  ∀ later, let p' := pool_run drip doorway ticking 0 (map TurnWorker later) p in
    (∀ i, pool_step drip doorway ticking 0 (TurnWorker i) p' = None) →
    forallb has_returned (po_workers p') = true ∧ (∀ c, ¬ taken c (po_shared p')) ∧
    ∃ k, po_main (pool_run drip doorway ticking 0 (TurnSignal :: repeat TurnMain k) p') = Down.
Proof.
  apply (workers_come_to_rest drip doorway ticking 0 stop_turns 2 crowded);
    [apply crowded_wf|apply crowded_wf|lia|vm_compute; reflexivity].
Defined.

(** A whole run: two workers, a signal, the end. *)
Example workers_run_and_stop :
  let p := pool_run drip doorway ticking 0
             (concat (repeat [TurnWorker 0; TurnWorker 1] 60) ++ [TurnSignal] ++ repeat TurnMain 3
              ++ concat (repeat [TurnWorker 0; TurnWorker 1] 80) ++ repeat TurnMain 8) (manned 2 crowded) in
  po_main p = Down ∧ forallb has_returned (po_workers p) = true ∧ registered_count (po_shared p) = 0.
Proof. vm_compute. done. Qed.

(** The mutex of a session is not held while its frame is handled: a client that sends a
    request right behind its hello is greeted and answered by one worker
    ([small_server_serves]); of two, the second may take the request up before the
    first has recorded the greeting, and the session is refused and closed. *)
Example request_overtakes_hello :
  let p := pool_run drip doorway ticking 0
             (repeat (TurnWorker 0) 9 ++ repeat (TurnWorker 1) 12 ++ repeat (TurnWorker 0) 60) (manned 2 small_server) in
  sh_rejected_frames (po_shared p) = 1 ∧ sh_served_requests (po_shared p) = 0 ∧
  map (λ x, (cn_greeted (ce_connection x), cn_closing (ce_connection x))) (sh_heap (po_shared p)) = [(true, true)].
Proof. vm_compute. done. Qed.
