(* ===== verification/Drainctl.v ===== *)
(** * The operator's command line

    [tools/drainctl.cpp]: the arguments, and each command from the start of the
    runtime to the exit code.  What the process prints is a list of lines; [std::exit]
    and [return] from [main] end the command with a code. *)

From Stdlib Require Import Ascii.
From S2P Require Import Prelude Containers Checked Result Text Json Codec CodecTables CodecFabric CodecPolicy Bytes Wire.
From S2P Require Import Identity Lifecycle Obligation Evidence Authority Admission Topology Policy Decision Engine.
From S2P Require Import Snapshot Explain EngineStep EngineOps Queries Store Runtime.
#[local] Open Scope Z_scope.

(** ** Arguments *)

(** [Options]; the arguments are those after the program's name. *)
Record CtlOptions := MkCtlOptions {
  co_json : bool;
  co_help : bool;
  co_command : string;
  co_positional : list string;
  co_flags : omap string string;
}.
#[export] Instance eta_CtlOptions : Eta CtlOptions := λ o,
  MkCtlOptions (co_json o) (co_help o) (co_command o) (co_positional o) (co_flags o).
#[export] Instance upd_co_json : Update co_json := ltac:(solve_update co_json).
#[export] Instance upd_co_help : Update co_help := ltac:(solve_update co_help).
#[export] Instance upd_co_command : Update co_command := ltac:(solve_update co_command).
#[export] Instance upd_co_positional : Update co_positional := ltac:(solve_update co_positional).
#[export] Instance upd_co_flags : Update co_flags := ltac:(solve_update co_flags).
Arguments upd_co_json f r /.
Arguments upd_co_help f r /.
Arguments upd_co_command f r /.
Arguments upd_co_positional f r /.
Arguments upd_co_flags f r /.

Definition has (name : string) (o : CtlOptions) : bool := match co_flags o !! name with Some _ => true | None => false end.
Definition get (name fallback : string) (o : CtlOptions) : string := default fallback (co_flags o !! name).
Definition co_state (o : CtlOptions) : string := get "state" "" o.

(** The loop of [number]: no check for overflow. *)
Fixpoint read_number (value : Z) (digits : string) : option Z :=
  match digits with
  | EmptyString => Some value
  | String c digits =>
      if is_digit c then read_number (wrap u64 (wrap u64 (value * 10) + (char_code c - 48))) digits else None
  end.
Definition number (name : string) (fallback : Z) (o : CtlOptions) : Z :=
  match co_flags o !! name with
  | None => fallback
  | Some text => if String.eqb text "" then fallback else default fallback (read_number 0 text)
  end.

(** What follows a leading ["--"]. *)
Definition long_name (argument : string) : option string :=
  match argument with
  | String c1 (String c2 name) => if Ascii.eqb c1 "-"%char && Ascii.eqb c2 "-"%char then Some name else None
  | _ => None
  end.
Definition starts_with_dash (text : string) : bool :=
  match text with String c _ => Ascii.eqb c "-"%char | EmptyString => false end.

(** The text before and after the first separator. *)
Fixpoint cut_at (separator : Ascii.ascii) (text : string) : option (string * string) :=
  match text with
  | EmptyString => None
  | String c text =>
      if Ascii.eqb c separator then Some ("", text)
      else match cut_at separator text with Some (a, b) => Some (String c a, b) | None => None end
  end.

(** [parse]. *)
Fixpoint parse_arguments (argv : list string) (o : CtlOptions) : CtlOptions :=
  match argv with
  | [] => o
  | argument :: argv =>
      if String.eqb argument "--help" || String.eqb argument "-h" then parse_arguments argv (o <| co_help := true |>)
      else if String.eqb argument "--json" then parse_arguments argv (o <| co_json := true |>)
      else
        match long_name argument with
        | Some name =>
            match cut_at "="%char name with
            | Some (key, value) => parse_arguments argv (o <| co_flags := <[key := value]> (co_flags o) |>)
            | None =>
                match argv with
                | value :: rest =>
                    if negb (starts_with_dash value)
                    then parse_arguments rest (o <| co_flags := <[name := value]> (co_flags o) |>)
                    else parse_arguments argv (o <| co_flags := <[name := "true"]> (co_flags o) |>)
                | [] => o <| co_flags := <[name := "true"]> (co_flags o) |>
                end
            end
        | None =>
            if String.eqb (co_command o) "" then parse_arguments argv (o <| co_command := argument |>)
            else parse_arguments argv (o <| co_positional := co_positional o ++ [argument] |>)
        end
  end.
Definition parse (argv : list string) : CtlOptions := parse_arguments argv (MkCtlOptions false false "" [] ∅).

(** The pieces between separators. *)
Fixpoint split_at (separator : Ascii.ascii) (text : string) : list string :=
  match text with
  | EmptyString => [""]
  | String c text =>
      if Ascii.eqb c separator then "" :: split_at separator text
      else match split_at separator text with
           | piece :: pieces => String c piece :: pieces
           | [] => [String c ""]
           end
  end.

(** [parse_target_list]: the targets, or the piece that is not one. *)
Fixpoint parse_pieces (pieces : list string) : list DrainTarget + string :=
  match pieces with
  | [] => inl []
  | piece :: pieces =>
      if String.eqb piece "" then parse_pieces pieces
      else
        match target_parse piece with
        | None => inr piece
        | Some target => match parse_pieces pieces with inl targets => inl (target :: targets) | inr bad => inr bad end
        end
  end.
Definition parse_target_list (text : string) : list DrainTarget + string := parse_pieces (split_at ","%char text).

Definition exit_code_for (code : ErrorCode.t) : Z :=
  match code with
  | ErrorCode.Ok => 0
  | ErrorCode.NotFound => 3
  | ErrorCode.StaleAuthority | ErrorCode.StaleEpoch | ErrorCode.StaleGeneration | ErrorCode.StaleIncarnation
  | ErrorCode.StaleEvidence | ErrorCode.StaleRevision | ErrorCode.AdmissionClosed => 4
  | ErrorCode.PersistenceCorrupt | ErrorCode.PersistenceIo => 5
  | _ => 2
  end.

(** ** The process *)

Inductive line : Type :=
  | Stdout (text : string)
  | Stderr (text : string).

(** The calls of one process that fail: those of the start, of the save and of
    [verify], the files that cannot be opened for reading or writing, and how much of
    the file [snapshot] writes reaches the disk. *)
Record CtlFaults := MkCtlFaults {
  cf_boot : BootFaults;
  cf_save : Faults;
  cf_verify : ReadFaults;
  cf_verify_backup : ReadFaults;
  cf_unreadable : string → bool;
  cf_unwritable : string → bool;
  cf_kept : option nat;
}.
Definition no_ctl_faults : CtlFaults :=
  MkCtlFaults no_boot_faults no_faults no_read_faults no_read_faults (λ _, false) (λ _, false) None.

(** The runtime, the readings of the clock so far, what was printed, the disk and the
    states it went through. *)
Record ctl := MkCtl {
  ct_runtime : Runtime;
  ct_reads : nat;
  ct_lines : list line;
  ct_disk : disk;
  ct_trace : list disk;
}.
#[export] Instance eta_ctl : Eta ctl := λ c,
  MkCtl (ct_runtime c) (ct_reads c) (ct_lines c) (ct_disk c) (ct_trace c).
#[export] Instance upd_ct_runtime : Update ct_runtime := ltac:(solve_update ct_runtime).
#[export] Instance upd_ct_reads : Update ct_reads := ltac:(solve_update ct_reads).
#[export] Instance upd_ct_lines : Update ct_lines := ltac:(solve_update ct_lines).
#[export] Instance upd_ct_disk : Update ct_disk := ltac:(solve_update ct_disk).
#[export] Instance upd_ct_trace : Update ct_trace := ltac:(solve_update ct_trace).
Arguments upd_ct_runtime f r /.
Arguments upd_ct_reads f r /.
Arguments upd_ct_lines f r /.
Arguments upd_ct_disk f r /.
Arguments upd_ct_trace f r /.

(** A part of [main]: a value, or the code the process ends with. *)
Definition cmd (A : Type) : Type := ctl → (A + Z) * ctl.
Definition ret {A} (a : A) : cmd A := λ c, (inl a, c).
Definition exit {A} (code : Z) : cmd A := λ c, (inr code, c).
Definition bind {A B} (m : cmd A) (k : A → cmd B) : cmd B :=
  λ c, match m c with (inl a, c) => k a c | (inr code, c) => (inr code, c) end.

Notation "'let~' x := m 'in' k" := (bind m (λ x, k))
  (at level 10, x pattern, m at level 100, k at level 200) : drain_scope.
Notation "m ;~ k" := (bind m (λ _, k)) (at level 199, k at level 200, right associativity) : drain_scope.

Definition say (l : line) : cmd unit := λ c, (inl tt, c <| ct_lines := ct_lines c ++ [l] |>).
Definition print (text : string) : cmd unit := say (Stdout text).
Definition complain (text : string) : cmd unit := say (Stderr ("error: " ++s text ++s newline)).
Definition ask {A} (f : engine → A) : cmd A := λ c, (inl (f (rt_engine (ct_runtime c))), c).
Definition disk_now : cmd disk := λ c, (inl (ct_disk c), c).
Definition runtime_now : cmd Runtime := λ c, (inl (ct_runtime c), c).

(** A usage error. *)
Definition misuse {A} (text : string) : cmd A := complain text ;~ exit 1.

(** [drain::version_string]. *)
Definition kVersionMajor : Z := 1.
Definition kVersionMinor : Z := 0.
Definition kVersionPatch : Z := 0.
Definition version_string : string :=
  decimal kVersionMajor ++s "." ++s decimal kVersionMinor ++s "." ++s decimal kVersionPatch.

Definition usage_lines : list string :=
  ["drainctl " ++s version_string ++s " -- Drain Fabric operator CLI";
   "";
   "usage: drainctl [--state FILE] [--json] <command> [arguments]";
   "";
   "commands:";
   "  init                                  create an empty persistent state";
   "  load-topology --file F | --json J     install a topology document";
   "  show-topology                         print the installed topology";
   "  admit --holder H --deps T[,T...]      admit an obligation";
   "        [--kind K] [--protection P] [--grace-ns N] [--group G] [--capacity N]";
   "  release --obligation N [--advance N]  report an obligation as released";
   "  request --target T [--target T...]    request a drain set";
   "        [--reason R] [--nonce N]";
   "  advance [--steps N]                   run scheduling passes";
   "  status [--drain N]                    show drain state and accounting";
   "  explain --drain N                     explain why a drain is where it is";
   "  obligations [--target T]              list outstanding protected work";
   "  cancel --drain N [--reason R]         cancel a drain";
   "  restore --drain N [--reason R]        return a target to service";
   "  audit                                 run the accounting closure audit";
   "  verify --file F                       integrity-check a snapshot file";
   "  snapshot --out F                      write the current snapshot to F";
   "  version                               print the version";
   "";
   "Exit codes: 0 success, 1 usage error, 2 operation rejected, 3 not found,";
   "            4 stale fence, 5 integrity failure."].
Definition print_usage : cmd unit := print (String.concat newline usage_lines ++s newline).

Section Commands.
Context (clock : nat → TimePoint) (ft : CtlFaults) (options : CtlOptions).

(** A call of the engine with a reading of the clock. *)
Definition call_engine {A} (f : TimePoint → engine → A * engine) : cmd A := λ c,
  let '(a, e) := f (clock (ct_reads c)) (rt_engine (ct_runtime c)) in
  (inl a, c <| ct_reads := S (ct_reads c) |> <| ct_runtime := ct_runtime c <| rt_engine := e |> |>).

(** [report]: the code of a status that is an error. *)
Definition report_error (err : error) : cmd Z :=
  (if co_json options then
     print (dump 0 (obj [("ok", JBool false); ("code", JString (ErrorCode.to_string (err_code err)));
                         ("message", JString (err_message err))]) ++s newline)
   else complain (error_to_string err)) ;~
  ret (exit_code_for (err_code err)).
Definition report {A} (r : result A) : cmd Z := match r with Ok _ => ret 0 | Err err => report_error err end.

(** [if (!r.ok()) { return report(options, r); }]. *)
Definition require {A} (r : result A) : cmd A :=
  match r with Ok a => ret a | Err err => let~ code := report_error err in exit code end.

Definition emit (value : json) (text : string) : cmd unit :=
  if co_json options then print (dump 2 value ++s newline) else print text.

(** [report(options, runtime.save(...))]. *)
Definition save_and_report : cmd Z :=
  let~ saved := (λ c,
    let '(saved, r, trace) := runtime_save (cf_save ft) (ct_runtime c) (ct_disk c) in
    (inl saved, c <| ct_runtime := r |> <| ct_disk := last_disk (ct_disk c) trace |>
                  <| ct_trace := ct_trace c ++ trace |>)) in
  report saved.

(** ** Commands *)

Definition run_version : cmd Z :=
  print ("drainctl " ++s version_string ++s " (snapshot format " ++s decimal kSnapshotFormatVersion
         ++s ", wire protocol " ++s decimal kWireProtocolVersion ++s ")" ++s newline) ;~ ret 0.

Definition run_verify : cmd Z :=
  let path := get "file" (co_state options) options in
  if String.eqb path "" then complain "verify requires --file" ;~ ret 1
  else
    let~ d := disk_now in
    let~ info := require (verify (cf_verify ft) (cf_verify_backup ft) (new_persistence path default_persistence_limits) d) in
    emit (obj [("ok", JBool true); ("format_version", JUint (si_format_version info)); ("sequence", JUint (si_sequence info));
               ("incarnation", JUint (si_incarnation info)); ("payload_bytes", JUint (si_payload_bytes info));
               ("from_backup", JBool (si_from_backup info))])
      ("snapshot ok: format " ++s decimal (si_format_version info) ++s ", sequence " ++s decimal (si_sequence info)
       ++s ", incarnation " ++s decimal (si_incarnation info) ++s ", payload " ++s decimal (si_payload_bytes info)
       ++s " bytes" ++s (if si_from_backup info then " (recovered from backup)" else "") ++s newline) ;~
    ret 0.

(** [Runtime::start] on the state file. *)
Definition start_runtime : cmd unit :=
  let~ started := (λ c,
    let '(started, r, trace) := runtime_start (cf_boot ft) (clock (ct_reads c)) (ct_runtime c) (ct_disk c) in
    (inl started, c <| ct_reads := S (ct_reads c) |> <| ct_runtime := r |> <| ct_disk := last_disk (ct_disk c) trace |>
                    <| ct_trace := ct_trace c ++ trace |>)) in
  require started.

Definition run_init : cmd Z :=
  let~ r := runtime_now in
  emit (obj [("ok", JBool true); ("incarnation", JUint (rt_incarnation r)); ("boot_id", JUint (rt_boot_id r))])
    ("state initialised at " ++s co_state options ++s " (incarnation " ++s decimal (rt_incarnation r) ++s ")" ++s newline) ;~
  save_and_report.

(** One call for each of a list, up to the first error. *)
Fixpoint add_all {A} (add : A → TimePoint → engine → status * engine) (l : list A) : cmd unit :=
  match l with
  | [] => ret tt
  | a :: l => let~ added := call_engine (add a) in require added ;~ add_all add l
  end.

(** The edges of the document, whatever the engine answers. *)
Fixpoint add_edges (entries : list json) : cmd unit :=
  match entries with
  | [] => ret tt
  | entry :: entries =>
      match slug_parse (get_string "from" "" entry), slug_parse (get_string "to" "" entry) with
      | Some from, Some to => call_engine (en_add_edge from to) ;~ add_edges entries
      | _, _ => add_edges entries
      end
  end.

(** [read_file]. *)
Definition read_text (path : string) : cmd (option string) :=
  let~ d := disk_now in ret (if cf_unreadable ft path then None else text_of <$> d !! path).

Definition run_load_topology : cmd Z :=
  let~ document :=
    if String.eqb (get "json" "" options) "" then
      let~ text := read_text (get "file" "" options) in
      match text with Some text => ret text | None => misuse "cannot read the topology document" end
    else ret (get "json" "" options) in
  match json_parsed default_limits document with
  | Err err => misuse ("topology document is not valid json: " ++s err_message err)
  | Ok parsed =>
      let~ topology := require (topology_load_from_json parsed) in
      add_all en_add_resource (om_values (to_resources topology)) ;~
      add_all en_add_path (om_values (to_paths topology)) ;~
      add_edges (match json_find "edges" parsed with Some edges => as_array edges | None => [] end) ;~
      add_all en_add_diversity_group (om_values (to_diversity_groups topology)) ;~
      add_all en_add_capacity_pool (om_values (to_capacity_pools topology)) ;~
      add_all en_add_protected_route (to_protected_routes topology) ;~
      emit (obj [("ok", JBool true); ("resources", JUint (om_size (to_resources topology)))])
        ("topology loaded: " ++s decimal (om_size (to_resources topology)) ++s " resource(s)" ++s newline) ;~
      save_and_report
  end.

Definition run_show_topology : cmd Z :=
  let~ document := ask (λ e, topology_to_json (en_topology e)) in
  emit document (dump 2 document ++s newline) ;~ ret 0.

(** [parse_target_list] with its [std::exit]. *)
Definition targets_of (text : string) : cmd (list DrainTarget) :=
  match parse_target_list text with
  | inl targets => ret targets
  | inr piece => misuse ("'" ++s piece ++s "' is not a valid drain target (kind:id@domain)")
  end.

(** The obligation [admit] describes. *)
Definition admit_draft : cmd Obligation :=
  let holder := get "holder" "" options in
  let deps := get "deps" "" options in
  if String.eqb holder "" || String.eqb deps "" then misuse "admit requires --holder and --deps"
  else
    let! holder_id := slug_parse holder else misuse "malformed holder identity" in
    let kind_text := get "kind" "active-flow" options in
    let! kind := obligation_kind_from_string kind_text else misuse ("unknown obligation kind '" ++s kind_text ++s "'") in
    let~ dependencies := targets_of deps in
    let draft := new_obligation kind holder_id dependencies in
    let protection_text := get "protection" "protected" options in
    let! protection := protection_class_from_string protection_text
      else misuse ("unknown protection class '" ++s protection_text ++s "'") in
    let draft := draft <| ob_protection := protection |> in
    let draft := if has "grace-ns" options then draft <| ob_grace := wrap i64 (number "grace-ns" 0 options) |> else draft in
    let draft := if has "capacity" options then draft <| ob_capacity := number "capacity" 0 options |> else draft in
    if has "group" options then
      let! group := slug_parse (get "group" "" options) else misuse "malformed group identity" in
      ret (draft <| ob_group := group |>)
    else ret draft.

Definition run_admit (authority : AuthorityId) : cmd Z :=
  let~ draft := admit_draft in
  let~ answer := call_engine (admit_obligation draft (number "generation" 0 options) authority) in
  let~ admitted := require answer in
  emit (obj [("ok", JBool true); ("obligation", JUint (ob_id admitted))])
    ("obligation " ++s decimal (ob_id admitted) ++s " admitted" ++s newline) ;~
  save_and_report.

(** Scheduling passes whose answers are not looked at; the command line has no sink. *)
Fixpoint advance_times (n : nat) : cmd unit :=
  match n with O => ret tt | S n => call_engine (advance None) ;~ advance_times n end.

(** The evidence of [release], observed at one reading of the clock. *)
Definition ctl_evidence (obligation : ObligationId) (observed : TimePoint) (e : engine) : Evidence :=
  MkEvidence (number "seq" 1 options)
    (MkEvidenceKey EvidenceKind.ObligationReleased (number "drain" 0 options) obligation "") (number "generation" 0 options)
    (ar_epoch (en_authority e)) (ar_incarnation (en_authority e)) 0 observed 0 true 0 "released by drainctl" false.

Definition run_release : cmd Z :=
  let id := number "obligation" 0 options in
  if id =? 0 then misuse "release requires --obligation"
  else
    let~ found := ask (Query.obligation id) in
    let! obligation := found else (complain "no such obligation" ;~ ret 3) in
    let~ evidence := call_engine (λ now e, (ctl_evidence id now e, e)) in
    let~ answer := call_engine (record_evidence evidence) in
    let~ recorded := require answer in
    let~ reported := call_engine (report_obligation
      (MkObligationReport id (ob_revision obligation) ObligationState.Released (ev_seq recorded) (number "drain" 0 options)
         (number "generation" 0 options) 0 "drainctl release")) in
    require reported ;~
    advance_times (Z.to_nat (number "advance" 6 options)) ;~
    emit (obj [("ok", JBool true); ("evidence", JUint (ev_seq recorded))])
      ("obligation " ++s decimal id ++s " released" ++s newline) ;~
    save_and_report.

(** The positional arguments of [request]. *)
Fixpoint positional_targets (arguments : list string) : cmd (list DrainTarget) :=
  match arguments with
  | [] => ret []
  | argument :: arguments =>
      let! target := target_parse argument else misuse ("'" ++s argument ++s "' is not a valid drain target") in
      let~ targets := positional_targets arguments in ret (target :: targets)
  end.

(** [parse_node]. *)
Definition node_of (text : string) : cmd NodeId :=
  if String.eqb text "" then ret ""
  else
    let! node := slug_parse text else misuse ("'" ++s text ++s "' is not a valid node identity") in
    ret node.

Definition request_of (authority : AuthorityId) : cmd DrainRequest :=
  let~ named := match co_flags options !! "target" with Some text => targets_of text | None => ret [] end in
  let~ more := positional_targets (co_positional options) in
  let targets := named ++ more in
  if is_nil targets then misuse "request requires --target"
  else
    let~ node := node_of (get "node" "" options) in
    ret (MkDrainRequest targets (get "reason" "drainctl request" options) authority node (number "nonce" 0 options)).

Definition run_request (authority : AuthorityId) : cmd Z :=
  let~ request := request_of authority in
  let~ answer := call_engine (request_drain_set request) in
  let~ set := require answer in
  let~ members := ask (λ e, match Query.drain_set set e with Some stored => ds_members stored | None => [] end) in
  emit (obj [("ok", JBool true); ("set", JUint set); ("drains", JArray (map JUint members))])
    ("drain set " ++s decimal set ++s ":" ++s String.concat "" (map (λ m, " " ++s decimal m) members) ++s newline) ;~
  save_and_report.

(** The loop of [advance], up to the first error. *)
Fixpoint advance_checked (n : nat) : cmd unit :=
  match n with
  | O => ret tt
  | S n => let~ advanced := call_engine (advance None) in require advanced ;~ advance_checked n
  end.

Definition run_advance : cmd Z :=
  let steps := number "steps" 1 options in
  advance_checked (Z.to_nat steps) ;~
  emit (obj [("ok", JBool true); ("steps", JUint steps)]) ("advanced " ++s decimal steps ++s " step(s)" ++s newline) ;~
  save_and_report.

Definition status_line (id : DrainId) (record : DrainRecord) : string :=
  "drain " ++s decimal id ++s " target=" ++s target_to_string (dr_target record) ++s " state="
  ++s DrainState.to_string (dr_state record) ++s " generation=" ++s decimal (dr_generation record) ++s newline.

(** The answer of [status] for the drains it shows. *)
Definition show_status (drains : list DrainRecord) (text : string) : cmd Z :=
  let~ report := ask audit in
  emit (obj [("ok", JBool true); ("drains", JArray (map drain_record_to_json drains)); ("accounting", accounting_to_json report)])
    (if co_json options then text else text ++s accounting_render report) ;~
  ret 0.

Definition run_status : cmd Z :=
  let wanted := number "drain" 0 options in
  if negb (wanted =? 0) then
    let~ found := ask (Query.drain wanted) in
    let! record := found else (complain "no such drain" ;~ ret 3) in
    show_status [record]
      (status_line wanted record
       ++s String.concat "" (map (λ b, "  blocker: " ++s blocker_render b ++s newline) (dr_blockers record)))
  else
    let~ drains := ask Query.drains in
    show_status drains
      (String.concat "" (map (λ r, status_line (dr_id r) r) drains)
       ++s (if is_nil drains then "no drains" ++s newline else "")).

Definition run_obligations : cmd Z :=
  let~ obligations :=
    if has "target" options then
      let! target := target_parse (get "target" "" options) else misuse "malformed target" in
      ask (Query.outstanding_obligations target)
    else ask Query.obligations in
  emit (obj [("ok", JBool true); ("obligations", JArray (map obligation_to_json obligations))])
    (String.concat "" (map (λ ob,
       obligation_label ob ++s " state=" ++s ObligationState.to_string (ob_state ob) ++s " protection="
       ++s ProtectionClass.to_string (ob_protection ob) ++s " deps=" ++s decimal (zlength (ob_dependencies ob)) ++s newline)
       obligations)) ;~
  ret 0.

Definition run_explain : cmd Z :=
  let wanted := number "drain" 0 options in
  if wanted =? 0 then misuse "explain requires --drain"
  else
    let~ explanation := ask (explain wanted) in
    emit (obj [("ok", JBool (ex_found explanation)); ("explanation", explanation_to_json explanation)])
      (explanation_render explanation) ;~
    ret (if ex_found explanation then 0 else 3).

Definition run_cancel (authority : AuthorityId) : cmd Z :=
  let wanted := number "drain" 0 options in
  if wanted =? 0 then misuse "cancel requires --drain"
  else
    let~ cancelled := call_engine (cancel_drain wanted authority (get "reason" "drainctl cancel" options)) in
    require cancelled ;~
    emit (obj [("ok", JBool true)]) ("drain " ++s decimal wanted ++s " cancelled" ++s newline) ;~
    save_and_report.

Definition run_restore (authority : AuthorityId) : cmd Z :=
  let wanted := number "drain" 0 options in
  if wanted =? 0 then misuse "restore requires --drain"
  else
    let~ restored :=
      call_engine (restore_drain_and_dispatch None wanted authority (get "reason" "drainctl restore" options)) in
    require restored ;~
    advance_times (Z.to_nat (number "steps" 4 options)) ;~
    emit (obj [("ok", JBool true)]) ("drain " ++s decimal wanted ++s " restored" ++s newline) ;~
    save_and_report.

Definition run_audit : cmd Z :=
  let~ report := ask audit in
  emit (accounting_to_json report) (accounting_render report) ;~ ret (if clean report then 0 else 2).

(** The snapshot goes to another file; whether all of it got there is not checked. *)
Definition run_snapshot : cmd Z :=
  let out := get "out" (co_state options ++s ".snapshot.json") options in
  let~ text := ask (λ e, dump 2 (snapshot e)) in
  if cf_unwritable ft out then misuse ("cannot write " ++s out)
  else
    (λ c, let bytes := bytes_of text in
          let d := <[out := match cf_kept ft with Some n => take n bytes | None => bytes end]> (ct_disk c) in
          (inl tt, c <| ct_disk := d |> <| ct_trace := ct_trace c ++ [d] |>)) ;~
    print ("snapshot written to " ++s out ++s " (" ++s decimal (string_length text) ++s " bytes)" ++s newline) ;~
    ret 0.

(** The commands that need a started runtime, in the order they are tried. *)
Definition run_command (authority : AuthorityId) : cmd Z :=
  let named (name : string) : bool := String.eqb (co_command options) name in
  if named "load-topology" then run_load_topology
  else if named "show-topology" then run_show_topology
  else if named "admit" then run_admit authority
  else if named "release" then run_release
  else if named "request" then run_request authority
  else if named "advance" then run_advance
  else if named "status" then run_status
  else if named "obligations" then run_obligations
  else if named "explain" then run_explain
  else if named "cancel" then run_cancel authority
  else if named "restore" then run_restore authority
  else if named "audit" then run_audit
  else if named "snapshot" then run_snapshot
  else complain ("unknown command '" ++s co_command options ++s "'") ;~ print_usage ;~ ret 1.

(** [main] from the parsed options on. *)
Definition ctl_main : cmd Z :=
  let named (name : string) : bool := String.eqb (co_command options) name in
  if co_help options || named "" then
    print_usage ;~ ret (if named "" && negb (co_help options) then 1 else 0)
  else if named "version" then run_version
  else if named "verify" then run_verify
  else if String.eqb (co_state options) "" then misuse "this command requires --state FILE"
  else
    start_runtime ;~
    (if named "init" then run_init
     else
       let~ answer := call_engine (issue_authority "" 3600000000000) in
       let~ token := require answer in
       run_command (at_id token)).
End Commands.

(** A run of the process: its exit code, and everything else. *)
Definition ctl_runtime_options (options : CtlOptions) : RuntimeOptions :=
  MkRuntimeOptions default_policy (co_state options) 0 default_persistence_limits false true.
Definition drainctl (clock : nat → TimePoint) (ft : CtlFaults) (argv : list string) (d : disk) : Z * ctl :=
  let options := parse argv in
  let '(code, c) :=
    ctl_main clock ft options (MkCtl (new_runtime (ctl_runtime_options options)) 0 [] d [d]) in
  (match code with inl code => code | inr code => code end, c).
