(* ===== verification/CommandLine.v ===== *)
(** * Claims about the command line

    A command is a sequence of public operations of the engine between the start of
    the runtime and the save, and refused commands leave the state file alone. *)

From S2P Require Import Prelude Containers Checked Result Text Json Codec CodecTables CodecFabric CodecPolicy Bytes Wire.
From S2P Require Import Identity Lifecycle Obligation Evidence Authority Admission Topology Policy Decision Engine.
From S2P Require Import Snapshot Explain EngineStep EngineOps EngineInv EngineRefine EngineReach ServerFacts Store Runtime Scenario Drainctl.
#[local] Open Scope Z_scope.

(** ** What a command may do *)

(** The operations an operator has. *)
Definition operator_op (o : op) : Prop :=
  match o with
  | OpIssue _ _ | OpAddResource _ | OpAddEdge _ _ | OpAddPath _ | OpAddGroup _ | OpAddPool _ | OpAddRoute _
  | OpReport _ | OpEvidence _ | OpRequestSet _ | OpCancel _ _ _ | OpRestore _ _ _ | OpAdvance => True
  | OpAdmit draft _ _ => obligation_wf draft
  | _ => False
  end.

Lemma operator_op_wf o e : operator_op o → op_wf o e.
Proof. by destruct o. Qed.

(** From one state of the process to a later one: the engine has moved by operations
    an operator has, and nothing but the engine, the clock and the console has
    changed. *)
Record operates (c c' : ctl) : Prop := {
  oo_runtime : ct_runtime c' = ct_runtime c <| rt_engine := rt_engine (ct_runtime c') |>;
  oo_disk : ct_disk c' = ct_disk c;
  oo_calls : ∃ calls, rt_engine (ct_runtime c') = replay calls (rt_engine (ct_runtime c)) ∧
    Forall (λ k, operator_op (ca_op k)) calls;
}.

#[export] Instance operates_preorder : PreOrder operates.
Proof.
  split.
  - intros [[]]. split; try done. by exists [].
  - intros a b c [H1 H2 (k1 & E1 & F1)] [H3 H4 (k2 & E2 & F2)]. split.
    + rewrite H3, H1. by destruct (ct_runtime a).
    + congruence.
    + exists (k1 ++ k2). split; [by rewrite replay_app, E2, E1|by apply Forall_app].
Qed.

#[export] Typeclasses Opaque ret exit bind say print complain misuse ask disk_now runtime_now call_engine print_usage report_error report require emit save_and_report.

Class Operates {A} (m : cmd A) : Prop := operates_run : ∀ c, operates c (m c).2.

#[export] Instance operates_ret {A} (a : A) : Operates (ret a).
Proof. by intros c. Qed.
#[export] Instance operates_exit {A} code : Operates (exit (A := A) code).
Proof. by intros c. Qed.
#[export] Instance operates_bind {A B} (m : cmd A) (k : A → cmd B) :
  Operates m → (∀ a, Operates (k a)) → Operates (bind m k).
Proof.
  intros Hm Hk c. unfold bind. pose proof (Hm c) as H1. destruct (m c) as [[a|code] c1]; [|done]. etrans; [done|apply Hk].
Qed.
#[export] Instance operates_ask {A} (f : engine → A) : Operates (ask f).
Proof. by intros c. Qed.
#[export] Instance operates_disk_now : Operates disk_now.
Proof. by intros c. Qed.
#[export] Instance operates_runtime_now : Operates runtime_now.
Proof. by intros c. Qed.
#[export] Instance operates_say l : Operates (say l).
Proof. intros c. split; [by destruct c as [[]]|done|by exists []]. Qed.
#[export] Instance operates_if {A} (b : bool) (m1 m2 : cmd A) : Operates m1 → Operates m2 → Operates (if b then m1 else m2).
Proof. by destruct b. Qed.
#[export] Instance operates_option {A B} (o : option A) (m1 : A → cmd B) (m2 : cmd B) :
  (∀ a, Operates (m1 a)) → Operates m2 → Operates (match o with Some a => m1 a | None => m2 end).
Proof. by destruct o. Qed.
#[export] Instance operates_result {A B} (r : result A) (m1 : A → cmd B) (m2 : error → cmd B) :
  (∀ a, Operates (m1 a)) → (∀ err, Operates (m2 err)) → Operates (match r with Ok a => m1 a | Err err => m2 err end).
Proof. by destruct r. Qed.
#[export] Instance operates_sum {A A' B} (r : A + A') (m1 : A → cmd B) (m2 : A' → cmd B) :
  (∀ a, Operates (m1 a)) → (∀ a, Operates (m2 a)) → Operates (match r with inl a => m1 a | inr a => m2 a end).
Proof. by destruct r. Qed.

(** A call that runs an operation of the operator's. *)
Class Calls {A} (f : TimePoint → engine → A * engine) : Prop :=
  calls_run : ∀ now e, (f now e).2 = e ∨ ∃ o, operator_op o ∧ (f now e).2 = exec None o now e.

#[export] Instance operates_call {A} clock (f : TimePoint → engine → A * engine) : Calls f → Operates (call_engine clock f).
Proof.
  intros Hf c. unfold call_engine. specialize (Hf (clock (ct_reads c)) (rt_engine (ct_runtime c))).
  destruct (f _ _) as [a e]. cbn [snd] in *. split; [by destruct c as [[]]|done|].
  destruct Hf as [->|(o & Ho & ->)]; [by exists []|]. exists [MkCall None o (clock (ct_reads c))]. split; [done|].
  by constructor.
Qed.

Ltac is_call o := intros ? ?; right; exists o; by split.
#[export] Instance calls_issue scope validity : Calls (issue_authority scope validity).
Proof. is_call (OpIssue scope validity). Qed.
#[export] Instance calls_add_resource n : Calls (en_add_resource n).
Proof. is_call (OpAddResource n). Qed.
#[export] Instance calls_add_edge a b : Calls (en_add_edge a b).
Proof. is_call (OpAddEdge a b). Qed.
#[export] Instance calls_add_path p : Calls (en_add_path p).
Proof. is_call (OpAddPath p). Qed.
#[export] Instance calls_add_group g : Calls (en_add_diversity_group g).
Proof. is_call (OpAddGroup g). Qed.
#[export] Instance calls_add_pool p : Calls (en_add_capacity_pool p).
Proof. is_call (OpAddPool p). Qed.
#[export] Instance calls_add_route r : Calls (en_add_protected_route r).
Proof. is_call (OpAddRoute r). Qed.
#[export] Instance calls_report r : Calls (report_obligation r).
Proof. is_call (OpReport r). Qed.
#[export] Instance calls_evidence d : Calls (record_evidence d).
Proof. is_call (OpEvidence d). Qed.
#[export] Instance calls_request r : Calls (request_drain_set r).
Proof. is_call (OpRequestSet r). Qed.
#[export] Instance calls_cancel id a reason : Calls (cancel_drain id a reason).
Proof. is_call (OpCancel id a reason). Qed.
#[export] Instance calls_restore id a reason : Calls (restore_drain_and_dispatch None id a reason).
Proof. is_call (OpRestore id a reason). Qed.
#[export] Instance calls_advance : Calls (advance None).
Proof. is_call OpAdvance. Qed.
#[export] Instance calls_observe {A} (f : TimePoint → engine → A) : Calls (λ now e, (f now e, e)).
Proof. intros now e. by left. Qed.

(** ** The parts of a command *)

Section Commands.
Context (clock : nat → TimePoint) (ft : CtlFaults) (options : CtlOptions).

#[export] Instance operates_print text : Operates (print text).
Proof. apply operates_say. Qed.
#[export] Instance operates_complain text : Operates (complain text).
Proof. apply operates_say. Qed.
#[export] Instance operates_misuse {A} text : Operates (misuse (A := A) text).
Proof. unfold misuse. apply _. Qed.
#[export] Instance operates_usage : Operates print_usage.
Proof. unfold print_usage. apply _. Qed.
#[export] Instance operates_report_error err : Operates (report_error options err).
Proof. unfold report_error. apply _. Qed.
#[export] Instance operates_require {A} (r : result A) : Operates (require options r).
Proof. unfold require. apply _. Qed.
#[export] Instance operates_emit value text : Operates (emit options value text).
Proof. unfold emit. apply _. Qed.
#[export] Instance operates_read_text path : Operates (read_text ft path).
Proof. unfold read_text. apply _. Qed.
#[export] Instance operates_add_all {A} (add : A → TimePoint → engine → status * engine) l :
  (∀ a, Calls (add a)) → Operates (add_all clock options add l).
Proof. intros Ha. induction l as [|a l IH]; cbn [add_all]; apply _. Qed.
#[export] Instance operates_add_edges entries : Operates (add_edges clock entries).
Proof. induction entries as [|entry entries IH]; cbn [add_edges]; apply _. Qed.
#[export] Instance operates_targets_of text : Operates (targets_of text).
Proof. unfold targets_of. apply _. Qed.
#[export] Instance operates_positional l : Operates (positional_targets l).
Proof. induction l as [|a l IH]; cbn [positional_targets]; apply _. Qed.
#[export] Instance operates_node_of text : Operates (node_of text).
Proof. unfold node_of. apply _. Qed.
#[export] Instance operates_advance_times n : Operates (advance_times clock n).
Proof. induction n as [|n IH]; cbn [advance_times]; apply _. Qed.
#[export] Instance operates_advance_checked n : Operates (advance_checked clock options n).
Proof. induction n as [|n IH]; cbn [advance_checked]; apply _. Qed.
#[export] Instance operates_admit_draft : Operates (admit_draft options).
Proof. unfold admit_draft. apply _. Qed.
#[export] Instance operates_request_of authority : Operates (request_of options authority).
Proof. unfold request_of. apply _. Qed.

(** How a command ends: nothing was written; the state was saved, and the code says
    how that went; or the snapshot went to another file. *)
Inductive finished (c : ctl) (code : Z) (c' : ctl) : Prop :=
  | fin_unsaved : operates c c' → finished c code c'
  | fin_saved c1 saved trace : operates c c1 →
      runtime_save (cf_save ft) (ct_runtime c1) (ct_disk c1) = (saved, ct_runtime c', trace) →
      ct_disk c' = last_disk (ct_disk c1) trace →
      code = match saved with Ok _ => 0 | Err err => exit_code_for (err_code err) end → finished c code c'
  | fin_written c1 out bytes : operates c c1 → co_command options = "snapshot" →
      out = get "out" (co_state options ++s ".snapshot.json") options →
      ct_runtime c' = ct_runtime c1 → ct_disk c' = <[out := bytes]> (ct_disk c1) → code = 0 → finished c code c'.

Definition code_of (r : Z + Z) : Z := match r with inl code => code | inr code => code end.
Class Finishes (m : cmd Z) : Prop := finishes_run : ∀ c, finished c (code_of (m c).1) (m c).2.

Lemma finished_after c c1 code c' : operates c c1 → finished c1 code c' → finished c code c'.
Proof.
  intros H1 [H2|c2 saved trace H2 Hs Hd Hc|c2 out bytes H2 Hn Ho Hr Hd Hc].
  - apply fin_unsaved. by etrans.
  - eapply fin_saved; [by etrans|done..].
  - eapply fin_written; [by etrans|done..].
Qed.

#[export] Instance finishes_bind {A} (m : cmd A) (k : A → cmd Z) :
  Operates m → (∀ a, Finishes (k a)) → Finishes (bind m k).
Proof.
  intros Hm Hk c. unfold bind. pose proof (Hm c) as H1. destruct (m c) as [[a|code] c1]; [|by apply fin_unsaved].
  eapply finished_after; [done|apply Hk].
Qed.
#[export] Instance finishes_operates (m : cmd Z) : Operates m → Finishes m | 20.
Proof. intros Hm c. by apply fin_unsaved. Qed.
#[export] Instance finishes_if (b : bool) (m1 m2 : cmd Z) : Finishes m1 → Finishes m2 → Finishes (if b then m1 else m2).
Proof. by destruct b. Qed.
#[export] Instance finishes_option {A} (o : option A) (m1 : A → cmd Z) (m2 : cmd Z) :
  (∀ a, Finishes (m1 a)) → Finishes m2 → Finishes (match o with Some a => m1 a | None => m2 end).
Proof. by destruct o. Qed.
#[export] Instance finishes_result {A} (r : result A) (m1 : A → cmd Z) (m2 : error → cmd Z) :
  (∀ a, Finishes (m1 a)) → (∀ err, Finishes (m2 err)) → Finishes (match r with Ok a => m1 a | Err err => m2 err end).
Proof. by destruct r. Qed.

#[export] Instance finishes_save : Finishes (save_and_report ft options).
Proof.
  intros c. unfold save_and_report, bind. destruct (runtime_save _ _ _) as [[saved r] trace] eqn:Hs.
  destruct saved as [[]|err]; [|unfold report, report_error; destruct (co_json options)];
    (eapply (fin_saved c _ _ c _ trace); [done|exact Hs|done|done]).
Qed.

(** *** Commands *)

#[export] Instance finishes_version : Finishes run_version.
Proof. unfold run_version. apply _. Qed.
#[export] Instance finishes_verify : Finishes (run_verify ft options).
Proof. unfold run_verify. apply _. Qed.
#[export] Instance finishes_init : Finishes (run_init ft options).
Proof. unfold run_init. apply _. Qed.
#[export] Instance finishes_load_topology : Finishes (run_load_topology clock ft options).
Proof. unfold run_load_topology. apply _. Qed.
#[export] Instance finishes_show_topology : Finishes (run_show_topology options).
Proof. unfold run_show_topology. apply _. Qed.
#[export] Instance finishes_release : Finishes (run_release clock ft options).
Proof. unfold run_release. apply _. Qed.
#[export] Instance finishes_request authority : Finishes (run_request clock ft options authority).
Proof. unfold run_request. apply _. Qed.
#[export] Instance finishes_advance : Finishes (run_advance clock ft options).
Proof. unfold run_advance. apply _. Qed.
#[export] Instance finishes_show_status drains text : Finishes (show_status options drains text).
Proof. unfold show_status. apply _. Qed.
#[export] Instance finishes_status : Finishes (run_status options).
Proof. unfold run_status. apply _. Qed.
#[export] Instance finishes_obligations : Finishes (run_obligations options).
Proof. unfold run_obligations. apply _. Qed.
#[export] Instance finishes_explain : Finishes (run_explain options).
Proof. unfold run_explain. apply _. Qed.
#[export] Instance finishes_cancel authority : Finishes (run_cancel clock ft options authority).
Proof. unfold run_cancel. apply _. Qed.
#[export] Instance finishes_restore authority : Finishes (run_restore clock ft options authority).
Proof. unfold run_restore. apply _. Qed.
#[export] Instance finishes_audit : Finishes (run_audit options).
Proof. unfold run_audit. apply _. Qed.

(** What [admit] describes is an obligation as the constructor and the setters make it. *)
Definition returns {A} (P : A → Prop) (m : cmd A) : Prop := ∀ c a c', m c = (inl a, c') → P a.

Lemma returns_bind {A B} (P : B → Prop) (m : cmd A) (k : A → cmd B) : (∀ a, returns P (k a)) → returns P (bind m k).
Proof. intros Hk c b c'. unfold bind. destruct (m c) as [[a|code] c1]; [apply Hk|done]. Qed.
Lemma returns_ret {A} (P : A → Prop) a : P a → returns P (ret a).
Proof. by intros Ha c a' c' [= <- _]. Qed.
Lemma returns_misuse {A} (P : A → Prop) text : returns P (misuse text).
Proof. by intros c a c'. Qed.

Lemma admit_draft_wf : returns obligation_wf (admit_draft options).
Proof.
  unfold admit_draft. cbv zeta. destruct (_ || _); [apply returns_misuse|].
  destruct (slug_parse _) as [holder|]; [|apply returns_misuse].
  destruct (obligation_kind_from_string _) as [kind|]; [|apply returns_misuse]. apply returns_bind. intros dependencies.
  destruct (protection_class_from_string _) as [protection|]; [|apply returns_misuse].
  pose proof (new_obligation_wf kind holder dependencies) as Hwf.
  assert (∀ g, obligation_wf (new_obligation kind holder dependencies <| ob_protection := protection |> <| ob_grace := g |>)) as H1 by done.
  assert (∀ d : Obligation, ∀ v, obligation_wf d → obligation_wf (d <| ob_capacity := v |>)) as H2 by done.
  set (d0 := new_obligation _ _ _ <| ob_protection := _ |>).
  assert (obligation_wf (if has "grace-ns" options then d0 <| ob_grace := wrap i64 (number "grace-ns" 0 options) |> else d0)) as H3 by (by case_step).
  set (d1 := if has "grace-ns" options then _ else d0) in *. set (d2 := if has "capacity" options then _ else d1).
  assert (obligation_wf d2) as H4 by (unfold d2; case_step; auto).
  destruct (has "group" options); [|by apply returns_ret]. destruct (slug_parse _); [by apply returns_ret|apply returns_misuse].
Qed.

Lemma finishes_bind_returns {A} (P : A → Prop) (m : cmd A) (k : A → cmd Z) :
  Operates m → returns P m → (∀ a, P a → Finishes (k a)) → Finishes (bind m k).
Proof.
  intros Hm Hp Hk c. unfold bind. pose proof (Hm c) as H1. specialize (Hp c). destruct (m c) as [[a|code] c1]; [|by apply fin_unsaved].
  eapply finished_after; [done|]. apply Hk. by eapply Hp.
Qed.

#[export] Instance finishes_admit authority : Finishes (run_admit clock ft options authority).
Proof.
  unfold run_admit. apply (finishes_bind_returns obligation_wf); [apply _|apply admit_draft_wf|]. intros draft Hd.
  assert (Calls (admit_obligation draft (number "generation" 0 options) authority)) as Hc.
  { intros now e. right. by exists (OpAdmit draft (number "generation" 0 options) authority). }
  apply _.
Qed.

Lemma finishes_snapshot : co_command options = "snapshot" → Finishes (run_snapshot ft options).
Proof.
  intros Hn. unfold run_snapshot. cbv zeta. apply finishes_bind; [apply _|]. intros text.
  destruct (cf_unwritable ft _); [apply _|]. intros c.
  eapply (fin_written c _ _ c); [done|done|reflexivity|reflexivity|reflexivity|reflexivity].
Qed.

Lemma finishes_named name (m1 m2 : cmd Z) :
  (co_command options = name → Finishes m1) → Finishes m2 → Finishes (if String.eqb (co_command options) name then m1 else m2).
Proof. intros H1 H2. destruct (String.eqb_spec (co_command options) name); auto. Qed.

#[export] Instance finishes_command authority : Finishes (run_command clock ft options authority).
Proof. unfold run_command. cbv zeta. repeat (apply finishes_named; [intros ?; first [by apply finishes_snapshot|apply _]|]). apply _. Qed.

(** The runtime and the disk that the operations of a command start from: those of a
    process that has not started its runtime, or what the start left. *)
Definition begins (d : disk) (r0 : Runtime) (d0 : disk) : Prop :=
  let r := new_runtime (ctl_runtime_options options) in
  (r0 = r ∧ d0 = d) ∨
  ∃ st trace, runtime_start (cf_boot ft) (clock 0) r d = (st, r0, trace) ∧ d0 = last_disk d trace.

Lemma main_finishes d :
  let c := MkCtl (new_runtime (ctl_runtime_options options)) 0 [] d [d] in
  let '(code, c') := ctl_main clock ft options c in
  ∃ c0, begins d (ct_runtime c0) (ct_disk c0) ∧ finished c0 (code_of code) c'.
Proof.
  intros c. assert (∀ m : cmd Z, Finishes m → let '(code, c') := m c in
    ∃ c0, begins d (ct_runtime c0) (ct_disk c0) ∧ finished c0 (code_of code) c') as Hq.
  { intros m Hm. specialize (Hm c). destruct (m c) as [code c']. exists c. split; [by left|done]. }
  unfold ctl_main. cbv zeta. destruct (_ || _); [apply Hq, _|]. destruct (String.eqb _ "version"); [apply Hq, _|].
  destruct (String.eqb _ "verify"); [apply Hq, _|]. destruct (String.eqb _ ""); [apply Hq, _|].
  set (k := if String.eqb (co_command options) "init" then _ else _). assert (Finishes k) as Hk by (unfold k; apply _). clearbody k.
  unfold bind at 1. unfold start_runtime, bind at 1.
  destruct (runtime_start _ _ _ _) as [[st r0] trace] eqn:Hs.
  set (c1 := c <| ct_reads := _ |> <| ct_runtime := _ |> <| ct_disk := _ |> <| ct_trace := _ |>).
  assert (Finishes (bind (require options st) (λ _, k))) as Hf by apply _. specialize (Hf c1). unfold bind in Hf.
  destruct (require options st c1) as [[[]|code] c2]; [destruct (k c2) as [code c3]|];
    (exists c1; split; [right; by exists st, trace|done]).
Qed.
End Commands.

(** C22: the command line uses the public operations.  Whatever the arguments, the
    clock and the calls that fail, a command brings the engine its runtime started
    with to another by operations an operator has, and nothing else; it leaves the
    disk as the start left it, or saves exactly that engine and answers with the code
    of the save, or writes the file of [snapshot].  So a command that is refused, by
    its arguments or by the engine, changes no state file, and while the counters have
    room the saved engine is reachable from the started one. *)
Theorem commands_use_the_operations clock ft argv d code c :
  drainctl clock ft argv d = (code, c) →
  ∃ r0 d0 r1 calls, begins clock ft (parse argv) d r0 d0 ∧
    rt_engine r1 = replay calls (rt_engine r0) ∧ Forall (λ k, operator_op (ca_op k)) calls ∧
    (roomy calls (rt_engine r0) → history any_op (rt_engine r0) (rt_engine r1)) ∧
    (ct_runtime c = r1 ∧ ct_disk c = d0 ∨
     (∃ saved trace, runtime_save (cf_save ft) r1 d0 = (saved, ct_runtime c, trace) ∧ ct_disk c = last_disk d0 trace ∧
        code = match saved with Ok _ => 0 | Err err => exit_code_for (err_code err) end) ∨
     (∃ bytes, co_command (parse argv) = "snapshot" ∧ code = 0 ∧ ct_runtime c = r1 ∧
        ct_disk c = <[get "out" (co_state (parse argv) ++s ".snapshot.json") (parse argv) := bytes]> d0)).
Proof.
  unfold drainctl. pose proof (main_finishes clock ft (parse argv) d) as Hm. cbv zeta in *.
  destruct (ctl_main _ _ _ _) as [res c']. intros [= <- <-]. destruct Hm as (c0 & Hb & Hf).
  assert (∃ c1 calls, rt_engine (ct_runtime c1) = replay calls (rt_engine (ct_runtime c0)) ∧
    Forall (λ k, operator_op (ca_op k)) calls ∧ ct_disk c1 = ct_disk c0 ∧
    (ct_runtime c' = ct_runtime c1 ∧ ct_disk c' = ct_disk c0 ∨
     (∃ saved trace, runtime_save (cf_save ft) (ct_runtime c1) (ct_disk c0) = (saved, ct_runtime c', trace) ∧
        ct_disk c' = last_disk (ct_disk c0) trace ∧
        code_of res = match saved with Ok _ => 0 | Err err => exit_code_for (err_code err) end) ∨
     (∃ bytes, co_command (parse argv) = "snapshot" ∧ code_of res = 0 ∧ ct_runtime c' = ct_runtime c1 ∧
        ct_disk c' = <[get "out" (co_state (parse argv) ++s ".snapshot.json") (parse argv) := bytes]> (ct_disk c0))))
    as (c1 & calls & E & F & _ & Hend).
  { destruct Hf as [[_ Hd (calls & E & F)]|c1 saved trace [_ Hd (calls & E & F)] Hs Ht Hc|c1 out bytes [_ Hd (calls & E & F)] Hn -> Hr Ht Hc].
    - exists c', calls. split_and!; try done. by left.
    - exists c1, calls. rewrite Hd in Hs, Ht. split_and!; try done. right; left. by exists saved, trace.
    - exists c1, calls. rewrite Hd in Ht. split_and!; try done. right; right. by exists bytes. }
  exists (ct_runtime c0), (ct_disk c0), (ct_runtime c1), calls. split_and!; try done.
  intros Hroom. rewrite E. apply replay_wf_history; [|done]. eapply Forall_impl; [exact F|]. intros k Hk e. by apply operator_op_wf.
Qed.

(** ** A session at the command line *)

Definition seconds (n : nat) : TimePoint := Z.of_nat (S n) * Demo.second.
Definition fabric_disk : disk :=
  <["fabric.json" := bytes_of (dump 2 (topology_to_json (en_topology Demo.requested_engine)))]> ∅.
Definition at_prompt (d : disk) (argv : list string) : Z * ctl := drainctl seconds no_ctl_faults ("--state" :: "s" :: argv) d.

Definition initialised : disk := Eval vm_compute in ct_disk (at_prompt fabric_disk ["init"]).2.
Definition loaded_disk : disk :=
  Eval vm_compute in ct_disk (at_prompt initialised ["load-topology"; "--file"; "fabric.json"]).2.
Definition admitted_disk : disk :=
  Eval vm_compute in ct_disk (at_prompt loaded_disk ["admit"; "--holder"; "h1"; "--deps=port:port-a@rack-1"]).2.

(** Each command succeeds and the next one finds what it saved. *)
Example session_codes :
  map (λ p : disk * list string, (at_prompt p.1 p.2).1)
    [(fabric_disk, ["init"]); (initialised, ["load-topology"; "--file"; "fabric.json"]);
     (loaded_disk, ["admit"; "--holder"; "h1"; "--deps=port:port-a@rack-1"]); (admitted_disk, ["request"; "port:port-b@rack-1"]);
     (admitted_disk, ["status"; "--drain"; "9"]); (admitted_disk, ["cancel"; "--drain"; "9"]); (admitted_disk, ["audit"]);
     (admitted_disk, ["nonsense"]); (admitted_disk, ["verify"])] = [0; 0; 0; 0; 3; 3; 0; 1; 0] ∧
  map ob_id (ot_all (en_obligations (rt_engine (ct_runtime (at_prompt admitted_disk ["audit"]).2)))) = [1].
Proof. vm_compute. done. Qed.

Lemma commands_use_the_operations_witness :
  let c := (at_prompt loaded_disk ["request"; "port:port-b@rack-1"]).2 in
  ∃ r0 d0 r1 calls,
    begins seconds no_ctl_faults (parse ["--state"; "s"; "request"; "port:port-b@rack-1"]) loaded_disk r0 d0 ∧
    rt_engine r1 = replay calls (rt_engine r0) ∧ Forall (λ k, operator_op (ca_op k)) calls ∧
    (roomy calls (rt_engine r0) → history any_op (rt_engine r0) (rt_engine r1)) ∧
    (ct_runtime c = r1 ∧ ct_disk c = d0 ∨
     (∃ saved trace, runtime_save no_faults r1 d0 = (saved, ct_runtime c, trace) ∧ ct_disk c = last_disk d0 trace ∧
        0 = match saved with Ok _ => 0 | Err err => exit_code_for (err_code err) end) ∨
     (∃ bytes, co_command (parse ["--state"; "s"; "request"; "port:port-b@rack-1"]) = "snapshot" ∧ 0 = 0 ∧ ct_runtime c = r1 ∧
        ct_disk c = <[get "out" (co_state (parse ["--state"; "s"; "request"; "port:port-b@rack-1"]) ++s ".snapshot.json")
                        (parse ["--state"; "s"; "request"; "port:port-b@rack-1"]) := bytes]> d0)).
Proof.
  intros c. apply (commands_use_the_operations seconds no_ctl_faults ["--state"; "s"; "request"; "port:port-b@rack-1"] loaded_disk 0 c).
  unfold c, at_prompt. vm_compute. reflexivity.
Defined.

(** A repeated option replaces the earlier one, so only the last target of several is
    requested; and [--json] is a switch wherever it appears, so the document after it
    is never read. *)
Example last_target_only :
  let argv := ["request"; "--target"; "port:port-a@rack-1"; "--target"; "port:port-b@rack-1"] in
  map dr_target (om_values (en_drains (rt_engine (ct_runtime (at_prompt loaded_disk argv).2)))) = [Demo.port_b].
Proof. vm_compute. done. Qed.
Example document_on_the_command_line :
  (at_prompt initialised ["load-topology"; "--json"; dump 0 (topology_to_json (en_topology Demo.requested_engine))]).1 = 1.
Proof. vm_compute. done. Qed.

(** A number that does not fit wraps. *)
Example number_wraps : number "drain" 0 (parse ["cancel"; "--drain"; "18446744073709551617"]) = 1.
Proof. vm_compute. done. Qed.
