(* ===== verification/Daemon.v ===== *)
(** * The daemon and the agent process

    [tools/drainfabricd.cpp] and [tools/drainagent.cpp]: their arguments, and [main]
    from start to exit.  Signals are a sequence: whether [g_stop] is set the [n]-th
    time it is looked at; with polling workers they are turns of the schedule that
    interleaves the threads.  An uncaught exception of [std::stoull] ends the process. *)

From Stdlib Require Import Ascii.
From S2P Require Import Prelude Containers Checked Result Text Json Codec CodecTables CodecFabric CodecPolicy Bytes Wire.
From S2P Require Import Identity Lifecycle Obligation Evidence Authority Admission Topology Policy Decision Engine.
From S2P Require Import Snapshot Explain EngineStep EngineOps Store Runtime Server Workers Client Drainctl.
#[local] Open Scope Z_scope.

(** ** Arguments *)

(** How far a part of [main] got. *)
Inductive outcome (A : Type) : Type :=
  | Proceed (a : A)
  | Ended (code : Z) (lines : list line)
  | Threw.
Arguments Proceed {A}.
Arguments Ended {A}.
Arguments Threw {A}.

Definition complaint (text : string) : line := Stderr ("error: " ++s text ++s newline).
Definition missing {A} (name : string) : outcome A := Ended 1 [complaint (name ++s " requires a value")].

(** [std::stoull] in base ten: blanks, a sign, digits; what follows them is ignored. *)
Definition is_blank (c : ascii) : bool := (char_code c =? 32) || ((9 <=? char_code c) && (char_code c <=? 13)).
Fixpoint skip_blanks (text : string) : string :=
  match text with String c rest => if is_blank c then skip_blanks rest else text | EmptyString => text end.
Fixpoint magnitude (value : Z) (text : string) : Z :=
  match text with String c rest => if is_digit c then magnitude (value * 10 + (char_code c - 48)) rest else value | EmptyString => value end.
Definition stoull (text : string) : option Z :=
  let text := skip_blanks text in
  let '(negative, text) :=
    match text with
    | String c rest => if Ascii.eqb c "-"%char then (true, rest) else if Ascii.eqb c "+"%char then (false, rest) else (false, text)
    | EmptyString => (false, text)
    end in
  match text with
  | String c _ =>
      if is_digit c then
        let value := magnitude 0 text in
        if int_max u64 <? value then None else Some (if negative then wrap u64 (- value) else value)
      else None
  | EmptyString => None
  end.

(** The text before and after the last colon. *)
Fixpoint cut_last (text : string) : option (string * string) :=
  match text with
  | EmptyString => None
  | String c rest =>
      match cut_last rest with
      | Some (a, b) => Some (String c a, b)
      | None => if Ascii.eqb c ":"%char then Some ("", rest) else None
      end
  end.

(** The loop over the digits of a port. *)
Fixpoint read_port (value : Z) (digits : string) : option Z :=
  match digits with
  | EmptyString => Some value
  | String c digits =>
      if negb (is_digit c) then None
      else
        let value := wrap u32 (wrap u32 (value * 10) + (char_code c - 48)) in
        if 65535 <? value then None else read_port value digits
  end.

(** [parse_bind] and [parse_endpoint], which are the same function. *)
Definition parse_endpoint (text : string) : option (string * Z) :=
  let! (host, port_text) := cut_last text else None in
  if String.eqb port_text "" then None
  else
    let! port := read_port 0 port_text else None in
    Some (host, wrap u16 port).

(** [read_file]: a file that cannot be opened reads as empty. *)
Definition file_text (unreadable : string → bool) (path : string) (d : disk) : string :=
  if unreadable path then "" else default "" (text_of <$> d !! path).

(** [std::ofstream] with [trunc]: nothing is checked. *)
Definition write_text (unwritable : string → bool) (path text : string) (d : disk) : disk :=
  if unwritable path then d else <[path := bytes_of text]> d.

(** ** [drainfabricd] *)

Record DaemonOptions := MkDaemonOptions {
  do_host : string;
  do_port : Z;
  do_state : string;
  do_ready_file : string;
  do_policy_file : string;
  do_topology_file : string;
  do_bind : string;
  do_exit_after_requests : Z;
  do_workers : Z;
  do_once : bool;
  do_load_topology : bool;
}.
Definition default_daemon_options : DaemonOptions := MkDaemonOptions "127.0.0.1" 0 "" "" "" "" "" 0 0 false true.

#[export] Instance eta_DaemonOptions : Eta DaemonOptions := λ o,
  MkDaemonOptions (do_host o) (do_port o) (do_state o) (do_ready_file o) (do_policy_file o) (do_topology_file o) (do_bind o)
    (do_exit_after_requests o) (do_workers o) (do_once o) (do_load_topology o).
#[export] Instance upd_do_host : Update do_host := ltac:(solve_update do_host).
#[export] Instance upd_do_port : Update do_port := ltac:(solve_update do_port).
#[export] Instance upd_do_state : Update do_state := ltac:(solve_update do_state).
#[export] Instance upd_do_ready_file : Update do_ready_file := ltac:(solve_update do_ready_file).
#[export] Instance upd_do_policy_file : Update do_policy_file := ltac:(solve_update do_policy_file).
#[export] Instance upd_do_topology_file : Update do_topology_file := ltac:(solve_update do_topology_file).
#[export] Instance upd_do_bind : Update do_bind := ltac:(solve_update do_bind).
#[export] Instance upd_do_exit_after_requests : Update do_exit_after_requests := ltac:(solve_update do_exit_after_requests).
#[export] Instance upd_do_workers : Update do_workers := ltac:(solve_update do_workers).
#[export] Instance upd_do_once : Update do_once := ltac:(solve_update do_once).
#[export] Instance upd_do_load_topology : Update do_load_topology := ltac:(solve_update do_load_topology).
Arguments upd_do_host f r /.
Arguments upd_do_port f r /.
Arguments upd_do_state f r /.
Arguments upd_do_ready_file f r /.
Arguments upd_do_policy_file f r /.
Arguments upd_do_topology_file f r /.
Arguments upd_do_bind f r /.
Arguments upd_do_exit_after_requests f r /.
Arguments upd_do_workers f r /.
Arguments upd_do_once f r /.
Arguments upd_do_load_topology f r /.

Definition daemon_usage : list string :=
  ["drainfabricd " ++s version_string ++s " -- Drain Fabric controller daemon";
   "";
   "usage: drainfabricd --state FILE [options]";
   "";
   "  --listen HOST:PORT        bind address (default 127.0.0.1:0, ephemeral port)";
   "  --state FILE              persistent state path (required)";
   "  --ready-file FILE         written once the listener is up, contains port=N";
   "  --policy FILE             policy document applied at start";
   "  --topology FILE           topology document applied at start";
   "  --no-topology             do not re-apply the topology document";
   "  --exit-after-requests N   stop after serving N requests (0 = until shutdown)";
   "  --workers N               run N polling workers instead of one loop";
   "  --once                    serve exactly one scheduling step and exit";
   "  --version                 print the version"].
Definition usage_text (lines : list string) : line := Stdout (String.concat newline lines ++s newline).
Definition unknown_argument {A} (argument : string) (usage : list string) : outcome A :=
  Ended 1 [complaint ("unknown argument '" ++s argument ++s "'"); usage_text usage].

(** The loop over the arguments. *)
Fixpoint daemon_arguments (argv : list string) (o : DaemonOptions) : outcome DaemonOptions :=
  match argv with
  | [] => Proceed o
  | argument :: argv =>
      let named (name : string) : bool := String.eqb argument name in
      if named "--help" || named "-h" then Ended 0 [usage_text daemon_usage]
      else if named "--version" then Ended 0 [Stdout ("drainfabricd " ++s version_string ++s newline)]
      else if named "--listen" then
        match argv with value :: argv => daemon_arguments argv (o <| do_bind := value |>) | [] => missing argument end
      else if named "--state" then
        match argv with value :: argv => daemon_arguments argv (o <| do_state := value |>) | [] => missing argument end
      else if named "--ready-file" then
        match argv with value :: argv => daemon_arguments argv (o <| do_ready_file := value |>) | [] => missing argument end
      else if named "--policy" then
        match argv with value :: argv => daemon_arguments argv (o <| do_policy_file := value |>) | [] => missing argument end
      else if named "--topology" then
        match argv with value :: argv => daemon_arguments argv (o <| do_topology_file := value |>) | [] => missing argument end
      else if named "--no-topology" then daemon_arguments argv (o <| do_load_topology := false |>)
      else if named "--exit-after-requests" then
        match argv with
        | value :: argv =>
            match stoull value with
            | Some n => daemon_arguments argv (o <| do_exit_after_requests := n |>)
            | None => Threw
            end
        | [] => missing argument
        end
      else if named "--workers" then
        match argv with
        | value :: argv =>
            match stoull value with
            | Some n => daemon_arguments argv (o <| do_workers := n |>)
            | None => Threw
            end
        | [] => missing argument
        end
      else if named "--once" then daemon_arguments argv (o <| do_once := true |>)
      else unknown_argument argument daemon_usage
  end.

(** The checks after it. *)
Definition daemon_options (argv : list string) : outcome DaemonOptions :=
  match daemon_arguments argv default_daemon_options with
  | Proceed o =>
      if String.eqb (do_state o) "" then Ended 1 [complaint "--state is required"]
      else if String.eqb (do_bind o) "" then Proceed o
      else
        match parse_endpoint (do_bind o) with
        | Some (host, port) => Proceed (o <| do_host := host |> <| do_port := port |>)
        | None => Ended 1 [complaint "--listen expects HOST:PORT"]
        end
  | other => other
  end.

(** The policy document, when one is named. *)
Definition daemon_policy (unreadable : string → bool) (o : DaemonOptions) (d : disk) : outcome DrainPolicy :=
  if String.eqb (do_policy_file o) "" then Proceed default_policy
  else
    let text := file_text unreadable (do_policy_file o) d in
    if String.eqb text "" then Ended 1 [complaint "cannot read the policy document"]
    else
      match json_parsed default_limits text with
      | Err _ => Ended 1 [complaint "policy document is not valid json"]
      | Ok parsed =>
          match policy_from_json parsed with
          | Err err => Ended 1 [complaint ("policy rejected: " ++s err_message err)]
          | Ok policy => Proceed policy
          end
      end.

(** One call for each of a list, whatever it answers; the clock is read for each. *)
Definition feed {A} (clock : nat → TimePoint) (add : A → TimePoint → engine → status * engine) (l : list A) (s : engine * nat)
  : engine * nat :=
  foldl (λ s a, ((add a (clock s.2) s.1).2, S s.2)) s l.

(** The edges of the document whose ends are identifiers. *)
Definition document_edges (document : json) : list (ResourceId * ResourceId) :=
  match json_find "edges" document with
  | Some (JArray entries) =>
      base.omap (λ entry,
        match slug_parse (get_string "from" "" entry), slug_parse (get_string "to" "" entry) with
        | Some from, Some to => Some (from, to)
        | _, _ => None
        end) entries
  | _ => []
  end.

(** The topology document, applied to the engine. *)
Definition daemon_topology (clock : nat → TimePoint) (unreadable : string → bool) (o : DaemonOptions) (d : disk) (s : engine * nat)
  : outcome (engine * nat) :=
  if do_load_topology o && negb (String.eqb (do_topology_file o) "") then
    match json_parsed default_limits (file_text unreadable (do_topology_file o) d) with
    | Err _ => Ended 1 [complaint "topology document is not valid json"]
    | Ok parsed =>
        match topology_load_from_json parsed with
        | Err err => Ended 1 [complaint ("topology rejected: " ++s err_message err)]
        | Ok topology =>
            let s := feed clock en_add_resource (om_values (to_resources topology)) s in
            let s := feed clock en_add_path (om_values (to_paths topology)) s in
            let s := feed clock (λ edge, en_add_edge edge.1 edge.2) (document_edges parsed) s in
            let s := feed clock en_add_diversity_group (om_values (to_diversity_groups topology)) s in
            let s := feed clock en_add_capacity_pool (om_values (to_capacity_pools topology)) s in
            Proceed (feed clock en_add_protected_route (to_protected_routes topology) s)
        end
    end
  else Proceed s.

Section Daemon.
Context {S L : Type} (sock : SocketOps S) (lsn : ListenerOps S L).
Context (clock : nat → TimePoint) (contended : nat → bool) (signalled : nat → bool) (turns : list turn_of).
Context (unreadable unwritable : string → bool) (bf : BootFaults) (sf : Faults) (startup : status).

(** The loop that polls: it ends on a signal, on the budget, or when a poll fails. *)
Fixpoint daemon_loop (clock : nat → TimePoint) (fuel looks : nat) (budget : Z) (served : status) (v : server S L)
  : option (status * server S L) :=
  match fuel with
  | O => None
  | Datatypes.S fuel =>
      if signalled looks then Some (served, v)
      else if negb (budget =? 0) && (budget <=? sv_served_requests v) then Some (served, v)
      else
        match poll_once sock lsn clock contended v with
        | (Err err, v) => Some (Err err, v)
        | (Ok _, v) => daemon_loop clock fuel (Datatypes.S looks) budget ok_status v
        end
  end.

(** What the process did by the time it ended: its exit code ([None] after an
    exception), what it printed, the engine, and the disk. *)
Record daemon_run := MkDaemonRun {
  dn_code : option Z;
  dn_lines : list line;
  dn_runtime : Runtime;
  dn_disk : disk;
}.

(** [main] once the server listens: serving, the server's stop (that of [run_workers]
    when there are workers), then the final save.  [None] when the fuel or the schedule
    ends first. *)
Definition daemon_serve (fuel : nat) (o : DaemonOptions) (first_read : nat) (lines : list line) (r : Runtime) (v : server S L)
    (d : disk) : option daemon_run :=
  let server_clock (n : nat) : TimePoint := clock (first_read + n)%nat in
  let stopped (s : status * server S L) : status * server S L := (s.1, (server_stop sock lsn s.2).2) in
  let served :=
    if do_once o then Some (stopped (poll_once sock lsn server_clock contended v))
    else if 0 <? do_workers o then run_workers sock lsn server_clock (do_exit_after_requests o) (do_workers o) turns v
    else stopped <$> daemon_loop server_clock fuel 0 (do_exit_after_requests o) ok_status v in
  match served with
  | None => None
  | Some (served, v) =>
      let r := r <| rt_engine := sv_engine v |> in
      let '(saved, r, trace) := runtime_stop sf (clock (first_read + sv_reads v)%nat) r d in
      let d := last_disk d trace in
      match saved with
      | Err err =>
          Some (MkDaemonRun (Some 1) (lines ++ [complaint ("final save failed: " ++s error_to_string err)]) r d)
      | Ok _ =>
          Some (MkDaemonRun (Some (if is_ok served then 0 else 1))
                  (lines ++ [Stdout ("drainfabricd stopped after " ++s decimal (sv_served_requests v) ++s " request(s)" ++s newline)])
                  r d)
      end
  end.

Definition ready_text (port : Z) (incarnation : IncarnationId) : string :=
  "port=" ++s decimal port ++s newline ++s "incarnation=" ++s decimal incarnation ++s newline.

(** [main]. *)
Definition drainfabricd (fuel : nat) (argv : list string) (d : disk) : option daemon_run :=
  let idle := new_runtime (MkRuntimeOptions default_policy "" 0 default_persistence_limits false true) in
  let ended (code : option Z) (lines : list line) (r : Runtime) (d : disk) := Some (MkDaemonRun code lines r d) in
  match daemon_options argv with
  | Threw => ended None [] idle d
  | Ended code lines => ended (Some code) lines idle d
  | Proceed o =>
      match startup with
      | Err err => ended (Some 1) [complaint (error_to_string err)] idle d
      | Ok _ =>
          match daemon_policy unreadable o d with
          | Threw => ended None [] idle d
          | Ended code lines => ended (Some code) lines idle d
          | Proceed policy =>
              let r := new_runtime (MkRuntimeOptions policy (do_state o) 0 default_persistence_limits
                                      (negb (String.eqb (do_policy_file o) "")) true) in
              let '(boot, r, trace) := runtime_start bf (clock 0%nat) r d in
              let d := last_disk d trace in
              match boot with
              | Err err => ended (Some 1) [complaint ("runtime start failed: " ++s error_to_string err)] r d
              | Ok _ =>
                  match daemon_topology clock unreadable o d (rt_engine r, 1%nat) with
                  | Threw => ended None [] r d
                  | Ended code lines => ended (Some code) lines r d
                  | Proceed (e, reads) =>
                      let r := r <| rt_engine := e |> in
                      let options := MkServerOptions (do_host o) (do_port o) 16 4 256 kMaxFramePayloadBytes 20 20 3600000000000 in
                      match server_start lsn (new_server e options true) with
                      | (Err err, _) => ended (Some 1) [complaint (error_to_string err)] r d
                      | (Ok _, v) =>
                          let d := if String.eqb (do_ready_file o) "" then d
                                   else write_text unwritable (do_ready_file o) (ready_text (sv_port v) (rt_incarnation r)) d in
                          let hello := Stdout ("drainfabricd listening on " ++s do_host o ++s ":" ++s decimal (sv_port v)
                                               ++s " incarnation=" ++s decimal (rt_incarnation r) ++s newline) in
                          daemon_serve fuel o reads [hello] r v d
                      end
                  end
              end
          end
      end
  end.
End Daemon.

(** ** [drainagent] *)

Record AgentArguments := MkAgentArguments {
  aa_host : string;
  aa_port : Z;
  aa_connect : string;
  aa_node : string;
  aa_obligations_file : string;
  aa_ready_file : string;
  aa_exit_after : Z;
  aa_connect_attempts : Z;
  aa_fail_evacuations : bool;
  aa_ignore_evacuations : bool;
}.
Definition default_agent_arguments : AgentArguments := MkAgentArguments "127.0.0.1" 0 "" "agent" "" "" 1 200 false false.

#[export] Instance eta_AgentArguments : Eta AgentArguments := λ a,
  MkAgentArguments (aa_host a) (aa_port a) (aa_connect a) (aa_node a) (aa_obligations_file a) (aa_ready_file a)
    (aa_exit_after a) (aa_connect_attempts a) (aa_fail_evacuations a) (aa_ignore_evacuations a).
#[export] Instance upd_aa_host : Update aa_host := ltac:(solve_update aa_host).
#[export] Instance upd_aa_port : Update aa_port := ltac:(solve_update aa_port).
#[export] Instance upd_aa_connect : Update aa_connect := ltac:(solve_update aa_connect).
#[export] Instance upd_aa_node : Update aa_node := ltac:(solve_update aa_node).
#[export] Instance upd_aa_obligations_file : Update aa_obligations_file := ltac:(solve_update aa_obligations_file).
#[export] Instance upd_aa_ready_file : Update aa_ready_file := ltac:(solve_update aa_ready_file).
#[export] Instance upd_aa_exit_after : Update aa_exit_after := ltac:(solve_update aa_exit_after).
#[export] Instance upd_aa_connect_attempts : Update aa_connect_attempts := ltac:(solve_update aa_connect_attempts).
#[export] Instance upd_aa_fail_evacuations : Update aa_fail_evacuations := ltac:(solve_update aa_fail_evacuations).
#[export] Instance upd_aa_ignore_evacuations : Update aa_ignore_evacuations := ltac:(solve_update aa_ignore_evacuations).
Arguments upd_aa_host f r /.
Arguments upd_aa_port f r /.
Arguments upd_aa_connect f r /.
Arguments upd_aa_node f r /.
Arguments upd_aa_obligations_file f r /.
Arguments upd_aa_ready_file f r /.
Arguments upd_aa_exit_after f r /.
Arguments upd_aa_connect_attempts f r /.
Arguments upd_aa_fail_evacuations f r /.
Arguments upd_aa_ignore_evacuations f r /.

Definition agent_usage : list string :=
  ["drainagent " ++s version_string ++s " -- Drain Fabric node agent";
   "";
   "usage: drainagent --connect HOST:PORT [options]";
   "";
   "  --connect HOST:PORT        controller endpoint (required)";
   "  --node ID                  node identity reported at handshake";
   "  --obligations FILE         json array of obligations this node holds";
   "  --ready-file FILE          written once registration completes";
   "  --exit-after N             exit after answering N evacuation requests (0 = never)";
   "  --connect-attempts N       bounded connect retries before giving up";
   "  --fail                     report evacuation failure instead of releasing";
   "  --ignore                   acknowledge requests without releasing";
   "  --version                  print the version"].

Fixpoint agent_arguments (argv : list string) (a : AgentArguments) : outcome AgentArguments :=
  match argv with
  | [] => Proceed a
  | argument :: argv =>
      let named (name : string) : bool := String.eqb argument name in
      if named "--help" || named "-h" then Ended 0 [usage_text agent_usage]
      else if named "--version" then Ended 0 [Stdout ("drainagent " ++s version_string ++s newline)]
      else if named "--connect" then
        match argv with value :: argv => agent_arguments argv (a <| aa_connect := value |>) | [] => missing argument end
      else if named "--node" then
        match argv with value :: argv => agent_arguments argv (a <| aa_node := value |>) | [] => missing argument end
      else if named "--obligations" then
        match argv with value :: argv => agent_arguments argv (a <| aa_obligations_file := value |>) | [] => missing argument end
      else if named "--ready-file" then
        match argv with value :: argv => agent_arguments argv (a <| aa_ready_file := value |>) | [] => missing argument end
      else if named "--exit-after" then
        match argv with
        | value :: argv =>
            match stoull value with Some n => agent_arguments argv (a <| aa_exit_after := n |>) | None => Threw end
        | [] => missing argument
        end
      else if named "--connect-attempts" then
        match argv with
        | value :: argv =>
            match stoull value with Some n => agent_arguments argv (a <| aa_connect_attempts := n |>) | None => Threw end
        | [] => missing argument
        end
      else if named "--fail" then agent_arguments argv (a <| aa_fail_evacuations := true |>)
      else if named "--ignore" then agent_arguments argv (a <| aa_ignore_evacuations := true |>)
      else unknown_argument argument agent_usage
  end.

Definition agent_options_of (argv : list string) : outcome AgentArguments :=
  match agent_arguments argv default_agent_arguments with
  | Proceed a =>
      let refused := Ended 1 [complaint "--connect HOST:PORT is required"] in
      if String.eqb (aa_connect a) "" then refused
      else
        match parse_endpoint (aa_connect a) with
        | Some (host, port) => Proceed (a <| aa_host := host |> <| aa_port := port |>)
        | None => refused
        end
  | other => other
  end.

(** The obligations document, when one is named. *)
Definition agent_obligations (unreadable : string → bool) (a : AgentArguments) (d : disk) : outcome (list Obligation) :=
  if String.eqb (aa_obligations_file a) "" then Proceed []
  else
    match json_parsed default_limits (file_text unreadable (aa_obligations_file a) d) with
    | Ok (JArray entries) =>
        match decode_all obligation_from_json entries with
        | Ok obligations => Proceed obligations
        | Err err => Ended 1 [complaint ("obligation rejected: " ++s err_message err)]
        end
    | _ => Ended 1 [complaint "the obligations document must be a json array"]
    end.

Section AgentProcess.
Context {S : Type} (sock : SocketOps S) (connect : nat → string → Z → result S) (clock : nat → TimePoint).
Context (unreadable unwritable : string → bool) (startup : status).

(** The connection attempts: the [n]-th one is the socket [connect n] gives. *)
Fixpoint connect_within (attempts attempt : nat) (a : AgentSession S) : bool * AgentSession S :=
  match attempts with
  | O => (false, a)
  | Datatypes.S attempts =>
      match agent_connect sock (connect attempt) a with
      | (Ok _, a) => (true, a)
      | (Err _, a) => connect_within attempts (Datatypes.S attempt) a
      end
  end.

(** The loop: the budget of answers, or the first error. *)
Fixpoint answer_requests (fuel turn : nat) (exit_after : Z) (lines : list line) (a : AgentSession S)
  : option (list line * AgentSession S) :=
  match fuel with
  | O => None
  | Datatypes.S fuel =>
      if negb (exit_after =? 0) && (exit_after <=? ag_evacuations_handled a) then Some (lines, a)
      else
        match agent_poll_once sock fuel (clock turn) a with
        | None => None
        | Some (Err err, a) => Some (lines ++ [Stdout ("drainagent stopping: " ++s error_to_string err ++s newline)], a)
        | Some (Ok _, a) => answer_requests fuel (Datatypes.S turn) exit_after lines a
        end
  end.

Record agent_run_end := MkAgentRunEnd {
  ae_code : option Z;
  ae_lines : list line;
  ae_session : AgentSession S;
  ae_disk : disk;
}.

(** [main]. *)
Definition drainagent (fuel : nat) (argv : list string) (d : disk) : option agent_run_end :=
  let nobody := new_agent (MkAgentOptions "127.0.0.1" 0 "agent" [] kMaxFramePayloadBytes 20 false false) in
  let ended (code : option Z) (lines : list line) (a : AgentSession S) (d : disk) := Some (MkAgentRunEnd code lines a d) in
  match agent_options_of argv with
  | Threw => ended None [] nobody d
  | Ended code lines => ended (Some code) lines nobody d
  | Proceed o =>
      match startup with
      | Err err => ended (Some 1) [complaint (error_to_string err)] nobody d
      | Ok _ =>
          match agent_obligations unreadable o d with
          | Threw => ended None [] nobody d
          | Ended code lines => ended (Some code) lines nobody d
          | Proceed obligations =>
              let a := new_agent (MkAgentOptions (aa_host o) (aa_port o) (aa_node o) obligations kMaxFramePayloadBytes 20
                                    (aa_fail_evacuations o) (aa_ignore_evacuations o)) in
              let '(connected, a) := connect_within (Z.to_nat (aa_connect_attempts o)) 0 a in
              if negb connected then ended (Some 1) [complaint "could not connect to the controller"] a d
              else
                match register_obligations sock fuel a with
                | None => None
                | Some (Err err, a) =>
                    ended (Some 1) [complaint ("obligation registration failed: " ++s error_to_string err)] a d
                | Some (Ok _, a) =>
                    let registered := decimal (ag_admissions_registered a) in
                    let d := if String.eqb (aa_ready_file o) "" then d
                             else write_text unwritable (aa_ready_file o) ("registered=" ++s registered ++s newline) d in
                    let hello := Stdout ("drainagent connected to " ++s aa_host o ++s ":" ++s decimal (aa_port o)
                                         ++s ", registered " ++s registered ++s " obligation(s)" ++s newline) in
                    match answer_requests fuel 0 (aa_exit_after o) [hello] a with
                    | None => None
                    | Some (lines, a) =>
                        let '(_, a) := agent_stop sock a in
                        ended (Some 0)
                          (lines ++ [Stdout ("drainagent answered " ++s decimal (ag_evacuations_handled a)
                                             ++s " evacuation request(s)" ++s newline)]) a d
                    end
                end
          end
      end
  end.
End AgentProcess.
