(* ===== verification/Processes.v ===== *)
(** * Claims about the processes

    A daemon from its arguments to its exit is a start of the runtime, a sequence of
    public operations and a stop; what ends its loop; and the endpoints on the command
    lines. *)

From Stdlib Require Import Ascii.
From S2P Require Import Prelude Containers Checked Result Text Json Codec CodecTables CodecFabric CodecPolicy Bytes Wire.
From S2P Require Import Identity Lifecycle Obligation Evidence Authority Admission Topology Policy Decision Engine.
From S2P Require Import Snapshot Explain EngineStep EngineOps EngineInv EngineRefine EngineReach Scenario Transport Store Runtime RuntimeFacts Boot.
From S2P Require Import Server ServerFacts Client Serving Conversation Workers WorkersFacts SoleWorker WorkerPool Drainctl CommandLine Daemon.
#[local] Open Scope Z_scope.

(** ** Sequences of calls *)

Definition moves (P : op → Prop) (e e' : engine) : Prop :=
  ∃ calls, e' = replay calls e ∧ Forall (λ k, P (ca_op k)) calls.

#[export] Instance moves_preorder P : PreOrder (moves P).
Proof.
  split.
  - intros e. by exists [].
  - intros a b c (k1 & -> & F1) (k2 & -> & F2). exists (k1 ++ k2). split; [by rewrite replay_app|by apply Forall_app].
Qed.

Lemma moves_one (P : op → Prop) sink o now e : P o → moves P e (exec sink o now e).
Proof. intros Ho. exists [MkCall sink o now]. split; [done|by constructor]. Qed.

Lemma moves_weaken (P Q : op → Prop) e e' : (∀ o, P o → Q o) → moves P e e' → moves Q e e'.
Proof. intros Hpq (calls & -> & F). exists calls. split; [done|]. eapply Forall_impl; [exact F|]. intros k. apply Hpq. Qed.

(** What a daemon asks of its engine: the topology document's entries, what frames are
    requests for, scheduling passes, and the revocations of the stop. *)
Section Daemon.
Context {S L : Type} (sock : SocketOps S) (lsn : ListenerOps S L).
Context (clock : nat → TimePoint) (contended : nat → bool) (signalled : nat → bool) (turns : list turn_of).
Context (unreadable unwritable : string → bool) (bf : BootFaults) (sf : Faults) (startup : status).

Definition daemon_op (o : op) : Prop :=
  operator_op o ∨ (∃ clock, caused (S := S) (L := L) clock o) ∨ (∃ options, worker_op options o) ∨ ∃ id reason, o = OpRevoke id reason.

Lemma daemon_op_wf o e : daemon_op o → op_wf o e.
Proof. intros [H|[[cl H]|[[options H]|(id & reason & ->)]]]; [by apply operator_op_wf|by eapply caused_wf|by eapply worker_op_wf|done]. Qed.

Lemma feed_moves {A} (add : A → TimePoint → engine → status * engine) l s :
  (∀ a, Calls (add a)) → moves operator_op s.1 (feed clock add l s).1.
Proof.
  intros Ha. revert s. induction l as [|a l IH]; intros s; [done|]. unfold feed in *. cbn [foldl].
  etrans; [|apply IH]. cbn [fst]. destruct (Ha a (clock s.2) s.1) as [->|(o & Ho & ->)]; [done|by apply moves_one].
Qed.

Lemma daemon_topology_moves o d s s' :
  daemon_topology clock unreadable o d s = Proceed s' → moves operator_op s.1 s'.1.
Proof.
  unfold daemon_topology. destruct (_ && _); [|by intros [= <-]]. destruct (json_parsed _ _) as [parsed|]; [|done].
  destruct (topology_load_from_json parsed) as [topology|]; [|done]. intros [= <-].
  do 5 (etrans; [|apply feed_moves, _]). apply feed_moves, _.
Qed.

Lemma daemon_loop_polls cl fuel looks budget served v st v' :
  daemon_loop sock lsn contended signalled cl fuel looks budget served v = Some (st, v') →
  rtc (poll_step sock lsn cl contended) v v'.
Proof.
  revert looks served v. induction fuel as [|fuel IH]; intros looks served v; cbn [daemon_loop]; [done|].
  destruct (signalled looks); [by intros [= _ ->]|]. destruct (_ && _); [by intros [= _ ->]|].
  destruct (poll_once _ _ _ _ v) as [[x|err] v1] eqn:Hp.
  - intros Hr. eapply rtc_l; [by eexists|by eapply IH].
  - intros [= _ ->]. apply rtc_once. by eexists.
Qed.

Lemma revoke_tokens_moves tokens now e : moves daemon_op e (revoke_tokens tokens now e).2.
Proof.
  revert e. induction tokens as [|token tokens IH]; intros e; cbn [revoke_tokens]; [done|].
  destruct (negb _); [|apply IH]. assert (moves daemon_op e (revoke_authority (at_id token) "runtime shutdown" now e).2) as Hone.
  { apply (moves_one _ None (OpRevoke (at_id token) "runtime shutdown")). do 3 right. by eexists _, _. }
  destruct (revoke_authority _ _ _ _) as [[x|err] e1]; [etrans; [exact Hone|apply IH]|exact Hone].
Qed.

Lemma runtime_stop_moves now r d st r' trace :
  runtime_stop sf now r d = (st, r', trace) → moves daemon_op (rt_engine r) (rt_engine r').
Proof.
  unfold runtime_stop. pose proof (revoke_tokens_moves (ar_all_tokens (en_authority (rt_engine r))) now (rt_engine r)) as Hm.
  destruct (revoke_tokens _ _ _) as [[x|err] e]; [|by intros [= _ <- _]]. unfold runtime_save.
  cbn [rt_persistence rt_engine rt_incarnation update upd_rt_engine].
  destruct (rt_persistence r) as [p|]; [destruct (save _ _ _ _ _) as [[sv p'] t]|]; by intros [= _ <- _].
Qed.

(** The engine in the hands of the workers, if any started. *)
Lemma run_workers_moves cl budget count v st v' :
  server_wf v → connection_count v < so_max_connections (sv_options v) →
  run_workers sock lsn cl budget count turns v = Some (st, v') → moves daemon_op (sv_engine v) (sv_engine v').
Proof.
  intros Hwf Hc. unfold run_workers. destruct (start_workers count v) as [started v1] eqn:Hst.
  assert (sv_options v1 = sv_options v ∧ sv_engine v1 = sv_engine v ∧ sv_connections v1 = sv_connections v) as (E1 & E2 & E3).
  { unfold start_workers in Hst. destruct (_ <? _); [by injection Hst as _ <-|]. destruct (negb _); by injection Hst as _ <-. }
  assert (∃ n, (if is_ok started then repeat (@AtTop S L) (Z.to_nat count) else []) = repeat AtTop n) as [n ->]
    by (destruct (is_ok started); [by eexists|by exists 0%nat]).
  destruct (pool_run_inv sock lsn cl (sv_options v) n (sv_engine v) budget turns (MkPool (share v1) (repeat AtTop n) AwaitRunning))
    as [_ _ _ _ (calls & E & F)].
  { rewrite <- E2. apply pool_start_inv; [done|by destruct Hwf; split; rewrite ?E1, ?E3|]. unfold connection_count in *. rewrite E3. lia. }
  destruct (po_main _); try done. intros [= _ <-]. exists calls. split; [done|].
  eapply Forall_impl; [exact F|]. intros k Hk. right. right. left. by exists (sv_options v).
Qed.

Lemma daemon_serve_moves fuel o first lines r v d run :
  server_wf v → connection_count v < so_max_connections (sv_options v) → sv_engine v = rt_engine r →
  daemon_serve sock lsn clock contended signalled turns sf fuel o first lines r v d = Some run →
  moves daemon_op (rt_engine r) (rt_engine (dn_runtime run)).
Proof.
  intros Hwf Hc He. unfold daemon_serve. set (cl := λ n, clock (first + n)%nat). set (stopped := λ s : status * server S L, _).
  assert (∀ v', rtc (poll_step sock lsn cl contended) v v' → moves daemon_op (rt_engine r) (sv_engine v')) as Hpolls.
  { intros v' Hr. destruct (polls_replay _ _ _ _ _ _ Hwf Hr) as (_ & _ & _ & calls & E & F). exists calls. rewrite <- He.
    split; [done|]. eapply Forall_impl; [exact F|]. intros k Hk. right. left. by exists cl. }
  destruct (if do_once o then _ else _) as [[served v']|] eqn:Hserved; [|done].
  assert (moves daemon_op (rt_engine r) (sv_engine v')) as Hs.
  { destruct (do_once o).
    - injection Hserved as _ <-. cbn. apply Hpolls. apply rtc_once. eexists. apply surjective_pairing.
    - destruct (0 <? do_workers o); [rewrite <- He; by eapply run_workers_moves|].
      destruct (daemon_loop _ _ _ _ _ _ _ _ _ _) as [[st v1]|] eqn:Hl; [|done]. injection Hserved as _ <-. cbn.
      apply Hpolls. by eapply daemon_loop_polls. }
  destruct (runtime_stop _ _ _ _) as [[saved r'] trace] eqn:Hst.
  apply runtime_stop_moves in Hst. destruct saved; intros [= <-]; (etrans; [exact Hs|exact Hst]).
Qed.

(** A daemon is a history.  Whatever its arguments, the file system, the network, the
    clock, the scheduler and the signals do: if it ends, its runtime is one that never started, or
    its engine is the one the start left after a sequence of public operations, so it
    is reachable from it while the counters have room. *)
Theorem daemon_is_a_history fuel argv d run :
  drainfabricd sock lsn clock contended signalled turns unreadable unwritable bf sf startup fuel argv d = Some run →
  rt_engine (dn_runtime run) = new_engine default_policy ∨
  ∃ options st r0 trace calls, runtime_start bf (clock 0) (new_runtime options) d = (st, r0, trace) ∧
    rt_engine (dn_runtime run) = replay calls (rt_engine r0) ∧ Forall (λ k, daemon_op (ca_op k)) calls ∧
    (roomy calls (rt_engine r0) → history any_op (rt_engine r0) (rt_engine (dn_runtime run))).
Proof.
  unfold drainfabricd. destruct (daemon_options argv) as [o|code lines|]; [|intros [= <-]; by left..].
  destruct startup as [x|err]; [|intros [= <-]; by left].
  destruct (daemon_policy _ _ _) as [policy|code lines|]; [|intros [= <-]; by left..].
  set (options := MkRuntimeOptions policy _ _ _ _ _). destruct (runtime_start _ _ _ _) as [[boot r0] trace] eqn:Hs.
  intros Hrun. right. exists options, boot, r0, trace.
  assert (moves daemon_op (rt_engine r0) (rt_engine (dn_runtime run))) as (calls & E & F).
  { destruct boot as [y|err]; [|by injection Hrun as <-].
    destruct (daemon_topology _ _ _ _ _) as [[e reads]|code lines|] eqn:Ht; [|by injection Hrun as <-..].
    apply daemon_topology_moves in Ht. cbn [fst] in Ht.
    apply (moves_weaken _ daemon_op) in Ht; [|intros op ?; by left]. cbv zeta in Hrun. revert Hrun.
    unfold server_start. cbn [sv_listener new_server]. destruct (lo_listen_on _ _ _ _) as [[l bound]|err]; [|by intros [= <-]].
    intros Hrun. etrans; [exact Ht|]. eapply daemon_serve_moves in Hrun; [exact Hrun| |done|done]. split; [done|constructor]. }
  exists calls. split_and!; try done. intros Hroom. rewrite E. apply replay_wf_history; [|done].
  eapply Forall_impl; [exact F|]. intros k Hk e. by apply daemon_op_wf.
Qed.
End Daemon.

(** ** What ends the loop *)

(** Only a signal, the budget, or a poll that fails: not the shutdown a client asked
    for. *)
Lemma daemon_loop_ends {S L} (sock : SocketOps S) (lsn : ListenerOps S L) contended signalled clock fuel looks budget served v st v' :
  daemon_loop sock lsn contended signalled clock fuel looks budget served v = Some (st, v') →
  (∃ n, signalled n = true) ∨ (budget ≠ 0 ∧ budget ≤ sv_served_requests v') ∨ is_ok st = false.
Proof.
  revert looks served v. induction fuel as [|fuel IH]; intros looks served v; cbn [daemon_loop]; [done|].
  destruct (signalled looks) eqn:Hl; [intros _; left; by exists looks|].
  destruct (negb (budget =? 0) && _) eqn:Hb.
  - intros [= _ <-]. right; left. lia.
  - destruct (poll_once _ _ _ _ v) as [[x|err] v1]; [apply IH|]. intros [= <- _]. right; by right.
Qed.

(** A signal ends it, at the latest at the turn that looks at it. *)
Lemma daemon_loop_stops {S L} (sock : SocketOps S) (lsn : ListenerOps S L) contended signalled clock n looks budget served v :
  signalled (looks + n)%nat = true →
  ∃ r, daemon_loop sock lsn contended signalled clock (Datatypes.S n) looks budget served v = Some r.
Proof.
  revert looks served v. induction n as [|n IH]; intros looks served v Hs; cbn [daemon_loop].
  - rewrite Nat.add_0_r in Hs. rewrite Hs. by eexists.
  - destruct (signalled looks); [by eexists|]. destruct (negb (budget =? 0) && _); [by eexists|].
    destruct (poll_once _ _ _ _ v) as [[x|err] v1]; [|by eexists]. apply (IH (Datatypes.S looks)).
    by rewrite <- Hs, <- plus_n_Sm.
Qed.

(** A client asked for a shutdown: the server's own loop ends; the daemon's goes on. *)
Example shutdown_is_not_heeded :
  is_ok <$> (fst <$> run_until drip doorway ticking free 10 0 shutdown_caller) = Some true ∧
  sv_stopping (poll_once drip doorway ticking free (poll_once drip doorway ticking free shutdown_caller).2).2 = true ∧
  daemon_loop drip doorway free free ticking 30 0 0 ok_status shutdown_caller = None.
Proof. vm_compute. done. Qed.

(** ** Endpoints *)

Lemma cut_last_none s : string_all is_digit s = true → cut_last s = None.
Proof.
  induction s as [|c s IH]; [done|]. cbn [string_all cut_last]. intros [Hc Hs]%andb_true_iff. rewrite (IH Hs).
  destruct (Ascii.eqb_spec c (":"%char)) as [->|]; [done|done].
Qed.

Lemma cut_last_app host port : string_all is_digit port = true →
  cut_last (host ++s String ":"%char port) = Some (host, port).
Proof.
  intros Hp. induction host as [|c host IH].
  - change ("" ++s String ":"%char port) with (String ":"%char port). cbn [cut_last]. by rewrite (cut_last_none port Hp).
  - change (String c host ++s String ":"%char port) with (String c (host ++s String ":"%char port)). cbn [cut_last]. by rewrite IH.
Qed.

Lemma read_port_value acc s :
  string_all is_digit s = true → 0 ≤ acc → digits_value acc s ≤ 65535 → read_port acc s = Some (digits_value acc s).
Proof.
  revert acc. induction s as [|c s IH]; intros acc; [done|]. cbn [string_all]. intros [Hc Hs]%andb_true_iff Ha Hv.
  cbn [read_port digits_value] in *. rewrite (Z.mul_comm 10) in *. rewrite Hc. cbn [negb]. unfold is_digit in Hc. apply andb_true_iff in Hc as [Hc1%Z.leb_le Hc2%Z.leb_le].
  pose proof (digits_value_mono (acc * 10 + (char_code c - 48)) s Hs ltac:(lia)) as Hm.
  assert (∀ v, 0 ≤ v ≤ 65535 → wrap u32 v = v) as Hw.
  { intros v ?. apply wrap_id; [done|]. split; [change (int_min u32) with 0; lia|change (int_max u32) with 4294967295; lia]. }
  rewrite (Hw (acc * 10)), Hw by lia.
  rewrite (proj2 (Z.ltb_ge _ _)) by lia. by apply IH; [|lia|].
Qed.

(** An endpoint that was written is read back: the daemon listens where it was told
    to, whatever the host looks like. *)
Theorem endpoint_roundtrip host port :
  0 ≤ port ≤ 65535 → parse_endpoint (host ++s ":" ++s decimal port) = Some (host, port).
Proof.
  intros Hp. destruct (decimal_digits port ltac:(lia)) as (Hd & Hne & Hv). unfold parse_endpoint.
  change (host ++s ":" ++s decimal port) with (host ++s String ":"%char (decimal port)). rewrite cut_last_app by done.
  destruct (String.eqb_spec (decimal port) "") as [|_]; [done|]. rewrite read_port_value by (done || lia || (rewrite Hv; lia)).
  rewrite Hv, wrap_id; [done|done|]. split; [change (int_min u16) with 0; lia|change (int_max u16) with 65535; lia].
Qed.

(** Numbers on the command lines are read by [std::stoull]: a sign wraps, what follows
    the digits is ignored, and anything else ends the process. *)
Example stoull_examples :
  map stoull ["12"; "  +7x"; "-1"; "18446744073709551616"; "many"; ""] = [Some 12; Some 7; Some (int_max u64); None; None; None].
Proof. vm_compute. done. Qed.
