(* ===== verification/Socket.v ===== *)
(** * Sockets ([socket.hpp], [socket.cpp])

    The POSIX side of the blocking TCP wrapper.  A [Socket] is an object that owns at
    most one descriptor; the system calls it makes are the fields of [syscalls], over
    a kernel state of any type.  Every operation threads that state, destructors
    included: where a function returns early after [Socket socket(handle)], the
    descriptor is closed on the way out.

    [FD_SET] is defined for descriptors below [FD_SETSIZE] only; what [select] answers
    for others is the kernel's business here, as are the texts of [strerror]. *)

From S2P Require Import Prelude Checked Result Text Bytes Wire.

(** ** The system calls *)

Module SockOpt.
Inductive t : Set := ReuseAddr | NoDelay | KeepAlive.
End SockOpt.

(** The calls of the source, with what they return in C; a call that fills a buffer
    also returns the bytes, [getsockname] the port it wrote (in network order) when
    it succeeds. *)
Record syscalls (K : Type) := {
  sc_errno : K → Z;
  sc_strerror : Z → string;
  sc_EAGAIN : Z;
  sc_EWOULDBLOCK : Z;
  sc_EINTR : Z;
  sc_inet_pton : string → option Z;
  sc_socket : K → Z * K;
  sc_setsockopt : Z → SockOpt.t → Z → K → K;
  sc_bind : Z → Z → Z → K → Z * K;
  sc_listen : Z → Z → K → Z * K;
  sc_getsockname : Z → K → option Z * K;
  sc_connect : Z → Z → Z → K → Z * K;
  sc_select : Z → Z → Z → K → Z * K;
  sc_accept : Z → K → Z * K;
  sc_send : Z → list Z → K → Z * K;
  sc_recv : Z → Z → K → Z * list Z * K;
  sc_shutdown : Z → K → Z * K;
  sc_close : Z → K → K;
  sc_sleep : Z → K → K;
}.
Arguments sc_errno {K}.
Arguments sc_strerror {K}.
Arguments sc_EAGAIN {K}.
Arguments sc_EWOULDBLOCK {K}.
Arguments sc_EINTR {K}.
Arguments sc_inet_pton {K}.
Arguments sc_socket {K}.
Arguments sc_setsockopt {K}.
Arguments sc_bind {K}.
Arguments sc_listen {K}.
Arguments sc_getsockname {K}.
Arguments sc_connect {K}.
Arguments sc_select {K}.
Arguments sc_accept {K}.
Arguments sc_send {K}.
Arguments sc_recv {K}.
Arguments sc_shutdown {K}.
Arguments sc_close {K}.
Arguments sc_sleep {K}.

(** Network order on a little-endian host. *)
Definition htons (v : Z) : Z := Z.lor (Z.shiftl (Z.land v 255) 8) (Z.shiftr v 8).
Definition ntohs (v : Z) : Z := htons v.
Definition htonl (v : Z) : Z :=
  Z.lor (Z.shiftl (htons (Z.land v 65535)) 16) (htons (Z.shiftr v 16)).

Definition INADDR_LOOPBACK : Z := 2130706433.

(** ** The object *)

Definition kInvalid : Z := -1.

Record Socket := MkSocket { handle_ : Z }.

(** A default-constructed socket. *)
Definition no_socket : Socket := MkSocket kInvalid.

Definition valid (s : Socket) : bool := 0 <=? handle_ s.

Section Calls.
Context {K : Type} (sc : syscalls K).

Definition last_socket_error (k : K) : Z := sc_errno sc k.

Definition is_would_block (code : Z) : bool :=
  (code =? sc_EAGAIN sc) || (code =? sc_EWOULDBLOCK sc) || (code =? sc_EINTR sc).

Definition socket_error_text (code : Z) : string := sc_strerror sc code.

Definition socket_system_startup : status := ok_status.

Definition socket_parse_host (host : string) : result Z :=
  if String.eqb host "" || String.eqb host "localhost" then Ok (htonl INADDR_LOOPBACK)
  else
    match sc_inet_pton sc host with
    | None => fail ErrorCode.InvalidArgument "host must be a dotted IPv4 address or 'localhost'"
    | Some parsed => Ok parsed
    end.

(** [Socket::close]. *)
Definition close (s : Socket) (k : K) : status * Socket * K :=
  if negb (valid s) then (ok_status, s, k)
  else (ok_status, MkSocket kInvalid, sc_close sc (handle_ s) k).

(** [~Socket]. *)
Definition destroy (s : Socket) (k : K) : K := (close s k).2.

(** [Socket(Socket&&)]: the new object and what is left of the old one. *)
Definition move_construct (other : Socket) : Socket * Socket := (MkSocket (handle_ other), MkSocket kInvalid).

(** [operator=(Socket&&)] between two different objects. *)
Definition move_assign (this other : Socket) (k : K) : Socket * Socket * K :=
  let '(_, _, k) := close this k in
  (MkSocket (handle_ other), MkSocket kInvalid, k).

Definition set_option (option : SockOpt.t) (enabled : bool) (s : Socket) (k : K) : K :=
  if negb (valid s) then k else sc_setsockopt sc (handle_ s) option (if enabled then 1 else 0) k.

Definition set_nodelay : bool → Socket → K → K := set_option SockOpt.NoDelay.
Definition set_keepalive : bool → Socket → K → K := set_option SockOpt.KeepAlive.

(** A system call that failed, its text prefixed; the socket goes out of scope. *)
Definition call_failed (what : string) (k : K) : error :=
  Error ErrorCode.TransportError (what ++s socket_error_text (last_socket_error k)).

Definition failing {A} (what : string) (socket : Socket) (k : K) : result A * K :=
  (Err (call_failed what k), destroy socket k).

(** [Socket::listen_on]: the socket and the port it is bound to. *)
Definition listen_on (host : string) (port backlog : Z) (k : K) : result (Socket * Z) * K :=
  match socket_system_startup with
  | Err err => (Err err, k)
  | Ok _ =>
      match socket_parse_host host with
      | Err err => (Err err, k)
      | Ok address =>
          let '(handle, k) := sc_socket sc k in
          if handle =? kInvalid then (Err (call_failed "socket() failed: " k), k)
          else
            let socket := MkSocket handle in
            let k := sc_setsockopt sc handle SockOpt.ReuseAddr 1 k in
            let '(bound, k) := sc_bind sc handle (htons port) address k in
            if negb (bound =? 0) then failing "bind() failed: " socket k
            else
              let '(listening, k) := sc_listen sc handle backlog k in
              if negb (listening =? 0) then failing "listen() failed: " socket k
              else
                let '(actual, k) := sc_getsockname sc handle k in
                match actual with
                | None => failing "getsockname() failed: " socket k
                | Some sin_port => (Ok (socket, ntohs sin_port), set_nodelay true socket k)
                end
      end
  end.

(** [Socket::connect_to]. *)
Definition connect_to (host : string) (port : Z) (k : K) : result Socket * K :=
  match socket_system_startup with
  | Err err => (Err err, k)
  | Ok _ =>
      match socket_parse_host host with
      | Err err => (Err err, k)
      | Ok address =>
          let '(handle, k) := sc_socket sc k in
          if handle =? kInvalid then (Err (call_failed "socket() failed: " k), k)
          else
            let socket := MkSocket handle in
            let '(connected, k) := sc_connect sc handle (htons port) address k in
            if negb (connected =? 0) then failing "connect() failed: " socket k
            else (Ok socket, set_nodelay true socket k)
      end
  end.

(** The wait that [accept_one] and [wait_readable] begin with: the outcome and the
    error text, [Accepted] when the descriptor is ready. *)
Definition select_read (closed : string) (s : Socket) (wait_ms : Z) (error : string) (k : K)
  : AcceptOutcome.t * string * K :=
  if negb (valid s) then (AcceptOutcome.Closed, closed, k)
  else
    let '(ready, k) := sc_select sc (handle_ s) (Z.quot wait_ms 1000) (Z.rem wait_ms 1000 * 1000) k in
    if ready =? 0 then (AcceptOutcome.TimedOut, error, k)
    else if ready <? 0 then
      let code := last_socket_error k in
      if is_would_block code then (AcceptOutcome.TimedOut, error, k)
      else (AcceptOutcome.Closed, "select() failed: " ++s socket_error_text code, k)
    else (AcceptOutcome.Accepted, error, k).

(** [Socket::wait_readable]. *)
Definition wait_readable (s : Socket) (wait_ms : Z) (error : string) (k : K) : AcceptOutcome.t * string * K :=
  select_read "socket is closed" s wait_ms error k.

(** [Socket::accept_one]: the outcome, [out] afterwards and the error text. *)
Definition accept_one (s out : Socket) (wait_ms : Z) (error : string) (k : K)
  : AcceptOutcome.t * Socket * string * K :=
  match select_read "listening socket is closed" s wait_ms error k with
  | (AcceptOutcome.Accepted, error, k) =>
      let '(accepted, k) := sc_accept sc (handle_ s) k in
      if accepted =? kInvalid then
        let code := last_socket_error k in
        if is_would_block code then (AcceptOutcome.TimedOut, out, error, k)
        else (AcceptOutcome.Failed, out, "accept() failed: " ++s socket_error_text code, k)
      else
        let '(out, temporary, k) := move_assign out (MkSocket accepted) k in
        let k := destroy temporary k in
        let k := set_nodelay true out k in
        let k := set_keepalive true out k in
        (AcceptOutcome.Accepted, out, error, k)
  | (outcome, error, k) => (outcome, out, error, k)
  end.

(** At most this much is handed to one [send] or [recv]. *)
Definition chunk_of (length : Z) : Z := Z.min length (Z.shiftl 1 20).

(** The loop of [send_all]; [None] when the fuel runs out. *)
Fixpoint send_loop (fuel : nat) (handle : Z) (data : list Z) (sent : Z) (k : K) : option (status * K) :=
  match fuel with
  | O => None
  | S fuel =>
      if sent <? zlength data then
        let chunk := chunk_of (zlength data - sent) in
        let '(written, k) := sc_send sc handle (slice sent chunk data) k in
        if written <=? 0 then
          let code := last_socket_error k in
          if is_would_block code then send_loop fuel handle data sent k
          else Some (fail ErrorCode.TransportError ("send() failed: " ++s socket_error_text code), k)
        else send_loop fuel handle data (sent + written) k
      else Some (ok_status, k)
  end.

(** [Socket::send_all]. *)
Definition send_all (fuel : nat) (data : list Z) (s : Socket) (k : K) : option (status * K) :=
  if negb (valid s) then Some (fail ErrorCode.TransportError "send on a closed socket", k)
  else send_loop fuel (handle_ s) data 0 k.

(** [Socket::receive_some]: the bytes read, none when there are none. *)
Definition receive_some (length : Z) (s : Socket) (k : K) : result (list Z) * K :=
  if negb (valid s) then (fail ErrorCode.TransportError "receive on a closed socket", k)
  else
    let '(received, bytes, k) := sc_recv sc (handle_ s) (chunk_of length) k in
    if received =? 0 then (Ok [], k)
    else if received <? 0 then
      let code := last_socket_error k in
      if is_would_block code then (Ok [], k)
      else (fail ErrorCode.TransportError ("recv() failed: " ++s socket_error_text code), k)
    else (Ok (take (Z.to_nat received) bytes), k).

(** [Socket::shutdown_send]. *)
Definition shutdown_send (s : Socket) (k : K) : status * K :=
  if negb (valid s) then (ok_status, k)
  else
    let '(r, k) := sc_shutdown sc (handle_ s) k in
    if negb (r =? 0) then (fail ErrorCode.TransportError "shutdown() failed", k) else (ok_status, k).

(** [Socket::local_port]. *)
Definition local_port (s : Socket) (k : K) : Z * K :=
  if negb (valid s) then (0, k)
  else
    match sc_getsockname sc (handle_ s) k with
    | (None, k) => (0, k)
    | (Some sin_port, k) => (ntohs sin_port, k)
    end.

Definition socket_sleep_millis (millis : Z) (k : K) : K := if millis <=? 0 then k else sc_sleep sc millis k.

(** ** As the stream sees it

    [patience k] bounds how often [send] is told to try again from [k] on; with that
    many turns more than there are bytes the loop of [send_all] ends
    ([send_all_returns]). *)
Context (patience : K → nat).

Definition send_fuel (data : list Z) (k : K) : nat := (length data + patience k + 1)%nat.

Definition send_now (data : list Z) (s : Socket) (k : K) : status * K :=
  default (fail ErrorCode.TransportError "send loop out of fuel", k) (send_all (send_fuel data k) data s k).

Definition socket_ops : SocketOps (Socket * K) := {|
  so_valid := λ x, valid x.1;
  so_wait_readable := λ wait_ms x, let '(o, error, k) := wait_readable x.1 wait_ms "" x.2 in (o, error, (x.1, k));
  so_receive_some := λ n x, let '(r, k) := receive_some n x.1 x.2 in (r, (x.1, k));
  so_send_all := λ data x, let '(r, k) := send_now data x.1 x.2 in (r, (x.1, k));
  so_close := λ x, let '(r, s, k) := close x.1 x.2 in (r, (s, k));
|}.

(** What [FabricClient::connect] asks for, in a process whose kernel is in state [k]. *)
Definition socket_connect (k : K) (host : string) (port : Z) : result (Socket * K) :=
  match connect_to host port k with
  | (Ok s, k) => Ok (s, k)
  | (Err err, _) => Err err
  end.
End Calls.
