(* ===== verification/SocketFacts.v ===== *)
(** * What the sockets promise

    Three contracts of the kernel and what the wrapper makes of them: descriptors are
    handed out fresh and close once ([Descriptors]), so every open descriptor is owned
    by exactly one [Socket] object; a connection takes a prefix of what it is given and
    hands out what arrived in order ([Carries]), so [send_all] sends exactly its
    argument and the wrapper is a socket the frame stream can rely on ([Delivers],
    [Live]).  The last section is a kernel that keeps all of them. *)

From S2P Require Import Prelude Checked Result Text Json Bytes Wire WireFacts Socket.

(** ** Network order *)

Lemma htons_arith v : 0 ≤ v ≤ int_max u16 → htons v = v mod 256 * 256 + v / 256.
Proof.
  unfold int_max; cbn. intros Hv. unfold htons. rewrite Z.shiftl_mul_pow2, Z.shiftr_div_pow2 by lia.
  change (2 ^ 8) with 256. change 255 with (Z.ones 8). rewrite Z.land_ones by lia. change (2 ^ 8) with 256.
  rewrite <- Z.add_lor_land. enough (Z.land (v mod 256 * 256) (v / 256) = 0) as -> by lia.
  apply Z.bits_inj'. intros n Hn. rewrite Z.bits_0, Z.land_spec. change 256 with (2 ^ 8) at 2.
  destruct (Z.ltb_spec n 8) as [Hl|Hl]; [by rewrite Z.mul_pow2_bits_low|].
  apply andb_false_iff. right. destruct (decide (v / 256 = 0)) as [->|Hne]; [by rewrite Z.bits_0|].
  apply Z.bits_above_log2; [apply Z.div_pos; lia|]. apply Z.log2_lt_pow2; [pose proof (Z.div_pos v 256); lia|].
  apply Z.div_lt_upper_bound; [lia|]. assert (2 ^ 8 ≤ 2 ^ n) by (apply Z.pow_le_mono_r; lia). lia.
Qed.

(** The port reported by [getsockname] is the port in host order. *)
Lemma ntohs_htons v : 0 ≤ v ≤ int_max u16 → ntohs (htons v) = v.
Proof.
  intros Hv. unfold ntohs. rewrite (htons_arith v Hv). unfold int_max in *; cbn in *. rewrite htons_arith.
  - rewrite (Z.add_comm (v mod 256 * 256)), Z_mod_plus_full, Z_div_plus_full by lia.
    rewrite (Z.mod_small (v / 256)), (Z.div_small (v / 256)); [pose proof (Z.div_mod v 256); lia|..].
    all: split; [apply Z.div_pos; lia|apply Z.div_lt_upper_bound; lia].
  - unfold int_max; cbn. Z.to_euclidean_division_equations. lia.
Qed.

(** ** Descriptors *)

(** [opened k] are the descriptors open in [k].  [socket] and [accept] return a
    descriptor that is not open yet, or -1 and open none; closing one that is open
    closes that one; nothing else opens or closes. *)
Class Descriptors {K} (sc : syscalls K) (opened : K → list Z) : Prop := {
  ds_socket k h k' : sc_socket sc k = (h, k') →
    h = kInvalid ∧ opened k' = opened k ∨ 0 ≤ h ∧ h ∉ opened k ∧ opened k' ≡ₚ h :: opened k;
  ds_accept l k h k' : sc_accept sc l k = (h, k') →
    h = kInvalid ∧ opened k' = opened k ∨ 0 ≤ h ∧ h ∉ opened k ∧ opened k' ≡ₚ h :: opened k;
  ds_close h k rest : opened k ≡ₚ h :: rest → opened (sc_close sc h k) ≡ₚ rest;
  ds_setsockopt h o v k : opened (sc_setsockopt sc h o v k) = opened k;
  ds_bind h p a k r k' : sc_bind sc h p a k = (r, k') → opened k' = opened k;
  ds_listen h b k r k' : sc_listen sc h b k = (r, k') → opened k' = opened k;
  ds_getsockname h k r k' : sc_getsockname sc h k = (r, k') → opened k' = opened k;
  ds_connect h p a k r k' : sc_connect sc h p a k = (r, k') → opened k' = opened k;
  ds_select h s u k r k' : sc_select sc h s u k = (r, k') → opened k' = opened k;
  ds_send h bs k r k' : sc_send sc h bs k = (r, k') → opened k' = opened k;
  ds_recv h n k r k' : sc_recv sc h n k = (r, k') → opened k' = opened k;
  ds_shutdown h k r k' : sc_shutdown sc h k = (r, k') → opened k' = opened k;
}.

(** The descriptor an object owns. *)
Definition own (s : Socket) : list Z := if valid s then [handle_ s] else [].

(** The calls a process makes on the [Socket] objects it has; objects are named by
    their index. *)
Inductive sock_call : Type :=
  | CallNew
  | CallListen (host : string) (port backlog : Z)
  | CallConnect (host : string) (port : Z)
  | CallAccept (listener out : nat) (wait_ms : Z)
  | CallMove (this other : nat)
  | CallSend (i : nat) (fuel : nat) (data : list Z)
  | CallReceive (i : nat) (length : Z)
  | CallWait (i : nat) (wait_ms : Z)
  | CallShutdown (i : nat)
  | CallLocalPort (i : nat)
  | CallClose (i : nat)
  | CallDestroy (i : nat).

Section Ownership.
Context {K : Type} (sc : syscalls K).

(** The objects and the kernel after one call; a call on an object that is not there,
    a self-move and a [send_all] that does not return change nothing. *)
Definition sock_step (c : sock_call) (x : list Socket * K) : list Socket * K :=
  let '(objects, k) := x in
  match c with
  | CallNew => (objects ++ [no_socket], k)
  | CallListen host port backlog =>
      match listen_on sc host port backlog k with
      | (Ok (s, _), k) => (objects ++ [s], k)
      | (Err _, k) => (objects, k)
      end
  | CallConnect host port =>
      match connect_to sc host port k with
      | (Ok s, k) => (objects ++ [s], k)
      | (Err _, k) => (objects, k)
      end
  | CallAccept l o wait_ms =>
      match objects !! l, objects !! o with
      | Some s, Some out => let '(_, out, _, k) := accept_one sc s out wait_ms "" k in (<[o := out]> objects, k)
      | _, _ => x
      end
  | CallMove i j =>
      match objects !! i, objects !! j with
      | Some this, Some other =>
          if decide (i = j) then x
          else let '(this, other, k) := move_assign sc this other k in (<[j := other]> (<[i := this]> objects), k)
      | _, _ => x
      end
  | CallSend i fuel data =>
      match objects !! i with
      | Some s => match send_all sc fuel data s k with Some (_, k) => (objects, k) | None => x end
      | None => x
      end
  | CallReceive i length =>
      match objects !! i with Some s => (objects, (receive_some sc length s k).2) | None => x end
  | CallWait i wait_ms =>
      match objects !! i with Some s => (objects, (wait_readable sc s wait_ms "" k).2) | None => x end
  | CallShutdown i => match objects !! i with Some s => (objects, (shutdown_send sc s k).2) | None => x end
  | CallLocalPort i => match objects !! i with Some s => (objects, (local_port sc s k).2) | None => x end
  | CallClose i =>
      match objects !! i with
      | Some s => let '(_, s, k) := close sc s k in (<[i := s]> objects, k)
      | None => x
      end
  | CallDestroy i =>
      match objects !! i with Some s => (delete i objects, destroy sc s k) | None => x end
  end.

Definition sock_run (calls : list sock_call) (x : list Socket * K) : list Socket * K :=
  foldl (λ x c, sock_step c x) x calls.

Context (opened : K → list Z) `{!Descriptors sc opened}.

(** The open descriptors are [l], each once. *)
Definition holds (l : list Z) (k : K) : Prop := opened k ≡ₚ l ∧ NoDup (opened k).

#[local] Instance holds_proper : Proper ((≡ₚ) ==> (=) ==> iff) holds.
Proof. intros l l' Hl k ? <-. unfold holds. by rewrite Hl. Qed.

Lemma holds_same l k k' : opened k' = opened k → holds l k → holds l k'.
Proof. unfold holds. by intros ->. Qed.

Lemma holds_fresh l k h k' :
  h ∉ opened k → opened k' ≡ₚ h :: opened k → holds l k → holds (h :: l) k'.
Proof.
  intros Hh Ho [Hp Hn]. split; [by rewrite Ho, Hp|]. rewrite Ho. by constructor.
Qed.

Lemma own_handle h : 0 ≤ h → own (MkSocket h) = [h].
Proof. intros Hh. unfold own, valid; cbn. by rewrite (proj2 (Z.leb_le 0 h) Hh). Qed.

Lemma close_holds s l k :
  holds (own s ++ l) k → own (close sc s k).1.2 = [] ∧ holds l (close sc s k).2.
Proof.
  unfold close, own. destruct (valid s) eqn:Hv; cbn; [|by rewrite Hv]. intros [Hp Hn]. split; [done|].
  pose proof (ds_close _ _ _ Hp) as Hc. split; [done|]. rewrite Hc. rewrite Hp in Hn. by apply NoDup_cons in Hn as [_ ?].
Qed.

Lemma destroy_holds s l k : holds (own s ++ l) k → holds l (destroy sc s k).
Proof. apply close_holds. Qed.

Lemma set_option_holds o b s l k : holds l k → holds l (set_option sc o b s k).
Proof. unfold set_option. destruct (negb _); [done|]. apply holds_same, ds_setsockopt. Qed.

Lemma select_read_holds closed s w e l k : holds l k → holds l (select_read sc closed s w e k).2.
Proof.
  unfold select_read. destruct (negb _); [done|]. destruct (sc_select _ _ _ _ _) as [ready k1] eqn:Hs.
  apply ds_select in Hs. intros Hl. apply (holds_same _ _ _ Hs) in Hl. by repeat case_match.
Qed.

(** A failed call after the object was made gives its descriptor back. *)
Lemma failing_holds {A} what h l k : 0 ≤ h → holds (h :: l) k → holds l (failing (A:=A) sc what (MkSocket h) k).2.
Proof. intros Hh Hl. apply destroy_holds. by rewrite own_handle. Qed.

Lemma listen_on_holds host port backlog l k r k' :
  holds l k → listen_on sc host port backlog k = (r, k') →
  holds (match r with Ok (s, _) => own s | Err _ => [] end ++ l) k'.
Proof.
  intros Hl. unfold listen_on. cbn [socket_system_startup]. destruct (socket_parse_host _ _) as [a|e]; [|by intros [= <- <-]].
  destruct (sc_socket sc k) as [h k1] eqn:Hs. apply ds_socket in Hs as [[-> Ho]|(Hh & Hf & Ho)].
  { intros [= <- <-]. by apply (holds_same _ _ _ Ho). }
  apply (holds_fresh _ _ _ _ Hf Ho) in Hl. rewrite (proj2 (Z.eqb_neq h kInvalid)) by (unfold kInvalid; lia).
  apply (holds_same _ _ _ (ds_setsockopt h SockOpt.ReuseAddr 1 k1)) in Hl. cbv zeta.
  destruct (sc_bind _ _ _ _ _) as [b k2] eqn:Hb. apply ds_bind in Hb. apply (holds_same _ _ _ Hb) in Hl.
  destruct (negb _); [intros [= <- <-]; by apply (failing_holds (A:=Socket * Z) "" h)|].
  destruct (sc_listen _ _ _ _) as [i k3] eqn:Hi. apply ds_listen in Hi. apply (holds_same _ _ _ Hi) in Hl.
  destruct (negb _); [intros [= <- <-]; by apply (failing_holds (A:=Socket * Z) "" h)|].
  destruct (sc_getsockname _ _ _) as [g k4] eqn:Hg. apply ds_getsockname in Hg. apply (holds_same _ _ _ Hg) in Hl.
  destruct g as [p|]; intros [= <- <-]; [|by apply (failing_holds (A:=Socket * Z) "" h)].
  rewrite own_handle by done. by apply set_option_holds.
Qed.

Lemma connect_to_holds host port l k r k' :
  holds l k → connect_to sc host port k = (r, k') →
  holds (match r with Ok s => own s | Err _ => [] end ++ l) k'.
Proof.
  intros Hl. unfold connect_to. cbn [socket_system_startup]. destruct (socket_parse_host _ _) as [a|e]; [|by intros [= <- <-]].
  destruct (sc_socket sc k) as [h k1] eqn:Hs. apply ds_socket in Hs as [[-> Ho]|(Hh & Hf & Ho)].
  { intros [= <- <-]. by apply (holds_same _ _ _ Ho). }
  apply (holds_fresh _ _ _ _ Hf Ho) in Hl. rewrite (proj2 (Z.eqb_neq h kInvalid)) by (unfold kInvalid; lia). cbv zeta.
  destruct (sc_connect _ _ _ _ _) as [b k2] eqn:Hb. apply ds_connect in Hb. apply (holds_same _ _ _ Hb) in Hl.
  destruct (negb _); intros [= <- <-]; [by apply (failing_holds (A:=Socket) "" h)|].
  rewrite own_handle by done. by apply set_option_holds.
Qed.

Lemma move_assign_holds this other l k this' other' k' :
  holds (own this ++ own other ++ l) k → move_assign sc this other k = (this', other', k') →
  own this' = own other ∧ own other' = [] ∧ holds (own other ++ l) k'.
Proof.
  unfold move_assign. intros Hl. apply close_holds in Hl as [_ Hl]. destruct (close sc this k) as [[? ?] k1].
  intros [= <- <- <-]. by destruct other.
Qed.

Lemma accept_one_holds s out w e l k o out' e' k' :
  holds (own out ++ l) k → accept_one sc s out w e k = (o, out', e', k') → holds (own out' ++ l) k'.
Proof.
  intros Hl. unfold accept_one. apply (select_read_holds "listening socket is closed" s w e) in Hl.
  destruct (select_read _ _ _ _ _ _) as [[o1 e1] k1]. cbn [snd] in Hl. destruct o1; try by intros [= <- <- <- <-].
  destruct (sc_accept sc (handle_ s) k1) as [h k2] eqn:Ha. apply ds_accept in Ha as [[-> Ho]|(Hh & Hf & Ho)].
  { apply (holds_same _ _ _ Ho) in Hl. cbn. by case_match; intros [= <- <- <- <-]. }
  apply (holds_fresh _ _ _ _ Hf Ho) in Hl. rewrite (proj2 (Z.eqb_neq h kInvalid)) by (unfold kInvalid; lia).
  destruct (move_assign sc out (MkSocket h) k2) as [[out1 tmp] k3] eqn:Hm. apply (move_assign_holds _ _ l) in Hm as (H1 & H2 & H3).
  2: { rewrite own_handle by done. cbn. by rewrite <- Permutation_middle. }
  intros [= <- <- <- <-]. rewrite H1. apply set_option_holds, set_option_holds, destroy_holds. by rewrite H2.
Qed.

Lemma send_loop_holds fuel h data sent l k r k' :
  holds l k → send_loop sc fuel h data sent k = Some (r, k') → holds l k'.
Proof.
  revert sent k. induction fuel as [|fuel IH]; intros sent k Hl; cbn [send_loop]; [done|].
  destruct (_ <? _); [|by intros [= <- <-]]. cbv zeta. destruct (sc_send _ _ _ _) as [n k1] eqn:Hs.
  apply ds_send in Hs. apply (holds_same _ _ _ Hs) in Hl. destruct (_ <=? _); [|by apply IH].
  destruct (is_would_block _ _); [by apply IH|by intros [= <- <-]].
Qed.

(** What all the objects own, and one of them split off. *)
Definition owned (objects : list Socket) : list Z := objects ≫= own.

Lemma owned_app l l' : owned (l ++ l') = owned l ++ owned l'.
Proof. apply bind_app. Qed.

Lemma owned_cons s l : owned (s :: l) = own s ++ owned l.
Proof. done. Qed.

Lemma owned_delete objects i s : objects !! i = Some s → owned objects ≡ₚ own s ++ owned (delete i objects).
Proof.
  intros Hi. rewrite delete_take_drop, owned_app. rewrite <- (take_drop_middle objects i s Hi) at 1.
  rewrite owned_app, owned_cons. apply Permutation_app_swap_app.
Qed.

Lemma owned_insert objects i s s' :
  objects !! i = Some s → owned (<[i := s']> objects) ≡ₚ own s' ++ owned (delete i objects).
Proof.
  intros Hi. apply lookup_lt_Some in Hi. rewrite (owned_delete _ i s') by by apply list_lookup_insert_eq.
  by rewrite !delete_take_drop, take_insert_ge, drop_insert_lt by lia.
Qed.

Lemma owned_none objects : Forall (λ s, valid s = false) objects → owned objects = [].
Proof. induction 1 as [|s l Hs _ IH]; [done|]. rewrite owned_cons, IH. unfold own. by rewrite Hs. Qed.

(** Two objects split off. *)
Lemma owned_pair objects i j s t :
  objects !! i = Some s → objects !! j = Some t → i ≠ j →
  owned objects ≡ₚ own s ++ own t ++ owned (<[j := no_socket]> (<[i := no_socket]> objects)).
Proof.
  intros Hi Hj Hij. rewrite (owned_delete _ i s Hi), <- (owned_insert _ i s no_socket Hi : _ ≡ₚ [] ++ _).
  assert (<[i := no_socket]> objects !! j = Some t) as Hj' by by rewrite list_lookup_insert_ne.
  by rewrite (owned_delete _ j t Hj'), (owned_insert _ j t no_socket Hj').
Qed.

Lemma owned_snoc l s : owned (l ++ [s]) ≡ₚ own s ++ owned l.
Proof. rewrite owned_app. change (owned [s]) with (own s ++ []). rewrite app_nil_r. apply Permutation_app_comm. Qed.

Lemma receive_some_holds n s l k : holds l k → holds l (receive_some sc n s k).2.
Proof.
  intros Hl. unfold receive_some. destruct (negb _); [done|]. destruct (sc_recv _ _ _ _) as [r k1] eqn:Hr. apply ds_recv in Hr.
  apply (holds_same _ _ _ Hr) in Hl. destruct r. by repeat case_match.
Qed.

Lemma shutdown_holds s l k : holds l k → holds l (shutdown_send sc s k).2.
Proof.
  intros Hl. unfold shutdown_send. destruct (negb _); [done|]. destruct (sc_shutdown _ _ _) as [r k1] eqn:Hr. apply ds_shutdown in Hr.
  apply (holds_same _ _ _ Hr) in Hl. by case_match.
Qed.

Lemma local_port_holds s l k : holds l k → holds l (local_port sc s k).2.
Proof.
  intros Hl. unfold local_port. destruct (negb _); [done|]. destruct (sc_getsockname _ _ _) as [r k1] eqn:Hr. apply ds_getsockname in Hr.
  apply (holds_same _ _ _ Hr) in Hl. by case_match.
Qed.

Lemma sock_step_holds base c objects k :
  holds (owned objects ++ base) k → holds (owned (sock_step c (objects, k)).1 ++ base) (sock_step c (objects, k)).2.
Proof.
  intros Hl. destruct c; cbn [sock_step]; repeat case_match; simplify_eq; cbn [fst snd]; try done.
  - by rewrite owned_snoc.
  - rewrite owned_snoc, <- app_assoc. by eapply (listen_on_holds _ _ _ _ _ (Ok (_, _))).
  - by eapply (listen_on_holds _ _ _ _ _ (Err _)).
  - rewrite owned_snoc, <- app_assoc. by eapply (connect_to_holds _ _ _ _ (Ok _)).
  - by eapply (connect_to_holds _ _ _ _ (Err _)).
  - rewrite (owned_delete _ out s0), <- app_assoc in Hl by done. rewrite (owned_insert _ out s0), <- app_assoc by done.
    by eapply accept_one_holds.
  - rewrite (owned_pair _ this other s s0), <- !app_assoc in Hl by done.
    eapply move_assign_holds in Hl as (E1 & E2 & Hl); [|done].
    assert (this < length objects)%nat by by eapply lookup_lt_Some.
    assert (other < length objects)%nat by by eapply lookup_lt_Some.
    rewrite (owned_pair _ this other s1 s2), E1, E2;
      [|by rewrite list_lookup_insert_ne, list_lookup_insert_eq|rewrite list_lookup_insert_eq; [done|by rewrite length_insert]|done].
    rewrite (list_insert_insert_ne _ this), !list_insert_insert_eq by done. by rewrite <- app_assoc.
  - unfold send_all in *. destruct (negb _); simplify_eq; [done|]. by eapply send_loop_holds.
  - by apply receive_some_holds.
  - by apply select_read_holds.
  - by apply shutdown_holds.
  - by apply local_port_holds.
  - rewrite (owned_delete _ i s), <- app_assoc in Hl by done. apply close_holds in Hl as [E Hl].
    rewrite (owned_insert _ i s) by done. rewrite H0 in E, Hl. cbn [fst snd] in E, Hl. by rewrite E.
  - rewrite (owned_delete _ i s), <- app_assoc in Hl by done. by apply destroy_holds.
Qed.

Lemma sock_run_holds base calls objects k :
  holds (owned objects ++ base) k →
  holds (owned (sock_run calls (objects, k)).1 ++ base) (sock_run calls (objects, k)).2.
Proof.
  revert objects k. induction calls as [|c calls IH]; intros objects k Hl; [done|]. apply (sock_step_holds _ c) in Hl.
  unfold sock_run; cbn [foldl]. destruct (sock_step c (objects, k)) as [objects1 k1]. by apply IH.
Qed.
End Ownership.

(** C24: descriptors are owned.  Whatever a process does with its sockets and whatever the kernel answers, the
    descriptors open afterwards are those that were open before and, each once, the
    descriptors its [Socket] objects own: no early return leaks one, no two objects
    own the same, none is closed twice. *)
Theorem descriptors_are_owned {K} (sc : syscalls K) (opened : K → list Z) `{!Descriptors sc opened} (k : K) calls :
  NoDup (opened k) →
  let after := sock_run sc calls ([], k) in
  opened after.2 ≡ₚ owned after.1 ++ opened k ∧ NoDup (owned after.1 ++ opened k) ∧
  (Forall (λ s, valid s = false) after.1 → opened after.2 ≡ₚ opened k).
Proof.
  intros Hk after. destruct (sock_run_holds sc opened (opened k) calls [] k) as [Hp Hn]; [done|].
  fold after in Hp, Hn. split_and!; [done|by rewrite <- Hp|]. intros Hall. rewrite Hp.
  by rewrite owned_none.
Qed.

(** ** A connection *)

(** [sent h k] are the bytes the kernel has taken from descriptor [h], [arrived h k]
    those it has for it.  [send] takes a prefix of what it is given or nothing, and
    answers that it would block at most [patience] times more; [recv] hands out the
    next bytes, no more than asked for; waiting moves nothing. *)
Class Carries {K} (sc : syscalls K) (sent arrived : Z → K → list Z) (patience : K → nat) : Prop := {
  ca_send h bs k n k' : sc_send sc h bs k = (n, k') →
    sent h k' = sent h k ++ take (Z.to_nat n) bs ∧ n ≤ zlength bs ∧
    (patience k' + Nat.b2n ((n <=? 0)%Z && is_would_block sc (sc_errno sc k')) ≤ patience k)%nat;
  ca_recv h n k r bs k' : sc_recv sc h n k = (r, bs, k') →
    arrived h k = take (Z.to_nat r) bs ++ arrived h k' ∧ (0 ≤ n → r ≤ n) ∧ (0 ≤ r → zlength bs = r);
  ca_select h s u k r k' : sc_select sc h s u k = (r, k') → arrived h k' = arrived h k;
}.

(** What has arrived is announced, and handed out when asked for. *)
Class Awake {K} (sc : syscalls K) (arrived : Z → K → list Z) : Prop := {
  aw_select h s u k : arrived h k ≠ [] → 0 < (sc_select sc h s u k).1;
  aw_recv h n k : arrived h k ≠ [] → 0 < n → 0 < (sc_recv sc h n k).1.1;
}.

Lemma slice_split (data : list Z) from n m :
  0 ≤ from → 0 ≤ n ≤ m → slice from m data = slice from n data ++ slice (from + n) (m - n) data.
Proof.
  intros Hf Hn. unfold slice. rewrite Z2Nat.inj_add, <- drop_drop by lia. rewrite take_take_drop. f_equal. lia.
Qed.

Lemma take_slice (data : list Z) from n m : n ≤ m → take (Z.to_nat n) (slice from m data) = slice from n data.
Proof. intros Hn. unfold slice. rewrite take_take. f_equal. lia. Qed.

Lemma zlength_slice (data : list Z) from n : 0 ≤ n → zlength (slice from n data) ≤ n.
Proof. intros Hn. unfold slice, zlength. rewrite length_take. lia. Qed.

Section Connection.
Context {K} (sc : syscalls K) (sent arrived : Z → K → list Z) (patience : K → nat) `{!Carries sc sent arrived patience}.

(** One [send] of the loop. *)
Lemma send_chunk h (data : list Z) from k n k' :
  0 ≤ from < zlength data → sc_send sc h (slice from (chunk_of (zlength data - from)) data) k = (n, k') →
  sent h k' = sent h k ++ slice from n data ∧ n ≤ zlength data - from ∧
  (patience k' + Nat.b2n ((n <=? 0)%Z && is_would_block sc (sc_errno sc k')) ≤ patience k)%nat.
Proof.
  intros Hf Hs. apply ca_send in Hs as (Hs & Hn & Hp). assert (0 ≤ chunk_of (zlength data - from) ≤ zlength data - from) as Hc.
  { unfold chunk_of. change (Z.shiftl 1 20) with 1048576. lia. }
  pose proof (zlength_slice data from (chunk_of (zlength data - from))). rewrite take_slice in Hs by lia.
  split_and!; [done|lia|done].
Qed.

(** Whatever it answers, the loop has sent a prefix of the rest; it answers success
    when that is all of the rest. *)
Lemma send_loop_exact fuel h data from k r k' :
  0 ≤ from ≤ zlength data → send_loop sc fuel h data from k = Some (r, k') →
  ∃ n, 0 ≤ n ≤ zlength data - from ∧ sent h k' = sent h k ++ slice from n data ∧ (is_ok r = true → n = zlength data - from).
Proof.
  revert from k. induction fuel as [|fuel IH]; intros from k Hf; cbn [send_loop]; [done|].
  destruct (Z.ltb_spec from (zlength data)) as [Hlt|Hge]; cbv zeta.
  2: { intros [= <- <-]. exists 0. split_and!; [lia..|by rewrite app_nil_r|]. lia. }
  destruct (sc_send _ _ _ _) as [n k1] eqn:Hs. apply send_chunk in Hs as (Hs & Hn & _); [|lia].
  destruct (Z.leb_spec n 0) as [Hn0|Hn0].
  - assert (slice from n data = []) as E by (unfold slice; by rewrite Z2Nat.nonpos by lia). rewrite E, app_nil_r in Hs.
    destruct (is_would_block _ _); [intros Hr; apply IH in Hr; [by rewrite Hs in Hr|lia]|].
    intros [= <- <-]. exists 0. split_and!; [lia..|by rewrite app_nil_r|done].
  - intros Hr. apply IH in Hr as (m & Hm & Hr & Hok); [|lia]. exists (n + m). split_and!; [lia..| |intros; rewrite Hok by done; lia].
    rewrite Hr, Hs, <- app_assoc. rewrite (slice_split data from n (n + m)) by lia. do 3 f_equal. lia.
Qed.

(** Enough turns. *)
Lemma send_loop_returns fuel h data from k :
  0 ≤ from ≤ zlength data → (length data - Z.to_nat from + patience k < fuel)%nat →
  ∃ r, send_loop sc fuel h data from k = Some r.
Proof.
  revert from k. induction fuel as [|fuel IH]; intros from k Hf Hfuel; cbn [send_loop]; [lia|].
  destruct (Z.ltb_spec from (zlength data)) as [Hlt|Hge]; cbv zeta; [|by eexists].
  destruct (sc_send _ _ _ _) as [n k1] eqn:Hs. apply send_chunk in Hs as (_ & Hn & Hp); [|lia]. unfold zlength in *.
  destruct (Z.leb_spec n 0) as [Hn0|Hn0]; cbn [andb] in Hp.
  - unfold last_socket_error. destruct (is_would_block _ _); [|by eexists]. apply IH; [lia|]. cbn in Hp. lia.
  - cbn in Hp. apply IH; lia.
Qed.

(** [send_all] returns; the kernel has taken a prefix of the data, all of it when the
    answer is success. *)
Lemma send_now_exact data s k r k' :
  send_now sc patience data s k = (r, k') →
  send_all sc (send_fuel patience data k) data s k = Some (r, k') ∧
  ∃ n, sent (handle_ s) k' = sent (handle_ s) k ++ take n data ∧ (r = ok_status → valid s = true ∧ take n data = data).
Proof.
  unfold send_now, send_all. destruct (valid s) eqn:Hv; cbn [negb default].
  2: { intros [= <- <-]. split; [done|]. exists 0%nat. split; [by rewrite app_nil_r|done]. }
  destruct (send_loop_returns (send_fuel patience data k) (handle_ s) data 0 k) as [[r1 k1] Hr].
  { pose proof (zlength_nonneg data). lia. }
  { unfold send_fuel. lia. }
  rewrite Hr. cbn [default]. intros [= <- <-]. split; [done|].
  apply send_loop_exact in Hr as (n & Hn & Hs & Hok); [|pose proof (zlength_nonneg data); lia].
  exists (Z.to_nat n). split; [done|]. intros ->. split; [done|]. rewrite (Hok eq_refl). apply firstn_all2.
  unfold zlength. lia.
Qed.

(** The wrapper is what the frame stream relies on. *)
Definition inflight (x : Socket * K) : list Z := if valid x.1 then arrived (handle_ x.1) x.2 else [].

#[export] Instance socket_delivers : Delivers (socket_ops sc patience) inflight.
Proof.
  split.
  - intros n [s k] o err s'. cbn. unfold wait_readable, select_read, inflight. destruct (valid s) eqn:Hv; cbn [negb].
    2: { intros [= <- <- <-]; cbn. by rewrite Hv. }
    destruct (sc_select _ _ _ _ _) as [r k1] eqn:Hs. apply ca_select in Hs.
    intros He. assert (s' = (s, k1)) as -> by (repeat case_match; by simplify_eq). cbn. by rewrite Hv.
  - intros n [s k] bs s'. cbn. unfold receive_some, inflight. destruct (valid s) eqn:Hv; [|done]. cbn [negb fst snd].
    destruct (sc_recv _ _ _ _) as [[r bs1] k1] eqn:Hr. apply ca_recv in Hr as (Hr & Hn & _).
    assert (∀ m, 0 ≤ n → zlength (take (Z.to_nat m) bs1) ≤ Z.max 0 m) as Hm by (intros; unfold zlength; rewrite length_take; lia).
    destruct (Z.eqb_spec r 0) as [->|Hr0]; [by intros [= <- <-]; cbn; rewrite Hv|]. destruct (Z.ltb_spec r 0) as [Hlt|Hge].
    + rewrite Z2Nat.nonpos in Hr by lia. destruct (is_would_block _ _); [|done]. by intros [= <- <-]; cbn; rewrite Hv.
    + intros [= <- <-]; cbn. rewrite Hv. split_and!; [done| |done]. intros Hn0. specialize (Hm r Hn0). unfold chunk_of in Hn.
      change (Z.shiftl 1 20) with 1048576 in Hn. lia.
Qed.

#[export] Instance socket_live `{!Awake sc arrived} : Live (socket_ops sc patience) inflight.
Proof.
  unfold inflight. split; intros n [s k]; cbn; destruct (valid s) eqn:Hv; try done; intros Ha.
  - unfold wait_readable, select_read. rewrite Hv. cbn [negb].
    pose proof (aw_select _ (Z.quot n 1000) (Z.rem n 1000 * 1000) _ Ha) as Hs.
    destruct (sc_select _ _ _ _ _) as [r k1]. cbn in Hs. rewrite (proj2 (Z.eqb_neq r 0)), (proj2 (Z.ltb_ge r 0)) by lia. eauto.
  - intros Hn. unfold receive_some. rewrite Hv. cbn [negb]. assert (0 < chunk_of n) as Hc.
    { unfold chunk_of. change (Z.shiftl 1 20) with 1048576. lia. }
    pose proof (aw_recv _ _ _ Ha Hc) as Hs. destruct (sc_recv _ _ _ _) as [[r bs] k1] eqn:Hr. cbn in Hs.
    apply ca_recv in Hr as (_ & _ & Hr). rewrite (proj2 (Z.eqb_neq r 0)), (proj2 (Z.ltb_ge r 0)) by lia.
    eexists _, _. split; [done|]. specialize (Hr ltac:(lia)). intros E. apply (f_equal length) in E.
    rewrite length_take in E. unfold zlength in Hr. cbn in E. lia.
Qed.

(** A frame sent with success is, byte for byte, what the kernel took. *)
Lemma send_frame_exact f (st st' : FrameStream (Socket * K)) :
  send_frame (socket_ops sc patience) f st = (ok_status, st') →
  ∃ data, encode_frame f (fs_max_payload_bytes st) = Ok data ∧
    let h := handle_ (fs_socket st).1 in
    sent h (fs_socket st').2 = sent h (fs_socket st).2 ++ data ∧ (fs_socket st').1 = (fs_socket st).1.
Proof.
  unfold send_frame. destruct (encode_frame _ _) as [data|]; [|done]. destruct st as [[s k] ? ? ? ?]; cbn.
  destruct (send_now sc patience data s k) as [r k1] eqn:Hs. apply send_now_exact in Hs as (_ & n & Hs & Hok).
  intros [= -> <-]. exists data. cbn. destruct (Hok eq_refl) as [_ E]. by rewrite Hs, E.
Qed.
End Connection.

(** Two ends of a connection, each with its own kernel: when what one kernel took has
    arrived at the other, the receiving stream returns the frame that was sent and
    has left what came after it. *)
Theorem frames_cross_a_connection {K K'} (sc : syscalls K) (sc' : syscalls K') sent arrived patience sent' arrived' patience'
    `{!Carries sc sent arrived patience, !Carries sc' sent' arrived' patience', !Awake sc' arrived'}
    (f : Frame) (st st1 : FrameStream (Socket * K)) (rst : FrameStream (Socket * K')) took rest wait_ms :
  let max := fs_max_payload_bytes st in
  let h := handle_ (fs_socket st).1 in
  0 ≤ max ≤ int_max u64 → frame_sendable max f = true →
  send_frame (socket_ops sc patience) f st = (ok_status, st1) →
  sent h (fs_socket st1).2 = sent h (fs_socket st).2 ++ took →
  fs_max_payload_bytes rst = max → fs_closed rst = false → valid (fs_socket rst).1 = true → 0 < wait_ms →
  outstanding_bytes (inflight arrived') rst = took ++ rest →
  ∃ rst', receive_now (socket_ops sc' patience') wait_ms rst = ((StreamOutcome.Frame_, Some f, ""), rst') ∧
    outstanding_bytes (inflight arrived') rst' = rest.
Proof.
  intros max h Hmax Hf Hsend Htook Hm Hc Hv Hw Ho. apply (send_frame_exact _ sent arrived) in Hsend as (data & He & Hs & _); [|done].
  fold h in Hs. rewrite Htook in Hs. apply app_inv_head in Hs as ->.
  destruct (receive_now_gets (socket_ops sc' patience') (inflight arrived') max Hmax f data Hf He wait_ms rst rest) as (rst' & H1 & H2 & _); eauto.
Qed.

(** ** A kernel that keeps the contracts

    One connection and any number of descriptors: the next descriptor is one above the
    largest open, binding port 80 is refused, [send] would block [dk_busy] times and
    then takes five bytes at a time, [recv] hands out at most seven. *)
Record desk := MkDesk { dk_open : list Z; dk_in : list Z; dk_out : list Z; dk_busy : nat; dk_errno : Z }.

#[export] Instance eta_desk : Eta desk := λ k, MkDesk (dk_open k) (dk_in k) (dk_out k) (dk_busy k) (dk_errno k).
#[export] Instance upd_dk_open : Update dk_open := ltac:(solve_update dk_open).
#[export] Instance upd_dk_errno : Update dk_errno := ltac:(solve_update dk_errno).

Fixpoint remove_one (h : Z) (l : list Z) : list Z :=
  match l with
  | [] => []
  | x :: l => if h =? x then l else x :: remove_one h l
  end.

Definition desk_new (k : desk) : Z * desk :=
  let h := 1 + foldr Z.max 2 (dk_open k) in (h, k <| dk_open := h :: dk_open k |>).

Definition desk_send (bs : list Z) (k : desk) : Z * desk :=
  match dk_busy k with
  | S n => (-1, MkDesk (dk_open k) (dk_in k) (dk_out k) n 11)
  | O =>
      let n := Z.min 5 (zlength bs) in
      (n, MkDesk (dk_open k) (dk_in k) (dk_out k ++ take (Z.to_nat n) bs) 0 0)
  end.

Definition desk_recv (n : Z) (k : desk) : Z * list Z * desk :=
  let m := Z.to_nat (Z.min n 7) in
  (zlength (take m (dk_in k)), take m (dk_in k), MkDesk (dk_open k) (drop m (dk_in k)) (dk_out k) (dk_busy k) (dk_errno k)).

Definition desk_calls : syscalls desk := {|
  sc_errno := dk_errno;
  sc_strerror := λ code, if code =? 13 then "Permission denied" else "Unknown error";
  sc_EAGAIN := 11;
  sc_EWOULDBLOCK := 11;
  sc_EINTR := 4;
  sc_inet_pton := λ host, if String.eqb host "10.0.0.1" then Some (htonl 167772161) else None;
  sc_socket := desk_new;
  sc_setsockopt := λ _ _ _ k, k;
  sc_bind := λ _ p _ k, if p =? htons 80 then (-1, k <| dk_errno := 13 |>) else (0, k);
  sc_listen := λ _ _ k, (0, k);
  sc_getsockname := λ _ k, (Some (htons 4000), k);
  sc_connect := λ _ _ _ k, (0, k);
  sc_select := λ _ _ _ k, (if is_nil (dk_in k) then 0 else 1, k);
  sc_accept := λ _ k, desk_new k;
  sc_send := λ _ bs k, desk_send bs k;
  sc_recv := λ _ n k, desk_recv n k;
  sc_shutdown := λ _ k, (0, k);
  sc_close := λ h k, k <| dk_open := remove_one h (dk_open k) |>;
  sc_sleep := λ _ k, k;
|}.

Lemma remove_one_elem h l : h ∈ l → l ≡ₚ h :: remove_one h l.
Proof.
  induction l as [|x l IH]; intros Hh; [by apply not_elem_of_nil in Hh|]. cbn. destruct (Z.eqb_spec h x) as [->|Hne]; [done|].
  apply elem_of_cons in Hh as [?|Hh]; [done|]. rewrite (IH Hh) at 1. apply Permutation_swap.
Qed.

Lemma desk_new_fresh k h k' : desk_new k = (h, k') → 0 ≤ h ∧ h ∉ dk_open k ∧ dk_open k' ≡ₚ h :: dk_open k.
Proof.
  intros [= <- <-]. assert (∀ l, 2 ≤ foldr Z.max 2 l ∧ ∀ x, x ∈ l → x ≤ foldr Z.max 2 l) as Hmax.
  { induction l as [|y l [IH1 IH2]]; cbn; [split; [done|]; by intros x ?%elem_of_nil|]. split; [lia|].
    intros x [->|Hx]%elem_of_cons; [lia|]. specialize (IH2 x Hx). lia. }
  destruct (Hmax (dk_open k)) as [H1 H2]. split_and!; [lia| |done]. intros Hin. apply H2 in Hin. lia.
Qed.

#[export] Instance desk_descriptors : Descriptors desk_calls dk_open.
Proof.
  split; cbn; intros; simplify_eq; try done; try (unfold desk_send, desk_recv in *; by repeat case_match; simplify_eq).
  - right. by apply desk_new_fresh.
  - right. by apply desk_new_fresh.
  - apply (Permutation_cons_inv (a:=h)). rewrite <- remove_one_elem; [done|]. rewrite H. left.
Qed.

#[export] Instance desk_carries : Carries desk_calls (λ _, dk_out) (λ _, dk_in) dk_busy.
Proof.
  split; cbn; [|intros ? n k r bs k'|by intros ? _ _ k r k' [= _ <-]].
  - intros _ bs k n k'. unfold desk_send. destruct (dk_busy k) as [|b]; intros [= <- <-]; cbn -[Z.min].
    + rewrite andb_false_r. split_and!; [done|lia|done].
    + rewrite app_nil_r. pose proof (zlength_nonneg bs). split_and!; [done|lia..].
  - unfold desk_recv. intros [= <- <- <-]; cbn. unfold zlength. rewrite Nat2Z.id, firstn_all, length_take.
    split_and!; [by rewrite take_drop|lia|done].
Qed.

#[export] Instance desk_awake : Awake desk_calls (λ _, dk_in).
Proof.
  split; cbn; [intros _ _ _ k Hk; by destruct (dk_in k)|]. intros _ n k Hk Hn. destruct (dk_in k) as [|b l]; [done|].
  unfold zlength. rewrite length_take. cbn [length]. lia.
Qed.

(** A listener, an accepted connection, a refused port and a host that is no address,
    a move and a destructor. *)
Definition some_calls : list sock_call :=
  [CallListen "localhost" 4000 16; CallNew; CallAccept 0 1 50; CallListen "" 80 16; CallConnect "nowhere" 4000;
   CallConnect "10.0.0.1" 4000; CallSend 2 100 [1; 2; 3; 4; 5; 6; 7]; CallNew; CallMove 3 1; CallClose 0; CallDestroy 2].

Definition some_desk : desk := MkDesk [2; 1; 0] [9] [] 3 0.

Example calls_run :
  sock_run desk_calls some_calls ([], some_desk) =
  ([no_socket; no_socket; MkSocket 4], MkDesk [4; 2; 1; 0] [9] [1; 2; 3; 4; 5; 6; 7] 0 0).
Proof. vm_compute. reflexivity. Qed.

Lemma descriptors_are_owned_witness :
  let after := sock_run desk_calls some_calls ([], some_desk) in
  dk_open after.2 ≡ₚ owned after.1 ++ [2; 1; 0] ∧ NoDup (owned after.1 ++ [2; 1; 0]) ∧
  (Forall (λ s, valid s = false) after.1 → dk_open after.2 ≡ₚ [2; 1; 0]).
Proof.
  apply (descriptors_are_owned desk_calls dk_open some_desk some_calls). apply (bool_decide_unpack _). vm_compute. exact I.
Defined.

(** [send_all] against a kernel that is busy three times and takes five bytes at a time. *)
Example busy_send :
  let '(r, k) := send_now desk_calls dk_busy [1; 2; 3; 4; 5; 6; 7] (MkSocket 3) some_desk in
  r = ok_status ∧ dk_out k = [1; 2; 3; 4; 5; 6; 7] ∧ dk_busy k = 0%nat.
Proof. vm_compute. done. Qed.

(** Refused by the kernel: the reason is in the message and nothing stays open. *)
Example refused_port :
  listen_on desk_calls "" 80 16 some_desk =
  (Err (Error ErrorCode.TransportError "bind() failed: Permission denied"), some_desk <| dk_errno := 13 |>).
Proof. vm_compute. reflexivity. Qed.

(** A frame over the connection: out in pieces of five bytes past a busy kernel, in
    again in pieces of seven. *)
Example frame_crosses :
  let f := MkFrame 1 7 (JObject [("agent", JString "rack-1")]) in
  let '(r, st) := send_frame (socket_ops desk_calls dk_busy) f (new_stream (MkSocket 3, some_desk) 100) in
  let k := MkDesk [3] (dk_out (fs_socket st).2 ++ [1; 2]) [] 0 0 in
  let '(a, st) := receive_now (socket_ops desk_calls dk_busy) 5 (new_stream (MkSocket 3, k) 100) in
  r = ok_status ∧ a = (StreamOutcome.Frame_, Some f, "") ∧ outstanding_bytes (inflight (λ _, dk_in)) st = [1; 2].
Proof. vm_compute. done. Qed.
