(* ===== verification/Demos.v ===== *)
(** * The example programs ([examples/])

    Three [main]s over the library: one complete drain with a runtime beside the engine
    that answers its requests, a correlated drain of two resources, and the inspection
    of a snapshot.  What they print is a list of lines, their time a manual clock. *)

From S2P Require Import Prelude Containers Checked Result Text Json Codec CodecTables CodecFabric CodecPolicy Bytes.
From S2P Require Import Identity Lifecycle Obligation Evidence Authority Admission Topology TopologyFacts Policy Decision Engine.
From S2P Require Import Snapshot Explain EngineStep EngineOps EngineInv EngineRefine EngineReach Queries Store Runtime Drainctl Processes.
#[local] Open Scope Z_scope.

Definition seconds (n : Z) : Duration := n * 10 ^ 9.
Definition minutes (n : Z) : Duration := seconds (60 * n).

(** [ManualClock::advance]. *)
Definition clock_advance (delta : Duration) (now : TimePoint) : TimePoint := wrap i64 (now + delta).

(** [target]: a text that is no identifier is dereferenced all the same; the programs
    have none. *)
Definition target_of (id domain : string) : DrainTarget :=
  MkTarget TargetKind.Resource (default "" (slug_parse id)) (default "" (slug_parse domain)).
Definition resource_of (t : DrainTarget) (capacity : Z) : ResourceNode := MkResourceNode t capacity 0 ResourceStatus.InService.

(** ** A sink that calls the engine back ([lifecycle_demo.cpp]) *)

Record AdjacentRuntime := MkAdjacent { ad_sequence : Z; ad_requests : Z }.

Definition adjacent_evidence (request : EvacuationRequest) (sequence : Z) (now : TimePoint) (e : engine) : Evidence :=
  MkEvidence sequence (MkEvidenceKey EvidenceKind.ObligationReleased (er_drain request) (er_obligation request) "")
    (er_generation request) (Query.epoch e) (Query.incarnation e) 0 now 0 true 0 "adjacent runtime rerouted the flow" false.

(** [AdjacentRuntime::on_evacuation_request], which the engine calls outside its mutex. *)
Definition adjacent_evacuation (now : TimePoint) (request : EvacuationRequest) (s : AdjacentRuntime * engine)
  : status * (AdjacentRuntime * engine) :=
  let '(a, e) := s in
  let a := MkAdjacent (ad_sequence a) (wrap u64 (ad_requests a + 1)) in
  match Query.obligation (er_obligation request) e with
  | None => (ok_status, (a, e))
  | Some ob =>
      let evidence := adjacent_evidence request (ad_sequence a) now e in
      let a := MkAdjacent (wrap u64 (ad_sequence a + 1)) (ad_requests a) in
      match record_evidence evidence now e with
      | (Err err, e) => (Err err, (a, e))
      | (Ok recorded, e) =>
          let '(reported, e) :=
            report_obligation (MkObligationReport (er_obligation request) (ob_revision ob) ObligationState.Released
                                 (ev_seq recorded) (er_drain request) (er_generation request) 0 "") now e in
          (reported, (a, e))
      end
  end.

(** [DrainEngine::advance] with this sink: its other two calls do nothing. *)
Definition adjacent_advance (now : TimePoint) (s : AdjacentRuntime * engine) : status * (AdjacentRuntime * engine) :=
  let '(a, e) := s in
  let '(e, actions) := advance_pass now e in
  let '(overall, failures, (a, e)) := hand_over_all (adjacent_evacuation now) (pa_evacuations actions) (ok_status, 0, (a, e)) in
  (overall, (a, finish_dispatch actions failures e)).

(** The loop over the scheduler. *)
Fixpoint lifecycle_loop (steps : nat) (id : DrainId) (now : TimePoint) (s : AdjacentRuntime * engine)
  : TimePoint * (AdjacentRuntime * engine) :=
  match steps with
  | O => (now, s)
  | Datatypes.S steps =>
      let now := clock_advance (seconds 1) now in
      let '(_, s) := adjacent_advance now s in
      match Query.drain id s.2 with
      | None => (now, s)
      | Some record => if is_settled (dr_state record) then (now, s) else lifecycle_loop steps id now s
      end
  end.

(** The fabric of the program. *)
Definition spine : DrainTarget := target_of "spine-1" "pod-a".
Definition leaf : DrainTarget := target_of "leaf-1" "pod-a".
Definition direct_path : FabricPath := MkFabricPath "p-direct" "pod-a" [tg_id leaf].
Definition via_path : FabricPath := MkFabricPath "p-via" "pod-a" [tg_id spine; tg_id leaf].
Definition lifecycle_policy : DrainPolicy :=
  default_policy <| p_admission_fence_settle := seconds 1 |> <| p_evidence_freshness := seconds 60 |>.

Definition lifecycle_fabric (start : TimePoint) (e : engine) : engine :=
  let e := (en_add_resource (resource_of spine 100) start e).2 in
  let e := (en_add_resource (resource_of leaf 100) start e).2 in
  let e := (en_add_edge (tg_id spine) (tg_id leaf) start e).2 in
  let e := (en_add_path direct_path start e).2 in
  let e := (en_add_path via_path start e).2 in
  let e := (en_add_diversity_group (MkDiversityGroup "dg-a" "pod-a" 1 [fp_id direct_path; fp_id via_path]) start e).2 in
  (en_add_capacity_pool (MkCapacityPool "cp-a" "pod-a" 40 [tg_id spine; tg_id leaf]) start e).2.

Definition lifecycle_flow : Obligation :=
  new_obligation ObligationKind.ActiveFlow "workload-7" [spine; leaf] <| ob_service := "analytics" |>.

(** [main]: the exit code, what was printed, and the engine at the end; the drain of an
    accepted request is there. *)
Definition lifecycle_demo : Z * list line * engine :=
  let start := 0 in
  let e := (en_install_incarnation 1 start (new_engine lifecycle_policy)).2 in
  match issue_authority "" (minutes 10) start e with
  | (Err err, e) => (1, [Stdout ("cannot issue authority: " ++s error_to_string err ++s newline)], e)
  | (Ok authority, e) =>
      let e := lifecycle_fabric start e in
      match admit_obligation lifecycle_flow 0 (at_id authority) start e with
      | (Err err, e) => (1, [Stdout ("admission failed: " ++s error_to_string err ++s newline)], e)
      | (Ok admitted, e) =>
          let lines := [Stdout ("admitted " ++s obligation_label admitted ++s newline)] in
          match request_drain_set (MkDrainRequest [spine] "firmware maintenance window" (at_id authority) "" 0) start e with
          | (Err err, e) => (1, lines ++ [Stdout ("request rejected: " ++s error_to_string err ++s newline)], e)
          | (Ok set, e) =>
              let id := default 0 (Query.drain_set set e ≫= λ stored, head (ds_members stored)) in
              let '(now, (a, e)) := lifecycle_loop 40 id start (MkAdjacent 1 0, e) in
              let report := audit e in
              let state := default "" ((λ r, DrainState.to_string (dr_state r)) <$> Query.drain id e) in
              let remaining := default 0 (dr_remaining_protected <$> Query.drain id e) in
              (if clean report then 0 else 1,
               lines ++
               [Stdout ("requested drain " ++s decimal id ++s newline);
                Stdout (newline ++s "final state: " ++s state ++s newline);
                Stdout ("remaining protected dependencies at completion: " ++s decimal remaining ++s newline);
                Stdout (newline ++s "--- explanation ---" ++s newline ++s explanation_render (explain id e));
                Stdout (newline ++s "--- audit ---" ++s newline ++s accounting_render report);
                Stdout (newline ++s "adjacent runtime answered " ++s decimal (ad_requests a) ++s " evacuation request(s)"
                        ++s newline)], e)
          end
      end
  end.

(** ** Several targets at once ([correlated_demo.cpp]) *)

(** The pairs the nested loops visit, left before right. *)
Fixpoint all_pairs {A} (l : list A) : list (A * A) :=
  match l with [] => [] | x :: l => map (pair x) l ++ all_pairs l end.

(** [build]: a full mesh of [count] resources with a one-hop path to each. *)
Definition build (domain prefix : string) (count : nat) (now : TimePoint) (e : engine) : engine :=
  let each {A} (add : A → TimePoint → engine → status * engine) (l : list A) (e : engine) : engine :=
    foldl (λ e a, (add a now e).2) e l in
  let numbered (i : nat) : string := prefix ++s decimal (Z.of_nat i) in
  let members := map (λ i, tg_id (target_of (numbered i) domain)) (seq 0 count) in
  let paths := map (λ i, MkFabricPath (default "" (slug_parse ("p-" ++s numbered i))) (default "" (slug_parse domain))
                           [nth i members ""]) (seq 0 count) in
  let e := each en_add_resource (map (λ i, resource_of (target_of (numbered i) domain) 100) (seq 0 count)) e in
  let e := each (λ edge, en_add_edge edge.1 edge.2) (all_pairs members) e in
  let e := each en_add_path paths e in
  (en_add_diversity_group (MkDiversityGroup (default "" (slug_parse ("dg-" ++s prefix))) (default "" (slug_parse domain)) 2
                             (map fp_id paths)) now e).2.

Definition correlated_policy : DrainPolicy :=
  default_policy <| p_max_concurrent_drains_per_domain := 2 |> <| p_max_drains_in_set := 8 |>
                 <| p_serialize_same_domain_in_set := true |>.

(** The engine of this program has no sink. *)
Fixpoint correlated_loop (steps : nat) (now : TimePoint) (e : engine) : engine :=
  match steps with
  | O => e
  | Datatypes.S steps =>
      let now := clock_advance (seconds 1) now in
      let '(_, e) := advance None now e in
      if forallb (λ record, is_settled (dr_state record)) (Query.drains e) then e else correlated_loop steps now e
  end.

(** [main]; a token that was not issued is dereferenced all the same, and the program
    has one. *)
Definition correlated_demo : Z * list line * engine :=
  let start := 0 in
  let e := (en_install_incarnation 1 start (new_engine correlated_policy)).2 in
  let '(authority, e) := issue_authority "" (minutes 10) start e in
  let authority := match authority with Ok token => at_id token | Err _ => 0 end in
  let e := build "pod-a" "a" 4 start e in
  let pod (id : string) : DrainTarget := target_of id "pod-a" in
  let '(set, e) := request_drain_set (MkDrainRequest [pod "a0"; pod "a1"] "rack power maintenance" authority "" 0) start e in
  let '(rejected, e) := request_drain_set (MkDrainRequest [pod "a0"; pod "a1"; pod "a2"] "" authority "" 0) start e in
  let e := correlated_loop 120 start e in
  let report := audit e in
  (if clean report then 0 else 1,
   [Stdout ("correlated request accepted: set " ++s decimal (match set with Ok set => set | Err _ => 0 end) ++s newline);
    Stdout ("three-way correlated request: "
            ++s (match rejected with Ok _ => "accepted" | Err err => error_to_string err end) ++s newline)] ++
   map (λ record, Stdout ("drain " ++s decimal (dr_id record) ++s " target=" ++s target_to_string (dr_target record)
                          ++s " state=" ++s DrainState.to_string (dr_state record) ++s newline)) (Query.drains e) ++
   [Stdout (newline ++s accounting_render report)], e).

(** ** Inspecting a snapshot ([inspect.cpp]) *)

Section Inspect.
Context (clock : nat → TimePoint) (bf : BootFaults) (sf : Faults).
Context (verify_faults verify_backup_faults load_faults load_backup_faults : ReadFaults).

Definition inspect_lines (path : string) (info : SnapshotInfo) : list line :=
  map Stdout
    ["snapshot " ++s path ++s newline;
     "  format version : " ++s decimal (si_format_version info) ++s newline;
     "  sequence       : " ++s decimal (si_sequence info) ++s newline;
     "  incarnation    : " ++s decimal (si_incarnation info) ++s newline;
     "  payload bytes  : " ++s decimal (si_payload_bytes info) ++s newline;
     "  payload crc    : " ++s hex_u32 (si_payload_crc info) ++s newline;
     "  from backup    : " ++s (if si_from_backup info then "yes" else "no") ++s newline].

Definition contents_lines (payload : json) : list line :=
  map Stdout
    ["  drains in file : " ++s decimal (match json_find "drains" payload with Some drains => json_size drains | None => 0 end)
       ++s newline;
     "  incarnation    : " ++s decimal (get_uint "incarnation" 0 payload) ++s newline].

(** [main] on a path that is not empty, which gives the runtime its persistence: the
    exit code, the lines and the disk. *)
Definition inspect (path : string) (d : disk) : Z * list line * disk :=
  let failed (what : string) (err : error) : list line := [Stdout (what ++s " failed: " ++s error_to_string err ++s newline)] in
  let r := new_runtime (MkRuntimeOptions default_policy path 0 default_persistence_limits false true) in
  let '(started, r, trace) := runtime_start bf (clock 0%nat) r d in
  let d := last_disk d trace in
  match started with
  | Err err => (1, failed "start" err, d)
  | Ok _ =>
      let '(saved, r, trace) := runtime_save sf r d in
      let d := last_disk d trace in
      match saved with
      | Err err => (1, failed "save" err, d)
      | Ok _ =>
          let p := default (new_persistence path default_persistence_limits) (rt_persistence r) in
          match verify verify_faults verify_backup_faults p d with
          | Err err => (1, failed "verify" err, d)
          | Ok info =>
              match load load_faults load_backup_faults p d with
              | Err err => (1, inspect_lines path info ++ failed "load" err, d)
              | Ok (payload, _) => (0, inspect_lines path info ++ contents_lines payload, d)
              end
          end
      end
  end.
End Inspect.

(** ** What they show *)

(** What the first program asks of its engine while it waits: passes, their
    bookkeeping, and what its sink reports in between. *)
Inductive adjacent_op : op → Prop :=
  | ao_pass : adjacent_op OpAdvancePass
  | ao_dispatched actions failures : adjacent_op (OpDispatched actions failures)
  | ao_evidence draft : adjacent_op (OpEvidence draft)
  | ao_report report : adjacent_op (OpReport report).

Lemma adjacent_op_wf o e : adjacent_op o → op_wf o e.
Proof. by intros []. Qed.

Lemma adjacent_evacuation_moves now request s :
  moves adjacent_op s.2 (adjacent_evacuation now request s).2.2.
Proof.
  destruct s as [a e]. unfold adjacent_evacuation. cbn [snd]. destruct (Query.obligation _ e) as [ob|]; [|done].
  set (evidence := adjacent_evidence _ _ _ _). pose proof (moves_one adjacent_op None (OpEvidence evidence) now e (ao_evidence _)) as H1.
  cbn [exec] in H1. destruct (record_evidence evidence now e) as [[recorded|err] e1]; cbn [snd] in *; [|done].
  set (report := MkObligationReport _ _ _ _ _ _ _ _). pose proof (moves_one adjacent_op None (OpReport report) now e1 (ao_report _)) as H2.
  cbn [exec] in H2. destruct (report_obligation report now e1) as [reported e2]. cbn in *. by etrans.
Qed.

Lemma hand_over_all_moves {A B} (send : A → B * engine → status * (B * engine)) requests acc :
  (∀ r s, moves adjacent_op s.2 (send r s).2.2) → moves adjacent_op acc.2.2 (hand_over_all send requests acc).2.2.
Proof.
  intros Hsend. revert acc. induction requests as [|r requests IH]; intros [[o f] s]; [done|]. cbn [hand_over_all foldl].
  etrans; [|apply IH]. specialize (Hsend r s). cbn [snd] in *. by destruct (send r s) as [[u|err] s'].
Qed.

(** A sink that calls the engine back between a pass and its bookkeeping is one more
    history. *)
Lemma adjacent_advance_moves now s : moves adjacent_op s.2 (adjacent_advance now s).2.2.
Proof.
  destruct s as [a e]. unfold adjacent_advance. cbn [snd].
  pose proof (moves_one adjacent_op None OpAdvancePass now e ao_pass) as H1. cbn [exec] in H1.
  destruct (advance_pass now e) as [e1 actions]. cbn [fst] in H1.
  pose proof (hand_over_all_moves (adjacent_evacuation now) (pa_evacuations actions) (ok_status, 0, (a, e1))
                (adjacent_evacuation_moves now)) as H2.
  destruct (hand_over_all _ _ _) as [[overall failures] [a2 e2]]. cbn [snd] in *.
  pose proof (moves_one adjacent_op None (OpDispatched actions failures) now e2 (ao_dispatched _ _)) as H3. cbn [exec] in H3.
  etrans; [exact H1|]. by etrans.
Qed.

Lemma lifecycle_loop_moves steps id now s : moves adjacent_op s.2 (lifecycle_loop steps id now s).2.2.
Proof.
  revert now s. induction steps as [|steps IH]; intros now s; cbn [lifecycle_loop]; [done|].
  pose proof (adjacent_advance_moves (clock_advance (seconds 1) now) s) as H1.
  destruct (adjacent_advance _ s) as [overall s1]. cbn [snd] in H1.
  destruct (Query.drain id s1.2) as [record|]; [|done]. destruct (is_settled _); [done|]. etrans; [exact H1|apply IH].
Qed.

(** The complete lifecycle: the program exits with success, its only drain completed
    with nothing left on its target, and the audit is clean. *)
Example lifecycle_demo_succeeds :
  lifecycle_demo.1.1 = 0 ∧ length lifecycle_demo.1.2 = 7%nat ∧
  map (λ r, (dr_state r, dr_remaining_protected r)) (Query.drains lifecycle_demo.2) = [(DrainState.Drained, 0)] ∧
  clean (audit lifecycle_demo.2) = true.
Proof. vm_compute. done. Qed.

(** Both targets are drained.  The request for three is refused because the first two
    are owned already: no commitment is looked at. *)
Example correlated_demo_succeeds :
  correlated_demo.1.1 = 0 ∧ map dr_state (Query.drains correlated_demo.2) = [DrainState.Drained; DrainState.Drained] ∧
  correlated_demo.1.2 !! 1%nat = Some (Stdout ("three-way correlated request: duplicate-identity: target resource:a0@pod-a"
    ++s " is already owned by drain 1 in state requested" ++s newline)).
Proof. vm_compute. done. Qed.

(** On an empty disk, and again on the disk it left. *)
Definition inspect_here (d : disk) : Z * list line * disk :=
  inspect (λ n, seconds (Z.of_nat n)) no_boot_faults no_faults no_read_faults no_read_faults no_read_faults no_read_faults "state" d.
Example inspect_succeeds :
  let '(code, lines, d) := inspect_here ∅ in
  (code, length lines) = (0, 9%nat) ∧ (inspect_here d).1.1 = 0 ∧
  (inspect_here d).1.2 !! 3%nat = Some (Stdout ("  incarnation    : 2" ++s newline)).
Proof. vm_compute. done. Qed.
